(* ===== verification/_CoqProject ===== *)
-Q . S2P
Prelude.v
Errors.v
Wire.v
Validate.v
ValidateProps.v
Connection.v
ConnectionProps.v
Registry.v
RegistryInv.v
RegistryProps.v
Events.v
Auth.v
AuthProps.v
Vault.v
Kernel.v
Lazy.v
LazyProps.v
Router.v
KernelInv.v
RouterInv.v
RouterProps.v
Broker.v
BrokerProps.v
RouterSafety.v
RegistrationProps.v
KernelProps.v
Witnesses.v
Sandbox.v
SandboxProps.v
Supervisor.v
SupervisorProps.v
SupervisorSafety.v
SupervisorRuns.v
Config.v
ConfigProps.v
Loader.v
LoaderProps.v
Websocket.v
WebsocketProps.v
Bridge.v
BridgeProps.v
BridgeRuns.v
Api.v
ApiProps.v
Boot.v
BootProps.v
Calendar.v
Decimal.v
Embed.v
EmbedProps.v
Daemon.v
DaemonProps.v
Cli.v
CliDevice.v
CliProps.v
CliDeviceProps.v
Lifecycle.v
LifecycleProps.v
Shim.v
ShimProps.v
Server.v
ServerProps.v
Usage.v
