(* ===== verification/Prelude.v ===== *)
(** * Vynkor kernel: a verification library

    Vynkor is a small kernel process. Plugins (local processes, or capabilities
    of paired remote devices) connect to it over framed sockets, register under
    an id with a token, and then send each other actions, events and raw frames
    through it. This library translates the kernel's own logic into Rocq
    functions on explicit states and proves what makes it correct. Paths below
    are relative to src/ of the repository.

    ** The program and its parts

    A connection task (ipc/connection.rs) reads frames, checks their MAC,
    reassembles fragments and queues the message to the router; its write loop
    tags and writes what others queue for it. The router task
    (ipc/protocol/router.rs, helpers in ipc/protocol/helpers.rs) handles one
    message at a time: registration, actions and their responses and streams,
    events, administrative commands, unicast and broadcast between plugins, and
    a periodic prune. It works on shared state: the plugin registry
    (plugins/registry.rs), the event bus and its persistent store
    (events/bus.rs, events/store.rs) and the write channels. Other tasks share
    that state: the disconnect loop (kernel/orchestrator/shutdown.rs), the retry
    worker of the bus, the plugin manager, the lazy waker and the bridge to a
    host kernel. Credentials live in two files: sealed device secrets
    (auth/device_store.rs) and pairing tickets (auth/ticket_store.rs), joined by
    the pairing service (auth/pairing.rs) and the token code (auth/jwt.rs,
    auth/plugin_key.rs).

    Around this core: the supervisor (plugins/supervisor/) spawns plugin
    processes, restarts them with backoff and kills the unresponsive, the sandbox
    (plugins/shim.rs, runner.rs, fsaccess.rs, seccomp.rs) confines them, the
    loader (plugins/loader.rs) orders and starts what the configuration
    (utils/config.rs) declares, the HTTP API and the WebSocket gateway (api/) let
    operators and devices in, the bridge (bridge/) links a client kernel to its
    host, and the orchestrator (kernel/orchestrator/) decides at boot what each
    of them is given and takes them down in order at the end. The binaries drive
    all of this: main.rs starts, stops and restarts the kernel process, embed.rs
    checks a configuration and holds the lock that keeps a second kernel out, cli/
    pairs and lists devices, mints tokens and talks to the API, bin/vyn-pair.rs
    draws the link that a pairing command printed.

    ** The files of the library

    - [Prelude]: results, machine-integer bounds, the string and byte functions
      of the Rust standard library that the code uses, UTF-8 checking, lemmas and
      automation shared by the rest.
    - [Errors]: utils/errors.rs, every variant with its message.
    - [Wire]: the protobuf message types as records and enumerations, frames,
      framing (ipc/framing.rs), channels, and the class [Wire] of the functions
      of the vynkor-wire, prost and crc32fast crates.
    - [Validate], [ValidateProps]: utils/validate.rs, the id and device-scope
      checks of plugins/registry.rs, protocol versions and device callers of
      helpers.rs, permission names of auth/permissions.rs, display tables.
    - [Connection], [ConnectionProps]: ipc/connection.rs.
    - [Registry], [RegistryInv], [RegistryProps]: plugins/registry.rs. The record
      [Registry] has one finite map per concurrent map of [PluginRegistry].
    - [Events]: the subscription maps of events/bus.rs and the table of
      events/store.rs.
    - [Auth], [AuthProps]: auth/. [Vault]: an abstract table of credentials, and the
      device store as its refinement.
    - [Kernel]: the shared state [World] and what every task calls on it
      (helpers.rs, delivery in bus.rs, permissions.rs, the removal in
      registry.rs, kernel/commands.rs, the disconnect loop, the bridge handle).
    - [Lazy], [LazyProps]: the waker of plugins/lazy.rs.
    - [Router]: router.rs, one definition per handler, composed in
      [route_message] and [prune_step] on [RouterState].
    - [KernelInv], [RouterInv]: frame lemmas and the invariant [kernel_ok], the
      step relation [kernel_step] of all tasks.
    - [RouterProps], [RouterSafety], [RegistrationProps], [KernelProps]: the
      theorems on the router and the kernel; [Witnesses]: a concrete kernel on
      which their hypotheses hold.
    - [Broker], [BrokerProps]: an abstract call broker (who is live, which calls are
      open, who may open and end them), and the whole kernel as its refinement.
    - [Sandbox], [SandboxProps]: paths, plugins/fsaccess.rs, runner.rs,
      seccomp.rs and shim.rs; system calls are answered by an argument.
    - [Supervisor], [SupervisorProps], [SupervisorSafety], [SupervisorRuns]:
      plugins/supervisor/ and plugins/manager.rs. [Sys] is the supervisor with
      its children, the exits not yet delivered, the starts under way and the
      place where the monitor loop is suspended; [sys_step] interleaves them.
    - [Config], [ConfigProps]: utils/config.rs, all fields with their defaults,
      drop-in files, clamping.
    - [Loader], [LoaderProps]: plugins/loader.rs and lazy_manifest.rs.
    - [Websocket], [WebsocketProps]: api/websocket.rs, one socket as a step per
      ready branch and the gateway as the interleaving of all of them.
    - [Bridge], [BridgeProps], [BridgeRuns]: bridge/, the loop of [Bridge::run]
      suspended at each await.
    - [Api], [ApiProps]: api/middleware.rs, rate_limit.rs, routes.rs, the ticket
      endpoint of auth/pairing.rs, utils/url.rs.
    - [Server], [ServerProps]: api/server.rs, the router as [create_router_full]
      assembles it over the interface [Axum], and the [ApiServer] of a boot.
    - [Boot], [BootProps]: the boot decisions and the shutdown notice of
      kernel/orchestrator/, utils/tls.rs, utils/logging.rs, ipc/server.rs.
    - [Calendar]: the two timestamp printers of cli/, against the Gregorian
      calendar counted day by day; [Decimal]: numbers in text, printed and parsed.
    - [Embed], [EmbedProps]: embed.rs, the configuration checks and the instance
      lock as steps of several processes on one path.
    - [Daemon], [DaemonProps]: main.rs, flags over the configuration, the child's
      command line, the readiness pipe, the pid file, the wait of a stop.
    - [Cli], [CliDevice], [CliProps], [CliDeviceProps]: cli/ and bin/vyn-pair.rs,
      every subcommand with what it sends, stores and prints.
    - [Lifecycle], [LifecycleProps]: the tasks of a kernel and the timed sequence
      of [graceful_shutdown], the end of a connection as an interleaving of its
      reader, its writer and its senders, the hook of a spawned child, the starter
      of lazy plugins.
    - [Shim], [ShimProps]: plugins/shim.rs as a process, from its set-up to the
      plugin's exit status.
    - [Usage]: the readings of plugins/metrics.rs, the release of a plugin's cgroup
      scope, the log filter of utils/logging.rs, the consume quota and certificate
      of auth/pairing.rs.

    ** What is proved

    Kernel: every reachable state satisfies [kernel_ok] (consistent registry, one
    subscription relation, no pending action on an absent provider). An
    unregistered connection is inert. A registration passes every configured
    gate, cannot displace a live plugin, and acknowledges before it arms the MAC.
    A routed action request passed every gate and each request is routed, queued
    or answered; only its provider can answer it, exactly once and to its
    requester; when the provider goes away or the deadline passes every requester
    is told. Unicast and broadcast are default-deny and reach exactly the allowed
    plugins. Errors on a connection are bounded by its budget. As a whole the kernel
    refines the call broker: a message is at most one broker step by its sender, so
    that nobody can end or alter a call it is no party of.

    Registry: invariant over all operations, the action index refines a scan,
    registration is exact and undone by removal, the two sweeps partition.

    Events: the two maps refine a relation; retries are counted exactly.

    Credentials: an issued secret is the active one exactly until it expires or
    is revoked; tickets are single-use under any interleaving and write failure;
    a pairing hands out a matching credential and token. On every run, with any
    write failing, the device store answers as the table of credentials does.

    Lazy waker: no call is lost, duplicated or overtaken; starts and stops of a
    plugin are serialised; the idle sweep is exact.

    Connection: memory bounds of reassembly under any input, reassembly
    independent of order, the MAC gate on both directions.

    Supervisor: a stopped plugin stays stopped while no start intervenes, exits
    are attributed to the instance they came from, automatic restarts stay within
    their budget, the delay is the capped exponential with 20 % jitter, the
    watchdog kills exactly the overdue and pings the rest, logs are the last
    lines; a plugin gets its own derived key and its configured file restriction.

    Sandbox: a sandboxed plugin that the supervisor registers has passed every
    step of its confinement, from the supervisor's command line through the shim
    to its own hook; the shim passes on every signal, ends with its plugin's status
    and escalates once; the process scope stays inside the container.

    Configuration and loading: a loaded configuration has no zero where zero is
    invalid and no drop-in whose id is taken; the load order is a topological
    sort, computed for every acyclic graph; nothing that asks for an ungranted
    permission is started.

    Gateway: only authenticated frames pass an armed socket, both deadlines hold,
    slots are accounted for, the byte encoding of frames is injective.

    Bridge: the status, the handle and the kernel's invariant stay consistent in
    every reachable state, only frames that verify under the session's key (where
    it has one) reach the router, the retry schedule is exact, what it writes
    passes the host's gate, a pinned host is dialled with its pins.

    API and boot: the router that the code assembles decides as the model's gate,
    whatever keeps axum's promises; every non-public route needs a valid token and
    the administrative ones the permission, a start runs only declared plugins, a
    booted kernel is not open by accident and hands matching secrets to its
    components, the generated certificate is stable, announced grace periods are
    the enforced ones.

    Lifecycles: a shutdown that can deliver its notices is ordered, complete and
    over in bounded time; a connection is reported gone once and only when closed,
    and a stopping one gets there.

    Command line and daemon: a background start runs the configuration that was
    asked for, the readiness handshake publishes the pid exactly when the child
    signalled, a stop kills only after its wait; one kernel per pid file as long as
    nobody has the file open while it is removed; a checked client configuration
    never falls back to plaintext; a printed pairing link is accepted by the kernel
    and found by vyn-pair; device listings print their rows, timestamps are the
    calendar's, durations are exact.

    Some theorems state behaviour that contradicts the code's own comments or
    intent: [forward_overwrites_slot], [stop_keeps_subscriptions],
    [device_callers_only_mux], [undecodable_target_unbudgeted],
    [failed_respawn_wedges], [stop_start_stop_resurrects],
    [stale_exit_eats_restart], [concurrent_starts_clobber], [died_ids_repeat],
    [cycle_drops_order], [failed_upgrades_exhaust], and the lemmas
    [reload_reports_empty_name], [shrinking_resend], [mac_notice_tagged],
    [start_stop_overlap], [vmem_bytes_wraps], [no_scope_no_process_cap],
    [fsmount_not_denied], [tmp_dir_falls_back_to_shared],
    [empty_nonce_unverified], [final_slash_keeps_root],
    [short_admin_name_refused], [stop_misses_unregistered],
    [unlinked_lock_admits_two], [background_drops_host_role], [stop_cuts_shutdown],
    [stop_trusts_pid_file], [restart_stops_first], [list_panics_on_line_feed],
    [list_name_forges_state], [connect_takes_over], [connect_failure_rotates],
    [connect_padded_id], [revocation_lost], [device_list_never_live],
    [full_queue_hangs_shutdown], [stop_overtakes_drain],
    [failed_boot_keeps_accepting], [skip_rlimits_drops_isolation],
    [shim_cuts_default_grace], [cpu_time_read].

    ** How the code is modelled

    - Each step of a task is atomic and tasks interleave arbitrarily as steps of
      [kernel_step]; one step reads the clock once. A [Sender] is a channel id
      into the shared store of channels; [try_send] fails on a full or closed
      channel; an awaited [send] is the enqueue it completes with.
    - Integers are [Z] with their width where the code adds, subtracts or
      saturates; connection ids and counters are [N].
    - A failing database statement or file write is an argument of the
      operation, so theorems hold for every pattern of failures.
    - The iteration order of hash maps is fixed by [map_to_list] and [elements];
      no theorem depends on which order it is.
    - Third-party code is a class parameter ([Wire], [Serde], [Crypto], [Jwt],
      [RowCodec], [Governor], [Axum] with its laws); what the proofs need of it is a class of laws
      ([CryptoLaws], [JwtLaws], [RowCodecLaws], [MacLaws]) with an instance in
      the witnesses. [Yaml], [Manifests], [Urls] and [RateGovernor] are of the
      same sort, [Clap] with its laws and [Zlib] too; what the operating system,
      the network and other processes answer is an argument ([Host], [Landlock],
      [Seccomp], [SysHost], [Dial], [ApiOs], [TlsOs], [CliOs], [ShimWorld]).
    - A task that awaits in the middle of an operation is split there, so that
      other tasks can run in between: the supervisor's spawns and its monitor
      loop, the bridge, the WebSocket upgrade.
    - Every function is total. Fuel is the input's length in the whitespace
      functions of [Prelude] and [Sandbox], which drop at least one byte per unit,
      and the number of definitions in the topological sort of [Loader], which
      emits one per unit ([topo_sort_decides] shows that it is enough); the loop
      that draws device ids takes the draws as a list, and [None] is a run that
      needs more of them.
    - Metrics and log lines are left out.

    ** What is not modelled

    The crate root and the metrics recorder (lib.rs, metrics.rs), the derive tables
    of the argument parser (cli/mod.rs) and the dispatch on its result, the drawing
    of QR codes, the formatting and OpenTelemetry layers of the log subscriber.
    Inside modelled parts: the bytes of socket reads and writes, the scheduling of
    tasks by the runtime, the operating system behind Landlock, seccomp and cgroups,
    the decoding of YAML, JSON, PEM and protobuf, floating-point conversion of the
    readings, and the SQLite engine. What remains of the implementation is the
    construction of these records, log lines and plumbing between tasks, which has
    no behaviour of its own to state. *)

From Stdlib Require Export Ascii.
From stdpp Require Export base option numbers strings pretty gmap fin_maps list.

(** Byte strings: the Rust [Vec<u8>] / [&[u8]] / [Arc<[u8]>] payloads. *)
Abbreviation bytes := (list Byte.byte).

Declare Scope vyn_scope.
Delimit Scope vyn_scope with vyn.

(** ** Results: Rust's [Result<A, E>] *)
Inductive Result (A E : Type) : Type :=
| Ok (a : A)
| Err (e : E).
Arguments Ok {A E} a.
Arguments Err {A E} e.

Definition is_ok {A E} (r : Result A E) : bool :=
  match r with Ok _ => true | Err _ => false end.

Definition is_err {A E} (r : Result A E) : bool := negb (is_ok r).

(** [let? x := r in k] is Rust's [?]: it propagates the error. *)
Notation "'let?' x := r 'in' k" :=
  (match r with Ok x => k | Err e => Err e end)
  (at level 10, x name, r at level 100, k at level 200) : vyn_scope.
Open Scope vyn_scope.

(** ** Machine integers: the widths the code uses *)
Definition u16_max : Z := 65535.
Definition u32_max : Z := 4294967295.
Definition u64_max : Z := 18446744073709551615.

(** [AtomicU64::fetch_add(1)] wraps around; counters are [N]. *)
Definition u64_succ (n : N) : N := ((n + 1) mod 18446744073709551616)%N.

(** [u32] increment as compiled in release mode (two's-complement wrap). *)
Definition u32_succ (n : Z) : Z := ((n + 1) mod 4294967296)%Z.

Definition saturating_sub (a b : Z) : Z := Z.max 0 (a - b).
Definition u64_saturating_add (a b : Z) : Z := Z.min u64_max (a + b).
Definition u64_saturating_mul (a b : Z) : Z := Z.min u64_max (a * b).

(** ** Strings: Rust's [str] methods on the UTF-8 bytes *)
Definition ascii_n (c : ascii) : N := N_of_ascii c.

Definition is_ascii_digit (c : ascii) : bool :=
  (48 <=? ascii_n c)%N && (ascii_n c <=? 57)%N.
Definition is_ascii_lowercase (c : ascii) : bool :=
  (97 <=? ascii_n c)%N && (ascii_n c <=? 122)%N.
Definition is_ascii_uppercase (c : ascii) : bool :=
  (65 <=? ascii_n c)%N && (ascii_n c <=? 90)%N.
Definition is_ascii_alphanumeric (c : ascii) : bool :=
  is_ascii_digit c || is_ascii_lowercase c || is_ascii_uppercase c.

Definition ascii_lower (c : ascii) : ascii :=
  if is_ascii_uppercase c then ascii_of_N (ascii_n c + 32) else c.
Definition ascii_upper (c : ascii) : ascii :=
  if is_ascii_lowercase c then ascii_of_N (ascii_n c - 32) else c.

Fixpoint string_map (f : ascii -> ascii) (s : string) : string :=
  match s with
  | EmptyString => EmptyString
  | String a s' => String (f a) (string_map f s')
  end.

Definition to_ascii_lowercase : string -> string := string_map ascii_lower.
Definition to_ascii_uppercase : string -> string := string_map ascii_upper.

(** [s.bytes().all(p)] *)
Fixpoint str_all (p : ascii -> bool) (s : string) : bool :=
  match s with
  | EmptyString => true
  | String a s' => p a && str_all p s'
  end.

(** [s.contains(c)] *)
Fixpoint str_contains (c : ascii) (s : string) : bool :=
  match s with
  | EmptyString => false
  | String a s' => Ascii.eqb a c || str_contains c s'
  end.

Definition str_is_empty (s : string) : bool :=
  match s with EmptyString => true | _ => false end.

(** [s.split_once(c)]: the parts before and after the first [c]. *)
Fixpoint split_once (c : ascii) (s : string) : option (string * string) :=
  match s with
  | EmptyString => None
  | String a s' =>
      if Ascii.eqb a c then Some (EmptyString, s')
      else match split_once c s' with
           | Some (p, q) => Some (String a p, q)
           | None => None
           end
  end.

(** [s.split(c)]: every piece, always at least one. *)
Fixpoint split (c : ascii) (s : string) : list string :=
  match s with
  | EmptyString => [EmptyString]
  | String a s' =>
      if Ascii.eqb a c then EmptyString :: split c s'
      else match split c s' with
           | p :: ps => String a p :: ps
           | [] => [String a EmptyString]
           end
  end.

(** [s.strip_prefix(p)] *)
Fixpoint strip_prefix (p s : string) : option string :=
  match p, s with
  | EmptyString, _ => Some s
  | String a p', String b s' => if Ascii.eqb a b then strip_prefix p' s' else None
  | String _ _, EmptyString => None
  end.

Definition starts_with (p s : string) : bool :=
  match strip_prefix p s with Some _ => true | None => false end.

(** [v.join(sep)] *)
Fixpoint join (sep : string) (l : list string) : string :=
  match l with
  | [] => EmptyString
  | [x] => x
  | x :: l' => x +:+ sep +:+ join sep l'
  end.

(** Decimal rendering of the integers [format!] prints. *)
Definition fmt_N (n : N) : string := pretty n.
Definition fmt_Z (z : Z) : string := pretty z.

(** [format!("{s:?}")] on a [str]: the quoted form with escapes (bytes of
    multi-byte characters are printed as they are). *)
Definition hex_digit (n : N) : ascii :=
  if (n <? 10)%N then ascii_of_N (48 + n) else ascii_of_N (87 + n).

Definition debug_char (c : ascii) : string :=
  let n := ascii_n c in
  let esc := fun k => String "\" (String (ascii_of_N k) EmptyString) in
  if (n =? 34)%N then esc 34%N
  else if (n =? 92)%N then esc 92%N
  else if (n =? 9)%N then esc 116%N
  else if (n =? 10)%N then esc 110%N
  else if (n =? 13)%N then esc 114%N
  else if (n =? 0)%N then esc 48%N
  else if (n <? 16)%N then "\u{" +:+ String (hex_digit n) "}"
  else if (n <? 32)%N || (n =? 127)%N then
    "\u{" +:+ String (hex_digit (n / 16)) (String (hex_digit (n mod 16)) "}")
  else String c EmptyString.

Fixpoint debug_body (s : string) : string :=
  match s with
  | EmptyString => EmptyString
  | String a s' => debug_char a +:+ debug_body s'
  end.

Definition str_debug (s : string) : string :=
  let q := String (ascii_of_N 34) EmptyString in q +:+ debug_body s +:+ q.

(** [s.as_bytes()] *)
Definition str_bytes (s : string) : bytes := String.list_byte_of_string s.

(** The bytes of a string, back: the inverse on valid UTF-8. *)
Definition string_of_bytes (b : bytes) : string := String.string_of_list_byte b.

(** [str::from_utf8]: the well-formed sequences of RFC 3629. *)
Definition cont (b : Byte.byte) : bool :=
  (128 <=? Byte.to_N b)%N && (Byte.to_N b <=? 191)%N.
Definition in_range (lo hi : N) (b : Byte.byte) : bool :=
  (lo <=? Byte.to_N b)%N && (Byte.to_N b <=? hi)%N.

Fixpoint utf8_valid (l : bytes) : bool :=
  match l with
  | [] => true
  | b0 :: l1 =>
      if in_range 0 127 b0 then utf8_valid l1
      else match l1 with
      | [] => false
      | b1 :: l2 =>
          if in_range 194 223 b0 then cont b1 && utf8_valid l2
          else match l2 with
          | [] => false
          | b2 :: l3 =>
              let second3 := if in_range 224 224 b0 then in_range 160 191 b1
                             else if in_range 237 237 b0 then in_range 128 159 b1
                             else cont b1 in
              if in_range 224 239 b0 then second3 && cont b2 && utf8_valid l3
              else match l3 with
              | [] => false
              | b3 :: l4 =>
                  let second4 := if in_range 240 240 b0 then in_range 144 191 b1
                                 else if in_range 244 244 b0 then in_range 128 143 b1
                                 else cont b1 in
                  in_range 240 244 b0 && second4 && cont b2 && cont b3 && utf8_valid l4
              end
          end
      end
  end.

Definition from_utf8 (b : bytes) : option string :=
  if utf8_valid b then Some (string_of_bytes b) else None.

(** [bytes.iter().map(|b| format!("{b:02x}")).collect()] *)
Fixpoint hex_of_bytes (l : bytes) : string :=
  match l with
  | [] => EmptyString
  | b :: l' => String (hex_digit (Byte.to_N b / 16))
                 (String (hex_digit (Byte.to_N b mod 16)) (hex_of_bytes l'))
  end.

(** [s.trim()]: the UTF-8 encodings of the [White_Space] characters. *)
Definition ws_codes : list (list N) :=
  [[9]; [10]; [11]; [12]; [13]; [32]; [194; 133]; [194; 160]; [225; 154; 128];
   [226; 128; 128]; [226; 128; 129]; [226; 128; 130]; [226; 128; 131];
   [226; 128; 132]; [226; 128; 133]; [226; 128; 134]; [226; 128; 135];
   [226; 128; 136]; [226; 128; 137]; [226; 128; 138]; [226; 128; 168];
   [226; 128; 169]; [226; 128; 175]; [226; 129; 159]; [227; 128; 128]]%N.

Fixpoint strip_codes (c : list N) (l : bytes) : option bytes :=
  match c, l with
  | [], _ => Some l
  | n :: c', b :: l' => if (n =? Byte.to_N b)%N then strip_codes c' l' else None
  | _ :: _, [] => None
  end.

Fixpoint strip_any (cs : list (list N)) (l : bytes) : option bytes :=
  match cs with
  | [] => None
  | c :: cs' => match strip_codes c l with Some l' => Some l' | None => strip_any cs' l end
  end.

(** At most one character is dropped per unit of fuel; the length suffices. *)
Fixpoint drop_ws (fuel : nat) (cs : list (list N)) (l : bytes) : bytes :=
  match fuel with
  | O => l
  | S fuel' => match strip_any cs l with Some l' => drop_ws fuel' cs l' | None => l end
  end.

Definition str_trim (s : string) : string :=
  let b := str_bytes s in
  let b := drop_ws (length b) ws_codes b in
  let r := reverse b in
  string_of_bytes (reverse (drop_ws (length r) (reverse <$> ws_codes) r)).

(** String equality as the boolean the code tests. *)
Definition str_eqb (a b : string) : bool := String.eqb a b.
Infix "=s" := str_eqb (at level 70, no associativity) : vyn_scope.

(** Membership of a string in a [Vec<String>]: [v.iter().any(|t| t == x)]. *)
Definition str_mem (x : string) (l : list string) : bool := existsb (str_eqb x) l.

(** ** Lemmas on strings *)
Lemma str_eqb_spec a b : reflect (a = b) (a =s b).
Proof. apply String.eqb_spec. Qed.

Lemma str_eqb_eq a b : (a =s b) = true <-> a = b.
Proof. apply String.eqb_eq. Qed.

Lemma str_eqb_neq a b : (a =s b) = false <-> a <> b.
Proof. apply String.eqb_neq. Qed.

Lemma str_eqb_refl a : (a =s a) = true.
Proof. by apply str_eqb_eq. Qed.

Lemma str_mem_elem x l : str_mem x l = true <-> x ∈ l.
Proof.
  unfold str_mem. rewrite existsb_exists, list_elem_of_In.
  setoid_rewrite str_eqb_eq. split; [by intros (y & ? & ->)|eauto].
Qed.

Lemma str_mem_false x l : str_mem x l = false <-> x ∉ l.
Proof. rewrite <- str_mem_elem. by destruct (str_mem x l). Qed.

Lemma split_once_Some c s p q :
  split_once c s = Some (p, q) ->
  s = p +:+ String c q /\ str_contains c p = false.
Proof.
  revert p q. induction s as [|a s IH]; intros p q; simpl; [done|].
  destruct (Ascii.eqb_spec a c) as [->|Hne].
  - intros [= <- <-]. done.
  - destruct (split_once c s) as [[p' q']|]; [|done].
    intros [= <- <-]. destruct (IH _ _ eq_refl) as [-> Hp]. split; [done|].
    simpl. apply Ascii.eqb_neq in Hne. by rewrite Hne.
Qed.

Lemma split_once_None c s : split_once c s = None <-> str_contains c s = false.
Proof.
  induction s as [|a s IH]; simpl; [done|].
  destruct (Ascii.eqb_spec a c) as [->|Hne]; simpl; [done|].
  rewrite <- IH. destruct (split_once c s) as [[? ?]|]; done.
Qed.

Lemma str_contains_app c p q :
  str_contains c (p +:+ q) = str_contains c p || str_contains c q.
Proof.
  induction p as [|a p IH]; [done|].
  change (Ascii.eqb a c || str_contains c (p +:+ q)
          = Ascii.eqb a c || str_contains c p || str_contains c q).
  rewrite IH. apply orb_assoc.
Qed.

Lemma split_once_app c p q :
  str_contains c p = false -> split_once c (p +:+ String c q) = Some (p, q).
Proof.
  induction p as [|a p IH].
  - intros _. change (EmptyString +:+ String c q) with (String c q).
    simpl. by rewrite Ascii.eqb_refl.
  - intros [Ha Hp]%orb_false_iff.
    change (String a p +:+ String c q) with (String a (p +:+ String c q)).
    simpl. rewrite Ha. by rewrite IH.
Qed.

Lemma str_all_contains p c s :
  str_all p s = true -> p c = false -> str_contains c s = false.
Proof.
  induction s as [|a s IH]; [done|]. simpl.
  intros [Ha Hs]%andb_true_iff Hc. rewrite IH by done.
  destruct (Ascii.eqb_spec a c); [congruence|done].
Qed.

Lemma str_bytes_app a b : str_bytes (a +:+ b) = str_bytes a ++ str_bytes b.
Proof.
  induction a as [|c a IH]; [done|].
  change (byte_of_ascii c :: str_bytes (a +:+ b)
          = byte_of_ascii c :: (str_bytes a ++ str_bytes b)).
  by rewrite IH.
Qed.

Lemma str_app_assoc (a b c : string) : a +:+ (b +:+ c) = (a +:+ b) +:+ c.
Proof. induction a as [|x a IH]; [done|]. apply (f_equal (String x) IH). Qed.

Lemma strip_prefix_Some p s q : strip_prefix p s = Some q -> s = p +:+ q.
Proof.
  revert s. induction p as [|a p IH]; intros [|c s]; simpl; intros Hs; simplify_eq; try done.
  destruct (Ascii.eqb_spec a c); [|done]. subst. by rewrite (IH s Hs).
Qed.

Lemma u64_succ_small n : (n < 18446744073709551615)%N -> u64_succ n = (n + 1)%N.
Proof. intros. unfold u64_succ. rewrite N.mod_small; lia. Qed.

Lemma fmt_N_inj : Inj (=) (=) fmt_N.
Proof. apply _. Qed.

Lemma fmt_tag_inj (tag : string) n m : tag +:+ fmt_N n = tag +:+ fmt_N m -> n = m.
Proof. intros H%(inj (String.append tag)). by apply fmt_N_inj. Qed.

(** ** Lemmas on lists and maps the components share *)
Lemma elem_of_filter_list {A} (P : A -> Prop) `{!∀ x, Decision (P x)} (l : list A) x :
  x ∈ base.filter P l <-> P x /\ x ∈ l.
Proof. apply list_elem_of_filter. Qed.

Lemma list_singleton_eq {A} (l : list A) x :
  NoDup l -> (∀ y, y ∈ l <-> y = x) -> l = [x].
Proof.
  intros Hnd Hl. destruct l as [|a [|b l]].
  - exfalso. apply (not_elem_of_nil x). by apply Hl.
  - f_equal. apply Hl. left.
  - exfalso. apply NoDup_cons in Hnd as [Ha _].
    assert (a = x) as -> by (apply Hl; left).
    assert (b = x) as -> by (apply Hl; right; left). apply Ha. left.
Qed.

(** ** Proof automation *)
Create HintDb vyn discriminated.

#[export] Hint Resolve str_eqb_refl : vyn.

(** Case analysis on every [match]/[if] of the goal, closing the easy ones. *)
Ltac break_goal := repeat case_match; simplify_eq/=; try done.

(** Booleans of the code to propositions. *)
Ltac boolify :=
  repeat match goal with
  | H : (_ && _) = true |- _ => apply andb_true_iff in H as [? ?]
  | H : (_ || _) = false |- _ => apply orb_false_iff in H as [? ?]
  | H : negb _ = true |- _ => apply negb_true_iff in H
  | H : negb _ = false |- _ => apply negb_false_iff in H
  | H : (_ =s _) = true |- _ => apply str_eqb_eq in H
  | H : (_ =s _) = false |- _ => apply str_eqb_neq in H
  | H : str_mem _ _ = true |- _ => apply str_mem_elem in H
  | H : str_mem _ _ = false |- _ => apply str_mem_false in H
  | H : (_ <=? _)%Z = true |- _ => apply Z.leb_le in H
  | H : (_ <=? _)%Z = false |- _ => apply Z.leb_gt in H
  | H : (_ <? _)%Z = true |- _ => apply Z.ltb_lt in H
  | H : (_ <? _)%Z = false |- _ => apply Z.ltb_ge in H
  end.
