(* ===== verification/Errors.v ===== *)
(** * Error values of the kernel (src/utils/errors.rs)

    [VynkorError] with the source's constructors, its [Display] text (the
    wire-visible reject reasons are built from it) and the conversion from the
    wire crate's error type. *)

From S2P Require Import Prelude.

(** Errors raised by the operating system or by the protobuf decoder are
    opaque here: only their rendered text is kept. *)
Inductive TicketRejection :=
| TUnknown
| TAlreadyUsed
| TExpired.

Inductive VynkorError :=
| EIo (msg : string)
| EProto (msg : string)
| EFrameMagicMismatch
| EFrameCrcMismatch
| EFrameReadTimeout
| EPayloadTooLarge (n : Z)
| EPluginNotFound (id : string)
| EPluginAlreadyRunning (id : string)
| EPluginAlreadyRegistered (id : string)
| EInvalidPluginId (reason : string)
| EPermissionDenied (perm : string)
| EAuth (msg : string)
| ETimeout
| EInternal (msg : string)
| EIncompatible (msg : string)
| ENetworkError (msg : string)
| ECacheError (msg : string)
| EInvalidInput (msg : string)
| ETicket (r : TicketRejection).

#[export] Instance TicketRejection_eq_dec : EqDecision TicketRejection.
Proof. solve_decision. Defined.
#[export] Instance VynkorError_eq_dec : EqDecision VynkorError.
Proof. solve_decision. Defined.

(** [impl fmt::Display for VynkorError] *)
Definition display (e : VynkorError) : string :=
  match e with
  | EIo m => "io error: " +:+ m
  | EProto m => "proto decode error: " +:+ m
  | EFrameMagicMismatch => "frame magic mismatch"
  | EFrameCrcMismatch => "frame crc mismatch"
  | EFrameReadTimeout => "timed out reading frame body"
  | EPayloadTooLarge n => "payload too large: " +:+ fmt_Z n +:+ " bytes"
  | EPluginNotFound id => "plugin not found: " +:+ id
  | EPluginAlreadyRunning id => "plugin already running: " +:+ id
  | EPluginAlreadyRegistered id => "plugin already registered: " +:+ id
  | EInvalidPluginId r => "invalid plugin id: " +:+ r
  | EPermissionDenied p => "permission denied: " +:+ p
  | EAuth m => "auth error: " +:+ m
  | ETimeout => "operation timed out"
  | EInternal m => "internal error: " +:+ m
  | EIncompatible m => "incompatible: " +:+ m
  | ENetworkError m => "network error: " +:+ m
  | ECacheError m => "cache error: " +:+ m
  | EInvalidInput m => "invalid input: " +:+ m
  | ETicket TUnknown => "unknown pairing ticket"
  | ETicket TAlreadyUsed => "pairing ticket already used"
  | ETicket TExpired => "pairing ticket expired"
  end.

(** [vynkor_wire::WireError], as destructed by the [From] impl. *)
Inductive WireError :=
| WIo (msg : string)
| WProto (msg : string)
| WFrameMagicMismatch
| WFrameCrcMismatch
| WFrameReadTimeout
| WPayloadTooLarge (n : Z)
| WTimeout
| WPermissionDenied (p : string)
| WInternal (m : string).

(** [impl From<vynkor_wire::WireError> for VynkorError] *)
Definition from_wire_error (e : WireError) : VynkorError :=
  match e with
  | WIo m => EIo m
  | WProto m => EProto m
  | WFrameMagicMismatch => EFrameMagicMismatch
  | WFrameCrcMismatch => EFrameCrcMismatch
  | WFrameReadTimeout => EFrameReadTimeout
  | WPayloadTooLarge n => EPayloadTooLarge n
  | WTimeout => ETimeout
  | WPermissionDenied p => EPermissionDenied p
  | WInternal m => EInternal m
  end.
