(* ===== verification/Wire.v ===== *)
(** * Wire values and per-connection write channels

    The message types of the [vynkor-wire] crate as the kernel builds and
    destructs them (src/ipc/framing.rs, src/ipc/messages.rs and every
    [envelope::Payload] match), the functions of that crate as the interface
    [Wire], and tokio's bounded [mpsc] channels as a shared store: a
    [Sender] is a channel id, so the clone kept in the registry and the clone
    kept in a pending action are the same channel. *)

From S2P Require Import Prelude Errors.

(** ** Enumerations of the wire protocol *)

(** [PermissionType]: the values the kernel names, and the rest of the
    generated enum. *)
Inductive PermissionType :=
| PermissionUnknown
| PermissionNetwork
| PermissionIpcSend
| PermissionAudioStream
| PermissionKernelAdmin
| PermissionEventPublish
| PermissionStorage
| PermissionSecrets
| PermissionOther (value : Z).

Inductive ErrorCode :=
| ErrUnknown
| ErrNotRegistered
| ErrDeserialization
| ErrPermissionDenied
| ErrProtocolMismatch
| ErrRateLimited
| ErrMacMissing
| ErrMacInvalid.

Inductive ActionStatus :=
| ActionUnknown
| ActionOk
| ActionError
| ActionNotFound
| ActionPermissionDeny
| ActionTimeout
| ActionQuotaExceeded
| ActionStreamBackpressure.

Inductive CommandStatus :=
| CommandOk
| CommandError
| CommandUnknown
| CommandPermissionDenied.

Inductive EventPublishStatus :=
| EventPublishOk
| EventPublishPermissionDeny.

Inductive DeviceState := Online | Offline | Revoked | StateOther (value : Z).

Inductive DeviceOs :=
| Unspecified | Linux | Macos | Windows | Android | Ios | Freebsd.

Inductive ActionRisk := RiskUnknown | Low | Medium | High | Critical.

#[export] Instance PermissionType_eq_dec : EqDecision PermissionType.
Proof. solve_decision. Defined.
#[export] Instance ErrorCode_eq_dec : EqDecision ErrorCode.
Proof. solve_decision. Defined.
#[export] Instance ActionStatus_eq_dec : EqDecision ActionStatus.
Proof. solve_decision. Defined.
#[export] Instance DeviceState_eq_dec : EqDecision DeviceState.
Proof. solve_decision. Defined.
#[export] Instance DeviceOs_eq_dec : EqDecision DeviceOs.
Proof. solve_decision. Defined.
#[export] Instance ActionRisk_eq_dec : EqDecision ActionRisk.
Proof. solve_decision. Defined.
#[export] Instance CommandStatus_eq_dec : EqDecision CommandStatus.
Proof. solve_decision. Defined.
#[export] Instance EventPublishStatus_eq_dec : EqDecision EventPublishStatus.
Proof. solve_decision. Defined.

(** ** Messages *)
Record ActionSpec := mkActionSpec {
  as_name : string;
  as_description : string;
  as_params_schema : string;
  as_risk : ActionRisk;
  as_requires_confirmation : bool
}.

Record PluginManifest := mkManifest {
  mf_permissions : list string;
  mf_actions : list string;
  mf_events : list string;
  mf_ipc_targets : list string;
  mf_platforms : list string;
  mf_action_specs : list ActionSpec
}.

(** [PluginManifest::default()] *)
Definition manifest_default : PluginManifest := mkManifest [] [] [] [] [] [].

Record PluginRegister := mkPluginRegister {
  pr_plugin_id : string;
  pr_manifest : option PluginManifest;
  pr_protocol_version : string;
  pr_jwt_token : string;
  pr_device_id : string;
  pr_user_id : string;
  pr_os : Z;
  pr_arch : string;
  pr_os_version : string;
  pr_capabilities : list string
}.

Record PluginRegisterAck := mkAck {
  ack_accepted : bool;
  ack_reject_reason : string;
  ack_granted_permissions : list string;
  ack_session_nonce : bytes
}.

Record ActionRequest := mkActionRequest {
  rq_action_id : string;
  rq_action : string;
  rq_params_json : bytes;
  rq_timeout_ms : Z;
  rq_streaming : bool;
  rq_caller_plugin_id : string
}.

(** The [status] field is an [i32] on the wire. *)
Record ActionResponse := mkActionResponse {
  rs_action_id : string;
  rs_status : Z;
  rs_data_json : bytes;
  rs_error : string
}.

Record Event := mkEvent {
  ev_event_id : string;
  ev_event_type : string;
  ev_payload_json : bytes;
  ev_retry_count : Z
}.

Inductive Payload :=
| PPluginRegister (r : PluginRegister)
| PPluginRegisterAck (a : PluginRegisterAck)
| PPluginShutdown (raw : bytes)
| PPing (timestamp : Z)
| PPong (original_timestamp server_timestamp : Z)
| PSubscribe (event_types : list string)
| PUnsubscribe (event_types : list string)
| PEvent (e : Event)
| PEventAck (event_id : string)
| PEventPublish (event_type : string) (payload_json : bytes)
| PEventPublishAck (event_id : string) (status : EventPublishStatus) (error : string)
| PActionRequest (r : ActionRequest)
| PActionResponse (r : ActionResponse)
| PActionRequestChunk (action_id : string) (seq : Z) (chunk : bytes) (final : bool)
| PActionResponseChunk (action_id : string) (seq : Z) (chunk : bytes)
| PActionStreamAbort (action_id reason : string)
| PSessionClose (action_id reason : string)
| PKernelCommand (command_id command : string) (params_json : bytes)
| PKernelCommandAck (command_id : string) (status : CommandStatus)
    (data_json : bytes) (error : string)
| PError (code : ErrorCode) (message details : string)
| POther (tag : Z) (raw : bytes).

Record Envelope := mkEnvelope {
  env_message_id : string;
  env_sender_id : string;
  env_timestamp : Z;
  env_payload : option Payload
}.

(** [Envelope { payload: Some(p), ..Default::default() }] *)
Definition envelope_of (p : Payload) : Envelope := mkEnvelope "" "" 0 (Some p).

(** [Envelope { message_id, payload: Some(p), ..Default::default() }] *)
Definition envelope_reply (mid : string) (p : Payload) : Envelope :=
  mkEnvelope mid "" 0 (Some p).

(** The parsed 44-byte header and its payload. *)
Record Frame := mkFrame {
  f_magic : Z;
  f_flags : Z;
  f_length : Z;
  f_target : bytes;
  f_crc32 : Z;
  f_payload : bytes;
  f_mac : option bytes
}.

Record FragmentHeader := mkFragHeader {
  fh_fragment_id : Z;
  fh_sequence : N;
  fh_total : N;
  fh_stream_id : N
}.

(** Flag bits and limits of docs/FRAMING.md. *)
Definition FLAG_MAC_PRESENT : Z := 1.
Definition FLAG_COMPRESSED : Z := 2.
Definition FLAG_FRAGMENTED : Z := 4.
Definition FLAG_RAW_BINARY : Z := 16.
Definition FRAG_HEADER_SIZE : nat := 10.
Definition MAX_PAYLOAD_SIZE : Z := 1048576.
Definition FRAME_MAGIC : Z := 22098. (* 0x5652 *)

Definition flag_set (flags f : Z) : bool := negb (Z.land flags f =? 0)%Z.
(** [flags & !f] on [u16] *)
Definition flag_clear (flags f : Z) : Z := Z.land flags (Z.lxor u16_max f).

(** ** The [vynkor-wire], prost and crc32fast functions the kernel calls *)
Class Wire := {
  encode : Envelope -> option bytes;
  decode : bytes -> option Envelope;
  crc32 : bytes -> Z;
  target_as_str : Frame -> option string;
  parse_frag_header : bytes -> option FragmentHeader;
  serialize_header : Frame -> bytes;
  compute_tag : bytes -> bytes -> bytes -> bytes;
  verify_tag : bytes -> bytes -> bytes -> bytes -> bool;
  derive_session_key : bytes -> bytes -> string -> bytes;
  perm_str_name : PermissionType -> string;
  perm_from_str_name : string -> option PermissionType;
  action_status_i32 : ActionStatus -> Z;
  device_os_try_from : Z -> option DeviceOs;
  PROTOCOL_VERSION : string
}.

(** ** Framing (src/ipc/framing.rs) *)

(** [target_bytes]: the target padded with NULs to 32 bytes, truncated past. *)
Definition target_bytes (target : string) : bytes :=
  let t := take 32 (str_bytes target) in
  t ++ replicate (32 - length t) Byte.x00.

Definition build_frame `{Wire} (target : string) (flags : Z) (payload : bytes) : Frame :=
  {| f_magic := FRAME_MAGIC;
     f_flags := flags;
     f_length := Z.of_nat (length payload) mod (u32_max + 1);
     f_target := target_bytes target;
     f_crc32 := crc32 payload;
     f_payload := payload;
     f_mac := None |}.

(** [parse_frame]: the wire reader, then the rejection of fragments. *)
Definition parse_frame (read_frame : bytes -> Result Frame WireError) (data : bytes)
    : Result Frame VynkorError :=
  match read_frame data with
  | Err e => Err (from_wire_error e)
  | Ok frame =>
      if flag_set (f_flags frame) FLAG_FRAGMENTED
      then Err (EInternal "fragmented inbound frames not supported over WebSocket")
      else Ok frame
  end.

(** ** Write channels (tokio mpsc) *)
Inductive Outbound :=
| OFrame (f : Frame)
| OEnableMac (key : bytes) (cell : N).

Definition out_frame (f : Frame) : Outbound := OFrame f.

Record Chan := mkChan {
  ch_capacity : nat;
  ch_queue : list Outbound;
  ch_closed : bool
}.

(** The store of channels; an id with no entry is a dropped receiver. *)
Abbreviation Chans := (gmap N Chan).

Inductive SendResult := Sent | Full | Closed.

#[export] Instance SendResult_eq_dec : EqDecision SendResult.
Proof. solve_decision. Defined.

Definition is_closed (tx : N) (cs : Chans) : bool :=
  match cs !! tx with Some c => ch_closed c | None => true end.

Definition push_out (o : Outbound) (c : Chan) : Chan :=
  mkChan (ch_capacity c) (ch_queue c ++ [o]) (ch_closed c).

(** [Sender::try_send] *)
Definition try_send (tx : N) (o : Outbound) (cs : Chans) : Chans * SendResult :=
  match cs !! tx with
  | None => (cs, Closed)
  | Some c =>
      if ch_closed c then (cs, Closed)
      else if (ch_capacity c <=? length (ch_queue c))%nat then (cs, Full)
      else (<[tx := push_out o c]> cs, Sent)
  end.

(** [Sender::send(..).await], once it has completed: the item is queued after
    everything sent before it, or the channel was closed. *)
Definition send_await (tx : N) (o : Outbound) (cs : Chans) : Chans :=
  match cs !! tx with
  | Some c => if ch_closed c then cs else <[tx := push_out o c]> cs
  | None => cs
  end.

(** [IncomingMessage]; [m_addr] is the address of the shared payload
    allocation ([Arc::as_ptr(&msg.frame.payload)]), which clones keep. *)
Record IncomingMessage := mkMsg {
  m_conn_id : N;
  m_frame : Frame;
  m_write_tx : N;
  m_session_key : N;
  m_addr : N
}.

(** ** Lemmas *)
Lemma target_bytes_length t : length (target_bytes t) = 32%nat.
Proof.
  unfold target_bytes. rewrite length_app, length_replicate, length_take. lia.
Qed.

Lemma flag_clear_spec flags f i :
  (0 <= flags <= u16_max)%Z -> (0 <= f <= u16_max)%Z -> (0 <= i)%Z ->
  Z.testbit (flag_clear flags f) i = Z.testbit flags i && negb (Z.testbit f i).
Proof.
  intros Hfl Hf Hi. unfold flag_clear. rewrite Z.land_spec, Z.lxor_spec.
  unfold u16_max in *. change 65535%Z with (Z.ones 16) in *.
  destruct (decide (i < 16)%Z).
  - rewrite Z.ones_spec_low by lia. by destruct (Z.testbit f i).
  - assert (Z.testbit flags i = false) as ->.
    { replace flags with (flags mod 2 ^ 16)%Z.
      - apply Z.mod_pow2_bits_high. lia.
      - apply Z.mod_small. change (Z.ones 16) with 65535%Z in *. lia. }
    done.
Qed.

(** [try_send] touches one channel and only appends to its queue. *)
Lemma try_send_other tx tx' o cs cs' r :
  try_send tx o cs = (cs', r) -> tx' <> tx -> cs' !! tx' = cs !! tx'.
Proof.
  unfold try_send. intros H Hne. break_goal.
  by rewrite lookup_insert_ne.
Qed.

Lemma try_send_Sent tx o cs cs' :
  try_send tx o cs = (cs', Sent) ->
  exists c, cs !! tx = Some c /\ cs' = <[tx := push_out o c]> cs /\ ch_closed c = false
            /\ (length (ch_queue c) < ch_capacity c)%nat.
Proof.
  unfold try_send. intros H. break_goal.
  eexists; split_and!; eauto. by apply Nat.leb_gt.
Qed.

Lemma try_send_not_Sent tx o cs cs' r :
  try_send tx o cs = (cs', r) -> r <> Sent -> cs' = cs.
Proof. unfold try_send. intros H Hr. break_goal. Qed.
