(* ===== verification/Validate.v ===== *)
(** * Identifiers, versions and caller identity

    The pure gates of the kernel: the identifier charset
    (src/utils/validate.rs), plugin ids and device scopes
    (src/plugins/registry.rs), the protocol version check and the device
    caller policy (src/ipc/protocol/helpers.rs), permission names
    (src/auth/permissions.rs) and the display tables
    (src/api/display.rs, src/plugins/registry.rs). *)

From S2P Require Import Prelude Errors Wire.

(** ** src/utils/validate.rs *)
Definition identifier_char (b : ascii) : bool :=
  is_ascii_alphanumeric b || Ascii.eqb b "-" || Ascii.eqb b "_" || Ascii.eqb b ".".

Definition validate_identifier (id : string) (max_len : nat) : Result unit VynkorError :=
  if str_is_empty id then Err (EInvalidPluginId "must not be empty")
  else if (max_len <? String.length id)%nat then
    Err (EInvalidPluginId ("too long (" +:+ fmt_N (N.of_nat (String.length id))
           +:+ " bytes, max " +:+ fmt_N (N.of_nat max_len) +:+ ")"))
  else if (id =s ".") || (id =s "..") then
    Err (EInvalidPluginId "'.' and '..' are reserved path components")
  else if negb (str_all identifier_char id) then
    Err (EInvalidPluginId "only ASCII letters, digits, '.', '-', '_' are allowed")
  else Ok tt.

(** ** Plugin ids and device scopes (src/plugins/registry.rs) *)
Definition validate_plugin_id (id : string) : Result unit VynkorError :=
  let? _ := validate_identifier id 32 in
  if (id =s "kernel") || (id =s "*")
  then Err (EInvalidPluginId ("'" +:+ id +:+ "' is reserved"))
  else Ok tt.

Definition validate_device_scope (plugin_id device_id : string) : Result unit VynkorError :=
  if str_contains "." device_id then
    Err (EInvalidPluginId ("device id '" +:+ device_id
           +:+ "': '.' is reserved as the device separator"))
  else match split_once "." plugin_id with
       | None => Ok tt
       | Some (prefix, _) =>
           if str_is_empty device_id || negb (prefix =s device_id) then
             Err (EInvalidPluginId ("'" +:+ plugin_id
               +:+ "': dotted ids are reserved for <device>.<name> of the registering device"))
           else Ok tt
       end.

(** ** Device callers (src/ipc/protocol/helpers.rs) *)
Definition slug_char (b : ascii) : bool :=
  is_ascii_lowercase b || is_ascii_digit b || Ascii.eqb b "-" || Ascii.eqb b "_".

Definition is_plugin_slug (s : string) : bool :=
  negb (str_is_empty s) && (String.length s <=? 64)%nat && str_all slug_char s.

Record DeviceCaller := mkDeviceCaller {
  dc_scoped : string;
  dc_plugin : option string
}.

Definition DeviceCaller_new (device_id claimed : string) : DeviceCaller :=
  if is_plugin_slug claimed && negb (claimed =s device_id)
  then mkDeviceCaller (device_id +:+ "." +:+ claimed) (Some claimed)
  else mkDeviceCaller device_id None.

Definition allowed_by (c : DeviceCaller) (device_id : string)
    (rules : gmap string (list string)) : bool :=
  match rules !! device_id with
  | None => false
  | Some names =>
      existsb (fun n => (n =s "*") || bool_decide (dc_plugin c = Some n)) names
  end.

(** ** Protocol versions (src/ipc/protocol/helpers.rs) *)
Definition MIN_SUPPORTED_PROTOCOL_VERSION : string := "1.5".

Fixpoint digits_value (acc : Z) (s : string) : Z :=
  match s with
  | EmptyString => acc
  | String a s' => digits_value (acc * 10 + (Z.of_N (ascii_n a) - 48))%Z s'
  end.

(** [component]: plain decimal digits that fit a [u32]. *)
Definition component (s : string) : option Z :=
  if str_is_empty s || negb (str_all is_ascii_digit s) then None
  else let v := digits_value 0 s in
       if (v <=? u32_max)%Z then Some v else None.

Definition parse_protocol_version (v : string) : option (Z * Z) :=
  match split "." v with
  | [a; b] =>
      match component a, component b with
      | Some major, Some minor => Some (major, minor)
      | _, _ => None
      end
  | [a; b; c] =>
      match component a, component b, component c with
      | Some major, Some minor, Some _ => Some (major, minor)
      | _, _, _ => None
      end
  | _ => None
  end.

Inductive ProtocolCheck :=
| Supported
| NewerMinor
| Rejected (reason : string).

#[export] Instance ProtocolCheck_eq_dec : EqDecision ProtocolCheck.
Proof. solve_decision. Defined.

(** Rust's lexicographic [<] on [(u32, u32)]. *)
Definition ver_ltb (a b : Z * Z) : bool :=
  (a.1 <? b.1)%Z || ((a.1 =? b.1)%Z && (a.2 <? b.2)%Z).

Definition check_protocol_version `{Wire} (v : string) : ProtocolCheck :=
  let min_s := MIN_SUPPORTED_PROTOCOL_VERSION in
  let max_s := PROTOCOL_VERSION in
  match parse_protocol_version min_s, parse_protocol_version max_s with
  | Some min, Some max =>
      match parse_protocol_version v with
      | None => Rejected ("malformed protocol_version " +:+ str_debug v
                  +:+ "; kernel supports " +:+ min_s +:+ "–" +:+ max_s)
      | Some got =>
          if ver_ltb got min || negb (got.1 =? max.1)%Z
          then Rejected ("protocol " +:+ v +:+ " unsupported; kernel supports "
                  +:+ min_s +:+ "–" +:+ max_s)
          else if ver_ltb max got then NewerMinor else Supported
      end
  | _, _ => Rejected ("kernel protocol range " +:+ min_s +:+ "–" +:+ max_s +:+ " invalid")
  end.

(** ** Permission names (src/auth/permissions.rs) *)
Definition normalize_permission (s : string) : string :=
  to_ascii_lowercase (match strip_prefix "PERMISSION_" s with
                      | Some rest => rest
                      | None => s
                      end).

Definition resolve_permission `{Wire} (s : string) : option PermissionType :=
  let name := match strip_prefix "PERMISSION_" s with
              | Some rest => "PERMISSION_" +:+ to_ascii_uppercase rest
              | None => "PERMISSION_" +:+ to_ascii_uppercase s
              end in
  match perm_from_str_name name with
  | None => None
  | Some PermissionUnknown => None
  | Some pt => Some pt
  end.

(** F5: the hardcoded map is gone; only a log line is left in the body. *)
Definition required_permission_for_action (action : string) : option PermissionType := None.

(** ** Display tables *)
Definition action_status_message (status : ActionStatus) : string :=
  match status with
  | ActionNotFound => "action not found"
  | ActionPermissionDeny => "permission denied"
  | ActionTimeout => "action timed out"
  | ActionQuotaExceeded => "quota exceeded"
  | ActionStreamBackpressure => "stream backpressure"
  | ActionError => "action failed"
  | ActionOk | ActionUnknown => "unknown action status"
  end.

Definition action_risk_str (risk : ActionRisk) : string :=
  match risk with
  | Low => "low"
  | Medium => "medium"
  | High => "high"
  | Critical => "critical"
  | RiskUnknown => "unknown"
  end.

Definition device_os_str (os : DeviceOs) : string :=
  match os with
  | Linux => "linux"
  | Macos => "macos"
  | Windows => "windows"
  | Android => "android"
  | Ios => "ios"
  | Freebsd => "freebsd"
  | Unspecified => "unspecified"
  end.

Definition device_state_str (state : DeviceState) : string :=
  match state with
  | Online => "online"
  | Offline => "offline"
  | Revoked => "revoked"
  | StateOther _ => "unspecified"
  end.
