(* ===== verification/ValidateProps.v ===== *)
(** * What a validated id promises

    A valid plugin id survives the 32-byte target field of the wire header: no
    two of them share an encoding, and none encodes to the kernel's or the
    broadcast address. *)

From S2P Require Import Prelude Errors Wire Validate.

Lemma str_bytes_inj a b : str_bytes a = str_bytes b -> a = b.
Proof.
  intros E. apply (f_equal String.string_of_list_byte) in E.
  by rewrite !String.string_of_list_byte_of_string in E.
Qed.

Lemma length_str_bytes s : length (str_bytes s) = String.length s.
Proof.
  induction s as [|a s IH]; [done|].
  change (S (length (str_bytes s)) = S (String.length s)). by rewrite IH.
Qed.

(** No NUL byte is an identifier character. *)
Lemma no_nul p s :
  p (ascii_of_byte Byte.x00) = false -> str_all p s = true -> Byte.x00 ∉ str_bytes s.
Proof.
  intros Hp. induction s as [|a s IH]; intros Ha; [apply not_elem_of_nil|].
  simpl in Ha. apply andb_prop in Ha as [Ha Hs].
  change (str_bytes (String a s)) with (byte_of_ascii a :: str_bytes s).
  apply not_elem_of_cons. split; [|by apply IH]. intros E.
  rewrite E, ascii_of_byte_of_ascii in Hp. congruence.
Qed.

(** Padding with a byte the prefixes do not contain is injective. *)
Lemma pad_inj {A} (z : A) l l' n n' :
  z ∉ l -> z ∉ l' -> l ++ replicate n z = l' ++ replicate n' z -> l = l'.
Proof.
  revert l'. induction l as [|x l IH]; intros [|y l'] Hl Hl' E; simpl in *; [done| | |].
  - destruct n; [done|]. injection E as -> _. set_solver.
  - destruct n'; [done|]. injection E as -> _. set_solver.
  - injection E as -> E. f_equal. by eapply IH; [set_solver..|].
Qed.

Lemma validate_identifier_ok id n :
  validate_identifier id n = Ok tt ->
  id <> "" /\ (String.length id <= n)%nat /\ str_all identifier_char id = true
  /\ id <> "." /\ id <> "..".
Proof.
  unfold validate_identifier. destruct (str_is_empty id) eqn:He; [done|].
  destruct (n <? String.length id)%nat eqn:Hn; [done|]. apply Nat.ltb_ge in Hn.
  destruct (_ || _) eqn:Hd; [done|]. apply orb_false_elim in Hd as [H1 H2].
  destruct (str_all identifier_char id); [|done]. intros _.
  split_and!; [by intros ->|done|done|by intros ->|by intros ->].
Qed.

Lemma validate_plugin_id_ok id :
  validate_plugin_id id = Ok tt ->
  validate_identifier id 32 = Ok tt /\ id <> "kernel" /\ id <> "*".
Proof.
  unfold validate_plugin_id. destruct (validate_identifier id 32) as [[]|] eqn:Hv; [|done].
  simpl. destruct (_ || _) eqn:Hd; [done|]. apply orb_false_elim in Hd as [H1 H2].
  intros _. split_and!; [done|by intros ->|by intros ->].
Qed.

(** An id of at most 32 NUL-free bytes is stored whole. *)
Lemma target_bytes_short s :
  (String.length s <= 32)%nat ->
  target_bytes s = str_bytes s ++ replicate (32 - String.length s) Byte.x00.
Proof.
  intros Hs. unfold target_bytes. rewrite take_ge by (rewrite length_str_bytes; lia).
  by rewrite length_str_bytes.
Qed.

Lemma target_bytes_inj a b :
  (String.length a <= 32)%nat -> (String.length b <= 32)%nat ->
  Byte.x00 ∉ str_bytes a -> Byte.x00 ∉ str_bytes b ->
  target_bytes a = target_bytes b -> a = b.
Proof.
  intros Ha Hb Na Nb. rewrite !target_bytes_short by done.
  intros E. apply pad_inj in E; [by apply str_bytes_inj|done|done].
Qed.

(** The target field identifies its addressee: an id accepted by
    [validate_plugin_id] fills exactly the 32 header bytes, no other accepted id
    has the same bytes, and they are never those of the kernel or of a
    broadcast. *)
Theorem target_identifies_plugin a b :
  validate_plugin_id a = Ok tt ->
  length (target_bytes a) = 32%nat
  /\ target_bytes a <> target_bytes "kernel" /\ target_bytes a <> target_bytes "*"
  /\ (validate_plugin_id b = Ok tt -> target_bytes a = target_bytes b -> a = b).
Proof.
  intros [(_ & La & Ca & _)%validate_identifier_ok [Hk Hs]]%validate_plugin_id_ok.
  assert (Byte.x00 ∉ str_bytes a) as Na by (by eapply no_nul; [|exact Ca]).
  split_and!.
  - rewrite target_bytes_short, length_app, length_replicate, length_str_bytes by done. lia.
  - intros E. apply target_bytes_inj in E; [done|done|vm_compute; lia|done|].
    by apply (no_nul identifier_char).
  - intros E. apply target_bytes_inj in E; [done|done|vm_compute; lia|done|].
    by apply (no_nul (fun c => Ascii.eqb c "*")).
  - intros [(_ & Lb & Cb & _)%validate_identifier_ok _]%validate_plugin_id_ok E.
    apply target_bytes_inj in E; try done. by eapply no_nul; [|exact Cb].
Qed.

Lemma target_identifies_plugin_witness :
  validate_plugin_id "phone.geo" = Ok tt
  /\ target_bytes "phone.geo" <> target_bytes "kernel".
Proof.
  split; [reflexivity|]. apply (target_identifies_plugin "phone.geo" "phone"). reflexivity.
Defined.
