(* ===== verification/Connection.v ===== *)
(** * One plugin connection (src/ipc/connection.rs)

    The read loop of [ConnectionHandler::run] as a step on a received frame
    (frame MAC gate, pruning, fragment reassembly, hand-off to the router) and
    the write loop as a fold over the queued items. The reader of the wire crate
    delivers either a frame or an error; the session key cell is a shared slot
    that only the write loop fills. *)

From stdpp Require Import sorting.
From S2P Require Import Prelude Errors Wire.

(** ** State *)
Record ReassemblyBuf := mkBuf {
  rb_fragments : gmap N bytes;
  rb_total : N;
  rb_target : bytes;
  rb_first_seen : Z;
  rb_buffered_bytes : Z
}.

Record Conn := mkConn {
  cn_conn_id : N;
  cn_write_tx : N;
  cn_session_key : N;
  cn_fragment_timeout : Z;
  cn_max_reassembly_streams : nat;
  cn_reassembly : gmap N ReassemblyBuf
}.

Definition set_reassembly (m : gmap N ReassemblyBuf) (c : Conn) : Conn :=
  mkConn (cn_conn_id c) (cn_write_tx c) (cn_session_key c) (cn_fragment_timeout c)
    (cn_max_reassembly_streams c) m.

(** [fragments.len() == total as usize] *)
Definition is_complete (b : ReassemblyBuf) : bool :=
  (N.of_nat (size (rb_fragments b)) =? rb_total b)%N.

(** [reassemble]: the keys sorted, their fragments concatenated *)
Definition reassemble (b : ReassemblyBuf) : bytes :=
  let seqs := merge_sort N.le (map_to_list (rb_fragments b)).*1 in
  concat ((fun seq => default [] (rb_fragments b !! seq)) <$> seqs).

(** [prune_stale_reassembly] *)
Definition prune_stale_reassembly (now timeout : Z) (m : gmap N ReassemblyBuf)
    : gmap N ReassemblyBuf :=
  base.filter (fun kb => saturating_sub now (rb_first_seen kb.2) < timeout)%Z m.

(** What one iteration of the read loop does. *)
Inductive ReadResult :=
| Keep (c : Conn) (msg : option IncomingMessage)
| Drop (notice : option ErrorCode)
| Panicked.

(** [usize] subtraction and addition, with or without the build's overflow
    checks ([None] is the panic of a checked build). *)
Definition usize_sub (checks : bool) (a b : Z) : option Z :=
  if (b <=? a)%Z then Some (a - b)%Z
  else if checks then None else Some (a - b + (u64_max + 1))%Z.

Definition usize_add (checks : bool) (a b : Z) : option Z :=
  if (a + b <=? u64_max)%Z then Some (a + b)%Z
  else if checks then None else Some (a + b - (u64_max + 1))%Z.

Section read.
Context `{Wire} (checks : bool).

(** The frame-MAC gate: [None] lets the frame through. *)
Definition mac_gate (key : option bytes) (frame : Frame) : option ErrorCode :=
  match key with
  | None => None
  | Some k =>
      let tag_present := flag_set (f_flags frame) FLAG_MAC_PRESENT
                         && bool_decide (is_Some (f_mac frame)) in
      let valid := tag_present
                   && match f_mac frame with
                      | Some tag => verify_tag k (serialize_header frame) (f_payload frame) tag
                      | None => false
                      end in
      if valid then None
      else Some (if tag_present then ErrMacInvalid else ErrMacMissing)
  end.

Definition incoming (c : Conn) (frame : Frame) (addr : N) : IncomingMessage :=
  mkMsg (cn_conn_id c) frame (cn_write_tx c) (cn_session_key c) addr.

(** [buf.len()] of a stored fragment *)
Definition blen (b : bytes) : Z := Z.of_nat (length b).

(** The [FLAG_FRAGMENTED] branch, after pruning. *)
Definition read_fragment (now : Z) (addr : N) (frame : Frame) (c : Conn) : ReadResult :=
  match parse_frag_header (f_payload frame) with
  | None => Drop None
  | Some h =>
      if (fh_total h =? 0)%N || (fh_total h <=? fh_sequence h)%N then Drop None
      else
        let m := cn_reassembly c in
        let refused := match m !! fh_stream_id h with
                       | Some existing => negb (rb_total existing =? fh_total h)%N
                       | None => (cn_max_reassembly_streams c <=? size m)%nat
                       end in
        if refused then Drop None
        else
          let frag_data := drop FRAG_HEADER_SIZE (f_payload frame) in
          let entry := match m !! fh_stream_id h with
                       | Some b => b
                       | None => mkBuf ∅ (fh_total h) (f_target frame) now 0
                       end in
          let replaced_len := match rb_fragments entry !! fh_sequence h with
                              | Some old => blen old
                              | None => 0%Z
                              end in
          let grown := (rb_buffered_bytes entry + blen frag_data - replaced_len)%Z in
          if (MAX_PAYLOAD_SIZE <? grown)%Z then Drop None
          else
            match usize_sub checks (blen frag_data) replaced_len
                  ≫= usize_add checks (rb_buffered_bytes entry) with
            | None => Panicked
            | Some buffered =>
            let entry := mkBuf (<[fh_sequence h := frag_data]> (rb_fragments entry))
                           (rb_total entry) (rb_target entry) (rb_first_seen entry) buffered in
            if is_complete entry then
              let payload := reassemble entry in
              let assembled := mkFrame (f_magic frame)
                                 (flag_clear (f_flags frame) FLAG_FRAGMENTED)
                                 (Z.of_nat (length payload) mod (u32_max + 1))
                                 (rb_target entry) (crc32 payload) payload None in
              Keep (set_reassembly (delete (fh_stream_id h) m) c)
                (Some (incoming c assembled addr))
            else Keep (set_reassembly (<[fh_stream_id h := entry]> m) c) None
            end
  end.

(** One received frame; [key] is the content of the session key cell. *)
Definition read_step (now : Z) (key : option bytes) (addr : N) (frame : Frame) (c : Conn)
    : ReadResult :=
  match mac_gate key frame with
  | Some code => Drop (Some code)
  | None =>
      let c := set_reassembly
                 (prune_stale_reassembly now (cn_fragment_timeout c) (cn_reassembly c)) c in
      if flag_set (f_flags frame) FLAG_FRAGMENTED then read_fragment now addr frame c
      else Keep c (Some (incoming c frame addr))
  end.

(** [ConnectionHandler::send_error]: the notice queued before dropping *)
Definition mac_notice (code : ErrorCode) (tx : N) (cs : Chans) : Chans :=
  match encode (envelope_of (PError code EmptyString EmptyString)) with
  | None => cs
  | Some payload => send_await tx (out_frame (build_frame "client" 0 payload)) cs
  end.

(** ** The write loop *)

(** What [write_frame_raw] reports: written, [PayloadTooLarge], any other error. *)
Inductive WriteOutcome := Written | TooLarge | PeerGone.

(** What one item did: whether the loop goes on, the key from now on, the frame
    put on the socket if any, and the key cell assignment if any. *)
Record WriteStep := mkWrite {
  ws_go_on : bool;
  ws_key : option bytes;
  ws_sent : option Frame;
  ws_cell : option (N * bytes)
}.

Definition write_one (raw : Frame -> WriteOutcome) (key : option bytes) (item : Outbound)
    : WriteStep :=
  match item with
  | OEnableMac k cell => mkWrite true (Some k) None (Some (cell, k))
  | OFrame frame =>
      let frame :=
        match key with
        | None => frame
        | Some k =>
            let frame := mkFrame (f_magic frame) (Z.lor (f_flags frame) FLAG_MAC_PRESENT)
                           (f_length frame) (f_target frame) (f_crc32 frame)
                           (f_payload frame) (f_mac frame) in
            mkFrame (f_magic frame) (f_flags frame) (f_length frame) (f_target frame)
              (f_crc32 frame) (f_payload frame)
              (Some (compute_tag k (serialize_header frame) (f_payload frame)))
        end in
      match raw frame with
      | Written => mkWrite true key (Some frame) None
      | TooLarge => mkWrite true key None None
      | PeerGone => mkWrite false key None None
      end
  end.

(** [write_loop] over the items of the channel in order, up to the first write
    that fails; the drain after [stop] runs the same body. *)
Fixpoint write_loop (raw : Frame -> WriteOutcome) (key : option bytes) (items : list Outbound)
    : bool * option bytes * list Frame :=
  match items with
  | [] => (true, key, [])
  | item :: items' =>
      let s := write_one raw key item in
      if ws_go_on s then
        let '(alive, key', fs) := write_loop raw (ws_key s) items' in
        (alive, key', match ws_sent s with Some f => f :: fs | None => fs end)
      else (false, ws_key s, [])
  end.
End read.
