(* ===== verification/ConnectionProps.v ===== *)
(** * Properties of a connection

    Reassembly never holds more than its bounds, rebuilds a message from its
    fragments whatever order they arrive in, and no frame passes a secured
    connection without a valid tag; outbound frames are tagged exactly from the
    key installation on. *)

From stdpp Require Import sorting.
From S2P Require Import Prelude Errors Wire Connection.

(** ** Bytes held by a buffer *)
Definition sum_len (m : gmap N bytes) : Z := map_fold (fun _ v acc => blen v + acc)%Z 0%Z m.

Lemma sum_len_insert_new m k v :
  m !! k = None -> sum_len (<[k := v]> m) = (blen v + sum_len m)%Z.
Proof.
  intros Hk. unfold sum_len.
  by rewrite (map_fold_insert_L (fun _ v acc => blen v + acc)%Z) by (done || intros; lia).
Qed.

Lemma sum_len_insert m k v :
  sum_len (<[k := v]> m)
  = (sum_len m + blen v - match m !! k with Some old => blen old | None => 0 end)%Z.
Proof.
  destruct (m !! k) as [old|] eqn:Hk.
  - rewrite <- (insert_delete_eq m k v), sum_len_insert_new by apply lookup_delete_eq.
    assert (sum_len m = blen old + sum_len (delete k m))%Z as ->; [|lia].
    apply (map_fold_delete_L (fun _ v acc => blen v + acc)%Z _ k); [intros; lia|done].
  - rewrite sum_len_insert_new by done. lia.
Qed.

Lemma sum_len_nonneg m : (0 <= sum_len m)%Z.
Proof.
  induction m as [|k v m Hk IH] using map_ind; [done|].
  rewrite sum_len_insert_new by done. unfold blen. lia.
Qed.

(** ** The invariant *)
Record buf_ok (b : ReassemblyBuf) : Prop := {
  bo_count : rb_buffered_bytes b = sum_len (rb_fragments b);
  bo_max : (rb_buffered_bytes b <= MAX_PAYLOAD_SIZE)%Z;
  bo_keys k : is_Some (rb_fragments b !! k) -> (k < rb_total b)%N
}.

Definition conn_ok (c : Conn) : Prop :=
  (size (cn_reassembly c) <= cn_max_reassembly_streams c)%nat
  /\ map_Forall (fun _ b => buf_ok b) (cn_reassembly c).

Lemma size_filter_le {A} (P : N * A -> Prop) `{!forall x, Decision (P x)} (m : gmap N A) :
  (size (base.filter P m) <= size m)%nat.
Proof. apply map_subseteq_size, map_filter_subseteq. Qed.

Lemma prune_ok now t c :
  conn_ok c -> conn_ok (set_reassembly (prune_stale_reassembly now t (cn_reassembly c)) c).
Proof.
  intros [Hs Hb]. split; simpl.
  - etransitivity; [apply size_filter_le|done].
  - intros k b [Hk _]%map_lookup_filter_Some. by eapply Hb.
Qed.

(** The [usize] update of the counter, underflow wrapped or not, is exact as
    long as the bytes held fit the cap. *)
Lemma counter_exact checks b len replaced b' :
  (0 <= b + len - replaced <= MAX_PAYLOAD_SIZE)%Z -> (0 <= len)%Z -> (0 <= b)%Z ->
  usize_sub checks len replaced ≫= usize_add checks b = Some b' ->
  b' = (b + len - replaced)%Z.
Proof.
  intros Hb Hl H0. unfold usize_sub, usize_add, MAX_PAYLOAD_SIZE, u64_max in *.
  destruct (Z.leb_spec replaced len); simpl.
  - destruct (Z.leb_spec (b + (len - replaced)) 18446744073709551615); [|lia].
    intros [= <-]. lia.
  - destruct checks; [done|]. simpl.
    destruct (Z.leb_spec (b + (len - replaced + (18446744073709551615 + 1))) 18446744073709551615);
      [lia|]. intros [= <-]. lia.
Qed.

Section read.
Context {WI : Wire} (checks : bool).

Lemma read_fragment_ok now addr f c c' msg :
  conn_ok c -> read_fragment checks now addr f c = Keep c' msg ->
  conn_ok c' /\ cn_max_reassembly_streams c' = cn_max_reassembly_streams c
  /\ cn_fragment_timeout c' = cn_fragment_timeout c.
Proof.
  intros [Hs Hb]. unfold read_fragment. destruct (parse_frag_header _) as [h|]; [|done].
  destruct (_ || _) eqn:Hh; [done|]. apply orb_false_iff in Hh as [_ Hseq%N.leb_gt].
  cbv zeta. set (entry0 := match cn_reassembly c !! fh_stream_id h with Some b => b | None => _ end).
  set (refused := match cn_reassembly c !! fh_stream_id h with Some _ => _ | None => _ end).
  destruct refused eqn:Href; [done|]. subst refused.
  assert (buf_ok entry0 /\ rb_total entry0 = fh_total h
    /\ (is_Some (cn_reassembly c !! fh_stream_id h)
        \/ (size (cn_reassembly c) < cn_max_reassembly_streams c)%nat)) as (He & Ht & Hroom).
  { subst entry0. destruct (cn_reassembly c !! fh_stream_id h) as [b|] eqn:Hl.
    - split_and!; [by eapply Hb|by apply negb_false_iff, N.eqb_eq in Href|left; by eexists].
    - split_and!; [split; simpl; [done|done|by intros k [? ?%lookup_empty_Some]]|done|].
      right. by apply Nat.leb_gt in Href. }
  clearbody entry0. clear Href.
  destruct (_ <? _)%Z eqn:Hgrow; [done|]. apply Z.ltb_ge in Hgrow.
  destruct (usize_sub _ _ _ ≫= _) as [buffered|] eqn:Hbuf; [|done].
  set (frag := drop _ _) in *.
  pose proof (sum_len_insert (rb_fragments entry0) (fh_sequence h) frag) as Hsum.
  pose proof (sum_len_nonneg (<[fh_sequence h := frag]> (rb_fragments entry0))).
  pose proof (sum_len_nonneg (rb_fragments entry0)).
  set (entry := mkBuf _ _ _ _ _).
  assert (buf_ok entry) as Hok.
  { destruct He as [Hc Hm Hk].
    apply counter_exact in Hbuf; [|lia|unfold blen; lia|lia]. split; simpl.
    - rewrite Hsum, Hbuf, Hc. lia.
    - lia.
    - intros k. rewrite lookup_insert_is_Some. intros [<-|[_ ?]]; [by rewrite Ht|by apply Hk]. }
  destruct (is_complete entry); intros [= <- _]; simpl; (split; [|done]); split; simpl.
  - etransitivity; [|exact Hs]. apply map_subseteq_size, delete_subseteq.
  - by apply map_Forall_delete.
  - rewrite map_size_insert. destruct (cn_reassembly c !! fh_stream_id h); simpl; [done|].
    by destruct Hroom as [[??]|?]; [|lia].
  - by apply map_Forall_insert_2.
Qed.

Lemma read_step_ok now key addr f c c' msg :
  conn_ok c -> read_step checks now key addr f c = Keep c' msg ->
  conn_ok c' /\ cn_max_reassembly_streams c' = cn_max_reassembly_streams c.
Proof.
  intros Hok. unfold read_step. destruct (mac_gate key f); [done|].
  pose proof (prune_ok now (cn_fragment_timeout c) c Hok) as Hp.
  destruct (flag_set _ _).
  - intros Hr. by destruct (read_fragment_ok _ _ _ _ _ _ Hp Hr) as (? & ? & _).
  - intros [= <- _]. done.
Qed.

(** A run of the read loop over the frames of one connection: the state at its
    end and the messages handed to the router, [None] once it was dropped. *)
Definition Arrival : Type := Z * option bytes * N * Frame.

Fixpoint read_all (l : list Arrival) (c : Conn) : option (Conn * list IncomingMessage) :=
  match l with
  | [] => Some (c, [])
  | (now, key, addr, f) :: l' =>
      match read_step checks now key addr f c with
      | Drop _ | Panicked => None
      | Keep c' msg =>
          match read_all l' c' with
          | None => None
          | Some (c'', msgs) => Some (c'', match msg with Some m => m :: msgs | None => msgs end)
          end
      end
  end.

Lemma read_all_ok l c c' msgs :
  conn_ok c -> read_all l c = Some (c', msgs) ->
  conn_ok c' /\ cn_max_reassembly_streams c' = cn_max_reassembly_streams c.
Proof.
  revert c msgs. induction l as [|[[[now key] addr] f] l IH]; intros c msgs Hok; simpl;
    [by intros [= <- _]|].
  destruct (read_step checks now key addr f c) as [c1 msg| |] eqn:Hr; [|done|done].
  destruct (read_all l c1) as [[c2 ms]|] eqn:Ha; [|done]. intros [= <- _].
  destruct (read_step_ok _ _ _ _ _ _ _ Hok Hr) as [Hok1 E1].
  destruct (IH _ _ Hok1 Ha) as [Hok2 E2]. split; [done|congruence].
Qed.

Definition held_bytes (c : Conn) : Z :=
  map_fold (fun _ b acc => sum_len (rb_fragments b) + acc)%Z 0%Z (cn_reassembly c).

Lemma held_bound (m : gmap N ReassemblyBuf) :
  map_Forall (fun _ b => buf_ok b) m ->
  (map_fold (fun _ b acc => sum_len (rb_fragments b) + acc) 0 m
   <= Z.of_nat (size m) * MAX_PAYLOAD_SIZE)%Z.
Proof.
  induction m as [|k b m Hk IH] using map_ind; intros Hm.
  - rewrite map_fold_empty, map_size_empty. done.
  - rewrite map_fold_insert_L; [|intros; lia|done].
    apply map_Forall_insert in Hm as [Hb Hm]; [|done]. specialize (IH Hm).
    rewrite map_size_insert_None by done. destruct Hb as [Hc Hmax _]. rewrite Hc in Hmax. lia.
Qed.

(** C29 Whatever frames a peer sends, in any number and order, a connection that
    is still open holds at most [max_reassembly_streams] partial messages, each
    with a byte counter equal to the bytes it really holds and never above the
    single-frame cap, so at most their product in all. *)
Theorem reassembly_bounded l conn tx cell timeout maxs c' msgs :
  read_all l (mkConn conn tx cell timeout maxs ∅) = Some (c', msgs) ->
  (size (cn_reassembly c') <= maxs)%nat
  /\ (forall k b, cn_reassembly c' !! k = Some b ->
        rb_buffered_bytes b = sum_len (rb_fragments b)
        /\ (rb_buffered_bytes b <= MAX_PAYLOAD_SIZE)%Z)
  /\ (held_bytes c' <= Z.of_nat maxs * MAX_PAYLOAD_SIZE)%Z.
Proof.
  intros Hr. apply read_all_ok in Hr as [[Hs Hb] Hm].
  2:{ split; simpl; [rewrite map_size_empty; lia|apply map_Forall_empty]. }
  simpl in *. rewrite Hm in Hs. split_and!; [done| |].
  - intros k b Hk. by destruct (Hb _ _ Hk).
  - etransitivity; [by apply held_bound|]. unfold MAX_PAYLOAD_SIZE. lia.
Qed.

(** On a connection whose session key is installed, a frame has an effect
    only if it carries the MAC flag and a tag that verifies under that key over
    its header and payload; any other frame ends the connection, with the notice
    that tells a missing tag from a wrong one. *)
Theorem mac_enforced now k addr f c :
  match read_step checks now (Some k) addr f c with
  | Drop (Some code) =>
      code = if flag_set (f_flags f) FLAG_MAC_PRESENT && bool_decide (is_Some (f_mac f))
             then ErrMacInvalid else ErrMacMissing
  | _ => flag_set (f_flags f) FLAG_MAC_PRESENT = true
         /\ exists tag, f_mac f = Some tag
              /\ verify_tag k (serialize_header f) (f_payload f) tag = true
  end.
Proof.
  unfold read_step, mac_gate. destruct (flag_set (f_flags f) FLAG_MAC_PRESENT); [|done].
  destruct (f_mac f) as [tag|]; [|done].
  rewrite bool_decide_eq_true_2 by (by eexists). simpl.
  destruct (verify_tag _ _ _ tag) eqn:Hv; [|done].
  destruct (flag_set _ FLAG_FRAGMENTED); [|eauto].
  unfold read_fragment. repeat case_match; eauto; by simplify_eq.
Qed.
End read.

(** A fragment resent with fewer bytes than before underflows the
    [frag_data.len() - replaced_len] of the counter: a build with overflow checks
    panics in the middle of the read loop, before the disconnect is signalled;
    without them the two wrap-arounds cancel and the fragment is accepted. *)
Lemma shrinking_resend {WI : Wire} now addr f c h b old :
  parse_frag_header (f_payload f) = Some h -> cn_reassembly c !! fh_stream_id h = Some b ->
  buf_ok b -> rb_total b = fh_total h -> (fh_sequence h < fh_total h)%N ->
  rb_fragments b !! fh_sequence h = Some old ->
  (blen (drop FRAG_HEADER_SIZE (f_payload f)) < blen old)%Z ->
  read_fragment true now addr f c = Panicked
  /\ exists c' msg, read_fragment false now addr f c = Keep c' msg.
Proof.
  intros Hh Hb [Hc Hm _] Ht Hs Ho Hlt. unfold read_fragment. rewrite Hh, Hb, Ho, Ht. cbv zeta.
  destruct (N.eqb_spec (fh_total h) 0) as [|_]; [lia|].
  destruct (N.leb_spec (fh_total h) (fh_sequence h)) as [|_]; [lia|].
  rewrite N.eqb_refl. cbn [orb negb].
  destruct (Z.ltb_spec MAX_PAYLOAD_SIZE
    (rb_buffered_bytes b + blen (drop FRAG_HEADER_SIZE (f_payload f)) - blen old)) as [|_]; [lia|].
  assert (0 <= rb_buffered_bytes b)%Z by (rewrite Hc; apply sum_len_nonneg).
  unfold usize_sub. destruct (Z.leb_spec (blen old) (blen (drop FRAG_HEADER_SIZE (f_payload f))));
    [lia|]. simpl. split; [done|].
  unfold usize_add. destruct (_ <=? _)%Z; destruct (is_complete _); by eexists _, _.
Qed.

(** ** Reassembly in any order *)
Section any_order.
Context {WI : Wire} (checks : bool) (chunks : list bytes) (sid : N).

Definition chunk (i : nat) : bytes := nth i chunks [].
Definition count : nat := length chunks.

(** The fragments received so far, and their bytes. *)
Definition part (got : list nat) : gmap N bytes :=
  list_to_map ((fun i => (N.of_nat i, chunk i)) <$> got).
Definition tot (l : list nat) : Z := blen (concat (chunk <$> l)).

Lemma chunk_seq : chunk <$> seq 0 count = chunks.
Proof.
  apply list_eq. intros i. rewrite list_lookup_fmap.
  destruct (decide (i < count)%nat) as [Hi|Hi].
  - rewrite lookup_seq_lt by done. simpl. unfold chunk, count in *.
    destruct (lookup_lt_is_Some_2 chunks i Hi) as [x Hx]. rewrite Hx. f_equal.
    by apply nth_lookup_Some with (d := []) in Hx.
  - rewrite lookup_seq_ge by lia. symmetry. apply lookup_ge_None. unfold count in *. lia.
Qed.

Lemma tot_cons i l : tot (i :: l) = (blen (chunk i) + tot l)%Z.
Proof. unfold tot, blen. csimpl. rewrite length_app. lia. Qed.

Lemma tot_perm l l' : l ≡ₚ l' -> tot l = tot l'.
Proof. induction 1; rewrite ?tot_cons; lia. Qed.

Lemma tot_app l l' : tot (l ++ l') = (tot l + tot l')%Z.
Proof. induction l as [|i l IH]; simpl; rewrite ?tot_cons; [done|lia]. Qed.

Lemma tot_nonneg l : (0 <= tot l)%Z.
Proof. unfold tot, blen. lia. Qed.

Lemma part_lookup got i :
  part got !! N.of_nat i = if decide (i ∈ got) then Some (chunk i) else None.
Proof.
  induction got as [|j got IH]; [apply lookup_empty|].
  change (part (j :: got)) with (<[N.of_nat j := chunk j]> (part got)).
  rewrite lookup_insert. destruct (decide (N.of_nat j = N.of_nat i)) as [Hj|Hj].
  - apply Nat2N.inj in Hj as ->. by rewrite decide_True by left.
  - rewrite IH. repeat case_decide; set_solver.
Qed.

Lemma part_size got : NoDup got -> size (part got) = length got.
Proof.
  induction 1 as [|j got Hj _ IH]; [done|].
  change (part (j :: got)) with (<[N.of_nat j := chunk j]> (part got)).
  rewrite map_size_insert_None; [by rewrite IH|]. by rewrite part_lookup, decide_False.
Qed.

Lemma part_keys got :
  NoDup got -> (map_to_list (part got)).*1 ≡ₚ N.of_nat <$> got.
Proof.
  intros Hnd. unfold part. rewrite map_to_list_to_map.
  - rewrite <- list_fmap_compose. done.
  - rewrite <- list_fmap_compose. apply NoDup_fmap; [|done]. intros i j. simpl. lia.
Qed.

Lemma seq_sorted a n : StronglySorted N.le (N.of_nat <$> seq a n).
Proof.
  revert a. induction n as [|n IH]; intros a; simpl; constructor; [apply IH|].
  apply Forall_fmap, Forall_forall. intros x Hx%elem_of_seq. simpl. lia.
Qed.

Lemma reassemble_part got total tgt t b :
  got ≡ₚ seq 0 count -> reassemble (mkBuf (part got) total tgt t b) = concat chunks.
Proof.
  intros Hp. assert (NoDup got) as Hnd by (rewrite Hp; apply NoDup_seq).
  unfold reassemble. simpl.
  assert (merge_sort N.le (map_to_list (part got)).*1 = N.of_nat <$> seq 0 count) as ->.
  { apply (StronglySorted_unique N.le); [apply (StronglySorted_merge_sort N.le)|apply seq_sorted|].
    etransitivity; [apply merge_sort_Permutation|]. rewrite part_keys by done. by rewrite Hp. }
  rewrite <- list_fmap_compose. f_equal. etransitivity; [|apply chunk_seq]. apply list_fmap_ext.
  intros k i [-> Hk]%lookup_seq. simpl. rewrite part_lookup, decide_True; [done|].
  rewrite Hp. apply elem_of_seq. lia.
Qed.

Lemma usize_grow b len :
  (0 <= b)%Z -> (0 <= len)%Z -> (len + b <= MAX_PAYLOAD_SIZE)%Z ->
  usize_sub checks len 0 ≫= usize_add checks b = Some (len + b)%Z.
Proof.
  intros Hb Hl Hm. unfold usize_sub, usize_add, MAX_PAYLOAD_SIZE, u64_max in *.
  destruct (Z.leb_spec 0 len); [|lia]. simpl.
  destruct (Z.leb_spec (b + (len - 0)) 18446744073709551615); [f_equal; lia|lia].
Qed.

(** [f] is the fragment number [i] of the message. *)
Definition fragment_of (i : nat) (f : Frame) : Prop :=
  flag_set (f_flags f) FLAG_FRAGMENTED = true
  /\ (exists fid, parse_frag_header (f_payload f)
        = Some (mkFragHeader fid (N.of_nat i) (N.of_nat count) sid))
  /\ drop FRAG_HEADER_SIZE (f_payload f) = chunk i.

(** What the connection holds of the message after the fragments [got]. *)
Definition holding (t0 : Z) (tgt : bytes) (got : list nat) (c : Conn) : Prop :=
  match got with
  | [] => cn_reassembly c !! sid = None
          /\ (size (cn_reassembly c) < cn_max_reassembly_streams c)%nat
  | _ => exists t1, (t0 <= t1)%Z
           /\ cn_reassembly c !! sid = Some (mkBuf (part got) (N.of_nat count) tgt t1 (tot got))
  end.

Lemma holding_prune t0 tgt got c t :
  (t0 <= t < t0 + cn_fragment_timeout c)%Z -> holding t0 tgt got c ->
  holding t0 tgt got
    (set_reassembly (prune_stale_reassembly t (cn_fragment_timeout c) (cn_reassembly c)) c).
Proof.
  intros Ht. destruct got as [|i got]; simpl.
  - intros [Hn Hs]. split; [by apply map_lookup_filter_None; left|].
    eapply Nat.le_lt_trans; [apply size_filter_le|done].
  - intros (t1 & Ht1 & Hl). exists t1. split; [done|]. apply map_lookup_filter_Some.
    split; [done|]. simpl. unfold saturating_sub. lia.
Qed.

(** One more fragment. *)
Lemma read_fragment_holding t0 tgt got rest i t addr f c :
  got ++ i :: rest ≡ₚ seq 0 count -> (blen (concat chunks) <= MAX_PAYLOAD_SIZE)%Z ->
  fragment_of i f -> (t0 <= t)%Z -> (got = [] -> f_target f = tgt) -> holding t0 tgt got c ->
  match rest with
  | [] => exists c' m, read_fragment checks t addr f c = Keep c' (Some m)
            /\ f_payload (m_frame m) = concat chunks /\ f_target (m_frame m) = tgt
            /\ m_conn_id m = cn_conn_id c
            /\ flag_set (f_flags (m_frame m)) FLAG_FRAGMENTED = false
  | _ => exists c', read_fragment checks t addr f c = Keep c' None
           /\ holding t0 tgt (i :: got) c'
           /\ cn_fragment_timeout c' = cn_fragment_timeout c /\ cn_conn_id c' = cn_conn_id c
  end.
Proof.
  intros Hp Hmax (_ & [fid Hhdr] & Hdata) Ht Htgt Hhold.
  assert (NoDup (got ++ i :: rest)) as Hnd by (rewrite Hp; apply NoDup_seq).
  assert (i ∉ got) as Hi by (apply NoDup_app in Hnd as (_ & Hd & _); intros Hx;
    apply (Hd i Hx); left).
  assert (i < count)%nat as Hlt.
  { assert (i ∈ seq 0 count) as Hin%elem_of_seq; [|lia]. rewrite <- Hp. set_solver. }
  unfold read_fragment. rewrite Hhdr. cbn [fh_total fh_sequence fh_stream_id].
  destruct (N.eqb_spec (N.of_nat count) 0) as [|_]; [lia|].
  destruct (N.leb_spec (N.of_nat count) (N.of_nat i)) as [|_]; [lia|]. cbn [orb]. cbv zeta.
  set (refused := match cn_reassembly c !! sid with Some _ => _ | None => _ end).
  set (entry := match cn_reassembly c !! sid with Some b => b | None => _ end).
  assert (refused = false /\ exists t1, (t0 <= t1)%Z
    /\ entry = mkBuf (part got) (N.of_nat count) tgt t1 (tot got)) as [-> (t1 & Ht1 & ->)].
  { subst refused entry. destruct got as [|j got]; simpl in Hhold.
    - destruct Hhold as [-> Hs]. split; [by apply Nat.leb_gt|]. exists t.
      by rewrite Htgt by done.
    - destruct Hhold as (t1 & Ht1 & ->). split; [simpl; by rewrite N.eqb_refl|eauto]. }
  cbn [rb_fragments rb_total rb_target rb_first_seen rb_buffered_bytes].
  rewrite part_lookup, decide_False, Hdata by done.
  replace (tot got + blen (chunk i) - 0)%Z with (tot (i :: got)) by (rewrite tot_cons; lia).
  change (<[N.of_nat i := chunk i]> (part got)) with (part (i :: got)).
  assert (i :: got ++ rest ≡ₚ seq 0 count) as Hp' by (rewrite <- Hp; by rewrite Permutation_middle).
  assert (tot (i :: got) + tot rest = blen (concat chunks))%Z as Htot.
  { rewrite <- tot_app, <- chunk_seq. simpl. by apply tot_perm. }
  pose proof (tot_nonneg rest).
  pose proof (tot_nonneg got).
  destruct (Z.ltb_spec MAX_PAYLOAD_SIZE (tot (i :: got))) as [|_]; [lia|].
  rewrite usize_grow by (rewrite tot_cons in *; unfold blen in *; lia). rewrite <- tot_cons.
  assert (NoDup (i :: got)) as Hnd'.
  { constructor; [done|]. by apply NoDup_app in Hnd as (? & _). }
  unfold is_complete. cbn [rb_fragments rb_total]. rewrite part_size by done.
  apply Permutation_length in Hp' as Hlen. simpl in Hlen. rewrite length_app, length_seq in Hlen.
  destruct rest as [|j rest]; simpl in Hlen.
  - destruct (N.eqb_spec (N.of_nat (length (i :: got))) (N.of_nat count)) as [_|Hne];
      [|simpl in Hne; lia].
    rewrite (right_id_L [] (++)) in Hp'. rewrite reassemble_part by done.
    eexists _, _. split; [reflexivity|]. simpl. split_and!; try done.
    unfold flag_set, flag_clear. rewrite <- Z.land_assoc. by rewrite Z.land_0_r.
  - destruct (N.eqb_spec (N.of_nat (length (i :: got))) (N.of_nat count)) as [Heq|_];
      [simpl in Heq; lia|].
    eexists. split; [reflexivity|]. simpl. split_and!; [|done|done]. exists t1.
    split; [done|]. apply lookup_insert_eq.
Qed.

(** The fragment [i] arrives on an open or secured connection, within the
    fragment timeout of the first one's arrival [t0]. *)
Definition arrives (t0 timeout : Z) (i : nat) (a : Arrival) : Prop :=
  let '(t, key, _, f) := a in
  fragment_of i f /\ mac_gate key f = None /\ (t0 <= t < t0 + timeout)%Z.

Definition first_target (l : list Arrival) : option bytes :=
  (fun a : Arrival => f_target a.2) <$> head l.

(** The message the router is handed. *)
Definition delivered (c : Conn) (tgt : bytes) (m : IncomingMessage) : Prop :=
  f_payload (m_frame m) = concat chunks /\ f_target (m_frame m) = tgt
  /\ m_conn_id m = cn_conn_id c /\ flag_set (f_flags (m_frame m)) FLAG_FRAGMENTED = false.

Lemma read_all_holding t0 tgt rest got c l :
  got ++ rest ≡ₚ seq 0 count -> rest <> [] -> (blen (concat chunks) <= MAX_PAYLOAD_SIZE)%Z ->
  Forall2 (arrives t0 (cn_fragment_timeout c)) rest l ->
  (got = [] -> first_target l = Some tgt) -> holding t0 tgt got c ->
  exists c' m, read_all checks l c = Some (c', [m]) /\ delivered c tgt m.
Proof.
  intros Hp Hne Hmax Hl. revert Hp Hne.
  remember (cn_fragment_timeout c) as T eqn:HT. revert got c HT.
  induction Hl as [|i a rest l Ha Hl IH]; intros got c HT Hp Hne Htgt Hhold; [done|].
  destruct a as [[[t key] addr] f]. destruct Ha as (Hf & Hgate & Ht). simpl.
  unfold read_step. rewrite Hgate. destruct Hf as [Hfl Hf]. rewrite Hfl.
  assert (fragment_of i f) as Hfr by (by split).
  assert (got = [] -> f_target f = tgt) as Htgt' by (intros E; by injection (Htgt E)).
  rewrite HT in Ht. pose proof (holding_prune t0 tgt got c t Ht Hhold) as Hh.
  pose proof (read_fragment_holding t0 tgt got rest i t addr f _ Hp Hmax Hfr
    (proj1 Ht) Htgt' Hh) as Hr.
  destruct rest as [|j rest].
  - destruct Hr as (c' & m & -> & Hm). inversion Hl; subst. simpl. by exists c', m.
  - destruct Hr as (c' & -> & Hh' & HT' & Hc').
    destruct (IH (i :: got) c') as (c2 & m & -> & Hd); [by rewrite HT', HT| |done|done|done|].
    + rewrite <- Hp. simpl. by rewrite Permutation_middle.
    + exists c2, m. split; [done|]. unfold delivered in *. by rewrite Hc' in Hd.
Qed.

(** C28 Reassembly is independent of arrival order: if every fragment of a
    message within the payload cap arrives exactly once, in whatever order, on a
    stream id not in use, with room for a stream and within the fragment timeout,
    the connection hands over exactly one frame, whose payload is the
    concatenation of the chunks in sequence order, addressed to the target of
    the fragment that arrived first and no longer flagged as a fragment. *)
Theorem fragments_any_order order l t0 tgt c :
  order ≡ₚ seq 0 count -> order <> [] -> (blen (concat chunks) <= MAX_PAYLOAD_SIZE)%Z ->
  Forall2 (arrives t0 (cn_fragment_timeout c)) order l ->
  cn_reassembly c !! sid = None -> (size (cn_reassembly c) < cn_max_reassembly_streams c)%nat ->
  first_target l = Some tgt ->
  exists c' m, read_all checks l c = Some (c', [m]) /\ delivered c tgt m.
Proof. intros. by eapply (read_all_holding t0 tgt order []). Qed.
End any_order.

(** ** The write loop *)

(** What the wire crate documents of its tags: a tag verifies under the key that
    computed it, and the header bytes do not include the tag itself. *)
Class MacLaws {WI : Wire} : Prop := {
  verify_compute k h p : verify_tag k h p (compute_tag k h p) = true;
  header_without_mac m fl ln tg crc p mac mac' :
    serialize_header (mkFrame m fl ln tg crc p mac)
    = serialize_header (mkFrame m fl ln tg crc p mac')
}.

Section write.
Context {WI : Wire} {ML : MacLaws} (raw : Frame -> WriteOutcome).

(** [g] is [f] as a secured peer receives it. *)
Definition secured (k : bytes) (f g : Frame) : Prop :=
  f_payload g = f_payload f /\ f_target g = f_target f
  /\ f_flags g = Z.lor (f_flags f) FLAG_MAC_PRESENT /\ mac_gate (Some k) g = None.

Definition frames_of (l : list Outbound) : list Frame :=
  omap (fun o => match o with OFrame f => Some f | OEnableMac _ _ => None end) l.

Definition only_frames (l : list Outbound) : Prop :=
  Forall (fun o => match o with OFrame _ => True | OEnableMac _ _ => False end) l.

Lemma flag_set_lor fl : flag_set (Z.lor fl FLAG_MAC_PRESENT) FLAG_MAC_PRESENT = true.
Proof.
  unfold flag_set. apply negb_true_iff, Z.eqb_neq. intros E.
  apply (f_equal (fun z => Z.testbit z 0)) in E.
  rewrite Z.land_spec, Z.lor_spec in E. by rewrite orb_true_r in E.
Qed.

Lemma write_one_secured k f g :
  ws_sent (write_one raw (Some k) (OFrame f)) = Some g -> secured k f g.
Proof.
  unfold write_one. cbv zeta.
  cbn [f_magic f_flags f_length f_target f_crc32 f_payload f_mac].
  destruct (raw _); simpl; intros [= <-]. split_and!; [done..|].
  unfold mac_gate. cbn [f_flags f_mac f_payload].
  rewrite flag_set_lor, bool_decide_eq_true_2 by (by eexists). cbn [andb].
  erewrite header_without_mac, verify_compute. done.
Qed.

Lemma write_one_frame key f :
  ws_key (write_one raw key (OFrame f)) = key
  /\ (key = None -> ws_sent (write_one raw key (OFrame f)) ∈ [None; Some f]).
Proof. unfold write_one. destruct key; (split; [|try done]); destruct (raw _); set_solver. Qed.

Lemma write_loop_plain l alive key sent :
  only_frames l -> write_loop raw None l = (alive, key, sent) ->
  key = None /\ sent `sublist_of` frames_of l.
Proof.
  intros Hl. revert alive key sent.
  induction Hl as [|[f|k0 cell0] l Hf Hl IH]; intros alive key sent; [by intros [= <- <- <-]| |done].
  cbn [write_loop]. destruct (write_one_frame None f) as [Hk Hs]. specialize (Hs eq_refl).
  generalize dependent (write_one raw None (OFrame f)). intros s Hk Hs. rewrite Hk.
  destruct (ws_go_on _); [|intros [= <- <- <-]; split; [done|apply sublist_nil_l]].
  destruct (write_loop raw None l) as [[al k'] fs].
  destruct (IH _ _ _ eq_refl) as [-> Hsub]. intros [= <- <- <-]. split; [done|].
  change (frames_of (OFrame f :: l)) with (f :: frames_of l).
  apply elem_of_cons in Hs as [->|Hs]; [by constructor|].
  apply list_elem_of_singleton in Hs as ->. by constructor.
Qed.

Lemma write_loop_secured k l alive key sent :
  only_frames l -> write_loop raw (Some k) l = (alive, key, sent) ->
  key = Some k /\ exists orig, orig `sublist_of` frames_of l /\ Forall2 (secured k) orig sent.
Proof.
  intros Hl. revert alive key sent.
  induction Hl as [|[f|k0 cell0] l Hf Hl IH]; intros alive key sent; [| |done].
  { intros [= <- <- <-]. split; [done|]. by exists []. }
  cbn [write_loop]. destruct (write_one_frame (Some k) f) as [Hk _]. rewrite Hk.
  destruct (ws_go_on _); cycle 1.
  { intros [= <- <- <-]. split; [done|]. exists []. split; [apply sublist_nil_l|done]. }
  destruct (write_loop raw (Some k) l) as [[al k'] fs].
  destruct (IH _ _ _ eq_refl) as [-> (orig & Hsub & HF)]. intros [= <- <- <-]. split; [done|].
  change (frames_of (OFrame f :: l)) with (f :: frames_of l).
  destruct (ws_sent _) as [g|] eqn:Hg; [|exists orig; split; [by constructor|done]].
  exists (f :: orig). split; [by constructor|]. constructor; [by apply write_one_secured|done].
Qed.

Lemma write_loop_app key l l' :
  write_loop raw key (l ++ l')
  = let '(alive, key1, s1) := write_loop raw key l in
    if alive : bool then let '(alive2, key2, s2) := write_loop raw key1 l' in (alive2, key2, s1 ++ s2)
    else (false, key1, s1).
Proof.
  revert key. induction l as [|o l IH]; intros key; simpl.
  - by destruct (write_loop raw key l') as [[] ].
  - destruct (ws_go_on _); [|done]. rewrite IH.
    destruct (write_loop raw (ws_key (write_one raw key o)) l) as [[[] ?] ?]; [|done].
    destruct (write_loop raw _ l') as [[] ]. by destruct (ws_sent _).
Qed.

(** The notice of a failed MAC check goes through the same queue, so on the
    secured connection it concerns it is itself tagged. *)
Lemma mac_notice_tagged code tx cs k payload g :
  encode (envelope_of (PError code EmptyString EmptyString)) = Some payload ->
  let item := out_frame (build_frame "client" 0 payload) in
  mac_notice code tx cs = send_await tx item cs
  /\ (ws_sent (write_one raw (Some k) item) = Some g ->
      flag_set (f_flags g) FLAG_MAC_PRESENT = true /\ f_mac g <> None).
Proof.
  intros He. cbv zeta. unfold mac_notice. rewrite He. split; [done|].
  intros (_ & _ & Hf & Hg)%write_one_secured. split; [rewrite Hf; apply flag_set_lor|].
  intros Hn. unfold mac_gate in Hg. rewrite Hn, andb_false_r in Hg. done.
Qed.
End write.

(** ** A concrete connection *)
#[local] Instance demo_byte_eq_dec : EqDecision Byte.byte := Byte.byte_eq_dec.

(** Sequence, total and stream id in the first three of the ten header bytes;
    tags that are the key itself. *)
Definition demo_frag_header (p : bytes) : option FragmentHeader :=
  match p with
  | q :: t :: s :: _ =>
      Some (mkFragHeader 0 (Byte.to_N q) (Byte.to_N t) (Byte.to_N s))
  | _ => None
  end.

#[local] Instance demo_wire : Wire := {|
  encode _ := None;
  decode _ := None;
  crc32 _ := 0%Z;
  target_as_str _ := None;
  parse_frag_header := demo_frag_header;
  serialize_header f := f_target f;
  compute_tag k _ _ := k;
  verify_tag k _ _ tag := bool_decide (k = tag);
  derive_session_key ikm _ _ := ikm;
  perm_str_name _ := "";
  perm_from_str_name _ := None;
  action_status_i32 _ := 0%Z;
  device_os_try_from _ := None;
  PROTOCOL_VERSION := "1.7"
|}.

#[local] Instance demo_mac_laws : MacLaws.
Proof. split; [|done]. intros k h p. by apply bool_decide_eq_true_2. Qed.

Definition demo_fragment (i data : Byte.byte) : Frame :=
  mkFrame FRAME_MAGIC FLAG_FRAGMENTED 11 [i] 0
    ([i; Byte.x03; Byte.x09] ++ replicate 7 Byte.x00 ++ [data]) None.

Definition demo_chunks : list bytes := [[Byte.x61]; [Byte.x62]; [Byte.x63]].

(** The third fragment first, then the first, then the second. *)
Definition demo_arrivals : list Arrival :=
  [(100, None, 0%N, demo_fragment Byte.x02 Byte.x63);
   (101, None, 0%N, demo_fragment Byte.x00 Byte.x61);
   (104, None, 0%N, demo_fragment Byte.x01 Byte.x62)]%Z.

Definition demo_conn : Conn := mkConn 7 1 2 30 2 ∅.

Lemma fragments_any_order_witness :
  exists c' m, read_all true demo_arrivals demo_conn = Some (c', [m])
    /\ delivered demo_chunks demo_conn [Byte.x02] m.
Proof.
  apply (fragments_any_order true demo_chunks 9 [2; 0; 1]%nat demo_arrivals 100).
  - apply (bool_decide_unpack _). vm_compute. exact I.
  - done.
  - vm_compute. discriminate.
  - apply Forall2_cons; split; [|apply Forall2_cons; split; [|apply Forall2_cons; split;
      [|by apply Forall2_nil]]];
      (split; [split; [reflexivity|split; [by exists 0%Z|reflexivity]]|split; [reflexivity|]]);
      vm_compute; split; (done || discriminate).
  - reflexivity.
  - vm_compute. lia.
  - reflexivity.
Defined.

Lemma reassembly_bounded_witness :
  exists c' msgs, read_all true (take 2 demo_arrivals) demo_conn = Some (c', msgs)
    /\ (size (cn_reassembly c') = 1)%nat /\ (held_bytes c' <= 2 * MAX_PAYLOAD_SIZE)%Z.
Proof.
  eexists _, _. split; [vm_compute; reflexivity|]. split; [vm_compute; reflexivity|].
  eapply (reassembly_bounded true (take 2 demo_arrivals) 7 1 2 30 2). vm_compute. reflexivity.
Defined.

