(* ===== verification/Registry.v ===== *)
(** * The plugin registry (src/plugins/registry.rs)

    The twelve concurrent maps of [PluginRegistry] as one record of finite
    maps, and every operation on them. A clock reading is an explicit
    argument: [clk_now] is [Instant::now()] in nanoseconds, [clk_wall_ms] the
    unix time in milliseconds. Operations the code performs under one shard
    lock are one function here. The order in which the code iterates a
    [DashMap] is unspecified; [map_to_list] fixes one order, and no theorem
    depends on which. *)

From S2P Require Import Prelude Errors Wire Validate.

Record Clock := mkClock { clk_now : Z; clk_wall_ms : Z }.

(** [Duration::from_millis] / [Duration::from_secs] in nanoseconds *)
Definition from_millis (ms : Z) : Z := ms * 1000000.
Definition from_secs (s : Z) : Z := s * 1000000000.

(** [Instant::duration_since], which saturates at zero *)
Definition duration_since (now earlier : Z) : Z := saturating_sub now earlier.

Record DeviceMeta := mkDeviceMeta {
  dm_device_id : string;
  dm_user_id : string;
  dm_os : DeviceOs;
  dm_arch : string;
  dm_os_version : string;
  dm_capabilities : list string
}.

Inductive PluginState := Registered.

(** The wire [DeviceInfo]; the code stores [os] and [state] as the [i32] of
    the enum and reads them back with [try_from]. *)
Record DeviceInfo := mkDeviceInfo {
  di_device_id : string;
  di_os : DeviceOs;
  di_arch : string;
  di_os_version : string;
  di_capabilities : list string;
  di_last_seen : Z;
  di_state : DeviceState;
  di_created : Z;
  di_expires : Z
}.

Record DormantPlugin := mkDormant {
  dp_plugin_id : string;
  dp_action_specs : list ActionSpec;
  dp_idle_stop : Z
}.

Record PendingAction := mkPending {
  pa_requester_write_tx : N;
  pa_original_action_id : string;
  pa_requester_id : string;
  pa_deadline : Z;
  pa_provider_id : string;
  pa_streaming : bool;
  pa_session_accepted : bool;
  pa_last_activity : Z
}.

Record PluginEntry := mkEntry {
  pe_plugin_id : string;
  pe_conn_id : N;
  pe_manifest : PluginManifest;
  pe_write_tx : N;
  pe_registered_at : Z;
  pe_state : PluginState;
  pe_device_id : string;
  pe_user_id : string
}.

Inductive ActionLookup :=
| NotFound
| Found (e : PluginEntry)
| Ambiguous (ids : list string)
| Dormant (id : string).

Record Registry := mkRegistry {
  by_plugin_id : gmap string PluginEntry;
  by_conn_id : gmap N string;
  pong_times : gmap string Z;
  devices : gmap string DeviceInfo;
  pending_actions : gmap string PendingAction;
  action_requirements : gmap string (gmap string PermissionType);
  action_index : gmap string string;
  ambiguous_actions : gmap string (list string);
  dormant : gmap string DormantPlugin;
  dormant_actions : gmap string (list string);
  lazy_gates : gmap string (gmap N Z);
  last_used : gmap string Z
}.

(** [PluginRegistry::new] *)
Definition registry_new : Registry :=
  mkRegistry ∅ ∅ ∅ ∅ ∅ ∅ ∅ ∅ ∅ ∅ ∅ ∅.

(** ** Field updates *)
Definition set_plugins (m : gmap string PluginEntry) (r : Registry) : Registry :=
  mkRegistry m (by_conn_id r) (pong_times r) (devices r) (pending_actions r)
    (action_requirements r) (action_index r) (ambiguous_actions r) (dormant r)
    (dormant_actions r) (lazy_gates r) (last_used r).
Definition set_conns (m : gmap N string) (r : Registry) : Registry :=
  mkRegistry (by_plugin_id r) m (pong_times r) (devices r) (pending_actions r)
    (action_requirements r) (action_index r) (ambiguous_actions r) (dormant r)
    (dormant_actions r) (lazy_gates r) (last_used r).
Definition set_pongs (m : gmap string Z) (r : Registry) : Registry :=
  mkRegistry (by_plugin_id r) (by_conn_id r) m (devices r) (pending_actions r)
    (action_requirements r) (action_index r) (ambiguous_actions r) (dormant r)
    (dormant_actions r) (lazy_gates r) (last_used r).
Definition set_devices (m : gmap string DeviceInfo) (r : Registry) : Registry :=
  mkRegistry (by_plugin_id r) (by_conn_id r) (pong_times r) m (pending_actions r)
    (action_requirements r) (action_index r) (ambiguous_actions r) (dormant r)
    (dormant_actions r) (lazy_gates r) (last_used r).
Definition set_pending (m : gmap string PendingAction) (r : Registry) : Registry :=
  mkRegistry (by_plugin_id r) (by_conn_id r) (pong_times r) (devices r) m
    (action_requirements r) (action_index r) (ambiguous_actions r) (dormant r)
    (dormant_actions r) (lazy_gates r) (last_used r).
Definition set_requirements (m : gmap string (gmap string PermissionType)) (r : Registry)
    : Registry :=
  mkRegistry (by_plugin_id r) (by_conn_id r) (pong_times r) (devices r)
    (pending_actions r) m (action_index r) (ambiguous_actions r) (dormant r)
    (dormant_actions r) (lazy_gates r) (last_used r).
Definition set_index (mi : gmap string string) (ma : gmap string (list string))
    (r : Registry) : Registry :=
  mkRegistry (by_plugin_id r) (by_conn_id r) (pong_times r) (devices r)
    (pending_actions r) (action_requirements r) mi ma (dormant r)
    (dormant_actions r) (lazy_gates r) (last_used r).
Definition set_dormant (md : gmap string DormantPlugin) (ma : gmap string (list string))
    (r : Registry) : Registry :=
  mkRegistry (by_plugin_id r) (by_conn_id r) (pong_times r) (devices r)
    (pending_actions r) (action_requirements r) (action_index r)
    (ambiguous_actions r) md ma (lazy_gates r) (last_used r).
Definition set_gates (m : gmap string (gmap N Z)) (r : Registry) : Registry :=
  mkRegistry (by_plugin_id r) (by_conn_id r) (pong_times r) (devices r)
    (pending_actions r) (action_requirements r) (action_index r)
    (ambiguous_actions r) (dormant r) (dormant_actions r) m (last_used r).
Definition set_used (m : gmap string Z) (r : Registry) : Registry :=
  mkRegistry (by_plugin_id r) (by_conn_id r) (pong_times r) (devices r)
    (pending_actions r) (action_requirements r) (action_index r)
    (ambiguous_actions r) (dormant r) (dormant_actions r) (lazy_gates r) m.

(** ** The action index *)

(** [index_action]: a second declarer evacuates both into
    [ambiguous_actions]. *)
Definition index_action (action plugin_id : string) (r : Registry) : Registry :=
  match ambiguous_actions r !! action with
  | Some ids =>
      if str_mem plugin_id ids then r
      else set_index (action_index r)
             (<[action := ids ++ [plugin_id]]> (ambiguous_actions r)) r
  | None =>
      match action_index r !! action with
      | Some existing =>
          if existing =s plugin_id then r
          else set_index (delete action (action_index r))
                 (<[action := [existing; plugin_id]]> (ambiguous_actions r)) r
      | None =>
          set_index (<[action := plugin_id]> (action_index r)) (ambiguous_actions r) r
      end
  end.

Definition index_actions (actions : list string) (plugin_id : string) (r : Registry)
    : Registry :=
  foldl (fun r a => index_action a plugin_id r) r actions.

(** [unindex_action]: the reverse, restoring a single remaining declarer to
    the unambiguous map. *)
Definition unindex_action (action plugin_id : string) (r : Registry) : Registry :=
  let retained := base.filter (fun id => id <> plugin_id) <$> ambiguous_actions r !! action in
  let r1 := match retained with
            | Some ids => set_index (action_index r)
                            (<[action := ids]> (ambiguous_actions r)) r
            | None => r
            end in
  match retained with
  | Some [only] =>
      set_index (<[action := only]> (action_index r1))
        (delete action (ambiguous_actions r1)) r1
  | _ =>
      match action_index r1 !! action with
      | Some v =>
          if v =s plugin_id
          then set_index (delete action (action_index r1)) (ambiguous_actions r1) r1
          else r1
      | None => r1
      end
  end.

Definition unindex_actions (actions : list string) (plugin_id : string) (r : Registry)
    : Registry :=
  foldl (fun r a => unindex_action a plugin_id r) r actions.

(** ** Registration *)

(** The device upsert both registration paths perform: refresh an existing
    record, or create one with no pairing lifecycle. *)
Definition upsert_device (clk : Clock) (device_id : string) (meta : DeviceMeta)
    (caps : list string) (r : Registry) : Registry :=
  let info := match devices r !! device_id with
              | Some dev =>
                  mkDeviceInfo (di_device_id dev) (dm_os meta) (dm_arch meta)
                    (dm_os_version meta) caps (clk_wall_ms clk) Online
                    (di_created dev) (di_expires dev)
              | None =>
                  mkDeviceInfo device_id (dm_os meta) (dm_arch meta)
                    (dm_os_version meta) caps (clk_wall_ms clk) Online 0 0
              end in
  set_devices (<[device_id := info]> (devices r)) r.

Definition or_default (s default : string) : string :=
  if str_is_empty s then default else s.

Definition register_with_device (clk : Clock) (plugin_id : string) (conn_id : N)
    (manifest : PluginManifest) (write_tx : N) (meta : DeviceMeta) (r : Registry)
    : Registry * Result unit VynkorError :=
  match validate_plugin_id plugin_id with
  | Err e => (r, Err e)
  | Ok _ =>
  match validate_device_scope plugin_id (dm_device_id meta) with
  | Err e => (r, Err e)
  | Ok _ =>
  match by_conn_id r !! conn_id with
  | Some _ => (r, Err (EPluginAlreadyRegistered
                 ("connection " +:+ fmt_N conn_id +:+ " already has a registered plugin")))
  | None =>
  match by_plugin_id r !! plugin_id with
  | Some _ => (r, Err (EPluginAlreadyRegistered plugin_id))
  | None =>
      let device_id := or_default (dm_device_id meta) "local" in
      let user_id := or_default (dm_user_id meta) "default" in
      let entry := mkEntry plugin_id conn_id manifest write_tx
                     (clk_wall_ms clk / 1000) Registered device_id user_id in
      let r := set_conns (<[conn_id := plugin_id]> (by_conn_id r)) r in
      let r := index_actions (mf_actions manifest) plugin_id r in
      let r := set_pongs (<[plugin_id := clk_now clk]> (pong_times r)) r in
      let r := upsert_device clk device_id meta (dm_capabilities meta) r in
      let r := set_plugins (<[plugin_id := entry]> (by_plugin_id r)) r in
      (r, Ok tt)
  end end end end.

(** [register]: device and user only *)
Definition register (clk : Clock) (plugin_id : string) (conn_id : N)
    (manifest : PluginManifest) (write_tx : N) (device_id user_id : string)
    (r : Registry) : Registry * Result unit VynkorError :=
  register_with_device clk plugin_id conn_id manifest write_tx
    (mkDeviceMeta device_id user_id Unspecified "" "" []) r.

Definition with_actions (actions : list string) (m : PluginManifest) : PluginManifest :=
  mkManifest (mf_permissions m) actions (mf_events m) (mf_ipc_targets m)
    (mf_platforms m) (mf_action_specs m).

(** [register_device]: one mux entry per device, its actions the qualified
    capability names. *)
Definition register_device (clk : Clock) (device_id : string) (conn_id : N)
    (caps : list string) (manifest : PluginManifest) (write_tx : N)
    (meta : DeviceMeta) (r : Registry) : Registry * Result unit VynkorError :=
  match validate_plugin_id device_id with
  | Err e => (r, Err e)
  | Ok _ =>
  match validate_device_scope device_id device_id with
  | Err e => (r, Err e)
  | Ok _ =>
  match by_conn_id r !! conn_id with
  | Some _ => (r, Err (EPluginAlreadyRegistered
                 ("connection " +:+ fmt_N conn_id +:+ " already has a registered plugin")))
  | None =>
  match by_plugin_id r !! device_id with
  | Some _ => (r, Err (EPluginAlreadyRegistered device_id))
  | None =>
      let effective_device_id := or_default (dm_device_id meta) device_id in
      let user_id := or_default (dm_user_id meta) "default" in
      let manifest := with_actions (map (fun c => device_id +:+ "." +:+ c) caps) manifest in
      let entry := mkEntry device_id conn_id manifest write_tx
                     (clk_wall_ms clk / 1000) Registered effective_device_id user_id in
      let r := set_conns (<[conn_id := device_id]> (by_conn_id r)) r in
      let r := index_actions (mf_actions manifest) device_id r in
      let r := set_pongs (<[device_id := clk_now clk]> (pong_times r)) r in
      let r := upsert_device clk effective_device_id meta caps r in
      let r := set_plugins (<[device_id := entry]> (by_plugin_id r)) r in
      (r, Ok tt)
  end end end end.

(** ** Lookups *)
Definition get (plugin_id : string) (r : Registry) : option PluginEntry :=
  by_plugin_id r !! plugin_id.

Definition get_device (device_id : string) (r : Registry) : option DeviceInfo :=
  devices r !! device_id.

Definition list_devices (r : Registry) : list DeviceInfo :=
  (map_to_list (devices r)).*2.

Definition list_plugins (r : Registry) : list PluginEntry :=
  (map_to_list (by_plugin_id r)).*2.

Definition is_registered (conn_id : N) (r : Registry) : bool :=
  bool_decide (is_Some (by_conn_id r !! conn_id)).

Definition get_by_conn_id (conn_id : N) (r : Registry) : option PluginEntry :=
  match by_conn_id r !! conn_id with
  | None => None
  | Some plugin_id => by_plugin_id r !! plugin_id
  end.

(** [get_mux]: the exact id, else the mux device that declared the cap. *)
Definition get_mux (target : string) (r : Registry) : option PluginEntry :=
  match get target r with
  | Some entry => Some entry
  | None =>
      match split_once "." target with
      | None => None
      | Some (dev, cap) =>
          match get dev r with
          | None => None
          | Some entry =>
              let actions := mf_actions (pe_manifest entry) in
              let is_declared :=
                str_mem target actions
                || existsb (fun a => match split_once "." a with
                                     | Some (_, c) => c =s cap
                                     | None => false
                                     end) actions
                || match devices r !! dev with
                   | Some d => str_mem cap (di_capabilities d)
                   | None => false
                   end in
              if is_declared then Some entry else None
          end
      end
  end.

Definition find_action_provider (action : string) (r : Registry) : ActionLookup :=
  match ambiguous_actions r !! action with
  | Some ids => Ambiguous ids
  | None =>
      let live := match action_index r !! action with
                  | Some provider_id => by_plugin_id r !! provider_id
                  | None => None
                  end in
      let dorm := default [] (dormant_actions r !! action) in
      match live with
      | Some entry =>
          if forallb (fun id => id =s pe_plugin_id entry) dorm then Found entry
          else Ambiguous (pe_plugin_id entry
                 :: base.filter (fun id => id <> pe_plugin_id entry) dorm)
      | None =>
          match dorm with
          | [] => NotFound
          | [id] => Dormant id
          | _ => Ambiguous dorm
          end
      end
  end.

(** ** Removal *)

(** [unregister_if] up to the point where it fails the pending actions of the
    removed provider; the notification is in [Kernel.unregister_if]. *)
Definition unregister_core (plugin_id : string) (pred : PluginEntry -> bool)
    (r : Registry) : Registry * bool :=
  match by_plugin_id r !! plugin_id with
  | None => (r, false)
  | Some entry =>
      if negb (pred entry) then (r, false)
      else
        let r := set_plugins (delete plugin_id (by_plugin_id r)) r in
        let r := set_conns (delete (pe_conn_id entry) (by_conn_id r)) r in
        let r := set_pongs (delete plugin_id (pong_times r)) r in
        let r := unindex_actions (mf_actions (pe_manifest entry)) plugin_id r in
        let device_id := pe_device_id entry in
        let still_registered :=
          existsb (fun e => pe_device_id e =s device_id) (list_plugins r) in
        let r :=
          if still_registered then r
          else set_devices
                 (alter (fun d => mkDeviceInfo (di_device_id d) (di_os d) (di_arch d)
                                    (di_os_version d) (di_capabilities d)
                                    (di_last_seen d) Offline (di_created d)
                                    (di_expires d)) device_id (devices r)) r in
        (r, true)
  end.

(** ** Liveness *)
Definition record_pong (clk : Clock) (plugin_id : string) (r : Registry) : Registry :=
  let r := set_pongs (<[plugin_id := clk_now clk]> (pong_times r)) r in
  match by_plugin_id r !! plugin_id with
  | None => r
  | Some entry =>
      set_devices
        (alter (fun d => mkDeviceInfo (di_device_id d) (di_os d) (di_arch d)
                           (di_os_version d) (di_capabilities d)
                           (clk_wall_ms clk) Online (di_created d) (di_expires d))
           (pe_device_id entry) (devices r)) r
  end.

Definition last_pong (plugin_id : string) (r : Registry) : option Z :=
  pong_times r !! plugin_id.

(** ** Per-action permission requirements *)
Definition set_action_requirements (plugin_id : string)
    (reqs : gmap string PermissionType) (r : Registry) : Registry :=
  set_requirements (<[plugin_id := reqs]> (action_requirements r)) r.

Definition action_requirement (plugin_id action : string) (r : Registry)
    : option PermissionType :=
  match action_requirements r !! plugin_id with
  | None => None
  | Some m => m !! action
  end.

Definition clear_action_requirements (plugin_id : string) (r : Registry) : Registry :=
  set_requirements (delete plugin_id (action_requirements r)) r.

(** ** Lazy (dormant) plugins *)

(** One spec of the removed record: drop the id, then the empty row. *)
Definition drop_dormant_spec (plugin_id : string) (r : Registry) (spec : ActionSpec)
    : Registry :=
  match dormant_actions r !! as_name spec with
  | None => r
  | Some ids =>
      match base.filter (fun id => id <> plugin_id) ids with
      | [] => set_dormant (dormant r) (delete (as_name spec) (dormant_actions r)) r
      | ids' => set_dormant (dormant r)
                  (<[as_name spec := ids']> (dormant_actions r)) r
      end
  end.

(** [drop_dormant_actions] *)
Definition drop_dormant_actions (plugin_id : string) (r : Registry) : Registry :=
  match dormant r !! plugin_id with
  | None => r
  | Some old =>
      let r := set_dormant (delete plugin_id (dormant r)) (dormant_actions r) r in
      foldl (drop_dormant_spec plugin_id) r (dp_action_specs old)
  end.

Definition index_dormant_spec (plugin_id : string) (r : Registry) (spec : ActionSpec)
    : Registry :=
  let ids := default [] (dormant_actions r !! as_name spec) in
  set_dormant (dormant r)
    (<[as_name spec := if str_mem plugin_id ids then ids else ids ++ [plugin_id]]>
       (dormant_actions r)) r.

Definition register_dormant (d : DormantPlugin) (r : Registry) : Registry :=
  let r := drop_dormant_actions (dp_plugin_id d) r in
  let r := foldl (index_dormant_spec (dp_plugin_id d)) r (dp_action_specs d) in
  set_dormant (<[dp_plugin_id d := d]> (dormant r)) (dormant_actions r) r.

Definition get_dormant (plugin_id : string) (r : Registry) : option DormantPlugin :=
  dormant r !! plugin_id.

Definition list_dormant (r : Registry) : list DormantPlugin :=
  (map_to_list (dormant r)).*2.

Definition is_lazy (plugin_id : string) (r : Registry) : bool :=
  bool_decide (is_Some (dormant r !! plugin_id)).

Definition touch_used (clk : Clock) (plugin_id : string) (r : Registry) : Registry :=
  if is_lazy plugin_id r
  then set_used (<[plugin_id := clk_now clk]> (last_used r)) r
  else r.

Definition idle_for_at (plugin_id : string) (now : Z) (r : Registry) : option Z :=
  duration_since now <$> last_used r !! plugin_id.

Definition has_pending_for_provider (provider_id : string) (r : Registry) : bool :=
  existsb (fun kp => pa_provider_id kp.2 =s provider_id) (map_to_list (pending_actions r)).

(** ** Drain gates of waking plugins *)
Definition lazy_gate_hold (plugin_id : string) (r : Registry) : Registry :=
  match lazy_gates r !! plugin_id with
  | Some _ => r
  | None => set_gates (<[plugin_id := ∅]> (lazy_gates r)) r
  end.

Definition lazy_gate_release (plugin_id : string) (r : Registry) : Registry :=
  set_gates (delete plugin_id (lazy_gates r)) r.

Definition lazy_gate_allow (clk : Clock) (plugin_id : string) (frame_addr : N)
    (r : Registry) : Registry :=
  match lazy_gates r !! plugin_id with
  | None => r
  | Some g => set_gates (<[plugin_id := <[frame_addr := clk_now clk]> g]> (lazy_gates r)) r
  end.

(** [lazy_gate_passes]: no gate, or an allowance consumed on use *)
Definition lazy_gate_passes (plugin_id : string) (frame_addr : N) (r : Registry)
    : Registry * bool :=
  match lazy_gates r !! plugin_id with
  | None => (r, true)
  | Some g =>
      match g !! frame_addr with
      | None => (r, false)
      | Some _ =>
          (set_gates (<[plugin_id := delete frame_addr g]> (lazy_gates r)) r, true)
      end
  end.

Definition has_lazy_gates (r : Registry) : bool :=
  negb (bool_decide (lazy_gates r = ∅)).

Definition lazy_gate_ids (r : Registry) : list string := (map_to_list (lazy_gates r)).*1.

Definition lazy_gate_trim (clk : Clock) (plugin_id : string) (max_age : Z) (r : Registry)
    : Registry * bool :=
  match lazy_gates r !! plugin_id with
  | None => (r, true)
  | Some g =>
      let g' := base.filter (fun kv => duration_since (clk_now clk) kv.2 < max_age)%Z g in
      (set_gates (<[plugin_id := g']> (lazy_gates r)) r, bool_decide (g' = ∅))
  end.

(** ** Pending actions *)
Definition register_pending_action (internal_id : string) (p : PendingAction)
    (r : Registry) : Registry :=
  set_pending (<[internal_id := p]> (pending_actions r)) r.

Definition get_pending_action (internal_id : string) (r : Registry)
    : option PendingAction :=
  pending_actions r !! internal_id.

Definition take_pending_action (internal_id : string) (r : Registry)
    : Registry * option PendingAction :=
  match pending_actions r !! internal_id with
  | None => (r, None)
  | Some p => (set_pending (delete internal_id (pending_actions r)) r, Some p)
  end.

Definition take_pending_action_if_provider (internal_id provider_id : string)
    (r : Registry) : Registry * option PendingAction :=
  match pending_actions r !! internal_id with
  | None => (r, None)
  | Some p =>
      if pa_provider_id p =s provider_id
      then (set_pending (delete internal_id (pending_actions r)) r, Some p)
      else (r, None)
  end.

Definition accept_session (now : Z) (p : PendingAction) : PendingAction :=
  mkPending (pa_requester_write_tx p) (pa_original_action_id p) (pa_requester_id p)
    (pa_deadline p) (pa_provider_id p) (pa_streaming p) true now.

(** [resolve_action_response]: accept a streaming session in place, evict in
    every other case, refuse a sender that is not the routed provider. *)
Definition resolve_action_response (clk : Clock) (internal_id provider_id : string)
    (status_ok : bool) (r : Registry) : Registry * option PendingAction :=
  match pending_actions r !! internal_id with
  | None => (r, None)
  | Some p =>
      if negb (pa_provider_id p =s provider_id) then (r, None)
      else if status_ok && pa_streaming p then
        let p' := accept_session (clk_now clk) p in
        (set_pending (<[internal_id := p']> (pending_actions r)) r, Some p')
      else (set_pending (delete internal_id (pending_actions r)) r, Some p)
  end.

Definition touch_pending_action (clk : Clock) (internal_id : string) (r : Registry)
    : Registry :=
  set_pending
    (alter (fun p => mkPending (pa_requester_write_tx p) (pa_original_action_id p)
                       (pa_requester_id p) (pa_deadline p) (pa_provider_id p)
                       (pa_streaming p) (pa_session_accepted p) (clk_now clk))
       internal_id (pending_actions r)) r.

(** The collect-keys-then-take loop of the three bulk evictions. *)
Fixpoint take_keys (keys : list string) (r : Registry)
    : Registry * list (string * PendingAction) :=
  match keys with
  | [] => (r, [])
  | k :: keys' =>
      let '(r1, o) := take_pending_action k r in
      let '(r2, taken) := take_keys keys' r1 in
      (r2, match o with Some p => (k, p) :: taken | None => taken end)
  end.

Definition pending_keys (sel : PendingAction -> bool) (r : Registry) : list string :=
  (base.filter (fun kp => sel kp.2 = true) (map_to_list (pending_actions r))).*1.

Definition take_pending_actions_for_provider (provider_id : string) (r : Registry)
    : Registry * list (string * PendingAction) :=
  take_keys (pending_keys (fun p => pa_provider_id p =s provider_id) r) r.

Definition is_idle (now idle_timeout : Z) (p : PendingAction) : bool :=
  pa_session_accepted p && (idle_timeout <? duration_since now (pa_last_activity p))%Z.

Definition sweep_idle_sessions (now idle_timeout : Z) (r : Registry)
    : Registry * list (string * PendingAction) :=
  take_keys (pending_keys (is_idle now idle_timeout) r) r.

Definition is_expired (now : Z) (p : PendingAction) : bool :=
  negb (pa_session_accepted p) && (pa_deadline p <=? now)%Z.

Definition sweep_expired_actions (now : Z) (r : Registry)
    : Registry * list PendingAction :=
  let '(r', taken) := take_keys (pending_keys (is_expired now) r) r in
  (r', taken.*2).

(** [.count() as u32] *)
Definition count_pending_actions_for (requester_id provider_id : string) (r : Registry)
    : Z :=
  Z.of_nat (length (base.filter (fun kp => pa_requester_id kp.2 = requester_id
                                  /\ pa_provider_id kp.2 = provider_id)
                      (map_to_list (pending_actions r)))) mod (u32_max + 1).

Definition find_pending_internal_id (requester_id original_action_id : string)
    (r : Registry) : option string :=
  match base.filter (fun kp => pa_requester_id kp.2 = requester_id
                       /\ pa_original_action_id kp.2 = original_action_id)
          (map_to_list (pending_actions r)) with
  | [] => None
  | kp :: _ => Some kp.1
  end.
