(* ===== verification/RegistryInv.v ===== *)
(** * Invariants of the plugin registry

    [index_ok] ties the O(1) action index to the declared actions of the live
    plugins, [dormant_ok] does the same for lazy plugins, and [reg_ok] is the
    invariant of the whole registry: connections and plugins are in bijection,
    every live plugin is tracked by the watchdog clock, a device is online
    exactly while one of its plugins is registered. [reg_step] is the step
    relation of every registry operation; the invariant holds in every
    reachable registry. *)

From S2P Require Import Prelude Errors Wire Validate Registry.

(** ** Declarations *)
Definition declares (r : Registry) (a p : string) : Prop :=
  exists e, by_plugin_id r !! p = Some e /\ a ∈ mf_actions (pe_manifest e).

Definition spec_names (d : DormantPlugin) : list string := as_name <$> dp_action_specs d.

Definition dormant_declares (r : Registry) (a p : string) : Prop :=
  exists d, dormant r !! p = Some d /\ a ∈ spec_names d.

(** What the two index maps hold for one action, given its declarers [P]:
    the single declarer, all of two or more declarers, or nothing. *)
Definition index_at (single : option string) (amb : option (list string))
    (P : string -> Prop) : Prop :=
  match single, amb with
  | Some p, None => forall q, P q <-> q = p
  | None, Some ids => NoDup ids /\ (2 <= length ids)%nat /\ forall q, q ∈ ids <-> P q
  | None, None => forall q, ~ P q
  | Some _, Some _ => False
  end.

(** The index agrees with a declaration relation [D]. *)
Definition index_ok (D : string -> string -> Prop)
    (mi : gmap string string) (ma : gmap string (list string)) : Prop :=
  forall a, index_at (mi !! a) (ma !! a) (D a).

Definition dormant_at (row : option (list string)) (P : string -> Prop) : Prop :=
  match row with
  | Some ids => ids <> [] /\ NoDup ids /\ forall q, q ∈ ids <-> P q
  | None => forall q, ~ P q
  end.

Definition dormant_index_ok (D : string -> string -> Prop)
    (ma : gmap string (list string)) : Prop :=
  forall a, dormant_at (ma !! a) (D a).

Record reg_ok (r : Registry) : Prop := {
  ok_conn c p : by_conn_id r !! c = Some p ->
    exists e, by_plugin_id r !! p = Some e /\ pe_conn_id e = c;
  ok_plug p e : by_plugin_id r !! p = Some e ->
    pe_plugin_id e = p /\ by_conn_id r !! pe_conn_id e = Some p;
  ok_valid p : is_Some (by_plugin_id r !! p) -> validate_plugin_id p = Ok tt;
  ok_scope p e pre x : by_plugin_id r !! p = Some e ->
    split_once "." p = Some (pre, x) -> pe_device_id e = pre;
  ok_pong p : is_Some (by_plugin_id r !! p) -> is_Some (pong_times r !! p);
  ok_online d : (exists i, devices r !! d = Some i /\ di_state i = Online)
    <-> (exists p e, by_plugin_id r !! p = Some e /\ pe_device_id e = d);
  ok_state d i : devices r !! d = Some i ->
    di_device_id i = d /\ (di_state i = Online \/ di_state i = Offline);
  ok_index : index_ok (declares r) (action_index r) (ambiguous_actions r);
  ok_dormant : dormant_index_ok (dormant_declares r) (dormant_actions r);
  ok_dormant_key p d : dormant r !! p = Some d -> dp_plugin_id d = p;
  ok_used p : is_Some (last_used r !! p) -> is_Some (dormant r !! p)
}.

(** ** The index operations *)
Section index.
Implicit Types (D : string -> string -> Prop).

Lemma index_at_ext s m P P' :
  (forall q, P q <-> P' q) -> index_at s m P -> index_at s m P'.
Proof. unfold index_at. intros HP. repeat case_match; naive_solver. Qed.

Lemma index_ok_ext D D' mi ma :
  (forall a q, D a q <-> D' a q) -> index_ok D mi ma -> index_ok D' mi ma.
Proof. intros HD Hok a. eapply index_at_ext; [apply HD|apply Hok]. Qed.

(** Changing the index at one action only. *)
Lemma index_ok_update D D' mi ma mi' ma' a :
  index_ok D mi ma ->
  (forall a', a' <> a -> mi' !! a' = mi !! a' /\ ma' !! a' = ma !! a'
                       /\ forall q, D a' q <-> D' a' q) ->
  index_at (mi' !! a) (ma' !! a) (D' a) ->
  index_ok D' mi' ma'.
Proof.
  intros Hok Hoff Hat a'. destruct (decide (a' = a)) as [->|Hne]; [done|].
  destruct (Hoff a' Hne) as (-> & -> & HD). eapply index_at_ext; [done|apply Hok].
Qed.

Lemma index_action_set a p r : exists mi ma, index_action a p r = set_index mi ma r.
Proof.
  unfold index_action. repeat case_match; eauto;
    exists (action_index r), (ambiguous_actions r); by destruct r.
Qed.

Lemma unindex_action_set a p r : exists mi ma, unindex_action a p r = set_index mi ma r.
Proof.
  unfold unindex_action. repeat case_match; eauto;
    exists (action_index r), (ambiguous_actions r); by destruct r.
Qed.

Lemma foldl_set_index (f : Registry -> string -> Registry) l r :
  (forall a r, exists mi ma, f r a = set_index mi ma r) ->
  exists mi ma, foldl f r l = set_index mi ma r.
Proof.
  intros Hf. revert r. induction l as [|a l IH]; intros r; simpl.
  - exists (action_index r), (ambiguous_actions r); by destruct r.
  - destruct (Hf a r) as (mi & ma & ->).
    destruct (IH (set_index mi ma r)) as (mi' & ma' & ->). by exists mi', ma'.
Qed.

Lemma index_actions_set l p r : exists mi ma, index_actions l p r = set_index mi ma r.
Proof. apply foldl_set_index. intros. apply index_action_set. Qed.

Lemma unindex_actions_set l p r :
  exists mi ma, unindex_actions l p r = set_index mi ma r.
Proof. apply foldl_set_index. intros. apply unindex_action_set. Qed.

Lemma index_action_ok D a p r :
  index_ok D (action_index r) (ambiguous_actions r) ->
  index_ok (fun a' q => D a' q \/ (a' = a /\ q = p))
    (action_index (index_action a p r)) (ambiguous_actions (index_action a p r)).
Proof.
  intros Hok. pose proof (Hok a) as Hat. eapply (index_ok_update _ _ _ _ _ _ a Hok).
  { intros a' Hne. unfold index_action.
    repeat case_match; simpl; simplify_map_eq; naive_solver. }
  unfold index_action, index_at in *.
  destruct (ambiguous_actions r !! a) as [ids|] eqn:Ha.
  - destruct (action_index r !! a) eqn:Hi; [done|]. destruct Hat as (Hnd & Hlen & Hin).
    destruct (str_mem p ids) eqn:Hp; boolify; simpl; rewrite ?Hi, ?Ha, ?lookup_insert_eq.
    + split_and!; [done..|]. intros q. rewrite Hin. split; [tauto|].
      intros [?|[_ ->]]; [done|by apply Hin].
    + rewrite length_app. split_and!; [|simpl; lia|].
      * apply NoDup_app. split_and!; [done| |apply NoDup_singleton]. set_solver.
      * intros q. rewrite elem_of_app, Hin, list_elem_of_singleton. tauto.
  - destruct (action_index r !! a) as [ex|] eqn:Hi.
    + destruct (ex =s p) eqn:Hp; boolify; simpl;
        rewrite ?Hi, ?Ha, ?lookup_insert_eq, ?lookup_delete_eq.
      * subst. intros q. rewrite Hat. naive_solver.
      * split_and!; [|simpl; lia|].
        -- apply NoDup_cons. split; [set_solver|apply NoDup_singleton].
        -- intros q. rewrite elem_of_cons, list_elem_of_singleton, Hat. tauto.
    + simpl. rewrite lookup_insert_eq, Ha. naive_solver.
Qed.

Lemma index_actions_ok D l p r :
  index_ok D (action_index r) (ambiguous_actions r) ->
  index_ok (fun a q => D a q \/ (a ∈ l /\ q = p))
    (action_index (index_actions l p r)) (ambiguous_actions (index_actions l p r)).
Proof.
  revert D r. induction l as [|a l IH]; intros D r Hok.
  - eapply index_ok_ext; [|exact Hok]. set_solver.
  - eapply index_ok_ext; [|apply IH, index_action_ok, Hok]. set_solver.
Qed.

Lemma filter_length_ge2 (ids : list string) (p : string) :
  NoDup ids -> (2 <= length ids)%nat -> base.filter (fun id => id <> p) ids <> [].
Proof.
  intros Hnd Hlen Hf. destruct ids as [|x [|y ids]]; simpl in Hlen; [lia..|].
  apply NoDup_cons in Hnd as [Hx _].
  assert (forall z, z ∈ x :: y :: ids -> z = p) as Hall.
  { intros z Hz. destruct (decide (z = p)); [done|]. exfalso.
    apply (not_elem_of_nil z). rewrite <- Hf. by apply list_elem_of_filter. }
  rewrite (Hall x), (Hall y) in Hx by set_solver. set_solver.
Qed.

Lemma unindex_action_ok D a p r :
  index_ok D (action_index r) (ambiguous_actions r) ->
  index_ok (fun a' q => D a' q /\ ~ (a' = a /\ q = p))
    (action_index (unindex_action a p r)) (ambiguous_actions (unindex_action a p r)).
Proof.
  intros Hok. pose proof (Hok a) as Hat. eapply (index_ok_update _ _ _ _ _ _ a Hok).
  { intros a' Hne. unfold unindex_action.
    repeat case_match; simpl; simplify_map_eq; naive_solver. }
  unfold unindex_action, index_at in *.
  destruct (ambiguous_actions r !! a) as [ids|] eqn:Ha; simpl.
  - destruct (action_index r !! a) eqn:Hi; [done|]. destruct Hat as (Hnd & Hlen & Hin).
    pose proof (filter_length_ge2 ids p Hnd Hlen) as Hne.
    pose proof (NoDup_filter (fun id => id <> p) ids Hnd) as Hnd'.
    assert (forall q, q ∈ base.filter (fun id => id <> p) ids <-> D a q /\ q <> p) as Hin'.
    { intros q. rewrite list_elem_of_filter, Hin. tauto. }
    destruct (base.filter (fun id => id <> p) ids) as [|only [|x l]]; [done|..]; simpl.
    + rewrite !lookup_insert_eq, lookup_delete_eq. intros q.
      transitivity (D a q /\ q <> p); [tauto|]. rewrite <- Hin'. set_solver.
    + rewrite Hi. simpl. rewrite ?Hi, lookup_insert_eq. split_and!; [done|simpl; lia|].
      intros q. rewrite Hin'. tauto.
  - destruct (action_index r !! a) as [v|] eqn:Hi; simpl.
    + destruct (v =s p) eqn:Hv; boolify; simpl; rewrite ?lookup_delete_eq, ?Hi, ?Ha.
      * subst. intros q. rewrite Hat. tauto.
      * intros q. rewrite Hat. naive_solver.
    + rewrite Hi, Ha. naive_solver.
Qed.

Lemma unindex_actions_ok D l p r :
  index_ok D (action_index r) (ambiguous_actions r) ->
  index_ok (fun a q => D a q /\ ~ (a ∈ l /\ q = p))
    (action_index (unindex_actions l p r)) (ambiguous_actions (unindex_actions l p r)).
Proof.
  revert D r. induction l as [|a l IH]; intros D r Hok.
  - eapply index_ok_ext; [|exact Hok]. set_solver.
  - eapply index_ok_ext; [|apply IH, unindex_action_ok, Hok]. set_solver.
Qed.
End index.

(** ** Registration *)

(** The tail both registration paths share, from the reserved slots on. *)
Definition insert_entry (clk : Clock) (e : PluginEntry) (meta : DeviceMeta)
    (caps : list string) (r : Registry) : Registry :=
  let r := set_conns (<[pe_conn_id e := pe_plugin_id e]> (by_conn_id r)) r in
  let r := index_actions (mf_actions (pe_manifest e)) (pe_plugin_id e) r in
  let r := set_pongs (<[pe_plugin_id e := clk_now clk]> (pong_times r)) r in
  let r := upsert_device clk (pe_device_id e) meta caps r in
  set_plugins (<[pe_plugin_id e := e]> (by_plugin_id r)) r.

Lemma list_plugins_elem r e :
  e ∈ list_plugins r <-> exists p, by_plugin_id r !! p = Some e.
Proof.
  unfold list_plugins. rewrite list_elem_of_fmap. split.
  - intros ([p e'] & -> & H). exists p. by apply elem_of_map_to_list.
  - intros [p H]. exists (p, e). split; [done|]. by apply elem_of_map_to_list.
Qed.

Lemma declares_insert r e m a q :
  by_plugin_id r !! pe_plugin_id e = None ->
  by_plugin_id m = <[pe_plugin_id e := e]> (by_plugin_id r) ->
  declares m a q <->
  declares r a q \/ (a ∈ mf_actions (pe_manifest e) /\ q = pe_plugin_id e).
Proof.
  intros Hfree Hm. unfold declares. rewrite Hm.
  destruct (decide (q = pe_plugin_id e)) as [->|Hne].
  - rewrite lookup_insert_eq, Hfree. naive_solver.
  - rewrite lookup_insert_ne by done. naive_solver.
Qed.

Section insert_entry.
Context (clk : Clock) (e : PluginEntry) (meta : DeviceMeta) (caps : list string).
Context (r : Registry) (Hok : reg_ok r).
Context (Hvalid : validate_plugin_id (pe_plugin_id e) = Ok tt).
Context (Hscope : forall pre x, split_once "." (pe_plugin_id e) = Some (pre, x) ->
                    pe_device_id e = pre).
Context (Hconn : by_conn_id r !! pe_conn_id e = None).
Context (Hplug : by_plugin_id r !! pe_plugin_id e = None).

Lemma insert_entry_plugins :
  by_plugin_id (insert_entry clk e meta caps r)
  = <[pe_plugin_id e := e]> (by_plugin_id r).
Proof.
  unfold insert_entry. simpl. by destruct (index_actions_set
    (mf_actions (pe_manifest e)) (pe_plugin_id e)
    (set_conns (<[pe_conn_id e := pe_plugin_id e]> (by_conn_id r)) r))
    as (mi & ma & ->).
Qed.

Lemma insert_entry_index :
  let r' := insert_entry clk e meta caps r in
  index_ok (declares r') (action_index r') (ambiguous_actions r').
Proof.
  cbv zeta. eapply index_ok_ext.
  { intros a q. symmetry. by apply declares_insert, insert_entry_plugins. }
  apply (index_actions_ok (declares r) (mf_actions (pe_manifest e)) (pe_plugin_id e)
    (set_conns (<[pe_conn_id e := pe_plugin_id e]> (by_conn_id r)) r)).
  apply (ok_index _ Hok).
Qed.

Lemma insert_entry_ok : reg_ok (insert_entry clk e meta caps r).
Proof.
  pose proof insert_entry_index as Hidx. revert Hidx. cbv zeta.
  unfold insert_entry.
  destruct (index_actions_set (mf_actions (pe_manifest e)) (pe_plugin_id e)
    (set_conns (<[pe_conn_id e := pe_plugin_id e]> (by_conn_id r)) r))
    as (mi & ma & ->). intros Hidx. destruct Hok. split; simpl in *; [..|done|done|done|done].
  - intros c p [[<- <-]|[? Hc]]%lookup_insert_Some; [by simplify_map_eq; eauto|].
    destruct (ok_conn0 _ _ Hc) as (e' & He' & <-). exists e'.
    split; [|done]. rewrite lookup_insert_ne; [done|]. congruence.
  - intros p e' [[<- <-]|[? He]]%lookup_insert_Some; [by simplify_map_eq|].
    destruct (ok_plug0 _ _ He) as [<- Hc]. split; [done|].
    rewrite lookup_insert_ne; [done|]. congruence.
  - intros p [e' [[<- <-]|[? He]]%lookup_insert_Some]; [done|eauto].
  - intros p e' pre x [[<- <-]|[? He]]%lookup_insert_Some; [apply Hscope|eauto].
  - intros p [e' [[<- <-]|[? He]]%lookup_insert_Some]; [by simplify_map_eq|].
    rewrite lookup_insert_ne by done. eauto.
  - intros d. destruct (decide (d = pe_device_id e)) as [->|Hd].
    + rewrite lookup_insert_eq. split.
      * intros _. exists (pe_plugin_id e), e. by simplify_map_eq.
      * intros _. eexists. split; [done|]. by case_match.
    + rewrite lookup_insert_ne by done. rewrite (ok_online0 d). split.
      * intros (p & e' & He & <-). exists p, e'. split; [|done].
        rewrite lookup_insert_ne; [done|]. congruence.
      * intros (p & e' & [[<- <-]|[? He]]%lookup_insert_Some & <-); [done|eauto].
  - intros d i [[<- <-]|[? Hd]]%lookup_insert_Some; [|eauto].
    case_match eqn:Hd; simpl; [|by auto]. destruct (ok_state0 _ _ Hd); auto.
Qed.
End insert_entry.

Lemma register_with_device_cases clk p c mf tx meta r r' res :
  register_with_device clk p c mf tx meta r = (r', res) ->
  (exists err, res = Err err /\ r' = r) \/
  (res = Ok tt /\ validate_plugin_id p = Ok tt
   /\ validate_device_scope p (dm_device_id meta) = Ok tt
   /\ by_conn_id r !! c = None /\ by_plugin_id r !! p = None
   /\ r' = insert_entry clk
             (mkEntry p c mf tx (clk_wall_ms clk / 1000) Registered
                (or_default (dm_device_id meta) "local")
                (or_default (dm_user_id meta) "default"))
             meta (dm_capabilities meta) r).
Proof.
  unfold register_with_device. intros H.
  repeat case_match; simplify_eq; eauto. destruct a, a0. right. split_and!; done.
Qed.

Lemma register_device_cases clk d c caps mf tx meta r r' res :
  register_device clk d c caps mf tx meta r = (r', res) ->
  (exists err, res = Err err /\ r' = r) \/
  (res = Ok tt /\ validate_plugin_id d = Ok tt
   /\ validate_device_scope d d = Ok tt
   /\ by_conn_id r !! c = None /\ by_plugin_id r !! d = None
   /\ r' = insert_entry clk
             (mkEntry d c (with_actions (map (fun c => d +:+ "." +:+ c) caps) mf) tx
                (clk_wall_ms clk / 1000) Registered
                (or_default (dm_device_id meta) d)
                (or_default (dm_user_id meta) "default"))
             meta caps r).
Proof.
  unfold register_device. intros H.
  repeat case_match; simplify_eq; eauto. destruct a, a0. right. split_and!; done.
Qed.

Lemma device_scope_ok p d pre x :
  validate_device_scope p d = Ok tt -> split_once "." p = Some (pre, x) ->
  d = pre /\ d <> ""%string.
Proof.
  unfold validate_device_scope. intros H Hs. rewrite Hs in H.
  repeat case_match; simplify_eq. boolify. subst. by destruct d.
Qed.

Lemma device_no_dot d : validate_device_scope d d = Ok tt -> split_once "." d = None.
Proof.
  unfold validate_device_scope. intros H. apply split_once_None.
  by destruct (str_contains "." d).
Qed.

Lemma register_with_device_ok clk p c mf tx meta r :
  reg_ok r -> reg_ok (register_with_device clk p c mf tx meta r).1.
Proof.
  intros Hok. destruct (register_with_device _ _ _ _ _ _ _) as [r' res] eqn:H.
  apply register_with_device_cases in H as [(? & -> & ->)|(_ & ? & Hs & ? & ? & ->)]; [done|].
  apply insert_entry_ok; try done. simpl. intros pre x Hp.
  destruct (device_scope_ok _ _ _ _ Hs Hp) as [-> ?]. by destruct pre.
Qed.

Lemma register_device_ok clk d c caps mf tx meta r :
  reg_ok r -> reg_ok (register_device clk d c caps mf tx meta r).1.
Proof.
  intros Hok. destruct (register_device _ _ _ _ _ _ _ _) as [r' res] eqn:H.
  apply register_device_cases in H as [(? & -> & ->)|(_ & ? & Hs & ? & ? & ->)]; [done|].
  apply insert_entry_ok; try done. simpl. intros pre x Hp.
  by rewrite (device_no_dot _ Hs) in Hp.
Qed.

(** ** Removal *)
Lemma still_registered_spec r d :
  existsb (fun e => pe_device_id e =s d) (list_plugins r) = true
  <-> exists p e, by_plugin_id r !! p = Some e /\ pe_device_id e = d.
Proof.
  rewrite existsb_exists. setoid_rewrite <- list_elem_of_In.
  setoid_rewrite list_plugins_elem. setoid_rewrite str_eqb_eq. naive_solver.
Qed.

Lemma declares_delete r p e m a q :
  by_plugin_id r !! p = Some e ->
  by_plugin_id m = delete p (by_plugin_id r) ->
  declares m a q <->
  declares r a q /\ ~ (a ∈ mf_actions (pe_manifest e) /\ q = p).
Proof.
  intros He Hm. unfold declares. rewrite Hm.
  destruct (decide (q = p)) as [->|Hne].
  - rewrite lookup_delete_eq, He. naive_solver.
  - rewrite lookup_delete_ne by done. naive_solver.
Qed.

Lemma unregister_core_cases p pred r r' b :
  unregister_core p pred r = (r', b) ->
  (b = false /\ r' = r
   /\ forall e, by_plugin_id r !! p = Some e -> pred e = false) \/
  (exists e, b = true /\ by_plugin_id r !! p = Some e /\ pred e = true
   /\ by_plugin_id r' = delete p (by_plugin_id r)
   /\ by_conn_id r' = delete (pe_conn_id e) (by_conn_id r)
   /\ pending_actions r' = pending_actions r
   /\ action_requirements r' = action_requirements r).
Proof.
  unfold unregister_core. intros H.
  destruct (by_plugin_id r !! p) as [e|] eqn:He; [|simplify_eq; left; naive_solver].
  destruct (pred e) eqn:Hp; simpl in H; [|simplify_eq; left; naive_solver].
  right. exists e.
  destruct (unindex_actions_set (mf_actions (pe_manifest e)) p
    (set_pongs (delete p (pong_times r))
       (set_conns (delete (pe_conn_id e) (by_conn_id r))
          (set_plugins (delete p (by_plugin_id r)) r)))) as (mi & ma & Heq).
  rewrite Heq in H. case_match; simplify_eq/=; done.
Qed.

Lemma unregister_core_ok p pred r : reg_ok r -> reg_ok (unregister_core p pred r).1.
Proof.
  intros Hok. unfold unregister_core.
  destruct (by_plugin_id r !! p) as [e|] eqn:He; [|done].
  destruct (pred e); [|done]. simpl.
  set (r1 := set_pongs (delete p (pong_times r)) _).
  assert (index_ok (declares r1) (action_index (unindex_actions (mf_actions (pe_manifest e)) p r1))
            (ambiguous_actions (unindex_actions (mf_actions (pe_manifest e)) p r1))) as Hidx.
  { eapply index_ok_ext; [|apply (unindex_actions_ok (declares r)), (ok_index _ Hok)].
    intros a q. symmetry. by apply declares_delete. }
  destruct (unindex_actions_set (mf_actions (pe_manifest e)) p r1) as (mi & ma & Heq).
  rewrite Heq in *. clear Heq. simpl in Hidx.
  assert (Hkeep : forall q e', delete p (by_plugin_id r) !! q = Some e' ->
            q <> p /\ by_plugin_id r !! q = Some e').
  { intros q e' [? ?]%lookup_delete_Some. done. }
  destruct (existsb _ _) eqn:Hstill; [apply still_registered_spec in Hstill|].
  all: destruct Hok; destruct (ok_plug0 _ _ He) as [_ Hec]; simpl in *.
  all: split; simpl; [..|done|done|done|done].
  all: try (intros c q [Hne Hc]%lookup_delete_Some;
            destruct (ok_conn0 _ _ Hc) as (e' & He' & <-);
            exists e'; split; [|done]; rewrite lookup_delete_ne; congruence).
  all: try (intros q e' [Hne He']%Hkeep; destruct (ok_plug0 _ _ He') as [<- Hc];
            split; [done|]; rewrite lookup_delete_ne; congruence).
  all: try (intros q [e' [? ?]%Hkeep]; by eauto).
  all: try (intros q e' pre x [? ?]%Hkeep; by eauto).
  all: try (intros q [e' [Hne ?]%Hkeep]; rewrite lookup_delete_ne by done; by eauto).
  - intros d. rewrite ok_online0. destruct (decide (d = pe_device_id e)) as [->|Hd].
    + split; [done|]. intros (q & e' & [_ ?]%Hkeep & <-). eauto.
    + split; [|intros (q & e' & [_ ?]%Hkeep & <-); eauto].
      intros (q & e' & He' & <-). exists q, e'. split; [|done].
      rewrite lookup_delete_ne; [done|]. congruence.
  - done.
  - intros d. rewrite lookup_alter. case_decide as Hd.
    + subst d. split.
      * intros (i & Hi & Hon). exfalso. by destruct (devices r !! _); simplify_eq/=.
      * intros (q & e' & He' & Hdev). exfalso.
        apply not_true_iff_false in Hstill. apply Hstill, still_registered_spec. eauto.
    + rewrite ok_online0. split; [|intros (q & e' & [_ ?]%Hkeep & <-); eauto].
      intros (q & e' & He' & <-). exists q, e'. split; [|done].
      rewrite lookup_delete_ne; [done|]. congruence.
  - intros d i. rewrite lookup_alter. case_decide as Hd; [|by apply ok_state0].
    subst d. destruct (devices r !! pe_device_id e) as [i'|] eqn:Hi; simpl; [|done].
    intros [= <-]. destruct (ok_state0 _ _ Hi). simpl. auto.
Qed.

(** ** The other operations *)
Lemma record_pong_ok clk p r : reg_ok r -> reg_ok (record_pong clk p r).
Proof.
  intros Hok. destruct Hok. unfold record_pong. simpl.
  assert (Hpong : forall q, is_Some (by_plugin_id r !! q) ->
            is_Some (<[p := clk_now clk]> (pong_times r) !! q)).
  { intros q Hq. rewrite lookup_insert. case_decide; eauto. }
  destruct (by_plugin_id r !! p) as [e|] eqn:He; [|by split].
  split; simpl; try done.
  - intros d. rewrite lookup_alter. case_decide as Hd; [|apply ok_online0].
    subst d. destruct (proj2 (ok_online0 (pe_device_id e))) as (i & Hi & _); [eauto|].
    rewrite Hi. simpl. split; [eauto|]. intros _. eauto.
  - intros d i. rewrite lookup_alter. case_decide as Hd; [|apply ok_state0].
    subst d. destruct (devices r !! pe_device_id e) as [i'|] eqn:Hi; simpl; [|done].
    intros [= <-]. destruct (ok_state0 _ _ Hi). simpl. auto.
Qed.

Lemma set_pending_ok m r : reg_ok r -> reg_ok (set_pending m r).
Proof. intros []. by split. Qed.
Lemma set_gates_ok m r : reg_ok r -> reg_ok (set_gates m r).
Proof. intros []. by split. Qed.
Lemma set_requirements_ok m r : reg_ok r -> reg_ok (set_requirements m r).
Proof. intros []. by split. Qed.
#[export] Hint Resolve set_pending_ok set_gates_ok set_requirements_ok : vyn.

Lemma touch_used_ok clk p r : reg_ok r -> reg_ok (touch_used clk p r).
Proof.
  intros Hok. unfold touch_used, is_lazy. case_bool_decide as Hl; [|done].
  destruct Hok. split; simpl; try done.
  intros q. rewrite lookup_insert. case_decide; [by subst|apply ok_used0].
Qed.

(** ** Dormant records *)
Section dormant.
Implicit Types (D : string -> string -> Prop).

Lemma dormant_at_ext o P P' :
  (forall q, P q <-> P' q) -> dormant_at o P -> dormant_at o P'.
Proof. unfold dormant_at. intros HP. case_match; naive_solver. Qed.

Lemma dormant_index_ok_ext D D' ma :
  (forall a q, D a q <-> D' a q) -> dormant_index_ok D ma -> dormant_index_ok D' ma.
Proof. intros HD Hok a. eapply dormant_at_ext; [apply HD|apply Hok]. Qed.

Lemma dormant_index_ok_update D D' ma ma' a :
  dormant_index_ok D ma ->
  (forall a', a' <> a -> ma' !! a' = ma !! a' /\ forall q, D a' q <-> D' a' q) ->
  dormant_at (ma' !! a) (D' a) -> dormant_index_ok D' ma'.
Proof.
  intros Hok Hoff Hat a'. destruct (decide (a' = a)) as [->|Hne]; [done|].
  destruct (Hoff a' Hne) as (-> & HD). eapply dormant_at_ext; [done|apply Hok].
Qed.

(** A fold of per-spec updates touches [dormant_actions] only. *)
Lemma foldl_set_dormant (f : Registry -> ActionSpec -> Registry) l r :
  (forall s r, exists ma, f r s = set_dormant (dormant r) ma r) ->
  exists ma, foldl f r l = set_dormant (dormant r) ma r.
Proof.
  intros Hf. revert r. induction l as [|s l IH]; intros r; simpl.
  - exists (dormant_actions r). by destruct r.
  - destruct (Hf s r) as (ma & ->).
    destruct (IH (set_dormant (dormant r) ma r)) as (ma' & ->). by exists ma'.
Qed.

Lemma drop_dormant_spec_set p s r :
  exists ma, drop_dormant_spec p r s = set_dormant (dormant r) ma r.
Proof.
  unfold drop_dormant_spec. repeat case_match; eauto.
  exists (dormant_actions r). by destruct r.
Qed.

Lemma index_dormant_spec_set p s r :
  exists ma, index_dormant_spec p r s = set_dormant (dormant r) ma r.
Proof. unfold index_dormant_spec. eauto. Qed.

Lemma drop_dormant_spec_ok D p s r :
  dormant_index_ok D (dormant_actions r) ->
  dormant_index_ok (fun a q => D a q /\ ~ (a = as_name s /\ q = p))
    (dormant_actions (drop_dormant_spec p r s)).
Proof.
  intros Hok. pose proof (Hok (as_name s)) as Hat.
  eapply (dormant_index_ok_update _ _ _ _ (as_name s) Hok).
  { intros a' Hne. unfold drop_dormant_spec.
    repeat case_match; simpl; simplify_map_eq; naive_solver. }
  unfold drop_dormant_spec, dormant_at in *.
  destruct (dormant_actions r !! as_name s) as [ids|] eqn:Hr; simpl.
  - destruct Hat as (Hne & Hnd & Hin).
    pose proof (NoDup_filter (fun id => id <> p) ids Hnd) as Hnd'.
    assert (forall q, q ∈ base.filter (fun id => id <> p) ids
              <-> D (as_name s) q /\ q <> p) as Hin'.
    { intros q. rewrite list_elem_of_filter, Hin. tauto. }
    destruct (base.filter _ ids) as [|x l]; simpl.
    + rewrite lookup_delete_eq. intros q [HD Hq].
      apply (not_elem_of_nil q), Hin'. split; [done|]. intros ->. by apply Hq.
    + rewrite lookup_insert_eq. split_and!; [done..|].
      intros q. rewrite Hin'. naive_solver.
  - rewrite Hr. naive_solver.
Qed.

Lemma drop_dormant_specs_ok D p l r :
  dormant_index_ok D (dormant_actions r) ->
  dormant_index_ok (fun a q => D a q /\ ~ (a ∈ as_name <$> l /\ q = p))
    (dormant_actions (foldl (drop_dormant_spec p) r l)).
Proof.
  revert D r. induction l as [|s l IH]; intros D r Hok.
  - eapply dormant_index_ok_ext; [|exact Hok]. set_solver.
  - eapply dormant_index_ok_ext; [|apply IH, drop_dormant_spec_ok, Hok]. set_solver.
Qed.

Lemma index_dormant_spec_ok D p s r :
  dormant_index_ok D (dormant_actions r) ->
  dormant_index_ok (fun a q => D a q \/ (a = as_name s /\ q = p))
    (dormant_actions (index_dormant_spec p r s)).
Proof.
  intros Hok. pose proof (Hok (as_name s)) as Hat.
  eapply (dormant_index_ok_update _ _ _ _ (as_name s) Hok).
  { intros a' Hne. unfold index_dormant_spec. simpl.
    rewrite lookup_insert_ne by done. naive_solver. }
  unfold index_dormant_spec, dormant_at in *. simpl. rewrite lookup_insert_eq.
  destruct (dormant_actions r !! as_name s) as [ids|]; simpl.
  - destruct Hat as (Hne & Hnd & Hin). destruct (str_mem p ids) eqn:Hp; boolify.
    + split_and!; [done..|]. intros q. rewrite Hin. split; [tauto|].
      intros [?|[_ ->]]; [done|by apply Hin].
    + split_and!; [by destruct ids| |].
      * apply NoDup_app. split_and!; [done| |apply NoDup_singleton]. set_solver.
      * intros q. rewrite elem_of_app, Hin, list_elem_of_singleton. tauto.
  - split_and!; [done|apply NoDup_singleton|]. intros q.
    rewrite list_elem_of_singleton. naive_solver.
Qed.

Lemma index_dormant_specs_ok D p l r :
  dormant_index_ok D (dormant_actions r) ->
  dormant_index_ok (fun a q => D a q \/ (a ∈ as_name <$> l /\ q = p))
    (dormant_actions (foldl (index_dormant_spec p) r l)).
Proof.
  revert D r. induction l as [|s l IH]; intros D r Hok.
  - eapply dormant_index_ok_ext; [|exact Hok]. set_solver.
  - eapply dormant_index_ok_ext; [|apply IH, index_dormant_spec_ok, Hok]. set_solver.
Qed.

Lemma drop_dormant_actions_set p r :
  exists ma, drop_dormant_actions p r = set_dormant (delete p (dormant r)) ma r.
Proof.
  unfold drop_dormant_actions. destruct (dormant r !! p) as [old|] eqn:Hp.
  - destruct (foldl_set_dormant (drop_dormant_spec p) (dp_action_specs old)
      (set_dormant (delete p (dormant r)) (dormant_actions r) r)) as (ma & ->);
      [intros; apply drop_dormant_spec_set|]. by exists ma.
  - exists (dormant_actions r). rewrite delete_id by done. by destruct r.
Qed.

Lemma drop_dormant_actions_ok p r :
  dormant_index_ok (dormant_declares r) (dormant_actions r) ->
  dormant_index_ok (fun a q => dormant_declares r a q /\ q <> p)
    (dormant_actions (drop_dormant_actions p r)).
Proof.
  intros Hok. unfold drop_dormant_actions.
  destruct (dormant r !! p) as [old|] eqn:Hp.
  - eapply dormant_index_ok_ext;
      [|apply (drop_dormant_specs_ok (dormant_declares r)), Hok].
    intros a q. unfold dormant_declares, spec_names. naive_solver.
  - eapply dormant_index_ok_ext; [|done]. unfold dormant_declares. naive_solver.
Qed.

Lemma register_dormant_ok d r : reg_ok r -> reg_ok (register_dormant d r).
Proof.
  intros Hok. unfold register_dormant.
  pose proof (drop_dormant_actions_ok (dp_plugin_id d) r (ok_dormant _ Hok)) as H1.
  destruct (drop_dormant_actions_set (dp_plugin_id d) r) as (ma & Heq).
  rewrite Heq in *. clear Heq.
  pose proof (index_dormant_specs_ok _ (dp_plugin_id d) (dp_action_specs d) _ H1) as H2.
  destruct (foldl_set_dormant (index_dormant_spec (dp_plugin_id d)) (dp_action_specs d)
    (set_dormant (delete (dp_plugin_id d) (dormant r)) ma r)) as (ma' & Heq);
    [intros; apply index_dormant_spec_set|].
  rewrite Heq in *. clear Heq. destruct Hok. simpl in *.
  split; simpl; try done.
  - rewrite insert_delete_eq. eapply dormant_index_ok_ext; [|exact H2].
    intros a q. unfold dormant_declares, spec_names. simpl.
    rewrite lookup_insert. case_decide; naive_solver.
  - intros p d'. rewrite insert_delete_eq.
    intros [[<- <-]|[? ?]]%lookup_insert_Some; eauto.
  - intros p Hp. rewrite insert_delete_eq, lookup_insert. case_decide; eauto.
Qed.
End dormant.
