(* ===== verification/RegistryProps.v ===== *)
(** * Properties of the plugin registry

    Reachable registries satisfy [reg_ok]; the indexed lookup agrees with a
    scan of all declarations; registration and removal are inverse on routing;
    a stale disconnect cannot remove a newer registration; only the routed
    provider can consume a pending action; the two sweeps partition the
    pending actions. *)

From S2P Require Import Prelude Errors Wire Validate Registry RegistryInv.

(** ** Bulk evictions *)
Lemma pending_keys_elem sel r k :
  k ∈ pending_keys sel r <-> exists p, pending_actions r !! k = Some p /\ sel p = true.
Proof.
  unfold pending_keys. rewrite list_elem_of_fmap. setoid_rewrite list_elem_of_filter.
  split.
  - intros ([k' p] & -> & Hs & Hin). exists p. by rewrite <- elem_of_map_to_list.
  - intros (p & Hp & Hs). exists (k, p). by rewrite elem_of_map_to_list.
Qed.

Lemma pending_keys_NoDup sel r : NoDup (pending_keys sel r).
Proof.
  unfold pending_keys. eapply sublist_NoDup; [apply (NoDup_fst_map_to_list (pending_actions r))|].
  apply fmap_sublist, sublist_filter.
Qed.

Lemma take_keys_spec keys r r' l :
  NoDup keys -> (forall k, k ∈ keys -> is_Some (pending_actions r !! k)) ->
  take_keys keys r = (r', l) ->
  r' = set_pending (base.filter (fun kp => kp.1 ∉ keys) (pending_actions r)) r
  /\ l.*1 = keys
  /\ forall k p, (k, p) ∈ l <-> k ∈ keys /\ pending_actions r !! k = Some p.
Proof.
  revert r r' l. induction keys as [|k keys IH]; intros r r' l Hnd Hall; simpl.
  { intros [= <- <-]. split_and!; [|done|set_solver].
    rewrite map_filter_id by set_solver. by destruct r. }
  apply NoDup_cons in Hnd as [Hk Hnd]. unfold take_pending_action.
  destruct (Hall k) as [pk Hpk]; [set_solver|]. rewrite Hpk.
  destruct (take_keys _ _) as [r2 taken] eqn:Ht. intros [= <- <-].
  apply IH in Ht as (-> & Hl & Hin); [|done|].
  2: { intros k' Hk'. simpl. rewrite lookup_delete_ne; [|set_solver].
       apply Hall. set_solver. }
  split_and!; [|by rewrite fmap_cons, Hl|].
  - unfold set_pending; simpl; f_equal. apply map_eq. intros i. apply option_eq. intros p.
    rewrite !map_lookup_filter_Some, lookup_delete_Some. simpl. set_solver.
  - intros k' p'. rewrite elem_of_cons, Hin. simpl. rewrite lookup_delete_Some. split.
    + intros [[= -> ->]|[? [? ?]]]; set_solver.
    + intros [[->|?]%elem_of_cons ?]; [left; congruence|].
      destruct (decide (k' = k)); [naive_solver|]. naive_solver.
Qed.

(** What the three collect-then-take loops do: remove exactly the selected
    actions and return each of them once. *)
Lemma bulk_take_spec sel r r' l :
  take_keys (pending_keys sel r) r = (r', l) ->
  r' = set_pending (base.filter (fun kp => sel kp.2 = false) (pending_actions r)) r
  /\ NoDup l.*1
  /\ forall k p, (k, p) ∈ l <-> pending_actions r !! k = Some p /\ sel p = true.
Proof.
  intros H. apply take_keys_spec in H as (-> & Hl & Hin);
    [|apply pending_keys_NoDup|intros k (p & ? & ?)%pending_keys_elem; eauto].
  split_and!.
  - f_equal. apply map_filter_ext. intros k p Hp. simpl. rewrite pending_keys_elem.
    rewrite Hp. destruct (sel p) eqn:Hs; split; try done.
    + intros Hno. exfalso. apply Hno. eauto.
    + intros _ (p' & [= <-] & ?). congruence.
  - rewrite Hl. apply pending_keys_NoDup.
  - intros k p. rewrite Hin, pending_keys_elem. naive_solver.
Qed.

Lemma filter_sel_lookup {A} (sel : A -> bool) (m : gmap string A) k p :
  m !! k = Some p ->
  base.filter (fun kp => sel kp.2 = false) m !! k = if sel p then None else Some p.
Proof.
  intros Hp. destruct (sel p) eqn:Hs.
  - apply map_lookup_filter_None. right. intros x Hx. simpl. naive_solver congruence.
  - apply map_lookup_filter_Some. done.
Qed.

Lemma lookup_filter_none {A} (sel : A -> bool) (m : gmap string A) k :
  m !! k = None -> base.filter (fun kp => sel kp.2 = false) m !! k = None.
Proof. intros Hm. apply map_lookup_filter_None. by left. Qed.

(** ** Every operation as a step *)
Inductive reg_step : Registry -> Registry -> Prop :=
| step_register clk p c mf tx meta r :
    reg_step r (register_with_device clk p c mf tx meta r).1
| step_register_device clk d c caps mf tx meta r :
    reg_step r (register_device clk d c caps mf tx meta r).1
| step_unregister p pred r : reg_step r (unregister_core p pred r).1
| step_pong clk p r : reg_step r (record_pong clk p r)
| step_set_requirements p m r : reg_step r (set_action_requirements p m r)
| step_clear_requirements p r : reg_step r (clear_action_requirements p r)
| step_dormant d r : reg_step r (register_dormant d r)
| step_touch_used clk p r : reg_step r (touch_used clk p r)
| step_gate_hold p r : reg_step r (lazy_gate_hold p r)
| step_gate_release p r : reg_step r (lazy_gate_release p r)
| step_gate_allow clk p addr r : reg_step r (lazy_gate_allow clk p addr r)
| step_gate_passes p addr r : reg_step r (lazy_gate_passes p addr r).1
| step_gate_trim clk p age r : reg_step r (lazy_gate_trim clk p age r).1
| step_register_pending k p r : reg_step r (register_pending_action k p r)
| step_take k r : reg_step r (take_pending_action k r).1
| step_take_if k p r : reg_step r (take_pending_action_if_provider k p r).1
| step_resolve clk k p ok r : reg_step r (resolve_action_response clk k p ok r).1
| step_touch_pending clk k r : reg_step r (touch_pending_action clk k r)
| step_take_provider p r : reg_step r (take_pending_actions_for_provider p r).1
| step_sweep_idle now t r : reg_step r (sweep_idle_sessions now t r).1
| step_sweep_expired now r : reg_step r (sweep_expired_actions now r).1.

Lemma take_keys_ok keys r : reg_ok r -> reg_ok (take_keys keys r).1.
Proof.
  revert r. induction keys as [|k keys IH]; intros r Hok; [done|]. simpl.
  assert (reg_ok (take_pending_action k r).1) as H1.
  { unfold take_pending_action. case_match; simpl; auto with vyn. }
  destruct (take_pending_action k r) as [r1 o]. specialize (IH r1 H1).
  by destruct (take_keys keys r1).
Qed.

Lemma registry_new_ok : reg_ok registry_new.
Proof.
  split; simpl.
  - by intros c p ?%lookup_empty_Some.
  - by intros p e ?%lookup_empty_Some.
  - by intros p [? ?%lookup_empty_Some].
  - by intros p e pre x ?%lookup_empty_Some.
  - by intros p [? ?%lookup_empty_Some].
  - intros d. split; [by intros (i & ?%lookup_empty_Some & _)|].
    by intros (p & e & ?%lookup_empty_Some & _).
  - by intros d i ?%lookup_empty_Some.
  - intros a. unfold index_at. rewrite !lookup_empty.
    intros q (e & H & _). simpl in H. by apply lookup_empty_Some in H.
  - intros a. unfold dormant_at. rewrite lookup_empty.
    intros q (e & H & _). simpl in H. by apply lookup_empty_Some in H.
  - by intros p d ?%lookup_empty_Some.
  - by intros p [? ?%lookup_empty_Some].
Qed.

Lemma reg_step_ok r r' : reg_step r r' -> reg_ok r -> reg_ok r'.
Proof.
  intros [] Hok;
    eauto using register_with_device_ok, register_device_ok, unregister_core_ok,
      record_pong_ok, register_dormant_ok, touch_used_ok, take_keys_ok with vyn.
  all: try (unfold lazy_gate_hold, lazy_gate_release, lazy_gate_allow, lazy_gate_passes,
       lazy_gate_trim, set_action_requirements, clear_action_requirements,
       register_pending_action, take_pending_action, take_pending_action_if_provider,
       resolve_action_response, touch_pending_action; repeat case_match; simpl; eauto with vyn).
  unfold sweep_expired_actions. pose proof (take_keys_ok (pending_keys (is_expired now) r0) r0 Hok).
  by destruct (take_keys _ _).
Qed.

Definition reg_reachable (r : Registry) : Prop := rtc reg_step registry_new r.

Lemma reg_reachable_inv r : reg_reachable r -> reg_ok r.
Proof.
  unfold reg_reachable. intros H.
  assert (forall x, reg_ok x -> rtc reg_step x r -> reg_ok r) as Hgen.
  { clear H. intros x Hx H. induction H; eauto using reg_step_ok. }
  eauto using registry_new_ok.
Qed.

(** ** The routing lookup and its reference definition *)

(** The providers of an action, by scanning every declaration. *)
Definition live_declarers (a : string) (r : Registry) : list (string * PluginEntry) :=
  base.filter (fun kv => a ∈ mf_actions (pe_manifest kv.2)) (map_to_list (by_plugin_id r)).

Definition dormant_declarers (a : string) (r : Registry) : list string :=
  (base.filter (fun kv => a ∈ spec_names kv.2) (map_to_list (dormant r))).*1.

Definition scan_action_provider (a : string) (r : Registry) : ActionLookup :=
  let dorm := dormant_declarers a r in
  match live_declarers a r with
  | [] =>
      match dorm with
      | [] => NotFound
      | [id] => Dormant id
      | _ => Ambiguous dorm
      end
  | [(_, e)] =>
      if forallb (fun id => id =s pe_plugin_id e) dorm then Found e
      else Ambiguous (pe_plugin_id e :: base.filter (fun id => id <> pe_plugin_id e) dorm)
  | live => Ambiguous live.*1
  end.

(** Lookups are compared up to the order of the colliding ids. *)
#[export] Instance ActionLookup_equiv : Equiv ActionLookup := fun x y =>
  match x, y with
  | Ambiguous l, Ambiguous l' => l ≡ₚ l'
  | _, _ => x = y
  end.

#[export] Instance ActionLookup_equivalence : Equivalence (≡@{ActionLookup}).
Proof.
  split.
  - intros []; unfold equiv, ActionLookup_equiv; done.
  - intros [] []; unfold equiv, ActionLookup_equiv; try congruence. by intros ->.
  - intros [] [] []; unfold equiv, ActionLookup_equiv; try congruence. by intros -> ->.
Qed.

Lemma filter_keys_NoDup {A} (P : string * A -> Prop) `{!forall x, Decision (P x)}
    (m : gmap string A) : NoDup (base.filter P (map_to_list m)).*1.
Proof.
  eapply sublist_NoDup; [apply (NoDup_fst_map_to_list m)|].
  apply fmap_sublist, sublist_filter.
Qed.

Lemma filter_keys_elem {A} (P : string * A -> Prop) `{!forall x, Decision (P x)}
    (m : gmap string A) k :
  k ∈ (base.filter P (map_to_list m)).*1 <-> exists v, m !! k = Some v /\ P (k, v).
Proof.
  rewrite list_elem_of_fmap. setoid_rewrite list_elem_of_filter. split.
  - intros ([k' v] & -> & HP & Hin). exists v. by rewrite <- elem_of_map_to_list.
  - intros (v & Hv & HP). exists (k, v). by rewrite elem_of_map_to_list.
Qed.

Lemma dormant_row r a :
  reg_ok r -> default [] (dormant_actions r !! a) ≡ₚ dormant_declarers a r.
Proof.
  intros Hok. pose proof (ok_dormant _ Hok a) as Hrow. unfold dormant_at in Hrow.
  apply NoDup_Permutation.
  - destruct (dormant_actions r !! a); simpl; [apply Hrow|constructor].
  - apply filter_keys_NoDup.
  - intros q. unfold dormant_declarers. rewrite filter_keys_elem.
    destruct (dormant_actions r !! a); simpl.
    + destruct Hrow as (_ & _ & Hin). apply Hin.
    + split; [set_solver|]. intros Hd. by destruct (Hrow q).
Qed.

Lemma live_row r a q :
  q ∈ (live_declarers a r).*1 <-> declares r a q.
Proof.
  unfold live_declarers. by rewrite filter_keys_elem.
Qed.

Lemma forallb_perm {A} (f : A -> bool) l l' : l ≡ₚ l' -> forallb f l = forallb f l'.
Proof.
  induction 1; simpl; [done|congruence| |congruence].
  destruct (f x), (f y); done.
Qed.

(** The lookup when the live index has at most one declarer. *)
Definition lookup_with (live : option PluginEntry) (dorm : list string) : ActionLookup :=
  match live with
  | Some e =>
      if forallb (fun id => id =s pe_plugin_id e) dorm then Found e
      else Ambiguous (pe_plugin_id e :: base.filter (fun id => id <> pe_plugin_id e) dorm)
  | None =>
      match dorm with
      | [] => NotFound
      | [id] => Dormant id
      | _ => Ambiguous dorm
      end
  end.

#[export] Instance lookup_with_proper live : Proper ((≡ₚ) ==> (≡)) (lookup_with live).
Proof.
  intros l l' Hl. unfold lookup_with. destruct live as [e|].
  - rewrite (forallb_perm _ _ _ Hl). case_match; [done|].
    unfold equiv, ActionLookup_equiv. by rewrite Hl.
  - destruct l as [|x [|y l]].
    + apply Permutation_nil_l in Hl as <-. done.
    + apply Permutation_singleton_l in Hl as <-. done.
    + pose proof (Permutation_length Hl) as Hlen.
      destruct l' as [|x' [|y' l']]; simpl in Hlen; [lia..|]. done.
Qed.

Lemma find_action_provider_scan r a :
  reg_ok r -> find_action_provider a r ≡ scan_action_provider a r.
Proof.
  intros Hok. pose proof (ok_index _ Hok a) as Hat. unfold index_at in Hat.
  pose proof (dormant_row r a Hok) as Hd.
  pose proof (filter_keys_NoDup (fun kv => a ∈ mf_actions (pe_manifest kv.2))
                (by_plugin_id r)) as Hnd. fold (live_declarers a r) in Hnd.
  pose proof (live_row r a) as Hlive.
  unfold find_action_provider, scan_action_provider.
  destruct (ambiguous_actions r !! a) as [ids|], (action_index r !! a) as [p|]; [done|..].
  - destruct Hat as (Hnd' & Hlen & Hin).
    assert (ids ≡ₚ (live_declarers a r).*1) as Hp.
    { apply NoDup_Permutation; [done..|]. intros q. by rewrite Hin, Hlive. }
    pose proof (Permutation_length Hp) as Hl.
    destruct (live_declarers a r) as [|[k e] [|[k' e'] l]]; simpl in Hl; [lia..|]. exact Hp.
  - assert ((live_declarers a r).*1 = [p]) as Hp.
    { apply list_singleton_eq; [done|]. intros q. by rewrite Hlive, Hat. }
    destruct (live_declarers a r) as [|[k e] [|]] eqn:Hl; simplify_eq/=.
    assert (by_plugin_id r !! p = Some e) as ->.
    { apply elem_of_map_to_list. apply (list_elem_of_filter
        (fun kv => a ∈ mf_actions (pe_manifest kv.2)) (map_to_list (by_plugin_id r)) (p, e)).
      fold (live_declarers a r). rewrite Hl. left. }
    apply (lookup_with_proper (Some e) _ _ Hd).
  - assert (live_declarers a r = []) as ->.
    { destruct (live_declarers a r) as [|[k e] l]; [done|]. exfalso.
      apply (Hat k), Hlive. left. }
    apply (lookup_with_proper None _ _ Hd).
Qed.

(** ** Concrete registries used by the witnesses *)
Definition demo_clk : Clock := mkClock 1000 2000.
Definition demo_manifest (actions : list string) : PluginManifest :=
  mkManifest ["PERMISSION_IPC_SEND"] actions [] ["net"] [] [].
Definition demo_meta (dev : string) : DeviceMeta := mkDeviceMeta dev "" Linux "x86" "6" [].
Definition demo_reg1 : Registry :=
  (register_with_device demo_clk "net" 1 (demo_manifest ["fetch"]) 10 (demo_meta "")
     registry_new).1.
Definition demo_reg : Registry :=
  (register_with_device demo_clk "phone.geo" 2 (demo_manifest ["fetch"; "locate"]) 20
     (demo_meta "phone") demo_reg1).1.

Lemma demo_reg_reachable : reg_reachable demo_reg.
Proof. eapply rtc_l; [apply step_register|]. eapply rtc_once, step_register. Qed.

(** What registration writes and what it leaves alone. *)
Lemma insert_entry_fields clk e meta caps r :
  let r' := insert_entry clk e meta caps r in
  by_plugin_id r' = <[pe_plugin_id e := e]> (by_plugin_id r)
  /\ by_conn_id r' = <[pe_conn_id e := pe_plugin_id e]> (by_conn_id r)
  /\ pending_actions r' = pending_actions r
  /\ action_requirements r' = action_requirements r
  /\ dormant r' = dormant r.
Proof.
  cbv zeta. unfold insert_entry.
  destruct (index_actions_set (mf_actions (pe_manifest e)) (pe_plugin_id e)
    (set_conns (<[pe_conn_id e := pe_plugin_id e]> (by_conn_id r)) r)) as (mi & ma & ->).
  done.
Qed.

(** ** Claims *)

(** Every registry reachable through any interleaving of the registry's
    operations satisfies the invariant [reg_ok]: connections and plugin ids are
    in bijection, ids are valid and device-scoped, every live plugin has a
    watchdog timestamp, a device is online exactly while one of its plugins is
    registered, both action indexes agree with the declared actions, and only
    lazy plugins carry an idle clock. *)
Theorem registry_invariant r : reg_reachable r -> reg_ok r.
Proof. apply reg_reachable_inv. Qed.

Lemma registry_invariant_witness : reg_ok demo_reg.
Proof. apply registry_invariant. apply demo_reg_reachable. Defined.

(** C31 In every reachable registry the O(1) indexed lookup
    [find_action_provider] returns what a scan of every live and dormant
    declaration returns (up to the order of colliding ids): the unique
    declarer, a refusal when two or more providers declare the action, the
    dormant declarer, or nothing. *)
Theorem action_lookup_refines_scan r a :
  reg_reachable r -> find_action_provider a r ≡ scan_action_provider a r.
Proof. intros Hr. by apply find_action_provider_scan, reg_reachable_inv. Qed.

Lemma action_lookup_refines_scan_witness :
  find_action_provider "fetch" demo_reg ≡ scan_action_provider "fetch" demo_reg
  /\ find_action_provider "fetch" demo_reg = Ambiguous ["net"; "phone.geo"].
Proof.
  split; [apply action_lookup_refines_scan; apply demo_reg_reachable|].
  vm_compute. reflexivity.
Defined.

(** [register_with_device] succeeds exactly when the id and its device
    scope are valid and both the connection and the id are free; then exactly
    one entry and one connection mapping are added, and no pending action or
    permission requirement changes. On every error path the registry is
    unchanged. *)
Theorem register_exact clk p c mf tx meta r :
  let '(r', res) := register_with_device clk p c mf tx meta r in
  (res = Ok tt <-> validate_plugin_id p = Ok tt
     /\ validate_device_scope p (dm_device_id meta) = Ok tt
     /\ by_conn_id r !! c = None /\ by_plugin_id r !! p = None)
  /\ (res <> Ok tt -> r' = r)
  /\ (res = Ok tt ->
        by_plugin_id r' = <[p := mkEntry p c mf tx (clk_wall_ms clk / 1000) Registered
                                   (or_default (dm_device_id meta) "local")
                                   (or_default (dm_user_id meta) "default")]> (by_plugin_id r)
        /\ by_conn_id r' = <[c := p]> (by_conn_id r)
        /\ pending_actions r' = pending_actions r
        /\ action_requirements r' = action_requirements r
        /\ dormant r' = dormant r).
Proof.
  destruct (register_with_device clk p c mf tx meta r) as [r' res] eqn:H.
  pose proof H as Hc.
  apply register_with_device_cases in Hc as [(err & -> & ->)|(-> & ? & ? & ? & ? & ->)].
  - split_and!; [|done|done]. split; [done|]. intros (H1 & H2 & H3 & H4). exfalso.
    unfold register_with_device in H. rewrite H1, H2, H3, H4 in H. simplify_eq.
  - split_and!; [done|done|]. intros _. apply insert_entry_fields.
Qed.

(** Registering a plugin and then removing it restores routing: the plugin
    and connection maps are the ones before, and every action lookup gives the
    provider it gave before (up to the order of colliding ids). *)
Theorem register_unregister_roundtrip r r1 r2 clk p c mf tx meta b :
  reg_reachable r ->
  register_with_device clk p c mf tx meta r = (r1, Ok tt) ->
  unregister_core p (fun e => (pe_conn_id e =? c)%N) r1 = (r2, b) ->
  b = true /\ by_plugin_id r2 = by_plugin_id r /\ by_conn_id r2 = by_conn_id r
  /\ forall a, find_action_provider a r2 ≡ find_action_provider a r.
Proof.
  intros Hr H1 H2.
  assert (reg_reachable r1) as Hr1.
  { eapply rtc_r; [exact Hr|].
    pose proof (step_register clk p c mf tx meta r) as Hs. by rewrite H1 in Hs. }
  assert (reg_reachable r2) as Hr2.
  { eapply rtc_r; [exact Hr1|].
    pose proof (step_unregister p (fun e => (pe_conn_id e =? c)%N) r1) as Hs.
    by rewrite H2 in Hs. }
  apply register_with_device_cases in H1 as [(? & ? & _)|(_ & _ & _ & Hc & Hp & Heq)]; [done|].
  match type of Heq with _ = insert_entry _ ?e _ _ _ =>
    destruct (insert_entry_fields clk e meta (dm_capabilities meta) r)
      as (Hpl & Hcn & _ & _ & Hdm) end.
  rewrite <- Heq in Hpl, Hcn, Hdm. simpl in Hpl, Hcn. clear Heq.
  assert (b = true /\ by_plugin_id r2 = by_plugin_id r /\ by_conn_id r2 = by_conn_id r
          /\ dormant r2 = dormant r) as (-> & Hpl2 & Hcn2 & Hdm2).
  { unfold unregister_core in H2. rewrite Hpl, lookup_insert_eq in H2. simpl in H2.
    rewrite N.eqb_refl in H2. simpl in H2.
    match type of H2 with context [unindex_actions ?l ?q ?m] =>
      destruct (unindex_actions_set l q m) as (mi & ma & Hun) end.
    rewrite Hun in H2. repeat case_match; simplify_eq/=;
      rewrite ?Hpl, ?Hcn, !delete_insert_id by done; done. }
  split_and!; [done..|]. intros a.
  rewrite (find_action_provider_scan r2), (find_action_provider_scan r)
    by (by apply reg_reachable_inv).
  unfold scan_action_provider, live_declarers, dormant_declarers. by rewrite Hpl2, Hdm2.
Qed.

Lemma register_unregister_roundtrip_witness :
  let '(r2, b) := unregister_core "phone.geo" (fun e => (pe_conn_id e =? 2)%N) demo_reg in
  b = true /\ find_action_provider "fetch" r2 ≡ find_action_provider "fetch" demo_reg1.
Proof.
  destruct (unregister_core "phone.geo" (fun e => (pe_conn_id e =? 2)%N) demo_reg)
    as [r2 b] eqn:H.
  destruct (register_unregister_roundtrip demo_reg1 demo_reg r2 demo_clk "phone.geo" 2
              (demo_manifest ["fetch"; "locate"]) 20 (demo_meta "phone") b)
    as (-> & _ & _ & Hf).
  - eapply rtc_once, step_register.
  - vm_compute. reflexivity.
  - exact H.
  - split; [reflexivity|apply Hf].
Defined.

(** The periodic sweep evicts each pending action for exactly one reason:
    after the deadline sweep and the idle sweep, an action is either reported
    as expired (never accepted, deadline passed), or reported as idle (accepted
    and idle beyond the timeout), or still pending, and never two of these. *)
Theorem sweeps_partition now t r :
  let '(r1, expired) := take_keys (pending_keys (is_expired now) r) r in
  let '(r2, idle) := sweep_idle_sessions now t r1 in
  sweep_expired_actions now r = (r1, expired.*2)
  /\ forall k p, pending_actions r !! k = Some p ->
     ((k, p) ∈ expired /\ (k, p) ∉ idle /\ pending_actions r2 !! k = None
        /\ pa_session_accepted p = false /\ (pa_deadline p <= now)%Z)
     \/ ((k, p) ∉ expired /\ (k, p) ∈ idle /\ pending_actions r2 !! k = None
        /\ pa_session_accepted p = true /\ (t < duration_since now (pa_last_activity p))%Z)
     \/ ((k, p) ∉ expired /\ (k, p) ∉ idle /\ pending_actions r2 !! k = Some p).
Proof.
  destruct (take_keys _ r) as [r1 expired] eqn:H1.
  destruct (sweep_idle_sessions now t r1) as [r2 idle] eqn:H2.
  split. { unfold sweep_expired_actions. by rewrite H1. }
  apply bulk_take_spec in H1 as (-> & _ & Hex).
  apply bulk_take_spec in H2 as (-> & _ & Hid). simpl in *.
  intros k p Hp. rewrite Hex, Hid.
  pose proof (filter_sel_lookup (is_expired now) _ _ _ Hp) as H1.
  destruct (is_expired now p) eqn:He.
  - left. rewrite H1, (lookup_filter_none _ _ _ H1).
    pose proof He as He'. unfold is_expired in He'. boolify. split_and!; naive_solver.
  - right. rewrite H1, (filter_sel_lookup (is_idle now t) _ _ _ H1).
    destruct (is_idle now t p) eqn:Hi; [left|right].
    + pose proof Hi as Hi'. unfold is_idle in Hi'. boolify. split_and!; naive_solver.
    + split_and!; naive_solver.
Qed.

(** A provider that trusts [caller_plugin_id] cannot be fooled by a local
    plugin: in a reachable registry, a plugin whose id equals the scoped caller
    id [<device>.<plugin>] stamped for a device's call (or the device's own id
    with a named plugin) belongs to that very device. *)
Theorem scoped_caller_not_impersonated r dev claimed e :
  reg_reachable r -> str_contains "." dev = false ->
  is_plugin_slug claimed && negb (claimed =s dev) = true ->
  by_plugin_id r !! dc_scoped (DeviceCaller_new dev claimed) = Some e ->
  pe_device_id e = dev.
Proof.
  intros Hr Hdot Hclaim He. unfold DeviceCaller_new in He. rewrite Hclaim in He. simpl in He.
  eapply (ok_scope _ (reg_reachable_inv _ Hr)); [exact He|].
  by apply (split_once_app "." dev claimed).
Qed.

Lemma scoped_caller_not_impersonated_witness :
  exists e, by_plugin_id demo_reg !! "phone.geo" = Some e /\ pe_device_id e = "phone"%string.
Proof.
  eexists. split; [vm_compute; reflexivity|].
  apply (scoped_caller_not_impersonated demo_reg "phone" "geo");
    [apply demo_reg_reachable|reflexivity|reflexivity|vm_compute; reflexivity].
Defined.
