(* ===== verification/Events.v ===== *)
(** * Event bus subscriptions and the event store
    (src/events/bus.rs, src/events/store.rs)

    The two subscription maps of [EventBus] and the SQLite table of
    [EventStore] as a finite map from [event_id] (its primary key) to rows. A
    statement that fails leaves the table unchanged: each store operation takes
    the outcome of its statements as a boolean. *)

From S2P Require Import Prelude Errors Wire.

(** ** Subscriptions *)
Record EventBus := mkBus {
  subscriptions : gmap string (gset string);
  by_plugin : gmap string (gset string)
}.

Definition bus_new : EventBus := mkBus ∅ ∅.

Definition row_of (k : string) (m : gmap string (gset string)) : gset string :=
  default ∅ (m !! k).

(** [entry(event_type).or_default().insert(plugin_id)] for each type *)
Definition add_subscriber (plugin_id : string) (m : gmap string (gset string))
    (event_type : string) : gmap string (gset string) :=
  <[event_type := {[plugin_id]} ∪ row_of event_type m]> m.

Definition subscribe (plugin_id : string) (event_types : list string) (b : EventBus)
    : EventBus :=
  mkBus (foldl (add_subscriber plugin_id) (subscriptions b) event_types)
    (<[plugin_id := row_of plugin_id (by_plugin b) ∪ list_to_set event_types]> (by_plugin b)).

(** [if let Some(subs) = subscriptions.get_mut(t) { subs.remove(plugin_id) }] *)
Definition drop_subscriber (plugin_id : string) (m : gmap string (gset string))
    (event_type : string) : gmap string (gset string) :=
  alter (fun s => s ∖ {[plugin_id]}) event_type m.

Definition unsubscribe (plugin_id : string) (event_types : list string) (b : EventBus)
    : EventBus :=
  mkBus (foldl (drop_subscriber plugin_id) (subscriptions b) event_types)
    (alter (fun s => s ∖ list_to_set event_types) plugin_id (by_plugin b)).

Definition unsubscribe_all (plugin_id : string) (b : EventBus) : EventBus :=
  match by_plugin b !! plugin_id with
  | None => b
  | Some types =>
      mkBus (foldl (drop_subscriber plugin_id) (subscriptions b) (elements types))
        (delete plugin_id (by_plugin b))
  end.

Definition subscribers (event_type : string) (b : EventBus) : list string :=
  elements (row_of event_type (subscriptions b)).

(** The targets [deliver] computes: exact subscribers and wildcards. *)
Definition event_targets (event_type : string) (b : EventBus) : gset string :=
  row_of event_type (subscriptions b) ∪ row_of "*" (subscriptions b).

(** ** The event store *)
Inductive RowStatus := Pending | Delivered | Dead.

#[export] Instance RowStatus_eq_dec : EqDecision RowStatus.
Proof. solve_decision. Defined.

Record EventRow := mkRow {
  row_event_type : string;
  row_payload_json : bytes;
  row_status : RowStatus;
  row_created_at : Z;
  row_retry_count : Z
}.

Abbreviation EventStore := (gmap string EventRow).

(** [INSERT OR IGNORE ... VALUES (..., 'pending', now, 0)] *)
Definition persist (ok : bool) (now_secs : Z) (e : Event) (s : EventStore) : EventStore :=
  if ok then
    match s !! ev_event_id e with
    | Some _ => s
    | None => <[ev_event_id e := mkRow (ev_event_type e) (ev_payload_json e)
                                   Pending now_secs 0]> s
    end
  else s.

(** [UPDATE events SET status='delivered' WHERE event_id=?1] *)
Definition mark_delivered (ok : bool) (event_id : string) (s : EventStore) : EventStore :=
  if ok then
    alter (fun r => mkRow (row_event_type r) (row_payload_json r) Delivered
                      (row_created_at r) (row_retry_count r)) event_id s
  else s.

Definition event_of_row (k : string) (r : EventRow) : Event :=
  mkEvent k (row_event_type r) (row_payload_json r)
    (row_retry_count r mod (u32_max + 1)).

(** [SELECT ... WHERE status='pending' AND created_at <= threshold] *)
Definition pending_older_than (ok : bool) (now_secs age_secs : Z) (s : EventStore)
    : list Event :=
  let threshold := saturating_sub now_secs age_secs in
  if ok then
    (fun kr => event_of_row kr.1 kr.2) <$>
      base.filter (fun kr => row_status kr.2 = Pending
                             /\ (row_created_at kr.2 <= threshold)%Z) (map_to_list s)
  else [].

Definition prunable (cutoff : Z) (r : EventRow) : bool :=
  bool_decide (row_status r <> Pending) && (row_created_at r <=? cutoff)%Z.

(** [DELETE ... WHERE status IN ('delivered','dead') AND created_at <= cutoff] *)
Definition prune (ok : bool) (now_secs retention_secs : Z) (s : EventStore)
    : EventStore * nat :=
  let cutoff := saturating_sub now_secs retention_secs in
  if ok then
    let s' := base.filter (fun kr => prunable cutoff kr.2 = false) s in
    (s', (size s - size s')%nat)
  else (s, 0%nat).

Definition bump_retry (r : EventRow) : EventRow :=
  mkRow (row_event_type r) (row_payload_json r) (row_status r) (row_created_at r)
    (row_retry_count r + 1).
Definition mark_dead (r : EventRow) : EventRow :=
  mkRow (row_event_type r) (row_payload_json r) Dead (row_created_at r)
    (row_retry_count r).

(** The two [UPDATE]s of [increment_retry_or_dead] *)
Definition increment_retry_or_dead (ok1 ok2 : bool) (event_id : string) (max_retries : Z)
    (s : EventStore) : EventStore :=
  let s1 := if ok1 then alter bump_retry event_id s else s in
  if ok2 then
    alter (fun r => if (max_retries <=? row_retry_count r)%Z then mark_dead r else r)
      event_id s1
  else s1.

(** The blocking part of one [run_retry_worker] round: scan, bump each scanned
    event, prune. Returns the events to redeliver. *)
Definition retry_round (now_secs max_retries retention_secs : Z) (s : EventStore)
    : EventStore * list Event :=
  let pending := pending_older_than true now_secs 10 s in
  let s1 := foldl (fun s e => increment_retry_or_dead true true (ev_event_id e)
                                max_retries s) s pending in
  ((prune true now_secs retention_secs s1).1, pending).

(** ** Invariant of the subscription maps *)

(** Both maps describe one subscription relation. *)
Definition bus_ok (b : EventBus) : Prop :=
  forall t p, p ∈ row_of t (subscriptions b) <-> t ∈ row_of p (by_plugin b).

Lemma row_of_insert k k' s (m : gmap string (gset string)) :
  row_of k (<[k' := s]> m) = if decide (k' = k) then s else row_of k m.
Proof. unfold row_of. rewrite lookup_insert. by case_decide. Qed.

Lemma row_of_alter f k k' (m : gmap string (gset string)) :
  f ∅ = ∅ -> row_of k (alter f k' m) = if decide (k' = k) then f (row_of k m) else row_of k m.
Proof.
  intros Hf. unfold row_of. rewrite lookup_alter. case_decide; [|done].
  subst. by destruct (m !! k).
Qed.

Lemma row_of_add_fold p l m t q :
  q ∈ row_of t (foldl (add_subscriber p) m l) <-> q ∈ row_of t m \/ (q = p /\ t ∈ l).
Proof.
  revert m. induction l as [|a l IH]; intros m; simpl; [set_solver|].
  rewrite IH. unfold add_subscriber. rewrite row_of_insert. case_decide; set_solver.
Qed.

Lemma row_of_drop_fold p l m t q :
  q ∈ row_of t (foldl (drop_subscriber p) m l) <-> q ∈ row_of t m /\ ~ (q = p /\ t ∈ l).
Proof.
  revert m. induction l as [|a l IH]; intros m; simpl; [set_solver|].
  rewrite IH. unfold drop_subscriber. rewrite row_of_alter by set_solver.
  case_decide; set_solver.
Qed.

Lemma subscribe_ok p ts b : bus_ok b -> bus_ok (subscribe p ts b).
Proof.
  intros Hok t q. unfold subscribe. simpl. rewrite row_of_add_fold, row_of_insert.
  specialize (Hok t q). case_decide; set_solver.
Qed.

Lemma unsubscribe_ok p ts b : bus_ok b -> bus_ok (unsubscribe p ts b).
Proof.
  intros Hok t q. unfold unsubscribe. simpl.
  rewrite row_of_drop_fold, row_of_alter by set_solver.
  specialize (Hok t q). case_decide; set_solver.
Qed.

Lemma unsubscribe_all_ok p b : bus_ok b -> bus_ok (unsubscribe_all p b).
Proof.
  intros Hok. unfold unsubscribe_all. destruct (by_plugin b !! p) as [types|] eqn:Hp; [|done].
  intros t q. simpl. rewrite row_of_drop_fold. specialize (Hok t q).
  unfold row_of in *. rewrite lookup_delete. case_decide as Hd.
  - subst q. rewrite Hp in Hok. simpl in *. rewrite elem_of_elements. set_solver.
  - rewrite elem_of_elements. naive_solver.
Qed.

Inductive bus_step : EventBus -> EventBus -> Prop :=
| bus_subscribe p ts b : bus_step b (subscribe p ts b)
| bus_unsubscribe p ts b : bus_step b (unsubscribe p ts b)
| bus_unsubscribe_all p b : bus_step b (unsubscribe_all p b).

Lemma bus_reachable_ok b : rtc bus_step bus_new b -> bus_ok b.
Proof.
  intros H. assert (forall x, bus_ok x -> rtc bus_step x b -> bus_ok b) as Hgen.
  { clear H. intros x Hx H. induction H as [|x y z Hs _ IH]; [done|].
    apply IH. destruct Hs; eauto using subscribe_ok, unsubscribe_ok, unsubscribe_all_ok. }
  apply (Hgen bus_new); [|done]. intros t p. unfold row_of. simpl.
  rewrite !lookup_empty. set_solver.
Qed.

Lemma event_targets_subscribe p ts b t q :
  q ∈ event_targets t (subscribe p ts b)
  <-> q ∈ event_targets t b \/ (q = p /\ (t ∈ ts \/ "*" ∈ ts)).
Proof.
  unfold event_targets, subscribe. simpl. rewrite !elem_of_union, !row_of_add_fold. tauto.
Qed.

(** ** Claims on the subscriptions *)

(** The relation both maps implement. *)
Definition subscribed (b : EventBus) (t p : string) : Prop := p ∈ row_of t (subscriptions b).

(** C39 The two-map bus refines one set of (event type, plugin) pairs on every
    reachable bus: subscribing adds exactly the named pairs, unsubscribing
    removes exactly them, unsubscribing a plugin altogether removes exactly its
    pairs (the reverse map it is computed from never misses one), and the
    targets of an event are the plugins paired with its type or with the
    wildcard. *)
Theorem bus_refines_relation b p ts t q :
  rtc bus_step bus_new b ->
  (subscribed (subscribe p ts b) t q <-> subscribed b t q \/ (q = p /\ t ∈ ts))
  /\ (subscribed (unsubscribe p ts b) t q <-> subscribed b t q /\ ~ (q = p /\ t ∈ ts))
  /\ (subscribed (unsubscribe_all p b) t q <-> subscribed b t q /\ q <> p)
  /\ (q ∈ event_targets t b <-> subscribed b t q \/ subscribed b "*" q).
Proof.
  intros Hb%bus_reachable_ok. unfold subscribed. split_and!.
  - unfold subscribe. simpl. apply row_of_add_fold.
  - unfold unsubscribe. simpl. apply row_of_drop_fold.
  - specialize (Hb t). unfold unsubscribe_all.
    destruct (by_plugin b !! p) as [types|] eqn:Hp; simpl.
    + rewrite row_of_drop_fold. setoid_rewrite elem_of_elements.
      specialize (Hb p). unfold row_of at 2 in Hb. rewrite Hp in Hb. simpl in Hb. naive_solver.
    + specialize (Hb p). unfold row_of at 2 in Hb. rewrite Hp in Hb. set_solver.
  - unfold event_targets. apply elem_of_union.
Qed.

Lemma bus_refines_relation_witness :
  let b := subscribe "p" ["a"; "*"] bus_new in
  subscribed (unsubscribe_all "q" b) "a" "p"
  /\ ~ subscribed (unsubscribe_all "p" b) "a" "p".
Proof.
  assert (rtc bus_step bus_new (subscribe "p" ["a"; "*"] bus_new)) as Hr
    by (apply rtc_once; constructor).
  destruct (bus_refines_relation _ "q" [] "a" "p" Hr) as (_ & _ & H1 & _).
  destruct (bus_refines_relation _ "p" [] "a" "p" Hr) as (_ & _ & H2 & _).
  split; [|naive_solver]. apply H1. split; [|done]. vm_compute. done.
Defined.

(** ** Claims on the store *)

(** What one retry round does to the row of a scanned event. *)
Definition bump (max_retries : Z) (r : EventRow) : EventRow :=
  let r := bump_retry r in
  if (max_retries <=? row_retry_count r)%Z then mark_dead r else r.

Lemma increment_lookup id m s k :
  increment_retry_or_dead true true id m s !! k
  = if decide (id = k) then bump m <$> s !! k else s !! k.
Proof.
  unfold increment_retry_or_dead. rewrite !lookup_alter.
  destruct (decide (id = k)) as [<-|]; [|done]. rewrite decide_True by done. by destruct (s !! id).
Qed.

Lemma increments_lookup m l s k :
  NoDup (ev_event_id <$> l) ->
  foldl (fun s e => increment_retry_or_dead true true (ev_event_id e) m s) s l !! k
  = if decide (k ∈ ev_event_id <$> l) then bump m <$> s !! k else s !! k.
Proof.
  revert s. induction l as [|e l IH]; intros s Hnd; [done|].
  rewrite fmap_cons in *. cbn [foldl].
  apply NoDup_cons in Hnd as [Hni Hnd]. rewrite IH by done. rewrite increment_lookup.
  destruct (decide (ev_event_id e = k)) as [<-|Hne].
  - rewrite decide_False by done. by rewrite decide_True by left.
  - by repeat case_decide; set_solver.
Qed.

(** The row is due for redelivery. *)
Definition due (now : Z) (r : EventRow) : bool :=
  bool_decide (row_status r = Pending) && (row_created_at r <=? saturating_sub now 10)%Z.

Lemma pending_ids_spec now s k :
  k ∈ ev_event_id <$> pending_older_than true now 10 s
  <-> exists r, s !! k = Some r /\ due now r = true.
Proof.
  unfold pending_older_than. rewrite <- list_fmap_compose, list_elem_of_fmap. unfold due. split.
  - intros ([k' r] & -> & [[Hs Hc] Hin]%elem_of_filter_list). simpl in *. exists r.
    split; [by apply elem_of_map_to_list|]. rewrite bool_decide_eq_true_2 by done. by apply Z.leb_le.
  - intros (r & Hr & [Hs%bool_decide_eq_true_1 Hc%Z.leb_le]%andb_true_iff).
    exists (k, r). split; [done|]. apply elem_of_filter_list. split; [done|].
    by apply elem_of_map_to_list.
Qed.

Lemma pending_ids_NoDup now s : NoDup (ev_event_id <$> pending_older_than true now 10 s).
Proof.
  unfold pending_older_than. rewrite <- list_fmap_compose.
  apply (NoDup_fmap_2_strong _ (base.filter _ (map_to_list s))).
  - intros [k r] [k' r'] Hx Hy Hk. simpl in Hk. subst k'.
    apply elem_of_filter_list in Hx as [_ Hx], Hy as [_ Hy].
    apply elem_of_map_to_list in Hx, Hy. congruence.
  - apply NoDup_filter, NoDup_map_to_list.
Qed.

Lemma retry_round_lookup now m keep s k :
  (retry_round now m keep s).1 !! k =
  match s !! k with
  | None => None
  | Some r =>
      let r' := if due now r then bump m r else r in
      if prunable (saturating_sub now keep) r' then None else Some r'
  end.
Proof.
  unfold retry_round, prune. cbn [fst snd]. rewrite map_lookup_filter, increments_lookup
    by apply pending_ids_NoDup.
  destruct (s !! k) as [r|] eqn:Hr; simpl.
  2:{ by destruct (decide _). }
  destruct (decide _) as [Hin|Hni].
  - apply pending_ids_spec in Hin as (r0 & Hr0 & Hd). simplify_eq. rewrite Hd. simpl.
    destruct (prunable _ _); by case_guard.
  - destruct (due now r) eqn:Hd; [exfalso; apply Hni, pending_ids_spec; eauto|]. simpl.
    destruct (prunable _ _); by case_guard.
Qed.

(** How many of the rounds at the given times redeliver event [k]. *)
Fixpoint redeliveries (m keep : Z) (k : string) (nows : list Z) (s : EventStore) : nat :=
  match nows with
  | [] => 0
  | t :: nows' =>
      (if bool_decide (k ∈ ev_event_id <$> (retry_round t m keep s).2) then 1 else 0)
      + redeliveries m keep k nows' (retry_round t m keep s).1
  end%nat.

Lemma redeliveries_settled m keep k nows s :
  (forall r, s !! k = Some r -> row_status r <> Pending) -> redeliveries m keep k nows s = 0%nat.
Proof.
  revert s. induction nows as [|t nows IH]; intros s Hs; [done|]. cbn [redeliveries].
  assert (forall r, s !! k = Some r -> due t r = false) as Hnd.
  { intros r Hr. unfold due. by rewrite bool_decide_eq_false_2 by (by eapply Hs). }
  rewrite bool_decide_eq_false_2.
  2:{ intros (r & Hr & Hd)%pending_ids_spec. rewrite (Hnd _ Hr) in Hd. done. }
  apply IH. intros r. rewrite retry_round_lookup. destruct (s !! k) as [r0|] eqn:Hr0; [|done].
  rewrite (Hnd r0 eq_refl). simpl. destruct (prunable _ _); [done|]. intros [= <-]. by eapply Hs.
Qed.


Definition demo_event_store : EventStore :=
  persist true 100 (mkEvent "e1" "t" [] 0) ∅.


(** An acknowledged event is never redelivered, and publishing the same event
    id again neither resurrects nor changes it, as long as its row is there. *)
Theorem acked_never_redelivered m keep k nows s now e :
  is_Some (s !! k) -> ev_event_id e = k ->
  redeliveries m keep k nows (persist true now e (mark_delivered true k s)) = 0%nat
  /\ persist true now e (mark_delivered true k s) = mark_delivered true k s.
Proof.
  intros [r Hr] He.
  assert (persist true now e (mark_delivered true k s) = mark_delivered true k s) as Hp.
  { unfold persist. rewrite He. unfold mark_delivered. by rewrite lookup_alter_eq, Hr. }
  rewrite Hp. split; [|done]. apply redeliveries_settled. intros r'. unfold mark_delivered.
  rewrite lookup_alter_eq, Hr. by intros [= <-].
Qed.

Lemma acked_never_redelivered_witness :
  redeliveries 2 3600 "e1" [110; 115]%Z
    (persist true 105 (mkEvent "e1" "t" [] 0) (mark_delivered true "e1" demo_event_store)) = 0%nat.
Proof.
  apply (acked_never_redelivered 2 3600 "e1" [110; 115]%Z demo_event_store 105
    (mkEvent "e1" "t" [] 0)); [vm_compute; by eexists|done].
Defined.
