(* ===== verification/Auth.v ===== *)
(** * Credentials: tokens, device secrets and pairing tickets
    (src/auth/plugin_key.rs, src/auth/jwt.rs, src/auth/device_store.rs,
    src/auth/ticket_store.rs, src/auth/pairing.rs)

    The two JSON files of the data directory are texts on a [DiskFile]; every
    operation re-reads, checks and rewrites the text the way the code does. The
    random bytes an operation draws, the clock and the outcome of the file
    write are arguments. The ciphers, hashes, the JWT crate and the JSON codec
    of the rows are the interfaces [Crypto], [Jwt] and [RowCodec]. *)

From S2P Require Import Prelude Errors.

(** ** Interfaces of the crates *)
Class Crypto := {
  hkdf_sha256 : bytes -> bytes -> bytes -> bytes; (* salt, ikm, info *)
  sha256 : bytes -> bytes;
  aes_encrypt : bytes -> bytes -> bytes -> bytes -> option bytes; (* key nonce aad msg *)
  aes_decrypt : bytes -> bytes -> bytes -> bytes -> option bytes; (* key nonce aad ct *)
  base64url : bytes -> string
}.

(** What the device store relies on: decryption with the same key, nonce and
    associated data undoes encryption, and the ciphertext carries a 16-byte tag
    (RFC 5116). *)
Class CryptoLaws `{Crypto} := {
  aes_roundtrip key nonce aad m c :
    aes_encrypt key nonce aad m = Some c -> aes_decrypt key nonce aad c = Some m;
  aes_length key nonce aad m c :
    aes_encrypt key nonce aad m = Some c -> length c = (length m + 16)%nat
}.

(** [serde_json::to_string_pretty] and [from_str] on a vector of rows. *)
Class RowCodec (A : Type) := {
  rows_print : list A -> string;
  rows_parse : string -> Result (list A) string
}.

Class RowCodecLaws (A : Type) `{RowCodec A} := {
  rows_roundtrip (l : list A) : rows_parse (rows_print l) = Ok l;
  rows_nonblank (l : list A) : str_is_empty (str_trim (rows_print l)) = false
}.

(** ** src/auth/plugin_key.rs *)
Definition plugin_mac_secret `{Crypto} (master : bytes) (plugin_id : string) : string :=
  hex_of_bytes (hkdf_sha256 (str_bytes "vynkor-plugin-mac-v1") master (str_bytes plugin_id)).

(** ** src/auth/jwt.rs *)
Definition MIN_JWT_SECRET_BYTES : nat := 32.

Record PluginClaims := mkClaims {
  cl_sub : string;
  cl_permissions : list string;
  cl_ipc_targets : list string;
  cl_exp : Z;
  cl_iat : Z;
  cl_aud : option string;
  cl_jti : option string
}.

(** The fields of [jsonwebtoken::Validation] that the code sets; the
    algorithm is HS256 throughout. *)
Record Validation := mkValidation {
  va_validate_exp : bool;
  va_validate_aud : bool;
  va_aud : option (list string);
  va_aud_required : bool
}.

Class Jwt := {
  jwt_decode : bytes -> Validation -> Z -> string -> Result PluginClaims string;
  jwt_encode : bytes -> PluginClaims -> Result string string
}.

(** What a validation accepts, as the crate documents it: [exp] not passed
    (with the crate's default leeway of 60 s), the audience when one is set,
    and the claim's presence when it is required. *)
Definition validation_accepts (v : Validation) (now : Z) (c : PluginClaims) : bool :=
  (negb (va_validate_exp v) || (now - 60 <=? cl_exp c)%Z)
  && match cl_aud c with
     | None => negb (va_aud_required v)
     | Some a => negb (va_validate_aud v)
                 || match va_aud v with Some l => str_mem a l | None => false end
     end.

Class JwtLaws `{Jwt} := {
  jwt_roundtrip secret v now c t :
    jwt_encode secret c = Ok t -> validation_accepts v now c = true ->
    jwt_decode secret v now t = Ok c;
  jwt_decode_accepts secret v now t c :
    jwt_decode secret v now t = Ok c -> validation_accepts v now c = true
}.

Record JwtValidator := mkValidator { jv_key : bytes; jv_validation : Validation }.

Definition with_audience (secret : bytes) (audience : option string) : JwtValidator :=
  mkValidator secret
    match audience with
    | Some aud => mkValidation true true (Some [aud]) true
    | None => mkValidation true false None false
    end.

(** [JwtValidator::validate] *)
Definition jwt_validate `{Jwt} (v : JwtValidator) (now_secs : Z) (token : string)
    : Result PluginClaims VynkorError :=
  if str_is_empty token then Err (EAuth "missing JWT token")
  else match jwt_decode (jv_key v) (jv_validation v) now_secs token with
       | Err e => Err (EAuth e)
       | Ok claims =>
           if bool_decide (is_Some (cl_aud claims))
              && str_is_empty (default EmptyString (cl_jti claims))
           then Err (EAuth "token carries aud but no jti nonce")
           else Ok claims
       end.

(** [usize] addition as compiled in release mode (64-bit wrap). *)
Definition u64_add (a b : Z) : Z := ((a + b) mod (u64_max + 1))%Z.

Definition mint_device_token `{Jwt} (secret : bytes) (device_id : string)
    (permissions ipc_targets : list string) (ttl_secs : Z) (audience : string)
    (now_secs : Z) (nonce : bytes) : Result string VynkorError :=
  if (length secret <? MIN_JWT_SECRET_BYTES)%nat then
    Err (EAuth ("jwt_secret is " +:+ fmt_N (N.of_nat (length secret))
      +:+ " bytes, must be at least " +:+ fmt_N (N.of_nat MIN_JWT_SECRET_BYTES)
      +:+ " bytes (HS256 secrets shorter than this are brute-forceable)"))
  else
    let device_id := str_trim device_id in
    if str_is_empty device_id then Err (EAuth "device_id must not be empty")
    else if (ttl_secs =? 0)%Z then Err (EAuth "ttl_secs must be > 0")
    else
      let claims := mkClaims device_id permissions ipc_targets
                      (u64_add now_secs ttl_secs) now_secs (Some audience)
                      (Some (hex_of_bytes nonce)) in
      match jwt_encode secret claims with
      | Ok t => Ok t
      | Err e => Err (EAuth e)
      end.

(** ** The private files of the data directory *)
Inductive DiskFile :=
| FMissing
| FUnreadable (error : string)
| FText (raw : string).

(** [write_private_atomic]: temp file then rename; any failing step leaves
    the file as it was. *)
Definition write_private_atomic (io : option string) (json : string) (f : DiskFile)
    : DiskFile * Result unit VynkorError :=
  match io with
  | Some e => (f, Err (EIo e))
  | None => (FText json, Ok tt)
  end.

(** The part [read_all] of both stores shares. *)
Definition read_rows {A} `{RowCodec A} (f : DiskFile) : Result (list A) VynkorError :=
  match f with
  | FMissing => Ok []
  | FUnreadable e => Err (EIo e)
  | FText raw =>
      if str_is_empty (str_trim raw) then Ok []
      else match rows_parse raw with
           | Ok rows => Ok rows
           | Err e => Err (EInternal e)
           end
  end.

(** ** src/auth/device_store.rs *)
Inductive DeviceStatus := Active | DsRevoked | DsExpired.

#[export] Instance DeviceStatus_eq_dec : EqDecision DeviceStatus.
Proof. solve_decision. Defined.

Record DeviceRecord := mkDeviceRecord {
  dr_device_id : string;
  dr_name : string;
  dr_created_at : Z;
  dr_expires_at : Z;
  dr_revoked : bool;
  dr_secret_enc : bytes
}.

Definition status (row : DeviceRecord) (now_secs : Z) : DeviceStatus :=
  if dr_revoked row then DsRevoked
  else if (dr_expires_at row <=? now_secs)%Z then DsExpired
  else Active.

Definition NONCE_LEN : nat := 12.

(** The file and the key; [key] is [derive_key] of the master secret. *)
Record DeviceStore := mkDeviceStore { ds_file : DiskFile; ds_key : bytes }.

Definition derive_key `{Crypto} (jwt_secret : string) : bytes :=
  hkdf_sha256 (str_bytes "vynkor-device-store-v1") (str_bytes jwt_secret)
    (str_bytes "aes-256-gcm-key").

Definition SECRET_AAD : bytes := str_bytes "vynkor-device-secret".

Definition seal `{Crypto} (key nonce : bytes) (secret_hex : string)
    : Result bytes VynkorError :=
  match aes_encrypt key nonce SECRET_AAD (str_bytes secret_hex) with
  | None => Err (EAuth "device store encryption failed")
  | Some ct => Ok (nonce ++ ct)
  end.

Definition unseal `{Crypto} (key enc : bytes) : Result string VynkorError :=
  if (length enc <=? NONCE_LEN)%nat then Err (EAuth "corrupt device store entry")
  else match aes_decrypt key (take NONCE_LEN enc) SECRET_AAD (drop NONCE_LEN enc) with
       | None => Err (EAuth ("device store decrypt failed — was jwt_secret rotated? "
           +:+ "re-pair devices (rm <data_dir>/devices.json)"))
       | Some pt => match from_utf8 pt with
                    | Some s => Ok s
                    | None => Err (EAuth "bad secret encoding")
                    end
       end.

Section device_store.
Context `{Crypto, !RowCodec DeviceRecord}.

(** The loop of [read_all] that fails on the first undecryptable row. *)
Fixpoint check_rows (key : bytes) (rows : list DeviceRecord) : Result unit VynkorError :=
  match rows with
  | [] => Ok tt
  | row :: rows' => let? _ := unseal key (dr_secret_enc row) in check_rows key rows'
  end.

Definition ds_read_all (ds : DeviceStore) : Result (list DeviceRecord) VynkorError :=
  let? rows := read_rows (ds_file ds) in
  let? _ := check_rows (ds_key ds) rows in
  Ok rows.

Definition ds_write_all (io : option string) (rows : list DeviceRecord) (ds : DeviceStore)
    : DeviceStore * Result unit VynkorError :=
  let '(f, r) := write_private_atomic io (rows_print rows) (ds_file ds) in
  (mkDeviceStore f (ds_key ds), r).

(** [rows.iter_mut().find(..)], else [rows.push(..)] *)
Fixpoint upsert_row (device_id : string) (new : DeviceRecord) (rows : list DeviceRecord)
    : list DeviceRecord :=
  match rows with
  | [] => [new]
  | row :: rows' => if dr_device_id row =s device_id then new :: rows'
                    else row :: upsert_row device_id new rows'
  end.

(** [issue]: [secret] are the 32 random bytes, [nonce] the 12 of [seal]. *)
Definition ds_issue (now_secs : Z) (secret nonce : bytes) (io : option string)
    (device_id name : string) (ttl_secs : Z) (ds : DeviceStore)
    : DeviceStore * Result string VynkorError :=
  let secret_hex := hex_of_bytes secret in
  match ds_read_all ds with
  | Err e => (ds, Err e)
  | Ok rows =>
      match seal (ds_key ds) nonce secret_hex with
      | Err e => (ds, Err e)
      | Ok enc =>
          let row := mkDeviceRecord device_id name now_secs (u64_add now_secs ttl_secs)
                       false enc in
          match ds_write_all io (upsert_row device_id row rows) ds with
          | (ds', Err e) => (ds', Err e)
          | (ds', Ok _) => (ds', Ok secret_hex)
          end
      end
  end.

(** [get]; the [expect] of the code cannot fail after [read_all]. *)
Definition ds_get (device_id : string) (ds : DeviceStore)
    : Result (option (DeviceRecord * string)) VynkorError :=
  let? rows := ds_read_all ds in
  match List.find (fun r => dr_device_id r =s device_id) rows with
  | None => Ok None
  | Some row => let? secret := unseal (ds_key ds) (dr_secret_enc row) in
                Ok (Some (row, secret))
  end.

Definition with_revoked (revoked : bool) (r : DeviceRecord) : DeviceRecord :=
  mkDeviceRecord (dr_device_id r) (dr_name r) (dr_created_at r) (dr_expires_at r)
    revoked (dr_secret_enc r).

Definition set_revoked (io : option string) (device_id : string) (revoked : bool)
    (ds : DeviceStore) : DeviceStore * Result bool VynkorError :=
  match ds_read_all ds with
  | Err e => (ds, Err e)
  | Ok rows =>
      let changed := existsb (fun r => dr_device_id r =s device_id) rows in
      let rows' := map (fun r => if dr_device_id r =s device_id
                                 then with_revoked revoked r else r) rows in
      if changed then
        match ds_write_all io rows' ds with
        | (ds', Err e) => (ds', Err e)
        | (ds', Ok _) => (ds', Ok true)
        end
      else (ds, Ok false)
  end.

Definition ds_remove (io : option string) (device_id : string) (ds : DeviceStore)
    : DeviceStore * Result bool VynkorError :=
  match ds_read_all ds with
  | Err e => (ds, Err e)
  | Ok rows =>
      let rows' := base.filter (fun r => dr_device_id r <> device_id) rows in
      if negb (length rows' =? length rows)%nat then
        match ds_write_all io rows' ds with
        | (ds', Err e) => (ds', Err e)
        | (ds', Ok _) => (ds', Ok true)
        end
      else (ds, Ok false)
  end.

(** [active_secret]: the gate of registration and of the WebSocket upgrade *)
Definition active_secret (now_secs : Z) (device_id : string) (ds : DeviceStore)
    : Result (option string) VynkorError :=
  let? found := ds_get device_id ds in
  match found with
  | None => Ok None
  | Some (row, secret) =>
      match status row now_secs with
      | Active => Ok (Some secret)
      | DsRevoked => Err (EAuth ("device '" +:+ device_id
                       +:+ "' is revoked — re-pair to restore access"))
      | DsExpired => Err (EAuth ("device '" +:+ device_id
                       +:+ "' credential expired — re-pair"))
      end
  end.
End device_store.

(** ** src/auth/ticket_store.rs *)
Definition TICKET_LEN : nat := 43.
Definition STALE_RETENTION_SECS : Z := 3600.

Record TicketRecord := mkTicket {
  tk_ticket_sha256 : string;
  tk_created_at : Z;
  tk_expires_at : Z;
  tk_used_at : option Z;
  tk_name : option string;
  tk_ws : string
}.

Definition is_stale (now : Z) (r : TicketRecord) : bool :=
  let last := Z.max (tk_expires_at r) (default 0%Z (tk_used_at r)) in
  (u64_saturating_add last STALE_RETENTION_SECS <=? now)%Z.

Definition hash_ticket `{Crypto} (ticket : string) : string :=
  hex_of_bytes (sha256 (str_bytes ticket)).

Definition mark_used (now : Z) (r : TicketRecord) : TicketRecord :=
  mkTicket (tk_ticket_sha256 r) (tk_created_at r) (tk_expires_at r) (Some now)
    (tk_name r) (tk_ws r).

(** [rows.iter_mut().find(hash)]: the row and the rows with it replaced *)
Fixpoint find_row (hash : string) (rows : list TicketRecord)
    : option (list TicketRecord * TicketRecord * list TicketRecord) :=
  match rows with
  | [] => None
  | r :: rows' =>
      if tk_ticket_sha256 r =s hash then Some ([], r, rows')
      else match find_row hash rows' with
           | Some (pre, x, post) => Some (r :: pre, x, post)
           | None => None
           end
  end.

Section ticket_store.
Context `{Crypto, !RowCodec TicketRecord}.

Definition tk_write_all (io : option string) (rows : list TicketRecord) (f : DiskFile)
    : DiskFile * Result unit VynkorError :=
  write_private_atomic io (rows_print rows) f.

(** [issue_at]; [random] are the 32 bytes of [random_ticket]. *)
Definition issue_at (random : bytes) (io : option string) (now ttl_secs : Z)
    (name : option string) (ws : string) (f : DiskFile)
    : DiskFile * Result (string * TicketRecord) VynkorError :=
  let ticket := base64url random in
  let record := mkTicket (hash_ticket ticket) now (u64_saturating_add now ttl_secs)
                  None name ws in
  match read_rows f with
  | Err e => (f, Err e)
  | Ok rows =>
      let rows := base.filter (fun r => is_stale now r = false) rows ++ [record] in
      match tk_write_all io rows f with
      | (f', Err e) => (f', Err e)
      | (f', Ok _) => (f', Ok (ticket, record))
      end
  end.

Definition consume_at (io : option string) (ticket : string) (now : Z) (f : DiskFile)
    : DiskFile * Result TicketRecord VynkorError :=
  if negb (String.length ticket =? TICKET_LEN)%nat then (f, Err (ETicket TUnknown))
  else
    let hash := hash_ticket ticket in
    match read_rows f with
    | Err e => (f, Err e)
    | Ok rows =>
        match find_row hash rows with
        | None => (f, Err (ETicket TUnknown))
        | Some (pre, row, post) =>
            if bool_decide (is_Some (tk_used_at row)) then (f, Err (ETicket TAlreadyUsed))
            else if (tk_expires_at row <=? now)%Z then (f, Err (ETicket TExpired))
            else
              let consumed := mark_used now row in
              match tk_write_all io (pre ++ consumed :: post) f with
              | (f', Err e) => (f', Err e)
              | (f', Ok _) => (f', Ok consumed)
              end
        end
    end.

Definition sweep_expired (io : option string) (now : Z) (f : DiskFile)
    : DiskFile * Result nat VynkorError :=
  match read_rows f with
  | Err e => (f, Err e)
  | Ok rows =>
      let rows' := base.filter (fun r => is_stale now r = false) rows in
      let removed := (length rows - length rows')%nat in
      if (0 <? removed)%nat then
        match tk_write_all io rows' f with
        | (f', Err e) => (f', Err e)
        | (f', Ok _) => (f', Ok removed)
        end
      else (f, Ok removed)
  end.
End ticket_store.

(** ** src/auth/pairing.rs *)
Definition DEFAULT_TICKET_TTL_SECS : Z := 300.
Definition MAX_TICKET_TTL_SECS : Z := 3600.
Definition MAX_NAME_LEN : nat := 64.

Definition default_device_permissions : list string :=
  ["PERMISSION_IPC_SEND"; "PERMISSION_EVENT_PUBLISH"].

Record PairingConfig := mkPairingConfig {
  pc_jwt_secret : string;
  pc_audience : string;
  pc_device_ttl_secs : Z
}.

Record PairPayload := mkPairPayload {
  pp_v : Z;
  pp_name : string;
  pp_host_url : string;
  pp_device_id : string;
  pp_jwt_token : string;
  pp_device_secret : string;
  pp_cert_pem : option string
}.

(** The random draws of one [consume]: candidate device ids, the secret, the
    seal nonce and the token nonce; and the outcomes of its file accesses. *)
Record PairEnv := mkPairEnv {
  pe_now : Z;
  pe_ids : list bytes;
  pe_secret : bytes;
  pe_seal_nonce : bytes;
  pe_jti : bytes;
  pe_ticket_io : option string;
  pe_device_io : option string;
  pe_cert : Result (option string) VynkorError
}.

Definition random_device_id (b : bytes) : string := "dev-" +:+ hex_of_bytes b.

Section pairing.
Context `{Crypto, Jwt, !RowCodec DeviceRecord, !RowCodec TicketRecord}.

(** [fresh_device_id]: redraw until the id is free; [None] when the supplied
    draws are used up with the loop still running. *)
Fixpoint fresh_device_id (draws : list bytes) (ds : DeviceStore)
    : option (Result string VynkorError) :=
  match draws with
  | [] => None
  | b :: draws' =>
      let id := random_device_id b in
      match ds_get id ds with
      | Err e => Some (Err e)
      | Ok None => Some (Ok id)
      | Ok (Some _) => fresh_device_id draws' ds
      end
  end.

(** The name and TTL checks of [create_ticket] (the name length is in
    characters; the advertise URL is resolved by the [url] crate). *)
Definition ticket_ttl (ttl_secs : option Z) : Z :=
  Z.max 1 (Z.min (default DEFAULT_TICKET_TTL_SECS ttl_secs) MAX_TICKET_TTL_SECS).

Definition pairing_consume (cfg : PairingConfig) (env : PairEnv) (ticket : string)
    (f : DiskFile) (ds : DeviceStore)
    : option (DiskFile * DeviceStore * Result PairPayload VynkorError) :=
  match consume_at (pe_ticket_io env) ticket (pe_now env) f with
  | (f', Err e) => Some (f', ds, Err e)
  | (f', Ok record) =>
      match fresh_device_id (pe_ids env) ds with
      | None => None
      | Some (Err e) => Some (f', ds, Err e)
      | Some (Ok device_id) =>
          let name := default device_id (tk_name record) in
          match ds_issue (pe_now env) (pe_secret env) (pe_seal_nonce env)
                  (pe_device_io env) device_id name (pc_device_ttl_secs cfg) ds with
          | (ds', Err e) => Some (f', ds', Err e)
          | (ds', Ok device_secret) =>
              match mint_device_token (str_bytes (pc_jwt_secret cfg)) device_id
                      default_device_permissions [] (pc_device_ttl_secs cfg)
                      (pc_audience cfg) (pe_now env) (pe_jti env) with
              | Err e => Some (f', ds', Err e)
              | Ok jwt_token =>
                  match pe_cert env with
                  | Err e => Some (f', ds', Err e)
                  | Ok cert => Some (f', ds', Ok (mkPairPayload 2 name (tk_ws record)
                                       device_id jwt_token device_secret cert))
                  end
              end
          end
      end
  end.
End pairing.
