(* ===== verification/AuthProps.v ===== *)
(** * Properties of the credential stores

    A credential works exactly from its issue to its expiry, revocation or
    removal; a pairing ticket is redeemed at most once on every run of the
    ticket store; a minted device token validates until it expires. *)

From S2P Require Import Prelude Errors Auth.

(** ** The files *)
Section files.
Context {A : Type} `{RowCodecLaws A}.

Lemma read_written (rows : list A) : read_rows (FText (rows_print rows)) = Ok rows.
Proof. simpl. by rewrite rows_nonblank, rows_roundtrip. Qed.
End files.

(** ** Hex text is valid UTF-8 *)
Lemma hex_digit_ascii n : (n < 16)%N -> (Byte.to_N (byte_of_ascii (hex_digit n)) <= 127)%N.
Proof.
  intros Hn. assert (forall k, (k < 16)%nat ->
    (Byte.to_N (byte_of_ascii (hex_digit (N.of_nat k))) <= 127)%N) as H.
  { intros k Hk. do 16 (destruct k as [|k]; [by vm_compute|]). lia. }
  rewrite <- (N2Nat.id n). apply H. lia.
Qed.

Lemma utf8_ascii l : Forall (fun b => (Byte.to_N b <= 127)%N) l -> utf8_valid l = true.
Proof.
  induction 1 as [|b l Hb _ IH]; [done|]. simpl. unfold in_range.
  replace (0 <=? Byte.to_N b)%N with true by (symmetry; apply N.leb_le; lia).
  by replace (Byte.to_N b <=? 127)%N with true by (symmetry; apply N.leb_le; lia).
Qed.

Lemma hex_ascii l : Forall (fun b => (Byte.to_N b <= 127)%N) (str_bytes (hex_of_bytes l)).
Proof.
  induction l as [|b l IH]; [constructor|]. simpl.
  assert (Byte.to_N b < 256)%N by (pose proof (Byte.to_N_bounded b); lia).
  repeat constructor; try apply hex_digit_ascii; [| |done].
  - apply N.Div0.div_lt_upper_bound. lia.
  - apply N.mod_lt. lia.
Qed.

Lemma from_utf8_hex l : from_utf8 (str_bytes (hex_of_bytes l)) = Some (hex_of_bytes l).
Proof.
  unfold from_utf8. rewrite utf8_ascii by apply hex_ascii.
  unfold string_of_bytes, str_bytes. by rewrite String.string_of_list_byte_of_string.
Qed.

(** ** Device credentials *)
Section device_store.
Context `{CryptoLaws, !RowCodec DeviceRecord, !RowCodecLaws DeviceRecord}.

Lemma unseal_seal key nonce l enc :
  length nonce = NONCE_LEN -> seal key nonce (hex_of_bytes l) = Ok enc ->
  unseal key enc = Ok (hex_of_bytes l).
Proof.
  intros Hn. unfold seal, unseal. destruct (aes_encrypt _ _ _ _) as [ct|] eqn:Henc; [|done].
  intros [= <-]. pose proof (aes_length _ _ _ _ _ Henc) as Hlen.
  rewrite length_app, Hlen, Hn. destruct (Nat.leb_spec (NONCE_LEN +
    (length (str_bytes (hex_of_bytes l)) + 16)) NONCE_LEN); [lia|].
  rewrite take_app_length', drop_app_length' by done.
  by rewrite (aes_roundtrip _ _ _ _ _ Henc), from_utf8_hex.
Qed.

(** A store all of whose rows decrypt: what every operation demands first. *)
Lemma check_rows_spec key rows :
  check_rows key rows = Ok tt <-> Forall (fun r => exists s, unseal key (dr_secret_enc r) = Ok s) rows.
Proof.
  induction rows as [|r rows IH]; simpl; [split; [constructor|done]|].
  rewrite Forall_cons, <- IH. destruct (unseal key (dr_secret_enc r)) as [s|e].
  - split; [intros; split; [by exists s|done]|by intros [_ ?]].
  - split; [done|intros [[? ?] _]; done].
Qed.

Lemma upsert_row_find id new rows other :
  dr_device_id new = id ->
  List.find (fun r => dr_device_id r =s other) (upsert_row id new rows)
  = if id =s other then Some new else List.find (fun r => dr_device_id r =s other) rows.
Proof.
  intros Hid. induction rows as [|r rows IH]; simpl.
  - rewrite Hid. by destruct (id =s other).
  - destruct (str_eqb_spec (dr_device_id r) id) as [Hr|Hr]; simpl.
    + rewrite Hid, Hr. by destruct (id =s other).
    + destruct (str_eqb_spec (dr_device_id r) other) as [Ho|Ho]; [|by rewrite IH].
      by destruct (str_eqb_spec id other); [congruence|].
Qed.

Lemma upsert_row_Forall P id new rows :
  P new -> Forall P rows -> Forall P (upsert_row id new rows).
Proof.
  intros Hn Hr. induction Hr as [|r rows Hr Hrs IH]; simpl; [by repeat constructor|].
  destruct (_ =s _); by constructor.
Qed.

(** A store holding [rows], readable. *)
Definition holds (ds : DeviceStore) (rows : list DeviceRecord) : Prop :=
  ds_read_all ds = Ok rows.

Lemma holds_written key rows :
  check_rows key rows = Ok tt -> holds (mkDeviceStore (FText (rows_print rows)) key) rows.
Proof.
  intros Hc. unfold holds, ds_read_all. simpl ds_file. simpl ds_key.
  rewrite read_written. by rewrite Hc.
Qed.

Lemma holds_check ds rows : holds ds rows -> check_rows (ds_key ds) rows = Ok tt.
Proof.
  unfold holds, ds_read_all. destruct (read_rows (ds_file ds)) as [rs|]; [|done].
  destruct (check_rows (ds_key ds) rs) as [[]|] eqn:Hc; [|done]. by intros [= <-].
Qed.

(** What [active_secret] computes from the rows. *)
Lemma active_secret_holds ds rows now id :
  holds ds rows ->
  active_secret now id ds =
  match List.find (fun r => dr_device_id r =s id) rows with
  | None => Ok None
  | Some row =>
      match unseal (ds_key ds) (dr_secret_enc row) with
      | Err e => Err e
      | Ok secret =>
        match status row now with
        | Active => Ok (Some secret)
        | DsRevoked => Err (EAuth ("device '" +:+ id
                         +:+ "' is revoked — re-pair to restore access"))
        | DsExpired => Err (EAuth ("device '" +:+ id +:+ "' credential expired — re-pair"))
        end
      end
  end.
Proof.
  unfold holds, active_secret, ds_get. intros ->.
  destruct (List.find _ rows) as [row|]; [|done].
  by destruct (unseal _ _).
Qed.

Lemma ds_issue_Ok now secret nonce io id name ttl ds ds' s :
  length nonce = NONCE_LEN ->
  ds_issue now secret nonce io id name ttl ds = (ds', Ok s) ->
  exists rows enc,
    let row := mkDeviceRecord id name now (u64_add now ttl) false enc in
    s = hex_of_bytes secret /\ holds ds rows /\ holds ds' (upsert_row id row rows)
    /\ ds_key ds' = ds_key ds /\ unseal (ds_key ds) enc = Ok s.
Proof.
  intros Hn. unfold ds_issue. destruct (ds_read_all ds) as [rows|] eqn:Hr; [|done].
  destruct (seal _ _ _) as [enc|] eqn:Hs; [|done].
  unfold ds_write_all, write_private_atomic. destruct io; [done|]. intros [= <- <-].
  exists rows, enc. pose proof (unseal_seal _ _ _ _ Hn Hs) as Hu.
  split_and!; try done. apply holds_written, check_rows_spec, upsert_row_Forall.
  - by exists (hex_of_bytes secret).
  - apply check_rows_spec. by apply holds_check.
Qed.

(** The gate right after an [issue], at time [t]. *)
Lemma issue_gate now secret nonce io id name ttl ds ds' s t :
  length nonce = NONCE_LEN -> (0 <= now)%Z -> (0 <= ttl)%Z -> (now + ttl <= u64_max)%Z ->
  ds_issue now secret nonce io id name ttl ds = (ds', Ok s) ->
  active_secret t id ds' =
    if (t <? now + ttl)%Z then Ok (Some s)
    else Err (EAuth ("device '" +:+ id +:+ "' credential expired — re-pair")).
Proof.
  intros Hn Hnow Httl Hmax Hi.
  destruct (ds_issue_Ok _ _ _ _ _ _ _ _ _ _ Hn Hi) as (rows & enc & -> & Hh & Hh' & Hk & Hu).
  assert (u64_add now ttl = now + ttl)%Z as Hexp by (apply Z.mod_small; lia).
  rewrite (active_secret_holds _ _ _ _ Hh'), upsert_row_find by done.
  rewrite str_eqb_refl, Hk. simpl. rewrite Hu. unfold status. simpl. rewrite Hexp.
  rewrite Z.ltb_antisym. by destruct (now + ttl <=? t)%Z.
Qed.

Lemma issue_other now secret nonce io id name ttl ds ds' s t other :
  length nonce = NONCE_LEN -> other <> id ->
  ds_issue now secret nonce io id name ttl ds = (ds', Ok s) ->
  active_secret t other ds' = active_secret t other ds.
Proof.
  intros Hn Hne Hi.
  destruct (ds_issue_Ok _ _ _ _ _ _ _ _ _ _ Hn Hi) as (rows & enc & -> & Hh & Hh' & Hk & Hu).
  rewrite (active_secret_holds _ _ _ _ Hh'), (active_secret_holds _ _ _ _ Hh).
  rewrite upsert_row_find, Hk by done. by destruct (str_eqb_spec id other); [congruence|].
Qed.

(** A successful [issue] makes exactly the returned secret the active one of
    that device, from now until [now + ttl] (then the gate answers
    "expired"); a previous secret of the device is gone, a previous revocation
    is lifted, and no other device's credential changes. *)
Theorem issue_activates now secret nonce io id name ttl ds ds' s :
  length nonce = NONCE_LEN -> (0 <= now)%Z -> (0 <= ttl)%Z -> (now + ttl <= u64_max)%Z ->
  ds_issue now secret nonce io id name ttl ds = (ds', Ok s) ->
  (forall t, (t < now + ttl)%Z -> active_secret t id ds' = Ok (Some s))
  /\ (forall t, (now + ttl <= t)%Z -> active_secret t id ds' =
        Err (EAuth ("device '" +:+ id +:+ "' credential expired — re-pair")))
  /\ (forall t other, other <> id -> active_secret t other ds' = active_secret t other ds).
Proof.
  intros Hn Hnow Httl Hmax Hi. split_and!.
  - intros t Ht. rewrite (issue_gate _ _ _ _ _ _ _ _ _ _ t Hn Hnow Httl Hmax Hi).
    by destruct (Z.ltb_spec t (now + ttl)); [|lia].
  - intros t Ht. rewrite (issue_gate _ _ _ _ _ _ _ _ _ _ t Hn Hnow Httl Hmax Hi).
    by destruct (Z.ltb_spec t (now + ttl)); [lia|].
  - intros t other Hne. by eapply issue_other.
Qed.

Lemma set_revoked_Ok io id b ds ds' :
  set_revoked io id b ds = (ds', Ok true) ->
  exists rows, holds ds rows /\ ds_key ds' = ds_key ds
    /\ holds ds' (map (fun r => if dr_device_id r =s id then with_revoked b r else r) rows)
    /\ existsb (fun r => dr_device_id r =s id) rows = true.
Proof.
  unfold set_revoked. destruct (ds_read_all ds) as [rows|] eqn:Hr; [|done].
  destruct (existsb _ rows) eqn:Hc; [|done].
  unfold ds_write_all, write_private_atomic. destruct io; [done|]. intros [= <-].
  exists rows. split_and!; try done. apply holds_written, check_rows_spec.
  pose proof (holds_check _ _ Hr) as Hck. rewrite check_rows_spec in Hck.
  apply Forall_map. eapply Forall_impl; [exact Hck|]. intros r [s Hs]. simpl.
  destruct (_ =s _); by exists s.
Qed.

Lemma find_map_revoked id b rows other :
  List.find (fun r => dr_device_id r =s other)
    (map (fun r => if dr_device_id r =s id then with_revoked b r else r) rows)
  = (fun r => if id =s other then with_revoked b r else r) <$>
      List.find (fun r => dr_device_id r =s other) rows.
Proof.
  induction rows as [|r rows IH]; [done|]. simpl.
  assert (dr_device_id (if dr_device_id r =s id then with_revoked b r else r)
          = dr_device_id r) as -> by (by destruct (_ =s id)).
  destruct (str_eqb_spec (dr_device_id r) other) as [<-|]; [|done].
  simpl. f_equal. destruct (str_eqb_spec (dr_device_id r) id) as [->|Hne].
  - by rewrite str_eqb_refl.
  - by destruct (str_eqb_spec id (dr_device_id r)); [congruence|].
Qed.

(** After a successful revocation the gate refuses the device at every time,
    however long its credential would have lasted, and every other device is
    served as before. *)
Theorem revoke_denies io id ds ds' :
  set_revoked io id true ds = (ds', Ok true) ->
  (forall t, active_secret t id ds' = Err (EAuth ("device '" +:+ id
      +:+ "' is revoked — re-pair to restore access")))
  /\ (forall t other, other <> id -> active_secret t other ds' = active_secret t other ds).
Proof.
  intros (rows & Hh & Hk & Hh' & Hex)%set_revoked_Ok. split.
  - intros t. rewrite (active_secret_holds _ _ _ _ Hh'), find_map_revoked, str_eqb_refl.
    destruct (List.find (fun r => dr_device_id r =s id) rows) as [row|] eqn:Hf.
    + apply find_some in Hf as [Hin _]. pose proof (holds_check _ _ Hh) as Hck.
      rewrite check_rows_spec, List.Forall_forall in Hck.
      destruct (Hck row Hin) as [s Hs]. simpl. by rewrite Hk, Hs.
    + exfalso. apply existsb_exists in Hex as (r & Hin & Hr).
      pose proof (find_none _ _ Hf r Hin) as Hno. simpl in Hno. congruence.
  - intros t other Hne. rewrite (active_secret_holds _ _ _ _ Hh'), (active_secret_holds _ _ _ _ Hh).
    rewrite find_map_revoked, Hk. destruct (str_eqb_spec id other); [congruence|].
    by destruct (List.find _ rows).
Qed.
End device_store.

(** ** Pairing tickets *)
Section ticket_store.
Context `{Crypto, !RowCodec TicketRecord, !RowCodecLaws TicketRecord}.

(** One call on the ticket store, with everything it draws from outside. *)
Inductive TicketOp :=
| TIssue (random : bytes) (io : option string) (now ttl : Z) (name : option string)
    (ws : string)
| TConsume (io : option string) (ticket : string) (now : Z)
| TSweep (io : option string) (now : Z).

Definition ticket_step (op : TicketOp) (f : DiskFile) : DiskFile :=
  match op with
  | TIssue random io now ttl name ws => (issue_at random io now ttl name ws f).1
  | TConsume io ticket now => (consume_at io ticket now f).1
  | TSweep io now => (sweep_expired io now f).1
  end.

Definition nat_of_bool (b : bool) : nat := if b then 1 else 0.

(** How many redemptions of tickets with hash [h] a run performs, and how many
    such tickets it issues. *)
Fixpoint redeemed (h : string) (ops : list TicketOp) (f : DiskFile) : nat :=
  match ops with
  | [] => 0
  | op :: ops' =>
      nat_of_bool match op with
                  | TConsume io ticket now =>
                      (hash_ticket ticket =s h) && is_ok (consume_at io ticket now f).2
                  | _ => false
                  end + redeemed h ops' (ticket_step op f)
  end.

Fixpoint issued (h : string) (ops : list TicketOp) : nat :=
  match ops with
  | [] => 0
  | op :: ops' =>
      nat_of_bool match op with
                  | TIssue random _ _ _ _ _ => hash_ticket (base64url random) =s h
                  | _ => false
                  end + issued h ops'
  end.

Definition unused (h : string) (r : TicketRecord) : bool :=
  (tk_ticket_sha256 r =s h) && negb (bool_decide (is_Some (tk_used_at r))).

Definition live_rows (h : string) (rows : list TicketRecord) : nat :=
  length (base.filter (fun r => unused h r = true) rows).

Definition live (h : string) (f : DiskFile) : nat :=
  match read_rows f with Ok rows => live_rows h rows | Err _ => 0 end.

Lemma live_rows_app h l k : live_rows h (l ++ k) = (live_rows h l + live_rows h k)%nat.
Proof. unfold live_rows. by rewrite filter_app, length_app. Qed.

Lemma live_rows_cons h r l :
  live_rows h (r :: l) = (nat_of_bool (unused h r) + live_rows h l)%nat.
Proof. unfold live_rows. rewrite filter_cons. by destruct (unused h r). Qed.

Lemma live_rows_filter h (P : TicketRecord -> bool) l :
  (live_rows h (base.filter (fun r => P r = false) l) <= live_rows h l)%nat.
Proof.
  induction l as [|r l IH]; [done|]. rewrite filter_cons, (live_rows_cons h r l).
  destruct (P r); simpl; [|rewrite live_rows_cons]; lia.
Qed.

Lemma live_written h rows : live h (FText (rows_print rows)) = live_rows h rows.
Proof. unfold live. by rewrite read_written. Qed.

Lemma find_row_Some h rows pre row post :
  find_row h rows = Some (pre, row, post) ->
  rows = pre ++ row :: post /\ tk_ticket_sha256 row = h
  /\ Forall (fun r => tk_ticket_sha256 r <> h) pre.
Proof.
  revert pre row post. induction rows as [|r rows IH]; intros pre row post; [done|].
  simpl. destruct (str_eqb_spec (tk_ticket_sha256 r) h) as [Hr|Hr].
  - intros [= <- <- <-]. by split_and!.
  - destruct (find_row h rows) as [[[p x] q]|]; [|done]. intros [= <- <- <-].
    destruct (IH _ _ _ eq_refl) as (-> & Hx & Hp). split_and!; [done|done|].
    by constructor.
Qed.

Lemma live_issue h random io now ttl name ws f :
  (live h (issue_at random io now ttl name ws f).1
   <= live h f + nat_of_bool (hash_ticket (base64url random) =s h))%nat.
Proof.
  unfold issue_at. destruct (read_rows f) as [rows|] eqn:Hr; [|simpl; lia].
  unfold tk_write_all, write_private_atomic. destruct io; simpl fst; [lia|].
  rewrite live_written. unfold live. rewrite Hr, live_rows_app, live_rows_cons.
  pose proof (live_rows_filter h (is_stale now) rows). unfold unused at 1. simpl.
  rewrite andb_true_r. change (live_rows h []) with 0%nat. lia.
Qed.

Lemma live_consume h io ticket now f :
  (nat_of_bool ((hash_ticket ticket =s h) && is_ok (consume_at io ticket now f).2)
   + live h (consume_at io ticket now f).1 <= live h f)%nat.
Proof.
  unfold consume_at. destruct (negb _); [simpl; rewrite andb_false_r; simpl; lia|].
  destruct (read_rows f) as [rows|] eqn:Hr; [|simpl; rewrite andb_false_r; simpl; lia].
  destruct (find_row _ rows) as [[[pre row] post]|] eqn:Hf;
    [|simpl; rewrite andb_false_r; simpl; lia].
  apply find_row_Some in Hf as (-> & Hh & _).
  destruct (bool_decide (is_Some (tk_used_at row))) eqn:Hu;
    [simpl; rewrite andb_false_r; simpl; lia|].
  destruct (tk_expires_at row <=? now)%Z; [simpl; rewrite andb_false_r; simpl; lia|].
  unfold tk_write_all, write_private_atomic.
  destruct io; [simpl; rewrite andb_false_r; simpl; lia|]. simpl fst. simpl snd.
  rewrite live_written. unfold live. rewrite Hr, !live_rows_app, !live_rows_cons.
  assert (unused h (mark_used now row) = false) as -> by apply andb_false_r.
  assert (unused h row = (hash_ticket ticket =s h)) as ->.
  { unfold unused. by rewrite Hu, Hh, andb_true_r. }
  rewrite andb_true_r. simpl. lia.
Qed.

Lemma live_sweep h io now f : (live h (sweep_expired io now f).1 <= live h f)%nat.
Proof.
  unfold sweep_expired. destruct (read_rows f) as [rows|] eqn:Hr; [|done].
  destruct (Nat.ltb _ _); [|done]. unfold tk_write_all, write_private_atomic.
  destruct io; [done|]. simpl fst. rewrite live_written. unfold live. rewrite Hr.
  apply live_rows_filter.
Qed.

Lemma redeemed_bound h ops f : (redeemed h ops f <= live h f + issued h ops)%nat.
Proof.
  revert f. induction ops as [|op ops IH]; intros f; simpl; [lia|].
  specialize (IH (ticket_step op f)). destruct op as [random io now ttl name ws|io t now|io now];
    simpl in *.
  - pose proof (live_issue h random io now ttl name ws f). lia.
  - pose proof (live_consume h io t now f). lia.
  - pose proof (live_sweep h io now f). lia.
Qed.

(** C36 A pairing ticket is single-use: on every run of issue, consume and sweep
    calls that starts without a ticket file, in any order, at any clock values
    and with any write failures, the tickets of a given hash are redeemed at
    most as many times as they were issued, so at most once for the random
    (never repeated) tickets the store mints. *)
Theorem ticket_single_use h ops : (redeemed h ops FMissing <= issued h ops)%nat.
Proof. pose proof (redeemed_bound h ops FMissing) as Hb. exact Hb. Qed.

Lemma find_row_app_new h rows row :
  Forall (fun r => tk_ticket_sha256 r <> h) rows -> tk_ticket_sha256 row = h ->
  find_row h (rows ++ [row]) = Some (rows, row, []).
Proof.
  intros Hr Hh. induction Hr as [|r rows Hr Hrs IH]; simpl.
  - by rewrite Hh, str_eqb_refl.
  - destruct (str_eqb_spec (tk_ticket_sha256 r) h); [done|]. by rewrite IH.
Qed.

(** A freshly issued ticket can be redeemed until it expires: the first
    presentation before the deadline returns its record, marks it used on disk,
    and the next one, at any time, is answered "already used"; at or after the
    deadline the answer is "expired" and nothing is written. *)
Theorem ticket_redeemable random now ttl name ws f f1 ticket record rows :
  String.length (base64url random) = TICKET_LEN ->
  read_rows f = Ok rows ->
  Forall (fun r => tk_ticket_sha256 r <> hash_ticket (base64url random)) rows ->
  issue_at random None now ttl name ws f = (f1, Ok (ticket, record)) ->
  (forall t, (t < tk_expires_at record)%Z ->
     exists f2, consume_at None ticket t f1 = (f2, Ok (mark_used t record))
       /\ forall t' io, consume_at io ticket t' f2 = (f2, Err (ETicket TAlreadyUsed)))
  /\ (forall t io, (tk_expires_at record <= t)%Z ->
        consume_at io ticket t f1 = (f1, Err (ETicket TExpired))).
Proof.
  intros Hlen Hr Hfresh Hi. unfold issue_at in Hi. rewrite Hr in Hi.
  unfold tk_write_all, write_private_atomic in Hi. simplify_eq/=.
  set (rows' := base.filter (fun r => is_stale now r = false) rows).
  set (h := hash_ticket (base64url random)) in *.
  set (rec := mkTicket h now (u64_saturating_add now ttl) None name ws).
  assert (Forall (fun r => tk_ticket_sha256 r <> h) rows') as Hf'.
  { apply Forall_forall. intros r [_ Hin]%elem_of_filter_list. by eapply Forall_forall in Hfresh. }
  assert (forall x, tk_ticket_sha256 x = h -> find_row h (rows' ++ [x]) = Some (rows', x, []))
    as Hfind by (intros; by apply find_row_app_new).
  split.
  - intros t Ht. exists (FText (rows_print (rows' ++ [mark_used t rec]))).
    unfold consume_at. rewrite Hlen. cbn [negb Nat.eqb TICKET_LEN]. fold h.
    rewrite !read_written, (Hfind rec eq_refl). simpl tk_used_at. rewrite bool_decide_eq_false_2.
    2:{ by intros [? ?]. }
    simpl tk_expires_at. destruct (Z.leb_spec (u64_saturating_add now ttl) t); [lia|].
    split; [done|]. intros t' io. rewrite (Hfind (mark_used t rec) eq_refl).
    by rewrite bool_decide_eq_true_2 by (by exists t).
  - intros t io Ht. unfold consume_at. rewrite Hlen. cbn [negb Nat.eqb TICKET_LEN]. fold h.
    rewrite !read_written, (Hfind rec eq_refl). simpl tk_used_at. rewrite bool_decide_eq_false_2.
    2:{ by intros [? ?]. }
    simpl tk_expires_at. by destruct (Z.leb_spec (u64_saturating_add now ttl) t); [|lia].
Qed.
End ticket_store.

(** ** Device tokens *)

(** Bytes no [White_Space] character starts or ends with. *)
Definition solid (b : Byte.byte) : Prop := (32 < Byte.to_N b <= 127)%N.

Definition ws_edge (cs : list (list N)) : bool :=
  forallb (fun c => match c with n :: _ => (n <=? 32)%N || (127 <? n)%N | [] => false end) cs.

Lemma strip_any_solid cs b l : ws_edge cs = true -> solid b -> strip_any cs (b :: l) = None.
Proof.
  intros Hcs [Hb1 Hb2]. induction cs as [|c cs IH]; [done|].
  apply andb_true_iff in Hcs as [Hc Hcs]. specialize (IH Hcs).
  destruct c as [|n c]; [done|]. simpl.
  destruct (N.eqb_spec n (Byte.to_N b)) as [->|]; [|done].
  apply orb_true_iff in Hc as [?%N.leb_le|?%N.ltb_lt]; lia.
Qed.

Lemma strip_any_nil cs : ws_edge cs = true -> strip_any cs [] = None.
Proof.
  induction cs as [|[|n c] cs IH]; [done|done|]. intros [_ Hcs]%andb_true_iff. by apply IH.
Qed.

Lemma drop_ws_solid fuel cs l : ws_edge cs = true -> Forall solid l -> drop_ws fuel cs l = l.
Proof.
  intros Hcs Hl. destruct fuel as [|fuel]; [done|]. simpl. destruct Hl as [|b l Hb Hl].
  - by rewrite strip_any_nil.
  - by rewrite strip_any_solid.
Qed.

Lemma str_trim_solid s : Forall solid (str_bytes s) -> str_trim s = s.
Proof.
  intros Hs. unfold str_trim.
  rewrite (drop_ws_solid _ ws_codes (str_bytes s)); [|by vm_compute|done].
  rewrite drop_ws_solid; [|by vm_compute|by apply Forall_reverse].
  rewrite reverse_involutive. apply String.string_of_list_byte_of_string.
Qed.

Lemma hex_digit_solid n : (n < 16)%N -> solid (byte_of_ascii (hex_digit n)).
Proof.
  intros Hn. assert (forall k, (k < 16)%nat ->
    solid (byte_of_ascii (hex_digit (N.of_nat k)))) as H.
  { intros k Hk. do 16 (destruct k as [|k]; [by vm_compute|]). lia. }
  rewrite <- (N2Nat.id n). apply H. lia.
Qed.

Lemma hex_solid l : Forall solid (str_bytes (hex_of_bytes l)).
Proof.
  induction l as [|b l IH]; [constructor|]. simpl.
  assert (Byte.to_N b < 256)%N by (pose proof (Byte.to_N_bounded b); lia).
  apply Forall_cons; split; [apply hex_digit_solid, N.Div0.div_lt_upper_bound; lia|].
  apply Forall_cons; split; [apply hex_digit_solid, N.mod_lt; lia|done].
Qed.

Lemma random_device_id_trim b : str_trim (random_device_id b) = random_device_id b.
Proof.
  apply str_trim_solid. unfold random_device_id.
  rewrite str_bytes_app.
  apply Forall_app. split; [|apply hex_solid].
  repeat (apply Forall_cons; split; [by vm_compute|]). apply Forall_nil_2.
Qed.

Section tokens.
Context `{JwtLaws}.

(** The audiences under which a token for [aud] is accepted. *)
Definition audience_matches (configured : option string) (aud : string) : Prop :=
  match configured with None => True | Some a => a = aud end.

Lemma mint_validates secret id perms targets ttl aud now nonce token cfg t :
  nonce <> [] -> (0 <= now)%Z -> (0 < ttl)%Z -> (now + ttl <= u64_max)%Z ->
  mint_device_token secret id perms targets ttl aud now nonce = Ok token ->
  token <> EmptyString -> audience_matches cfg aud -> (t <= now + ttl)%Z ->
  exists c, jwt_validate (with_audience secret cfg) t token = Ok c
    /\ cl_sub c = str_trim id /\ cl_permissions c = perms /\ cl_ipc_targets c = targets.
Proof.
  intros Hn Hnow Httl Hmax Hm Htok Haud Ht. unfold mint_device_token in Hm.
  destruct (Nat.ltb _ _); [done|]. destruct (str_is_empty (str_trim id)); [done|].
  destruct (ttl =? 0)%Z; [done|]. destruct (jwt_encode _ _) as [tok|] eqn:He; [|done].
  simplify_eq/=. assert (u64_add now ttl = now + ttl)%Z as Hexp by (apply Z.mod_small; lia).
  unfold jwt_validate. destruct token as [|a s] eqn:Es; [done|]. cbn [str_is_empty].
  rewrite <- Es in *.
  assert (jv_key (with_audience secret cfg) = secret) as -> by (by destruct cfg).
  rewrite (jwt_roundtrip _ _ t _ _ He).
  - destruct nonce as [|b0 nonce]; [done|]. eexists. split; [reflexivity|done].
  - unfold validation_accepts. destruct cfg as [a'|]; simpl; rewrite Hexp;
      (destruct (Z.leb_spec (t - 60) (now + ttl)); [|lia]); [|done].
    simpl in Haud. subst a'. unfold str_mem. simpl. by rewrite str_eqb_refl.
Qed.

(** No token is accepted more than the 60 s of leeway after its expiry; with
    an audience configured a token without that audience is refused, and a token
    that names an audience must carry a nonce. *)
Theorem token_accept_sound secret cfg t token c :
  jwt_validate (with_audience secret cfg) t token = Ok c ->
  (t - 60 <= cl_exp c)%Z
  /\ match cfg with Some a => cl_aud c = Some a | None => True end
  /\ (is_Some (cl_aud c) -> exists j, cl_jti c = Some j /\ j <> EmptyString).
Proof.
  unfold jwt_validate. destruct (str_is_empty token); [done|].
  destruct (jwt_decode _ _ t token) as [c'|] eqn:Hd; [|done].
  apply jwt_decode_accepts in Hd. destruct (_ && _) eqn:Hj; [done|]. intros [= ->].
  unfold validation_accepts in Hd. apply andb_true_iff in Hd as [Hexp Haud].
  split_and!.
  - destruct cfg; simpl in Hexp; by boolify.
  - destruct cfg as [a|]; [|done]. simpl in Haud. destruct (cl_aud c) as [a'|]; [|done].
    simpl in Haud. rewrite orb_false_r in Haud. by apply str_eqb_eq in Haud as ->.
  - intros Ha. rewrite bool_decide_eq_true_2 in Hj by done. simpl in Hj.
    destruct (cl_jti c) as [j|]; simpl in Hj; [|done]. exists j. split; [done|].
    by intros ->.
Qed.
End tokens.

(** ** The whole exchange *)
Section pairing.
Context `{CryptoLaws, JwtLaws}.
Context `{!RowCodec DeviceRecord, !RowCodecLaws DeviceRecord}.
Context `{!RowCodec TicketRecord, !RowCodecLaws TicketRecord}.

Lemma fresh_device_id_Ok draws ds id :
  fresh_device_id draws ds = Some (Ok id) ->
  ds_get id ds = Ok None /\ exists b, id = random_device_id b.
Proof.
  induction draws as [|b draws IH]; [done|]. simpl.
  destruct (ds_get (random_device_id b) ds) as [[?|]|] eqn:Hg; try done.
  intros [= <-]. eauto.
Qed.

(** C37 When the exchange of a ticket succeeds, the ticket was redeemed on disk,
    the device id handed out had no credential before, the secret handed out
    is the active one until the configured lifetime ends, the token handed out
    validates for that same device with exactly the default device permissions
    and no ipc target for the same lifetime, and no other device is affected. *)
Theorem pairing_consume_sound cfg env ticket f ds f' ds' p :
  length (pe_seal_nonce env) = NONCE_LEN -> pe_jti env <> [] ->
  (0 <= pe_now env)%Z -> (0 < pc_device_ttl_secs cfg)%Z ->
  (pe_now env + pc_device_ttl_secs cfg <= u64_max)%Z ->
  pairing_consume cfg env ticket f ds = Some (f', ds', Ok p) ->
  pp_jwt_token p <> EmptyString ->
  let until := (pe_now env + pc_device_ttl_secs cfg)%Z in
  let id := pp_device_id p in
  (exists record, consume_at (pe_ticket_io env) ticket (pe_now env) f = (f', Ok record)
     /\ pp_host_url p = tk_ws record)
  /\ ds_get id ds = Ok None
  /\ (forall t, (t < until)%Z -> active_secret t id ds' = Ok (Some (pp_device_secret p)))
  /\ (forall t aud, (t <= until)%Z -> audience_matches aud (pc_audience cfg) ->
       exists c, jwt_validate (with_audience (str_bytes (pc_jwt_secret cfg)) aud) t
                   (pp_jwt_token p) = Ok c
         /\ cl_sub c = id /\ cl_permissions c = default_device_permissions
         /\ cl_ipc_targets c = [])
  /\ (forall t other, other <> id -> active_secret t other ds' = active_secret t other ds).
Proof.
  intros Hn Hj Hnow Httl Hmax Hc Htok. unfold pairing_consume in Hc.
  destruct (consume_at _ _ _ _) as [f1 [record|]] eqn:Hcons; [|by simplify_eq].
  destruct (fresh_device_id _ _) as [[id|]|] eqn:Hfr; [|by simplify_eq|by simplify_eq].
  destruct (ds_issue _ _ _ _ _ _ _ _) as [ds1 [sec|]] eqn:Hiss; [|by simplify_eq].
  destruct (mint_device_token _ _ _ _ _ _ _ _) as [tok|] eqn:Hm; [|by simplify_eq].
  destruct (pe_cert env) as [cert|]; [|by simplify_eq]. simplify_eq/=.
  apply fresh_device_id_Ok in Hfr as [Hg [b ->]]. split_and!.
  - by exists record.
  - done.
  - intros t Ht. rewrite (issue_gate _ _ _ _ _ _ _ _ _ _ t Hn Hnow (Z.lt_le_incl _ _ Httl) Hmax Hiss).
    by destruct (Z.ltb_spec t (pe_now env + pc_device_ttl_secs cfg)); [|lia].
  - intros t aud Ht Haud. rewrite <- random_device_id_trim. by eapply mint_validates.
  - intros t other Hne. by eapply issue_other.
Qed.
End pairing.

(** ** Concrete instances of the interfaces, for the witnesses *)

(** A row codec for any countable row type: the bits of the encoded list. *)
Fixpoint pos_bits (p : positive) : string :=
  match p with
  | xH => EmptyString
  | xO p => String "0" (pos_bits p)
  | xI p => String "1" (pos_bits p)
  end.

Fixpoint bits_pos (s : string) : positive :=
  match s with
  | EmptyString => xH
  | String a s => if Ascii.eqb a "0" then xO (bits_pos s) else xI (bits_pos s)
  end.

Lemma bits_pos_bits p : bits_pos (pos_bits p) = p.
Proof. induction p as [p IH|p IH|]; simpl; by rewrite ?IH. Qed.

Lemma pos_bits_solid p : Forall solid (str_bytes (pos_bits p)).
Proof.
  induction p as [p IH|p IH|]; simpl; [| |constructor];
    (apply Forall_cons; split; [by vm_compute|exact IH]).
Qed.

Section demo_codec.
Context {A : Type} `{Countable A}.

#[local] Instance demo_codec : RowCodec A := {|
  rows_print l := String "b" (pos_bits (countable.encode l));
  rows_parse s :=
    match s with
    | String _ s' => match countable.decode (bits_pos s') with
                     | Some l => Ok l
                     | None => Err "bad rows"
                     end
    | EmptyString => Err "bad rows"
    end
|}.

Lemma demo_codec_laws : RowCodecLaws A.
Proof.
  split.
  - intros l. simpl. by rewrite bits_pos_bits, decode_encode.
  - intros l. rewrite str_trim_solid; [done|]. simpl.
    apply Forall_cons; split; [by vm_compute|apply pos_bits_solid].
Qed.
End demo_codec.

#[local] Instance byte_eq_dec : EqDecision Byte.byte := Byte.byte_eq_dec.
#[local] Instance byte_countable : Countable Byte.byte.
Proof.
  apply (inj_countable Byte.to_N Byte.of_N). intros b. apply Byte.of_to_N.
Defined.

#[local] Instance DeviceRecord_eq_dec : EqDecision DeviceRecord.
Proof. solve_decision. Defined.
#[local] Instance TicketRecord_eq_dec : EqDecision TicketRecord.
Proof. solve_decision. Defined.
#[local] Instance PluginClaims_eq_dec : EqDecision PluginClaims.
Proof. solve_decision. Defined.

#[local] Instance DeviceRecord_countable : Countable DeviceRecord.
Proof.
  refine (inj_countable'
    (fun r => (dr_device_id r, dr_name r, dr_created_at r, dr_expires_at r,
               dr_revoked r, dr_secret_enc r))
    (fun '(a, b, c, d, e, f) => mkDeviceRecord a b c d e f) _). by intros [].
Defined.
#[local] Instance TicketRecord_countable : Countable TicketRecord.
Proof.
  refine (inj_countable'
    (fun r => (tk_ticket_sha256 r, tk_created_at r, tk_expires_at r, tk_used_at r,
               tk_name r, tk_ws r))
    (fun '(a, b, c, d, e, f) => mkTicket a b c d e f) _). by intros [].
Defined.

#[local] Instance demo_device_codec : RowCodec DeviceRecord := demo_codec.
#[local] Instance demo_device_laws : RowCodecLaws DeviceRecord := demo_codec_laws.
#[local] Instance demo_ticket_codec : RowCodec TicketRecord := demo_codec.
#[local] Instance demo_ticket_laws : RowCodecLaws TicketRecord := demo_codec_laws.

#[local] Instance demo_crypto : Crypto := {|
  hkdf_sha256 _ ikm info := ikm ++ info;
  sha256 b := take 1 b;
  aes_encrypt _ _ _ m := Some (m ++ replicate 16 Byte.x00);
  aes_decrypt _ _ _ c := Some (take (length c - 16) c);
  base64url b := string_of_bytes (b ++ replicate (43 - length b) Byte.x41)
|}.

#[local] Instance demo_crypto_laws : CryptoLaws.
Proof.
  split; simpl; intros key nonce aad m c [= <-].
  - f_equal. rewrite length_app. cbn [length]. rewrite Nat.add_sub. by rewrite take_app_length.
  - by rewrite length_app.
Qed.

(** The claims of the one token the demo issuer signs. *)
Definition demo_claims : PluginClaims :=
  mkClaims "dev-0102" default_device_permissions [] 4601 1001 (Some "vyn") (Some "09").

#[local] Instance demo_jwt : Jwt := {|
  jwt_encode _ c := if decide (c = demo_claims) then Ok "token" else Err "unsupported";
  jwt_decode _ v now t :=
    if (t =s "token") && validation_accepts v now demo_claims then Ok demo_claims
    else Err "refused"
|}.

#[local] Instance demo_jwt_laws : JwtLaws.
Proof.
  split; simpl.
  - intros secret v now c t Ht Hv. case_decide; [|done]. simplify_eq. by rewrite Hv.
  - intros secret v now t c. destruct (_ && _) eqn:Hv; [|done]. intros [= <-].
    by apply andb_true_iff in Hv as [_ ?].
Qed.

Definition demo_nonce : bytes := replicate 12 Byte.x07.
Definition demo_store : DeviceStore := mkDeviceStore FMissing [].
Definition demo_issued : DeviceStore :=
  (ds_issue 100 [Byte.xab] demo_nonce None "dev-1" "phone" 50 demo_store).1.

(** Witness: issuing "dev-1" at 100 for 50 s; active at 149, expired at 150. *)
Lemma issue_activates_witness :
  active_secret 149 "dev-1" demo_issued = Ok (Some "ab")
  /\ active_secret 150 "dev-1" demo_issued
     = Err (EAuth ("device '" +:+ "dev-1" +:+ "' credential expired — re-pair")).
Proof.
  destruct (issue_activates 100 [Byte.xab] demo_nonce None "dev-1" "phone" 50 demo_store
    demo_issued "ab") as (H1 & H2 & _);
    [reflexivity|lia|lia|unfold u64_max; lia|vm_compute; reflexivity|].
  split; [apply H1; lia|apply H2; lia].
Defined.

(** Witness: revoking that credential. *)
Lemma revoke_denies_witness :
  active_secret 101 "dev-1" (set_revoked None "dev-1" true demo_issued).1
  = Err (EAuth ("device '" +:+ "dev-1" +:+ "' is revoked — re-pair to restore access")).
Proof.
  destruct (revoke_denies None "dev-1" demo_issued
    (set_revoked None "dev-1" true demo_issued).1) as [H _]; [vm_compute; reflexivity|].
  apply H.
Defined.

Definition demo_tfile : DiskFile :=
  (issue_at [] None 1000 300 None "ws://h/ws" FMissing).1.
Definition demo_ticket : string := base64url [].

(** Witness: one issue, two presentations, one redemption. *)
Lemma ticket_single_use_witness :
  let ops := [TIssue [] None 1000 300 None "w"; TConsume None demo_ticket 1001;
              TConsume None demo_ticket 1002] in
  redeemed (hash_ticket demo_ticket) ops FMissing = 1%nat
  /\ (redeemed (hash_ticket demo_ticket) ops FMissing
      <= issued (hash_ticket demo_ticket) ops)%nat.
Proof. split; [vm_compute; reflexivity|apply ticket_single_use]. Defined.

(** Witness: the demo ticket is redeemed at 1299 and refused at 1300. *)
Lemma ticket_redeemable_witness :
  exists f2, consume_at None demo_ticket 1299 demo_tfile
    = (f2, Ok (mark_used 1299 (mkTicket (hash_ticket demo_ticket) 1000 1300 None None
                                 "ws://h/ws"))).
Proof.
  destruct (ticket_redeemable [] 1000 300 None "ws://h/ws" FMissing demo_tfile demo_ticket
    (mkTicket (hash_ticket demo_ticket) 1000 1300 None None "ws://h/ws") []) as [H _];
    [vm_compute; reflexivity|reflexivity|constructor|vm_compute; reflexivity|].
  destruct (H 1299%Z) as (f2 & H2 & _); [simpl; lia|]. by exists f2.
Defined.

Definition demo_secret : string := "0123456789abcdef0123456789abcdef".
(** Witness: a token for audience "vyn" accepted at 4661, the last second. *)
Lemma token_accept_sound_witness :
  jwt_validate (with_audience (str_bytes demo_secret) (Some "vyn")) 4661 "token"
    = Ok demo_claims
  /\ (4661 - 60 <= cl_exp demo_claims)%Z.
Proof.
  assert (jwt_validate (with_audience (str_bytes demo_secret) (Some "vyn")) 4661 "token"
    = Ok demo_claims) as H by (vm_compute; reflexivity).
  split; [exact H|]. exact (proj1 (token_accept_sound _ _ _ _ _ H)).
Defined.

Definition demo_pcfg : PairingConfig := mkPairingConfig demo_secret "vyn" 3600.
Definition demo_penv : PairEnv :=
  mkPairEnv 1001 [[Byte.x01; Byte.x02]] [Byte.xab] demo_nonce [Byte.x09] None None (Ok None).

(** Witness: redeeming the demo ticket yields an active credential. *)
Lemma pairing_consume_sound_witness :
  match pairing_consume demo_pcfg demo_penv demo_ticket demo_tfile demo_store with
  | Some (_, ds', Ok p) => active_secret 2000 (pp_device_id p) ds'
                             = Ok (Some (pp_device_secret p))
  | _ => False
  end.
Proof.
  destruct (pairing_consume demo_pcfg demo_penv demo_ticket demo_tfile demo_store)
    as [[[f' ds'] [p|e]]|] eqn:Hc; [|vm_compute in Hc; discriminate..].
  destruct (pairing_consume_sound demo_pcfg demo_penv demo_ticket demo_tfile demo_store
    f' ds' p) as (_ & _ & H & _);
    [reflexivity|done|done|done|vm_compute; discriminate|exact Hc| |].
  - vm_compute in Hc. injection Hc as <- <- <-. discriminate.
  - apply H. reflexivity.
Defined.
