(* ===== verification/Vault.v ===== *)
(** * The device store as a table of credentials

    An abstract vault: a finite map from device ids to credentials, without files,
    encryption or rows; and the theorem that every run of the encrypted store on
    disk (src/auth/device_store.rs), write failures included, answers as the vault
    does. *)

From S2P Require Import Prelude Errors Auth AuthProps.

(** ** The specification *)
Record Cred := mkCred {
  cr_name : string;
  cr_created_at : Z;
  cr_expires_at : Z;
  cr_revoked : bool;
  cr_secret : string
}.

Abbreviation Vault := (gmap string Cred).

(** One call on the store, with what it draws from outside: the clock, random
    bytes, and the error of its write. *)
Inductive VaultOp :=
| VIssue (now_secs : Z) (secret nonce : bytes) (io : option string) (device_id name : string)
    (ttl_secs : Z)
| VSetRevoked (io : option string) (device_id : string) (revoked : bool)
| VRemove (io : option string) (device_id : string)
| VGate (now_secs : Z) (device_id : string).

Inductive VaultAnswer :=
| AIssued (r : Result string VynkorError)
| AChanged (r : Result bool VynkorError)
| AGate (r : Result (option string) VynkorError).

Definition revoke_cred (revoked : bool) (c : Cred) : Cred :=
  mkCred (cr_name c) (cr_created_at c) (cr_expires_at c) revoked (cr_secret c).

(** What the gate says of a credential at a time *)
Definition cred_gate (now_secs : Z) (device_id : string) (c : Cred)
    : Result (option string) VynkorError :=
  if cr_revoked c
  then Err (EAuth ("device '" +:+ device_id +:+ "' is revoked — re-pair to restore access"))
  else if (cr_expires_at c <=? now_secs)%Z
  then Err (EAuth ("device '" +:+ device_id +:+ "' credential expired — re-pair"))
  else Ok (Some (cr_secret c)).

(** [fault] is the failure of a call that has to write. *)
Definition vault_op (fault : option VynkorError) (op : VaultOp) (v : Vault)
    : Vault * VaultAnswer :=
  match op with
  | VIssue now secret _ _ id name ttl =>
      match fault with
      | Some e => (v, AIssued (Err e))
      | None => (<[id := mkCred name now (u64_add now ttl) false (hex_of_bytes secret)]> v,
                 AIssued (Ok (hex_of_bytes secret)))
      end
  | VSetRevoked _ id b =>
      match v !! id, fault with
      | None, _ => (v, AChanged (Ok false))
      | Some _, Some e => (v, AChanged (Err e))
      | Some c, None => (<[id := revoke_cred b c]> v, AChanged (Ok true))
      end
  | VRemove _ id =>
      match v !! id, fault with
      | None, _ => (v, AChanged (Ok false))
      | Some _, Some e => (v, AChanged (Err e))
      | Some _, None => (delete id v, AChanged (Ok true))
      end
  | VGate now id =>
      (v, AGate (match v !! id with None => Ok None | Some c => cred_gate now id c end))
  end.

(** ** The store *)
Section store.
Context `{CryptoLaws, !RowCodec DeviceRecord, !RowCodecLaws DeviceRecord}.

Definition store_op (op : VaultOp) (ds : DeviceStore) : DeviceStore * VaultAnswer :=
  match op with
  | VIssue now secret nonce io id name ttl =>
      let '(ds, r) := ds_issue now secret nonce io id name ttl ds in (ds, AIssued r)
  | VSetRevoked io id b => let '(ds, r) := set_revoked io id b ds in (ds, AChanged r)
  | VRemove io id => let '(ds, r) := ds_remove io id ds in (ds, AChanged r)
  | VGate now id => (ds, AGate (active_secret now id ds))
  end.

(** Why a call under [key] fails: the cipher, or the disk *)
Definition fault_of (key : bytes) (op : VaultOp) : option VynkorError :=
  match op with
  | VIssue _ secret nonce io _ _ _ =>
      match seal key nonce (hex_of_bytes secret) with
      | Err e => Some e
      | Ok _ => EIo <$> io
      end
  | VSetRevoked io _ _ | VRemove io _ => EIo <$> io
  | VGate _ _ => None
  end.

(** [seal] draws a nonce of twelve bytes. *)
Definition drawn (op : VaultOp) : Prop :=
  match op with VIssue _ _ nonce _ _ _ _ => length nonce = NONCE_LEN | _ => True end.

Fixpoint store_run (ops : list VaultOp) (ds : DeviceStore) : DeviceStore * list VaultAnswer :=
  match ops with
  | [] => (ds, [])
  | op :: ops =>
      let '(ds, a) := store_op op ds in
      let '(ds, l) := store_run ops ds in
      (ds, a :: l)
  end.

Fixpoint vault_run (key : bytes) (ops : list VaultOp) (v : Vault) : Vault * list VaultAnswer :=
  match ops with
  | [] => (v, [])
  | op :: ops =>
      let '(v, a) := vault_op (fault_of key op) op v in
      let '(v, l) := vault_run key ops v in
      (v, a :: l)
  end.

(** ** The abstraction: the first row of an id counts *)
Definition cred_of (key : bytes) (r : DeviceRecord) : Cred :=
  mkCred (dr_name r) (dr_created_at r) (dr_expires_at r) (dr_revoked r)
    (match unseal key (dr_secret_enc r) with Ok s => s | Err _ => EmptyString end).

Definition vault_of (key : bytes) (rows : list DeviceRecord) : Vault :=
  foldr (fun r v => <[dr_device_id r := cred_of key r]> v) ∅ rows.

Lemma vault_lookup key rows id :
  vault_of key rows !! id = cred_of key <$> List.find (fun r => dr_device_id r =s id) rows.
Proof.
  induction rows as [|r rows IH]; simpl; [done|].
  destruct (str_eqb_spec (dr_device_id r) id) as [->|Hne]; simpl.
  - by rewrite lookup_insert_eq.
  - by rewrite lookup_insert_ne.
Qed.

(** The store and the vault agree: the file is readable and holds its credentials. *)
Definition agrees (key : bytes) (ds : DeviceStore) (v : Vault) : Prop :=
  ds_key ds = key /\ exists rows, holds ds rows /\ v = vault_of key rows.

Lemma agrees_new key : agrees key (mkDeviceStore FMissing key) ∅.
Proof. split; [done|]. by exists []. Qed.

Lemma find_filter_ne id rows other :
  List.find (fun r => dr_device_id r =s other) (base.filter (fun r => dr_device_id r <> id) rows)
  = if id =s other then None else List.find (fun r => dr_device_id r =s other) rows.
Proof.
  induction rows as [|r rows IH]; simpl; [by destruct (id =s other)|].
  destruct (decide (dr_device_id r = id)) as [Hr|Hr].
  - rewrite filter_cons_False by (simpl; tauto). rewrite IH, Hr.
    by destruct (str_eqb_spec id other).
  - rewrite filter_cons_True by done. simpl.
    destruct (str_eqb_spec (dr_device_id r) other) as [Ho|]; [|done].
    by destruct (str_eqb_spec id other); [congruence|].
Qed.

Lemma existsb_vault key rows id :
  existsb (fun r => dr_device_id r =s id) rows = bool_decide (is_Some (vault_of key rows !! id)).
Proof.
  rewrite vault_lookup. induction rows as [|r rows IH]; simpl; [done|].
  by destruct (_ =s id).
Qed.

(** Nothing is filtered out exactly when the id is unknown. *)
Lemma filter_length_vault key rows id :
  (length (base.filter (fun r => dr_device_id r <> id) rows) =? length rows)%nat
  = bool_decide (vault_of key rows !! id = None).
Proof.
  rewrite vault_lookup.
  assert (forall l, (length (base.filter (fun r => dr_device_id r <> id) l) <= length l)%nat) as Hle
    by (intros; apply length_filter).
  induction rows as [|r rows IH]; simpl; [done|].
  destruct (str_eqb_spec (dr_device_id r) id) as [Hr|Hr]; simpl.
  - rewrite filter_cons_False by (simpl; tauto).
    apply Nat.eqb_neq. specialize (Hle rows). lia.
  - by rewrite filter_cons_True.
Qed.

(** ** One call *)
Lemma holds_rows key rows rows' :
  check_rows key rows = Ok tt ->
  (forall r, r ∈ rows' -> exists r0, r0 ∈ rows /\ dr_secret_enc r0 = dr_secret_enc r) ->
  holds (mkDeviceStore (FText (rows_print rows')) key) rows'.
Proof.
  rewrite check_rows_spec, Forall_forall. intros Hc Hsub. apply holds_written, check_rows_spec, Forall_forall.
  intros r Hr. destruct (Hsub r Hr) as (r0 & Hin & <-). by apply Hc.
Qed.

Lemma issue_agrees key ds v now secret nonce io id name ttl :
  length nonce = NONCE_LEN -> agrees key ds v ->
  let op := VIssue now secret nonce io id name ttl in
  agrees key (store_op op ds).1 (vault_op (fault_of key op) op v).1
  /\ (store_op op ds).2 = (vault_op (fault_of key op) op v).2.
Proof.
  intros Hn (Hk & rows & Hh & ->). simpl. destruct (ds_issue _ _ _ _ _ _ _ ds) as [ds' r] eqn:Hi.
  unfold holds in Hh. unfold ds_issue in Hi. rewrite Hh, Hk in Hi.
  destruct (seal key nonce (hex_of_bytes secret)) as [enc|e] eqn:Hs.
  2: { simplify_eq. by split; [split; [|exists rows]|]. }
  destruct io as [e|]; simplify_eq/=; (split; [|done]).
  - split; [done|]. exists rows. split; [|done]. by destruct ds.
  - split; [done|]. exists (upsert_row id (mkDeviceRecord id name now (u64_add now ttl) false enc) rows).
    pose proof (unseal_seal _ _ _ _ Hn Hs) as Hu'. split.
    + apply holds_written, check_rows_spec, upsert_row_Forall; [by eexists|].
      apply check_rows_spec. by apply holds_check.
    + apply map_eq. intros other. rewrite lookup_insert, !vault_lookup, upsert_row_find by done.
      destruct (str_eqb_spec id other) as [->|]; [rewrite decide_True by done|by rewrite decide_False].
      simpl. unfold cred_of. simpl. by rewrite Hu'.
Qed.

Lemma set_revoked_agrees key ds v io id b :
  agrees key ds v ->
  let op := VSetRevoked io id b in
  agrees key (store_op op ds).1 (vault_op (fault_of key op) op v).1
  /\ (store_op op ds).2 = (vault_op (fault_of key op) op v).2.
Proof.
  intros (Hk & rows & Hh & ->). simpl. pose proof (holds_check _ _ Hh) as Hc.
  unfold set_revoked. unfold holds in Hh. rewrite Hh, (existsb_vault key).
  destruct (vault_of key rows !! id) as [c|] eqn:Hv; simpl; [|by split; [split; [|exists rows]|]].
  destruct io as [e|]; simpl; (split; [split; [done|]|done]).
  - exists rows. split; [|done]. by destruct ds.
  - eexists. split.
    + rewrite Hk in *. eapply holds_rows; [exact Hc|]. intros r (r0 & -> & Hr)%list_elem_of_fmap.
      exists r0. split; [done|]. by destruct (_ =s _).
    + apply map_eq. intros other. rewrite lookup_insert, !vault_lookup, find_map_revoked.
      rewrite vault_lookup in Hv. destruct (str_eqb_spec id other) as [->|].
      * rewrite decide_True by done. destruct (List.find _ rows); simplify_eq/=. done.
      * rewrite decide_False by done. by destruct (List.find (fun r => dr_device_id r =s other) rows).
Qed.

Lemma remove_agrees key ds v io id :
  agrees key ds v ->
  let op := VRemove io id in
  agrees key (store_op op ds).1 (vault_op (fault_of key op) op v).1
  /\ (store_op op ds).2 = (vault_op (fault_of key op) op v).2.
Proof.
  intros (Hk & rows & Hh & ->). simpl. pose proof (holds_check _ _ Hh) as Hc.
  unfold ds_remove. unfold holds in Hh. rewrite Hh, (filter_length_vault key).
  destruct (vault_of key rows !! id) as [c|] eqn:Hv; simpl; [|by split; [split; [|exists rows]|]].
  destruct io as [e|]; simpl; (split; [split; [done|]|done]).
  - exists rows. split; [|done]. by destruct ds.
  - eexists. split.
    + rewrite Hk in *. eapply holds_rows; [exact Hc|]. intros r [_ Hr]%list_elem_of_filter. eauto.
    + apply map_eq. intros other. rewrite lookup_delete, !vault_lookup, find_filter_ne.
      destruct (str_eqb_spec id other) as [->|]; [by rewrite decide_True|by rewrite decide_False].
Qed.

Lemma gate_agrees key ds v now id :
  agrees key ds v ->
  active_secret now id ds = match v !! id with None => Ok None | Some c => cred_gate now id c end.
Proof.
  intros (Hk & rows & Hh & ->). rewrite (active_secret_holds _ _ _ _ Hh), vault_lookup.
  destruct (List.find _ rows) as [row|] eqn:Hf; [|done]. simpl.
  apply find_some in Hf as [Hin _]. pose proof (holds_check _ _ Hh) as Hc.
  rewrite check_rows_spec, List.Forall_forall in Hc. destruct (Hc row Hin) as [s Hs].
  rewrite Hs. unfold cred_gate, status, cred_of. simpl. rewrite <- Hk, Hs.
  destruct (dr_revoked row); [done|]. by destruct (_ <=? _)%Z.
Qed.

Lemma store_op_agrees key op ds v :
  drawn op -> agrees key ds v ->
  agrees key (store_op op ds).1 (vault_op (fault_of key op) op v).1
  /\ (store_op op ds).2 = (vault_op (fault_of key op) op v).2.
Proof.
  intros Hd Ha. destruct op as [now secret nonce io id name ttl|io id b|io id|now id].
  - by apply issue_agrees.
  - by apply set_revoked_agrees.
  - by apply remove_agrees.
  - simpl. split; [done|]. by rewrite (gate_agrees key ds v).
Qed.

Lemma store_run_agrees key ops ds v :
  Forall drawn ops -> agrees key ds v ->
  agrees key (store_run ops ds).1 (vault_run key ops v).1
  /\ (store_run ops ds).2 = (vault_run key ops v).2.
Proof.
  intros Hd. revert ds v. induction Hd as [|op ops Hop _ IH]; intros ds v Ha; [done|].
  destruct (store_op_agrees key op ds v Hop Ha) as [H1 H2]. simpl.
  destruct (store_op op ds) as [ds1 a1], (vault_op (fault_of key op) op v) as [v1 a2]. simpl in H1, H2.
  destruct (IH ds1 v1 H1) as [H3 H4].
  destruct (store_run ops ds1), (vault_run key ops v1). simpl in *. by subst.
Qed.

(** C12 The encrypted file refines the vault: from an empty data directory, any sequence
    of issues, revocations, re-activations, removals and gate checks, with whatever
    writes and encryptions failing, gets from the store on disk exactly the answers
    the abstract vault gives; and afterwards the gate knows every device as the vault
    does, at every time. *)
Theorem device_store_refines key ops :
  Forall drawn ops ->
  let '(ds, answers) := store_run ops (mkDeviceStore FMissing key) in
  let '(v, expected) := vault_run key ops ∅ in
  answers = expected
  /\ forall t id, active_secret t id ds
       = match v !! id with None => Ok None | Some c => cred_gate t id c end.
Proof.
  intros Hd. destruct (store_run_agrees key ops _ _ Hd (agrees_new key)) as [H1 H2].
  destruct (store_run ops _) as [ds l], (vault_run key ops ∅) as [v l']. simpl in *.
  split; [done|]. intros t id. by eapply gate_agrees.
Qed.
End store.

(** ** A concrete run: a write fails, the credential issued before stays *)
#[local] Existing Instances demo_device_codec demo_device_laws AuthProps.demo_crypto
  demo_crypto_laws.

Definition demo_vault_ops : list VaultOp :=
  [VIssue 100 [Byte.xab] demo_nonce None "dev-1" "phone" 50;
   VIssue 110 [Byte.xcd] demo_nonce (Some "disk full") "dev-1" "phone" 50;
   VSetRevoked None "dev-1" true; VSetRevoked None "dev-1" false; VRemove None "dev-2";
   VGate 120 "dev-1"; VGate 150 "dev-1"].

Lemma device_store_refines_witness :
  (store_run demo_vault_ops (mkDeviceStore FMissing [])).2
  = [AIssued (Ok "ab"); AIssued (Err (EIo "disk full")); AChanged (Ok true); AChanged (Ok true);
     AChanged (Ok false); AGate (Ok (Some "ab"));
     AGate (Err (EAuth "device 'dev-1' credential expired — re-pair"))].
Proof.
  pose proof (device_store_refines [] demo_vault_ops ltac:(repeat constructor)) as Hr.
  destruct (store_run demo_vault_ops _) as [ds l].
  destruct (vault_run [] demo_vault_ops ∅) as [v l'] eqn:Hv. destruct Hr as [-> _].
  vm_compute in Hv. by injection Hv as _ <-.
Defined.
