(* ===== verification/Kernel.v ===== *)
(** * The shared kernel state and the operations every task uses
    (src/ipc/protocol/helpers.rs, src/events/bus.rs, src/auth/permissions.rs,
    src/plugins/registry.rs [unregister_if], src/kernel/commands.rs,
    src/kernel/orchestrator/shutdown.rs [disconnect_loop],
    src/bridge/mod.rs [BridgeHandle])

    [World] holds what the router task, the disconnect loop and the API share:
    the registry, the write channels, the event bus with its store, the three
    process-wide counters, the wake queue and the bridge's host channels. The
    clock reading and the outcome of SQLite statements are fields that the
    environment sets between steps. *)

From S2P Require Import Prelude Errors Wire Validate Registry Events.

(** ** JSON values, as serde_json prints and parses them *)
Inductive Json :=
| JNull
| JBool (b : bool)
| JNum (n : Z)
| JStr (s : string)
| JArr (l : list Json)
| JObj (fields : list (string * Json)).

Class Serde := {
  json_to_string : Json -> string;
  json_from_slice : bytes -> option Json
}.

(** [v.get(k)] then [as_str] *)
Definition json_get_str (k : string) (j : Json) : option string :=
  match j with
  | JObj fields =>
      match List.find (fun kv => kv.1 =s k) fields with
      | Some (_, JStr s) => Some s
      | _ => None
      end
  | _ => None
  end.

(** ** State *)
Record WakeRequest := mkWake { wr_plugin_id : string; wr_msg : IncomingMessage }.

Record WakeChan := mkWakeChan {
  wc_capacity : nat;
  wc_queue : list WakeRequest;
  wc_closed : bool
}.

Record World := mkWorld {
  w_reg : Registry;
  w_chans : Chans;
  w_bus : EventBus;
  w_store : option EventStore;
  w_msg_seq : N;
  w_action_seq : N;
  w_event_seq : N;
  w_lazy : option WakeChan;
  w_bridge : option (list N);
  w_clk : Clock;
  w_db_ok : bool
}.

Definition set_reg (r : Registry) (w : World) : World :=
  mkWorld r (w_chans w) (w_bus w) (w_store w) (w_msg_seq w) (w_action_seq w)
    (w_event_seq w) (w_lazy w) (w_bridge w) (w_clk w) (w_db_ok w).
Definition set_chans (c : Chans) (w : World) : World :=
  mkWorld (w_reg w) c (w_bus w) (w_store w) (w_msg_seq w) (w_action_seq w)
    (w_event_seq w) (w_lazy w) (w_bridge w) (w_clk w) (w_db_ok w).
Definition set_bus (b : EventBus) (w : World) : World :=
  mkWorld (w_reg w) (w_chans w) b (w_store w) (w_msg_seq w) (w_action_seq w)
    (w_event_seq w) (w_lazy w) (w_bridge w) (w_clk w) (w_db_ok w).
Definition set_store (s : option EventStore) (w : World) : World :=
  mkWorld (w_reg w) (w_chans w) (w_bus w) s (w_msg_seq w) (w_action_seq w)
    (w_event_seq w) (w_lazy w) (w_bridge w) (w_clk w) (w_db_ok w).
Definition set_msg_seq (n : N) (w : World) : World :=
  mkWorld (w_reg w) (w_chans w) (w_bus w) (w_store w) n (w_action_seq w)
    (w_event_seq w) (w_lazy w) (w_bridge w) (w_clk w) (w_db_ok w).
Definition set_action_seq (n : N) (w : World) : World :=
  mkWorld (w_reg w) (w_chans w) (w_bus w) (w_store w) (w_msg_seq w) n
    (w_event_seq w) (w_lazy w) (w_bridge w) (w_clk w) (w_db_ok w).
Definition set_event_seq (n : N) (w : World) : World :=
  mkWorld (w_reg w) (w_chans w) (w_bus w) (w_store w) (w_msg_seq w) (w_action_seq w)
    n (w_lazy w) (w_bridge w) (w_clk w) (w_db_ok w).
Definition set_lazy (l : option WakeChan) (w : World) : World :=
  mkWorld (w_reg w) (w_chans w) (w_bus w) (w_store w) (w_msg_seq w) (w_action_seq w)
    (w_event_seq w) l (w_bridge w) (w_clk w) (w_db_ok w).

Definition upd_reg (f : Registry -> Registry) (w : World) : World :=
  set_reg (f (w_reg w)) w.

Definition now_ms (w : World) : Z := clk_wall_ms (w_clk w).

(** ** src/ipc/protocol/helpers.rs: sending *)
Section sending.
Context `{Wire}.

Definition kernel_message_id (w : World) : World * string :=
  (set_msg_seq (u64_succ (w_msg_seq w)) w,
   "k-" +:+ fmt_Z (now_ms w) +:+ "-" +:+ fmt_N (w_msg_seq w)).

Definition envelope_message_id (frame : Frame) : string :=
  match decode (f_payload frame) with
  | Some env => env_message_id env
  | None => EmptyString
  end.

Definition is_throttle_exempt (frame : Frame) : bool :=
  match decode (f_payload frame) with
  | None => false
  | Some env =>
      match env_payload env with
      | Some (PActionResponse _) | Some (PActionResponseChunk _ _ _)
      | Some (PActionRequestChunk _ _ _ _) | Some (PSessionClose _ _)
      | Some (PPong _ _) => true
      | _ => false
      end
  end.

(** [build_outbound]: stamp id (only when empty), time and sender; encode. *)
Definition build_outbound (env : Envelope) (w : World) : World * option Outbound :=
  let '(w, mid) :=
    if str_is_empty (env_message_id env) then kernel_message_id w
    else (w, env_message_id env) in
  let env := mkEnvelope mid "kernel" (now_ms w) (env_payload env) in
  (w, match encode env with
      | None => None
      | Some payload => Some (out_frame (build_frame "client" 0 payload))
      end).

Definition send_envelope (tx : N) (env : Envelope) (w : World) : World :=
  let '(w, o) := build_outbound env w in
  match o with
  | None => w
  | Some out => set_chans (try_send tx out (w_chans w)).1 w
  end.

Definition try_send_envelope (tx : N) (env : Envelope) (w : World) : World * bool :=
  let '(w, o) := build_outbound env w in
  match o with
  | None => (w, false)
  | Some out =>
      let '(cs, r) := try_send tx out (w_chans w) in
      (set_chans cs w, bool_decide (r = Sent))
  end.

Definition send_error (tx : N) (code : ErrorCode) (message : string) (w : World) : World :=
  send_envelope tx (envelope_of (PError code message EmptyString)) w.

Definition send_register_reject (tx : N) (reason : string) (w : World) : World :=
  send_envelope tx (envelope_of (PPluginRegisterAck (mkAck false reason [] []))) w.

(** ** Honest reasons for a refused action *)
Definition offline_device_reason (r : Registry) (action : string) : option string :=
  match split_once "." action with
  | None => None
  | Some (device_id, _) =>
      match get_device device_id r with
      | None => None
      | Some d =>
          match di_state d with
          | Offline => Some ("device " +:+ device_id +:+ " offline")
          | Revoked => Some ("device " +:+ device_id +:+ " revoked")
          | _ => None
          end
      end
  end.

(** [Vec<String>::sort]: insertion by byte order *)
Fixpoint str_leb (a b : string) : bool :=
  match a, b with
  | EmptyString, _ => true
  | String _ _, EmptyString => false
  | String x a', String y b' =>
      if (ascii_n x <? ascii_n y)%N then true
      else if (ascii_n y <? ascii_n x)%N then false
      else str_leb a' b'
  end.

Fixpoint str_insert (x : string) (l : list string) : list string :=
  match l with
  | [] => [x]
  | y :: l' => if str_leb x y then x :: l else y :: str_insert x l'
  end.

Definition str_sort (l : list string) : list string := foldr str_insert [] l.

Definition ambiguous_action_reason (r : Registry) (action : string) : option string :=
  match find_action_provider action r with
  | Ambiguous providers =>
      Some ("action " +:+ action +:+ " is ambiguous: declared by "
            +:+ join ", " (str_sort providers))
  | _ => None
  end.

(** ** Ending pending actions *)

(** What one evicted action of a vanished provider is answered with. *)
Definition gone_payload (reason : string) (p : PendingAction) : Payload :=
  if pa_session_accepted p
  then PActionStreamAbort (pa_original_action_id p) reason
  else PActionResponse (mkActionResponse (pa_original_action_id p)
         (action_status_i32 ActionError) [] reason).

Definition fail_pending_for_provider (provider_id : string) (w : World) : World :=
  let reason := "provider " +:+ provider_id +:+ " disconnected" in
  let '(r, taken) := take_pending_actions_for_provider provider_id (w_reg w) in
  foldl (fun w kp => send_envelope (pa_requester_write_tx kp.2)
                       (envelope_of (gone_payload reason kp.2)) w)
    (set_reg r w) taken.

Definition notify_forced_termination (internal_id : string) (pending : PendingAction)
    (reason : string) (w : World) : World :=
  let w := (try_send_envelope (pa_requester_write_tx pending)
              (envelope_of (PActionStreamAbort (pa_original_action_id pending) reason)) w).1 in
  let w := if pa_session_accepted pending then w
           else (try_send_envelope (pa_requester_write_tx pending)
                   (envelope_of (PActionResponse (mkActionResponse
                      (pa_original_action_id pending)
                      (action_status_i32 ActionStreamBackpressure) [] reason))) w).1 in
  match get (pa_provider_id pending) (w_reg w) with
  | None => w
  | Some provider_entry =>
      (try_send_envelope (pe_write_tx provider_entry)
         (envelope_of (PActionStreamAbort internal_id reason)) w).1
  end.

Definition abort_stream (internal_id reason : string) (w : World) : World :=
  match take_pending_action internal_id (w_reg w) with
  | (_, None) => w
  | (r, Some pending) => notify_forced_termination internal_id pending reason (set_reg r w)
  end.

(** ** Removal (src/plugins/registry.rs) *)
Definition unregister_if (plugin_id : string) (pred : PluginEntry -> bool) (w : World)
    : World * bool :=
  match unregister_core plugin_id pred (w_reg w) with
  | (_, false) => (w, false)
  | (r, true) => (fail_pending_for_provider plugin_id (set_reg r w), true)
  end.

Definition unregister (plugin_id : string) (w : World) : World :=
  (unregister_if plugin_id (fun _ => true) w).1.

Definition unregister_conn (plugin_id : string) (conn_id : N) (w : World) : World * bool :=
  unregister_if plugin_id (fun e => (pe_conn_id e =? conn_id)%N) w.

Definition unregister_if_dead (plugin_id : string) (w : World) : World * bool :=
  unregister_if plugin_id (fun e => is_closed (pe_write_tx e) (w_chans w)) w.

(** ** The event bus (src/events/bus.rs) *)

(** One iteration of the fan-out loop of [deliver]. *)
Definition deliver_to (payload : bytes) (w : World) (plugin_id : string) : World :=
  match get plugin_id (w_reg w) with
  | None => w
  | Some entry =>
      set_chans (try_send (pe_write_tx entry)
                   (out_frame (build_frame plugin_id 0 payload)) (w_chans w)).1 w
  end.

Definition deliver (event : Event) (w : World) : World :=
  let targets := event_targets (ev_event_type event) (w_bus w) in
  if bool_decide (targets = ∅) then w
  else
    let '(w, mid) := kernel_message_id w in
    match encode (mkEnvelope mid "kernel" (now_ms w) (Some (PEvent event))) with
    | None => w
    | Some payload => foldl (deliver_to payload) w (elements targets)
    end.

Definition publish (event : Event) (w : World) : World :=
  let w := match w_store w with
           | Some s => set_store (Some (persist (w_db_ok w) (now_ms w / 1000) event s)) w
           | None => w
           end in
  deliver event w.

Definition redeliver (event : Event) (w : World) : World := deliver event w.

Definition plugin_left_event (plugin_id : string) (payload : bytes) (w : World) : Event :=
  mkEvent ("sys-left-" +:+ plugin_id +:+ "-" +:+ fmt_Z (now_ms w))
    "system.plugin_left" payload 0.
End sending.

Definition spec_json (s : ActionSpec) : Json :=
  JObj [("name", JStr (as_name s)); ("description", JStr (as_description s));
        ("params_schema", JStr (as_params_schema s));
        ("risk", JStr (action_risk_str (as_risk s)));
        ("requires_confirmation", JBool (as_requires_confirmation s))].

Definition plugin_lifecycle_payload `{Serde} (r : Registry) (plugin_id : string) : bytes :=
  let device_id := match get plugin_id r with
                   | Some e => pe_device_id e
                   | None => EmptyString
                   end in
  let '(os, capabilities) := match get_device device_id r with
                             | Some dev => (device_os_str (di_os dev), di_capabilities dev)
                             | None => ("unspecified", [])
                             end in
  let specs := match get plugin_id r with
               | Some e => mf_action_specs (pe_manifest e)
               | None => []
               end in
  str_bytes (json_to_string (JObj
    [("plugin_id", JStr plugin_id); ("device_id", JStr device_id); ("os", JStr os);
     ("capabilities", JArr (JStr <$> capabilities));
     ("action_specs", JArr (spec_json <$> specs))])).

(** One round of [run_retry_worker]: the blocking sweep, then redelivery. *)
Definition retry_worker_round `{Wire} (max_retries retention_secs : Z) (w : World) : World :=
  match w_store w with
  | None => w
  | Some s =>
      let '(s', pending) := retry_round (now_ms w / 1000) max_retries retention_secs s in
      foldl (fun w e => redeliver e w) (set_store (Some s') w) pending
  end.

(** ** src/kernel/orchestrator/shutdown.rs: one disconnect *)
Definition disconnect_step `{Wire, Serde} (conn_id : N) (w : World) : World :=
  match get_by_conn_id conn_id (w_reg w) with
  | None => w
  | Some e =>
      let plugin_id := pe_plugin_id e in
      let payload := plugin_lifecycle_payload (w_reg w) plugin_id in
      match unregister_conn plugin_id conn_id w with
      | (w, false) => w
      | (w, true) =>
          let w := set_bus (unsubscribe_all plugin_id (w_bus w)) w in
          publish (plugin_left_event plugin_id payload w) w
      end
  end.

(** ** src/auth/permissions.rs *)
Section permissions.
Context `{Wire}.

Definition check_permission (r : Registry) (plugin_id : string) (required : PermissionType)
    : Result unit VynkorError :=
  match get plugin_id r with
  | None => Err (EPluginNotFound plugin_id)
  | Some entry =>
      let required_norm := normalize_permission (perm_str_name required) in
      if existsb (fun p => normalize_permission p =s required_norm)
           (mf_permissions (pe_manifest entry))
      then Ok tt
      else Err (EPermissionDenied (plugin_id +:+ " lacks " +:+ perm_str_name required))
  end.

Definition check_ipc_send (r : Registry) (plugin_id : string) : Result unit VynkorError :=
  check_permission r plugin_id PermissionIpcSend.
End permissions.

Definition check_ipc_target (r : Registry) (sender_id target_id : string)
    : Result unit VynkorError :=
  match get sender_id r with
  | None => Err (EPluginNotFound sender_id)
  | Some entry =>
      match get target_id r with
      | None => Err (EPermissionDenied ("unknown ipc target " +:+ target_id))
      | Some target =>
          if negb (pe_user_id target =s pe_user_id entry) then
            Err (EPermissionDenied ("cross-user IPC denied: " +:+ sender_id +:+ " (user "
              +:+ pe_user_id entry +:+ ") -> " +:+ target_id +:+ " (user "
              +:+ pe_user_id target +:+ ")"))
          else if str_mem target_id (mf_ipc_targets (pe_manifest entry)) then Ok tt
          else Err (EPermissionDenied (sender_id +:+ " ipc_targets does not include "
                      +:+ target_id))
      end
  end.

(** ** src/bridge/mod.rs: [BridgeHandle::relay_to_host] *)
Definition BRIDGE_CONN_ID_BASE : N := 2000000000.

(** The frame as the router and the bridge pass it on: MAC flag and tag off. *)
Definition strip_mac (frame : Frame) : Frame :=
  mkFrame (f_magic frame) (flag_clear (f_flags frame) FLAG_MAC_PRESENT) (f_length frame)
    (f_target frame) (f_crc32 frame) (f_payload frame) None.

Definition relay_to_host (conns : list N) (frame : Frame) (w : World) : World * bool :=
  match conns with
  | [] => (w, false)
  | tx :: _ =>
      let '(cs, r) := try_send tx (out_frame (strip_mac frame)) (w_chans w) in
      (set_chans cs w, bool_decide (r = Sent))
  end.

(** ** src/kernel/commands.rs *)
Record CommandOutcome := mkOutcome {
  co_status : CommandStatus;
  co_data_json : bytes;
  co_error : string
}.

Definition outcome_ok (data : string) : CommandOutcome :=
  mkOutcome CommandOk (str_bytes data) EmptyString.
Definition outcome_err (s : CommandStatus) (error : string) : CommandOutcome :=
  mkOutcome s [] error.
Definition permission_denied (error : string) : CommandOutcome :=
  outcome_err CommandPermissionDenied error.

Definition dq : string := String (ascii_of_N 34) EmptyString.
Definition quoted (s : string) : string := dq +:+ s +:+ dq.
Definition jstrs (l : list string) : Json := JArr (JStr <$> l).

Definition device_json (d : DeviceInfo) : Json :=
  JObj [("device_id", JStr (di_device_id d)); ("os", JStr (device_os_str (di_os d)));
        ("arch", JStr (di_arch d)); ("os_version", JStr (di_os_version d));
        ("capabilities", jstrs (di_capabilities d)); ("last_seen", JNum (di_last_seen d));
        ("state", JStr (device_state_str (di_state d)))].

Definition entry_manifest_json (entry : PluginEntry) : Json :=
  let m := pe_manifest entry in
  JObj [("plugin_id", JStr (pe_plugin_id entry)); ("device_id", JStr (pe_device_id entry));
        ("user_id", JStr (pe_user_id entry)); ("permissions", jstrs (mf_permissions m));
        ("actions", jstrs (mf_actions m)); ("events", jstrs (mf_events m));
        ("ipc_targets", jstrs (mf_ipc_targets m)); ("platforms", jstrs (mf_platforms m));
        ("action_specs", JArr (spec_json <$> mf_action_specs m))].

Definition dormant_manifest_json (d : DormantPlugin) : Json :=
  JObj [("plugin_id", JStr (dp_plugin_id d)); ("state", JStr "dormant");
        ("device_id", JStr "local"); ("user_id", JStr "default");
        ("permissions", jstrs []); ("actions", jstrs (as_name <$> dp_action_specs d));
        ("events", jstrs []); ("ipc_targets", jstrs []); ("platforms", jstrs []);
        ("action_specs", JArr (spec_json <$> dp_action_specs d))].

Definition plugin_state_str (s : PluginState) : string :=
  match s with Registered => "registered" end.

Definition list_plugins_json (r : Registry) : list Json :=
  ((fun e => JObj [("plugin_id", JStr (pe_plugin_id e));
                   ("state", JStr (plugin_state_str (pe_state e)));
                   ("actions", jstrs (mf_actions (pe_manifest e)))]) <$> list_plugins r)
  ++ ((fun d => JObj [("plugin_id", JStr (dp_plugin_id d)); ("state", JStr "dormant");
                      ("actions", jstrs (as_name <$> dp_action_specs d))]) <$>
       base.filter (fun d => get (dp_plugin_id d) r = None) (list_dormant r)).

(** [dispatch]; [load_config] yields the log level and port of the reloaded
    file, [set_log_level] whether the level was applied. *)
Definition dispatch `{Serde} (load_config : string -> Result (string * Z) VynkorError)
    (set_log_level : string -> bool) (command : string) (r : Registry)
    (now start_time : Z) (config_path : option string) (params_json : bytes)
    : CommandOutcome :=
  if command =s "health_check" then
    outcome_ok ("{" +:+ quoted "uptime_secs" +:+ ":"
      +:+ fmt_Z (duration_since now start_time / 1000000000) +:+ "," +:+ quoted "plugin_count"
      +:+ ":" +:+ fmt_N (N.of_nat (length (list_plugins r))) +:+ "}")
  else if command =s "list_devices" then
    outcome_ok (json_to_string (JArr (device_json <$> list_devices r)))
  else if command =s "get_manifest" then
    let plugin_id := default EmptyString
      (match json_from_slice params_json with
       | Some v => json_get_str "plugin_id" v
       | None => None
       end) in
    match get plugin_id r, get_dormant plugin_id r with
    | Some entry, _ => outcome_ok (json_to_string (entry_manifest_json entry))
    | None, Some d => outcome_ok (json_to_string (dormant_manifest_json d))
    | None, None => outcome_err CommandError ("plugin not registered: " +:+ plugin_id)
    end
  else if command =s "list_plugins" then
    outcome_ok (json_to_string (JArr (list_plugins_json r)))
  else if command =s "reload_config" then
    match config_path with
    | None => outcome_err CommandError "no config path configured"
    | Some path =>
        match load_config path with
        | Err e => outcome_err CommandError ("config reload failed: " +:+ display e)
        | Ok (log_level, port) =>
            let reloaded := if set_log_level log_level then ["log_level"] else [] in
            let items := join (dq +:+ "," +:+ dq) reloaded in
            outcome_ok ("{" +:+ quoted "reloaded" +:+ ":[" +:+ quoted items +:+ "],"
              +:+ quoted "log_level" +:+ ":" +:+ quoted log_level +:+ ","
              +:+ quoted "port" +:+ ":" +:+ fmt_Z port +:+ "}")
        end
    end
  else outcome_err CommandUnknown ("unknown command: " +:+ command).
