(* ===== verification/Lazy.v ===== *)
(** * Wake-on-first-call for lazy plugins (src/plugins/lazy.rs)

    The waker task of [LazyStarter::run]: one definition per branch of its
    select loop. The starts and stops it runs off-loop are the lists of calls in
    flight [lz_starts] and [lz_stops]; their results come back as steps. What the
    task did with the calls it was handed is recorded in [lz_log]: re-injected
    into the router's queue, answered with an error, or dropped because the
    router is gone. A branch is one step: the sends it awaits are taken as
    completed when it ends. *)

From S2P Require Import Prelude Errors Wire Validate Registry Events Kernel.

Record Waking := mkWaking {
  wk_queue : list IncomingMessage;
  wk_since : Z;
  wk_starting : bool;
  wk_want_stop : bool;
  wk_stopping : bool
}.

Inductive LazyOut :=
| Reinjected (plugin_id : string) (msg : IncomingMessage)
| Answered (msg : IncomingMessage) (status : ActionStatus) (error : string)
| Dropped (msg : IncomingMessage).

Record LazyStarter := mkLazy {
  lz_world : World;
  lz_waking : gmap string Waking;
  lz_starts : list string;
  lz_stops : list string;
  lz_log : list LazyOut
}.

Definition lz_reg (s : LazyStarter) : Registry := w_reg (lz_world s).
Definition lz_clk (s : LazyStarter) : Clock := w_clk (lz_world s).

Definition upd_world (f : World -> World) (s : LazyStarter) : LazyStarter :=
  mkLazy (f (lz_world s)) (lz_waking s) (lz_starts s) (lz_stops s) (lz_log s).
Definition upd_registry (f : Registry -> Registry) (s : LazyStarter) : LazyStarter :=
  upd_world (upd_reg f) s.
Definition set_waking (m : gmap string Waking) (s : LazyStarter) : LazyStarter :=
  mkLazy (lz_world s) m (lz_starts s) (lz_stops s) (lz_log s).
Definition set_starts (l : list string) (s : LazyStarter) : LazyStarter :=
  mkLazy (lz_world s) (lz_waking s) l (lz_stops s) (lz_log s).
Definition set_stops (l : list string) (s : LazyStarter) : LazyStarter :=
  mkLazy (lz_world s) (lz_waking s) (lz_starts s) l (lz_log s).
Definition log_out (o : list LazyOut) (s : LazyStarter) : LazyStarter :=
  mkLazy (lz_world s) (lz_waking s) (lz_starts s) (lz_stops s) (lz_log s ++ o).

Definition MAX_QUEUED : nat := 64.
Definition ALLOW_TTL : Z := from_secs 5.

Section lazy.
Context `{Wire}.

(** [fail_msg]: an error reply shaped like the router's own *)
Definition fail_msg (msg : IncomingMessage) (status : ActionStatus) (error : string)
    (s : LazyStarter) : LazyStarter :=
  log_out [Answered msg status error]
    (upd_world (fun w =>
       match decode (f_payload (m_frame msg)) with
       | None => w
       | Some env =>
           match env_payload env with
           | Some (PActionRequest req) =>
               send_envelope (m_write_tx msg)
                 (envelope_reply (env_message_id env) (PActionResponse
                    (mkActionResponse (rq_action_id req) (action_status_i32 status) [] error))) w
           | _ => w
           end
       end) s).

Definition fail_queue (plugin_id : string) (queue : list IncomingMessage) (s : LazyStarter)
    : LazyStarter :=
  foldl (fun s msg => fail_msg msg ActionError
           ("lazy plugin " +:+ plugin_id +:+ " failed to start") s) s queue.

Definition request_action (msg : IncomingMessage) : option string :=
  match decode (f_payload (m_frame msg)) with
  | None => None
  | Some env =>
      match env_payload env with
      | Some (PActionRequest r) => Some (rq_action r)
      | _ => None
      end
  end.

(** [reinject]; [open] says whether the router still receives. A failed send
    abandons the rest of the queue. *)
Definition reinject (open : bool) (plugin_id : string) (queue : list IncomingMessage)
    (s : LazyStarter) : LazyStarter :=
  if open then
    foldl (fun s msg => log_out [Reinjected plugin_id msg]
             (upd_registry (lazy_gate_allow (lz_clk s) plugin_id (m_addr msg)) s)) s queue
  else
    match queue with
    | [] => s
    | msg :: _ =>
        log_out (Dropped <$> queue)
          (upd_registry (lazy_gate_allow (lz_clk s) plugin_id (m_addr msg)) s)
    end.

(** [spawn_start] and [spawn_stop]: the slot and the call now in flight *)
Definition spawn_start (plugin_id : string) (w : Waking) (s : LazyStarter) : LazyStarter :=
  set_waking (<[plugin_id := mkWaking (wk_queue w) (clk_now (lz_clk s)) true
                               (wk_want_stop w) (wk_stopping w)]> (lz_waking s))
    (set_starts (plugin_id :: lz_starts s) s).

Definition spawn_stop (plugin_id : string) (w : Waking) (s : LazyStarter) : LazyStarter :=
  set_waking (<[plugin_id := mkWaking (wk_queue w) (wk_since w) (wk_starting w)
                               (wk_want_stop w) true]> (lz_waking s))
    (set_stops (plugin_id :: lz_stops s) s).

Definition on_wake_request (open : bool) (req : WakeRequest) (s : LazyStarter) : LazyStarter :=
  let id := wr_plugin_id req in
  let msg := wr_msg req in
  match lz_waking s !! id with
  | Some w =>
      if (MAX_QUEUED <=? length (wk_queue w))%nat
      then fail_msg msg ActionError "lazy start queue full" s
      else set_waking (<[id := mkWaking (wk_queue w ++ [msg]) (wk_since w) (wk_starting w)
                                 (wk_want_stop w) (wk_stopping w)]> (lz_waking s)) s
  | None =>
      if bool_decide (is_Some (get id (lz_reg s))) then
        let served := match request_action msg with
                      | None => false
                      | Some action =>
                          match find_action_provider action (lz_reg s) with
                          | Found p => pe_plugin_id p =s id
                          | _ => false
                          end
                      end in
        if served then reinject open id [msg] s
        else fail_msg msg ActionNotFound
               ("lazy plugin " +:+ id +:+ " does not provide action "
                +:+ default EmptyString (request_action msg)) s
      else
        let s := upd_registry (touch_used (lz_clk s) id) s in
        let s := upd_registry (lazy_gate_hold id) s in
        spawn_start id (mkWaking [msg] (clk_now (lz_clk s)) false false false) s
  end.

(** A result takes its call out of flight. *)
Fixpoint remove_one (id : string) (l : list string) : list string :=
  match l with
  | [] => []
  | x :: l' => if x =s id then l' else x :: remove_one id l'
  end.

Definition on_start_result (id : string) (result : Result unit VynkorError) (s : LazyStarter)
    : LazyStarter :=
  let s := set_starts (remove_one id (lz_starts s)) s in
  match lz_waking s !! id with
  | None => s
  | Some w =>
      let w := mkWaking (wk_queue w) (wk_since w) false (wk_want_stop w) (wk_stopping w) in
      if wk_want_stop w then spawn_stop id w s
      else match result with
           | Ok _ => set_waking (<[id := w]> (lz_waking s)) s
           | Err _ =>
               fail_queue id (wk_queue w)
                 (upd_registry (lazy_gate_release id)
                    (set_waking (delete id (lz_waking s)) s))
           end
  end.

Definition on_stopped (id : string) (s : LazyStarter) : LazyStarter :=
  let s := set_stops (remove_one id (lz_stops s)) s in
  match lz_waking s !! id with
  | None => s
  | Some w =>
      let w := mkWaking (wk_queue w) (wk_since w) (wk_starting w) false false in
      match wk_queue w with
      | [] => upd_registry (lazy_gate_release id) (set_waking (delete id (lz_waking s)) s)
      | _ => spawn_start id w (upd_registry (lazy_gate_hold id) s)
      end
  end.

(** The three passes of [poll_waking] *)
Definition settled_slot (w : Waking) : bool := negb (wk_stopping w || wk_want_stop w).

Definition ready_ids (s : LazyStarter) : list string :=
  (base.filter (fun kw => settled_slot kw.2 && bool_decide (is_Some (get kw.1 (lz_reg s))) = true)
     (map_to_list (lz_waking s))).*1.

Definition expired_ids (start_timeout : Z) (s : LazyStarter) : list string :=
  (base.filter (fun kw => settled_slot kw.2 && bool_decide (get kw.1 (lz_reg s) = None)
      && (start_timeout <=? duration_since (clk_now (lz_clk s)) (wk_since kw.2))%Z = true)
     (map_to_list (lz_waking s))).*1.

Definition drain_ready (open : bool) (s : LazyStarter) (id : string) : LazyStarter :=
  match lz_waking s !! id with
  | None => s
  | Some w => reinject open id (wk_queue w) (set_waking (delete id (lz_waking s)) s)
  end.

Definition expire_slot (s : LazyStarter) (id : string) : LazyStarter :=
  match lz_waking s !! id with
  | None => s
  | Some w =>
      let s := fail_queue id (wk_queue w) s in
      let s := upd_registry (lazy_gate_release id) s in
      let w := mkWaking [] (wk_since w) (wk_starting w) true (wk_stopping w) in
      if wk_starting w then set_waking (<[id := w]> (lz_waking s)) s
      else spawn_stop id w s
  end.

Definition trim_gate (s : LazyStarter) (id : string) : LazyStarter :=
  if bool_decide (is_Some (lz_waking s !! id)) then s
  else
    let '(r, empty) := lazy_gate_trim (lz_clk s) id ALLOW_TTL (lz_reg s) in
    let s := upd_registry (fun _ => r) s in
    if empty then upd_registry (lazy_gate_release id) s else s.

Definition poll_waking (open : bool) (start_timeout : Z) (s : LazyStarter) : LazyStarter :=
  let ready := ready_ids s in
  let expired := expired_ids start_timeout s in
  let s := foldl (drain_ready open) s ready in
  let s := foldl expire_slot s expired in
  foldl trim_gate s (lazy_gate_ids (lz_reg s)).

Definition sweep_one (now : Z) (s : LazyStarter) (d : DormantPlugin) : LazyStarter :=
  let id := dp_plugin_id d in
  if bool_decide (is_Some (lz_waking s !! id)) || bool_decide (get id (lz_reg s) = None) then s
  else match idle_for_at id now (lz_reg s) with
       | None => upd_registry (touch_used (lz_clk s) id) s
       | Some idle =>
           if (idle <? dp_idle_stop d)%Z || has_pending_for_provider id (lz_reg s) then s
           else spawn_stop id (mkWaking [] now false false false)
                  (upd_registry (lazy_gate_hold id) s)
       end.

Definition sweep_idle (now : Z) (s : LazyStarter) : LazyStarter :=
  foldl (sweep_one now) s (list_dormant (lz_reg s)).

(** One branch of the select loop, labelled with the request it received; the
    poll branch is guarded. *)
Inductive waker_step (start_timeout : Z) : option WakeRequest -> LazyStarter -> LazyStarter -> Prop :=
| wk_request open req rest cap closed s :
    w_lazy (lz_world s) = Some (mkWakeChan cap (req :: rest) closed) ->
    waker_step start_timeout (Some req) s
      (on_wake_request open req
         (upd_world (set_lazy (Some (mkWakeChan cap rest closed))) s))
| wk_started id result s :
    id ∈ lz_starts s -> waker_step start_timeout None s (on_start_result id result s)
| wk_stopped id s :
    id ∈ lz_stops s -> waker_step start_timeout None s (on_stopped id s)
| wk_poll open s :
    negb (bool_decide (lz_waking s = ∅)) || has_lazy_gates (lz_reg s) = true ->
    waker_step start_timeout None s (poll_waking open start_timeout s)
| wk_sweep now s : waker_step start_timeout None s (sweep_idle now s).

(** Runs of the waker beside the other tasks, which may do anything to the
    shared state between its steps; the list is the requests received so far. *)
Inductive waker_run (start_timeout : Z) : list WakeRequest -> LazyStarter -> Prop :=
| run_init w : waker_run start_timeout [] (mkLazy w ∅ [] [] [])
| run_step rcv o s s' :
    waker_run start_timeout rcv s -> waker_step start_timeout o s s' ->
    waker_run start_timeout (rcv ++ from_option (fun r => [r]) [] o) s'
| run_others rcv w s :
    waker_run start_timeout rcv s -> waker_run start_timeout rcv (upd_world (fun _ => w) s).
End lazy.
