(* ===== verification/LazyProps.v ===== *)
(** * Properties of the lazy waker (src/plugins/lazy.rs)

    Every call handed to the waker is kept, delivered once or answered once;
    calls for one plugin are delivered in arrival order; starts and stops of one
    plugin are serialised as long as a start returns before its plugin is
    drained; the idle sweep stops exactly the plugins it should. *)

From S2P Require Import Prelude Errors Wire Validate Registry RegistryInv RegistryProps Events.
From S2P Require Import Kernel Lazy.

(** ** Accounting *)
Definition out_msg (o : LazyOut) : IncomingMessage :=
  match o with Reinjected _ m => m | Answered m _ _ => m | Dropped m => m end.

Definition queued (m : gmap string Waking) : list IncomingMessage :=
  concat (wk_queue <$> (map_to_list m).*2).

(** Every call the waker still holds or has settled. *)
Definition calls (s : LazyStarter) : list IncomingMessage :=
  queued (lz_waking s) ++ (out_msg <$> lz_log s).

Definition queue_of (id : string) (s : LazyStarter) : list IncomingMessage :=
  match lz_waking s !! id with Some w => wk_queue w | None => [] end.

Definition reinjected_for (id : string) (log : list LazyOut) : list IncomingMessage :=
  omap (fun o => match o with
                 | Reinjected p m => if p =s id then Some m else None
                 | _ => None
                 end) log.

Definition received_for (id : string) (rcv : list WakeRequest) : list IncomingMessage :=
  omap (fun r => if wr_plugin_id r =s id then Some (wr_msg r) else None) rcv.

(** The calls for [id], delivered first and then waiting, in order. *)
Definition line_of (id : string) (s : LazyStarter) : list IncomingMessage :=
  reinjected_for id (lz_log s) ++ queue_of id s.

Definition queues_bounded (s : LazyStarter) : Prop :=
  forall id, (length (queue_of id s) <= MAX_QUEUED)%nat.

Lemma queued_insert m id w :
  m !! id = None -> queued (<[id := w]> m) ≡ₚ wk_queue w ++ queued m.
Proof.
  intros Hn. unfold queued. by rewrite (map_to_list_insert m id w Hn).
Qed.

Lemma queued_delete m id w :
  m !! id = Some w -> queued m ≡ₚ wk_queue w ++ queued (delete id m).
Proof.
  intros Hs. rewrite <- queued_insert by apply lookup_delete_eq.
  by rewrite insert_delete_id.
Qed.

Lemma queued_replace m id w w' :
  m !! id = Some w -> queued (<[id := w']> m) ≡ₚ wk_queue w' ++ queued (delete id m).
Proof.
  intros Hs. rewrite <- queued_insert by apply lookup_delete_eq.
  by rewrite insert_delete_eq.
Qed.

(** What one piece of the waker may do to its calls: take in [new], lose and
    duplicate nothing, keep each plugin's line in order and every queue within
    its bound. *)
Record accounted (new : list WakeRequest) (s s' : LazyStarter) : Prop := {
  ac_calls : calls s' ≡ₚ calls s ++ (wr_msg <$> new);
  ac_line id : line_of id s' `sublist_of` line_of id s ++ received_for id new;
  ac_bound : queues_bounded s -> queues_bounded s'
}.

Lemma accounted_refl s : accounted [] s s.
Proof. split; [by rewrite app_nil_r|intros; by rewrite app_nil_r|done]. Qed.

Lemma accounted_trans new s1 s2 s3 :
  accounted [] s1 s2 -> accounted new s2 s3 -> accounted new s1 s3.
Proof.
  intros [C1 L1 B1] [C2 L2 B2]. split; [|intros id|auto].
  - rewrite C2, C1. by rewrite app_nil_r.
  - etransitivity; [apply L2|]. apply sublist_app; [|done].
    specialize (L1 id). by rewrite app_nil_r in L1.
Qed.

Lemma accounted_foldl {A} (f : LazyStarter -> A -> LazyStarter) l s :
  (forall s x, accounted [] s (f s x)) -> accounted [] s (foldl f s l).
Proof.
  intros Hf. revert s. induction l as [|x l IH]; intros s; simpl; [apply accounted_refl|].
  eapply accounted_trans; [apply Hf|apply IH].
Qed.

(** Steps that move neither slots nor the log. *)
Lemma accounted_quiet s s' :
  lz_waking s' = lz_waking s -> lz_log s' = lz_log s -> accounted [] s s'.
Proof.
  intros Hw Hl. split; unfold calls, line_of, queues_bounded, queue_of; rewrite ?Hw, ?Hl.
  - by rewrite app_nil_r.
  - intros id. by rewrite app_nil_r.
  - done.
Qed.

(** Settling calls: [settle] is how each one left. *)
Lemma reinjected_app id l l' :
  reinjected_for id (l ++ l') = reinjected_for id l ++ reinjected_for id l'.
Proof. apply omap_app. Qed.

(** A slot [id] that gives up its whole queue to the log. *)
Lemma accounted_settle id w s s' (out : list LazyOut) :
  lz_waking s !! id = Some w -> out_msg <$> out = wk_queue w ->
  (forall i, reinjected_for i out `sublist_of` if decide (i = id) then wk_queue w else []) ->
  lz_log s' = lz_log s ++ out ->
  (lz_waking s' = delete id (lz_waking s)
   \/ exists w', wk_queue w' = [] /\ lz_waking s' = <[id := w']> (lz_waking s)) ->
  accounted [] s s'.
Proof.
  intros Hw Hout Hre Hl Hm.
  assert (queued (lz_waking s') ≡ₚ queued (delete id (lz_waking s))
    /\ forall i, queue_of i s' = if decide (i = id) then [] else queue_of i s) as [Hq Ho].
  { unfold queue_of. destruct Hm as [->|(w' & Hw' & ->)]; (split; [|intros i; case_decide as Hi]).
    - done.
    - subst. by rewrite lookup_delete_eq.
    - by rewrite lookup_delete_ne.
    - rewrite (queued_replace _ _ _ _ Hw). by rewrite Hw'.
    - subst. by rewrite lookup_insert_eq.
    - by rewrite lookup_insert_ne. }
  split; unfold calls, line_of, queues_bounded.
  - rewrite Hq, (queued_delete _ _ _ Hw), Hl, fmap_app, Hout. simpl.
    rewrite app_nil_r. solve_Permutation.
  - intros i. rewrite Hl, reinjected_app, Ho, app_nil_r, <- app_assoc. apply sublist_app; [done|].
    specialize (Hre i). case_decide as Hi.
    + subst. unfold queue_of. rewrite Hw. by rewrite app_nil_r.
    + apply sublist_nil_r in Hre as ->. done.
  - intros Hb i. rewrite Ho. case_decide; [simpl; lia|apply Hb].
Qed.

Section ops.
Context {WI : Wire}.

Lemma fail_queue_fields id q s :
  lz_waking (fail_queue id q s) = lz_waking s
  /\ lz_starts (fail_queue id q s) = lz_starts s /\ lz_stops (fail_queue id q s) = lz_stops s
  /\ lz_log (fail_queue id q s) = lz_log s ++ ((fun m => Answered m ActionError
       ("lazy plugin " +:+ id +:+ " failed to start")) <$> q).
Proof.
  unfold fail_queue. revert s. induction q as [|m q IH]; intros s; simpl.
  - by rewrite app_nil_r.
  - destruct (IH (fail_msg m ActionError ("lazy plugin " +:+ id +:+ " failed to start") s))
      as (-> & -> & -> & ->). simpl. by rewrite <- app_assoc.
Qed.

(** How [reinject] settles a queue. *)
Definition reinject_out (open : bool) (id : string) (m : IncomingMessage) : LazyOut :=
  if open then Reinjected id m else Dropped m.

Lemma reinject_fields open id q s :
  lz_waking (reinject open id q s) = lz_waking s
  /\ lz_starts (reinject open id q s) = lz_starts s
  /\ lz_stops (reinject open id q s) = lz_stops s
  /\ lz_log (reinject open id q s) = lz_log s ++ (reinject_out open id <$> q).
Proof.
  unfold reinject. destruct open; [|destruct q; simpl; by rewrite ?app_nil_r].
  revert s. induction q as [|m q IH]; intros s; simpl.
  - by rewrite app_nil_r.
  - edestruct IH as (-> & -> & -> & ->). simpl. by rewrite <- app_assoc.
Qed.

Lemma answered_none i st text q :
  reinjected_for i ((fun m => Answered m st text) <$> q) = [].
Proof. induction q as [|m q IH]; [done|]. exact IH. Qed.

Lemma reinject_out_for open id i q :
  reinjected_for i (reinject_out open id <$> q) `sublist_of` if decide (i = id) then q else [].
Proof.
  destruct open; cycle 1.
  { assert (reinjected_for i (reinject_out false id <$> q) = []) as ->; [|apply sublist_nil_l].
    induction q as [|m q IH]; [done|exact IH]. }
  induction q as [|m q IH]; [apply sublist_nil_l|].
  unfold reinjected_for in *. simpl. destruct (id =s i) eqn:Hi; boolify.
  - subst. rewrite decide_True by done. rewrite decide_True in IH by done. by constructor.
  - rewrite decide_False by congruence. rewrite decide_False in IH by congruence. exact IH.
Qed.

Lemma out_msg_reinject open id (q : list IncomingMessage) : out_msg <$> (reinject_out open id <$> q) = q.
Proof.
  rewrite <- list_fmap_compose. unfold reinject_out. destruct open; simpl; apply list_fmap_id.
Qed.

(** One call that is settled at once, without a slot. *)
Lemma accounted_immediate r s s' (o : LazyOut) :
  lz_waking s' = lz_waking s -> lz_log s' = lz_log s ++ [o] -> out_msg o = wr_msg r ->
  (forall i, queue_of (wr_plugin_id r) s = [] /\ o = Reinjected (wr_plugin_id r) (wr_msg r)
     \/ reinjected_for i [o] = []) ->
  accounted [r] s s'.
Proof.
  intros Hw Hl Ho Hre. split.
  - unfold calls. rewrite Hw, Hl, fmap_app. simpl. rewrite Ho. solve_Permutation.
  - intros i. unfold line_of, queue_of. rewrite Hw, Hl, reinjected_app.
    change (match lz_waking s !! i with Some w => wk_queue w | None => [] end) with (queue_of i s).
    destruct (Hre i) as [[Hq ->]| ->].
    + unfold reinjected_for at 2, received_for. simpl.
      destruct (wr_plugin_id r =s i) eqn:Hi; boolify; [|by rewrite !app_nil_r].
      subst. rewrite Hq. by rewrite !app_nil_r.
    + rewrite app_nil_r. by apply sublist_inserts_r.
  - intros Hb i. unfold queue_of. rewrite Hw. apply Hb.
Qed.

(** One call that joins or opens the slot of its plugin. *)
Lemma accounted_enqueue r w s s' :
  lz_log s' = lz_log s -> wk_queue w = queue_of (wr_plugin_id r) s ++ [wr_msg r] ->
  lz_waking s' = <[wr_plugin_id r := w]> (lz_waking s) ->
  (length (queue_of (wr_plugin_id r) s) < MAX_QUEUED)%nat -> accounted [r] s s'.
Proof.
  intros Hl Hq Hm Hlen.
  assert (forall i, queue_of i s' = if decide (i = wr_plugin_id r) then wk_queue w
                                    else queue_of i s) as Ho.
  { intros i. unfold queue_of at 1. rewrite Hm. case_decide; subst;
      [by rewrite lookup_insert_eq|by rewrite lookup_insert_ne]. }
  split; [|intros i|intros Hb i].
  - unfold calls. rewrite Hl, Hm. unfold queue_of in Hq.
    destruct (lz_waking s !! wr_plugin_id r) as [w0|] eqn:Hs.
    + rewrite (queued_replace _ _ _ _ Hs), (queued_delete _ _ _ Hs), Hq. simpl. solve_Permutation.
    + rewrite queued_insert, Hq by done. simpl. solve_Permutation.
  - unfold line_of, received_for. rewrite Hl, Ho. simpl.
    case_decide as Hi; [subst; rewrite str_eqb_refl, Hq; by rewrite app_assoc|].
    apply sublist_inserts_r. done.
  - rewrite Ho. case_decide; [|apply Hb]. rewrite Hq, length_app. simpl. lia.
Qed.

Lemma on_wake_request_accounted open r s : accounted [r] s (on_wake_request open r s).
Proof.
  unfold on_wake_request. destruct (lz_waking s !! wr_plugin_id r) as [w|] eqn:Hs.
  - destruct (Nat.leb_spec MAX_QUEUED (length (wk_queue w))) as [Hf|Hf].
    + eapply (accounted_immediate r s); [done|done|done|by right].
    + eapply (accounted_enqueue r (mkWaking (wk_queue w ++ [wr_msg r]) _ _ _ _) s);
        unfold queue_of; rewrite ?Hs; done.
  - assert (queue_of (wr_plugin_id r) s = []) as Hq by (unfold queue_of; by rewrite Hs).
    case_bool_decide; [|by eapply (accounted_enqueue r (mkWaking [wr_msg r] _ _ _ _) s);
      rewrite ?Hq; [| |reflexivity|apply Nat.ltb_lt; reflexivity]].
    destruct (match request_action _ with Some _ => _ | None => _ end); cycle 1.
    { eapply (accounted_immediate r s); [done|done|done|by right]. }
    destruct (reinject_fields open (wr_plugin_id r) [wr_msg r] s) as (H1 & _ & _ & H2).
    eapply (accounted_immediate r s _ (reinject_out open (wr_plugin_id r) (wr_msg r)));
      [done|done|by destruct open|].
    intros i. destruct open; [by left|by right].
Qed.

(** Changing only the flags of a slot. *)
Lemma accounted_flags id w w' s s' :
  lz_waking s !! id = Some w -> wk_queue w' = wk_queue w ->
  lz_waking s' = <[id := w']> (lz_waking s) -> lz_log s' = lz_log s -> accounted [] s s'.
Proof.
  intros Hs Hq Hm Hl.
  assert (forall i, queue_of i s' = queue_of i s) as Ho.
  { intros i. unfold queue_of. rewrite Hm. destruct (decide (i = id)) as [->|];
      [by rewrite lookup_insert_eq, Hs|by rewrite lookup_insert_ne]. }
  split; [|intros i|intros Hb i].
  - unfold calls. rewrite Hl, Hm, (queued_replace _ _ _ _ Hs), (queued_delete _ _ _ Hs), Hq.
    by rewrite app_nil_r.
  - unfold line_of. rewrite Hl, Ho. by rewrite app_nil_r.
  - rewrite Ho. apply Hb.
Qed.

(** An empty slot that appears or goes. *)
Lemma accounted_empty id w s s' :
  queue_of id s = [] -> lz_log s' = lz_log s -> wk_queue w = [] ->
  lz_waking s' = delete id (lz_waking s) \/ lz_waking s' = <[id := w]> (lz_waking s) ->
  accounted [] s s'.
Proof.
  intros Hq Hl Hw Hm.
  assert (queued (delete id (lz_waking s)) ≡ₚ queued (lz_waking s)) as Hd.
  { unfold queue_of in Hq. destruct (lz_waking s !! id) as [w0|] eqn:Hs.
    - rewrite (queued_delete _ _ _ Hs), Hq. done.
    - by rewrite delete_id. }
  assert (queued (lz_waking s') ≡ₚ queued (lz_waking s)
          /\ forall i, queue_of i s' = queue_of i s) as [Hqs Ho].
  { destruct Hm as [Hm|Hm]; rewrite Hm; (split; [|intros i; unfold queue_of; rewrite Hm;
      destruct (decide (i = id)) as [->|Hi]]).
    - done.
    - rewrite lookup_delete_eq. by unfold queue_of in Hq.
    - by rewrite lookup_delete_ne.
    - rewrite <- insert_delete_eq, queued_insert, Hw by apply lookup_delete_eq. done.
    - rewrite lookup_insert_eq, Hw. by unfold queue_of in Hq.
    - by rewrite lookup_insert_ne. }
  split; [|intros i|intros Hb i].
  - unfold calls. rewrite Hl, Hqs. by rewrite app_nil_r.
  - unfold line_of. rewrite Hl, Ho. by rewrite app_nil_r.
  - rewrite Ho. apply Hb.
Qed.

Lemma on_start_result_accounted id res s : accounted [] s (on_start_result id res s).
Proof.
  unfold on_start_result. simpl. destruct (lz_waking s !! id) as [w|] eqn:Hs;
    [|by apply accounted_quiet].
  destruct (wk_want_stop w) eqn:Hw; [by eapply (accounted_flags id w); [done| |reflexivity|done]|].
  destruct res as [u|e]; [by eapply (accounted_flags id w); [done| |reflexivity|done]|].
  match goal with |- accounted _ _ (fail_queue _ _ ?s1) =>
    destruct (fail_queue_fields id (wk_queue w) s1) as (H1 & _ & _ & H2) end.
  eapply (accounted_settle id w); [done| | |exact H2|left; exact H1].
  - rewrite <- list_fmap_compose. apply list_fmap_id.
  - intros i. rewrite answered_none. apply sublist_nil_l.
Qed.

Lemma on_stopped_accounted id s : accounted [] s (on_stopped id s).
Proof.
  unfold on_stopped. simpl. destruct (lz_waking s !! id) as [w|] eqn:Hs;
    [|by apply accounted_quiet].
  destruct (wk_queue w) as [|m q] eqn:Hq; simpl.
  - eapply (accounted_empty id w); [unfold queue_of; by rewrite Hs|done|done|by left].
  - eapply (accounted_flags id w); [done| |reflexivity|done]. simpl. by rewrite Hq.
Qed.

Lemma drain_ready_accounted open s id : accounted [] s (drain_ready open s id).
Proof.
  unfold drain_ready. destruct (lz_waking s !! id) as [w|] eqn:Hs; [|apply accounted_refl].
  match goal with |- accounted _ _ (reinject _ _ _ ?s1) =>
    destruct (reinject_fields open id (wk_queue w) s1) as (H1 & _ & _ & H2) end.
  eapply (accounted_settle id w); [done|apply out_msg_reinject|intros i; apply reinject_out_for
    |exact H2|left; exact H1].
Qed.

Lemma expire_slot_accounted s id : accounted [] s (expire_slot s id).
Proof.
  unfold expire_slot. destruct (lz_waking s !! id) as [w|] eqn:Hs; [|apply accounted_refl].
  destruct (fail_queue_fields id (wk_queue w) s) as (H1 & _ & _ & H2). simpl.
  destruct (wk_starting w); (eapply (accounted_settle id w); [done| | |exact H2|]);
    try (rewrite <- list_fmap_compose; apply list_fmap_id);
    try (intros i; rewrite answered_none; apply sublist_nil_l);
    right; eexists; (split; [|simpl; rewrite H1; reflexivity]); done.
Qed.

Lemma trim_gate_accounted s id : accounted [] s (trim_gate s id).
Proof.
  unfold trim_gate. case_bool_decide; [apply accounted_refl|].
  destruct (lazy_gate_trim _ _ _ _) as [r []]; by apply accounted_quiet.
Qed.

Lemma poll_waking_accounted open t s : accounted [] s (poll_waking open t s).
Proof.
  unfold poll_waking.
  eapply accounted_trans; [|apply accounted_foldl; intros; apply trim_gate_accounted].
  eapply accounted_trans; [|apply accounted_foldl; intros; apply expire_slot_accounted].
  apply accounted_foldl. intros. apply drain_ready_accounted.
Qed.

Lemma sweep_one_accounted now s d : accounted [] s (sweep_one now s d).
Proof.
  unfold sweep_one. case_bool_decide as Hw; [apply accounted_refl|].
  destruct (bool_decide _); [apply accounted_refl|]. simpl.
  destruct (idle_for_at _ _ _); [|by apply accounted_quiet].
  destruct (_ || _); [apply accounted_refl|].
  apply eq_None_not_Some in Hw.
  eapply (accounted_empty (dp_plugin_id d)); [unfold queue_of; by rewrite Hw|done| |right; reflexivity].
  done.
Qed.

Lemma waker_step_accounted t o s s' :
  waker_step t o s s' -> accounted (from_option (fun r => [r]) [] o) s s'.
Proof.
  intros Hs. destruct Hs; simpl.
  - eapply accounted_trans; [|apply on_wake_request_accounted]. by apply accounted_quiet.
  - apply on_start_result_accounted.
  - apply on_stopped_accounted.
  - apply poll_waking_accounted.
  - apply accounted_foldl. intros. apply sweep_one_accounted.
Qed.

End ops.

(** ** Serialisation of starts and stops *)
Definition inflight (id : string) (l : list string) : nat :=
  length (base.filter (fun x => x = id) l).

Lemma inflight_cons id x l :
  inflight id (x :: l) = ((if decide (x = id) then 1 else 0) + inflight id l)%nat.
Proof. unfold inflight. rewrite filter_cons. by case_decide. Qed.

Lemma inflight_remove id x l :
  x ∈ l -> inflight id l = ((if decide (x = id) then 1 else 0) + inflight id (remove_one x l))%nat.
Proof.
  induction l as [|y l IH]; [by intros ?%elem_of_nil|]. rewrite elem_of_cons. intros Hx.
  rewrite inflight_cons. simpl. destruct (y =s x) eqn:Hy; boolify; [by subst|].
  rewrite inflight_cons, IH; [lia|]. destruct Hx; [congruence|done].
Qed.

Lemma inflight_elem id l : id ∈ l <-> (0 < inflight id l)%nat.
Proof.
  induction l as [|x l IH]; [by split; [intros ?%elem_of_nil|unfold inflight; simpl; lia]|].
  rewrite elem_of_cons, inflight_cons, IH. case_decide; [split; [lia|by left]|].
  split; [intros [?|?]; [congruence|lia]|by right].
Qed.

(** The calls in flight for a plugin are what its slot says, and never both. *)
Definition slot_ok (s : LazyStarter) (id : string) : Prop :=
  match lz_waking s !! id with
  | None => inflight id (lz_starts s) = 0%nat /\ inflight id (lz_stops s) = 0%nat
  | Some w => inflight id (lz_starts s) = (if wk_starting w then 1 else 0)%nat
              /\ inflight id (lz_stops s) = (if wk_stopping w then 1 else 0)%nat
              /\ wk_starting w && wk_stopping w = false
  end.

Definition serial (s : LazyStarter) : Prop := forall id, slot_ok s id.

(** Only the plugin [id] is concerned. *)
Definition others_ok (id : string) (s : LazyStarter) : Prop :=
  forall i, i <> id -> slot_ok s i.

Definition idle_slot (id : string) (s : LazyStarter) : Prop :=
  inflight id (lz_starts s) = 0%nat /\ inflight id (lz_stops s) = 0%nat.

Lemma serial_others id s : serial s -> others_ok id s.
Proof. intros Hs i _. apply Hs. Qed.

Lemma slot_ok_none id s : serial s -> lz_waking s !! id = None -> idle_slot id s.
Proof. intros Hs Hn. specialize (Hs id). unfold slot_ok in Hs. by rewrite Hn in Hs. Qed.

Lemma spawn_start_serial id w s :
  others_ok id s -> idle_slot id s -> wk_stopping w = false -> serial (spawn_start id w s).
Proof.
  intros Ho [H1 H2] Hw i. unfold slot_ok, spawn_start. simpl.
  rewrite lookup_insert, inflight_cons. case_decide as Hi; [|by apply Ho].
  subst. rewrite H1, H2, Hw. done.
Qed.

Lemma spawn_stop_serial id w s :
  others_ok id s -> idle_slot id s -> wk_starting w = false -> serial (spawn_stop id w s).
Proof.
  intros Ho [H1 H2] Hw i. unfold slot_ok, spawn_stop. simpl.
  rewrite lookup_insert, inflight_cons. case_decide as Hi; [|by apply Ho].
  subst. rewrite H1, H2, Hw. done.
Qed.

(** The slot changes, the calls in flight do not. *)
Lemma set_slot_serial id w w' s s' :
  serial s -> lz_waking s !! id = Some w -> lz_waking s' = <[id := w']> (lz_waking s) ->
  lz_starts s' = lz_starts s -> lz_stops s' = lz_stops s ->
  wk_starting w' = wk_starting w -> wk_stopping w' = wk_stopping w -> serial s'.
Proof.
  intros Hs Hw Hm H1 H2 Ha Hb i. specialize (Hs i). unfold slot_ok in *.
  rewrite Hm, H1, H2, lookup_insert. case_decide as Hi; [|done]. subst.
  rewrite Hw in Hs. by rewrite Ha, Hb.
Qed.

Lemma drop_slot_serial id s s' :
  others_ok id s -> idle_slot id s -> lz_waking s' = delete id (lz_waking s) ->
  lz_starts s' = lz_starts s -> lz_stops s' = lz_stops s -> serial s'.
Proof.
  intros Ho Hi Hm H1 H2 i. unfold slot_ok. rewrite Hm, H1, H2, lookup_delete.
  case_decide; [subst; exact Hi|by apply Ho].
Qed.

Lemma quiet_serial s s' :
  serial s -> lz_waking s' = lz_waking s -> lz_starts s' = lz_starts s ->
  lz_stops s' = lz_stops s -> serial s'.
Proof. intros Hs H1 H2 H3 i. unfold slot_ok. rewrite H1, H2, H3. apply Hs. Qed.

(** A call that comes back. *)
Lemma start_back id s :
  serial s -> id ∈ lz_starts s ->
  let s' := set_starts (remove_one id (lz_starts s)) s in
  others_ok id s' /\ idle_slot id s'
  /\ exists w, lz_waking s !! id = Some w /\ wk_starting w = true /\ wk_stopping w = false.
Proof.
  intros Hs Hin. simpl. split; [|].
  - intros i Hi. specialize (Hs i). unfold slot_ok in *. simpl.
    rewrite (inflight_remove i id) in Hs by done. by rewrite decide_False in Hs.
  - pose proof (inflight_remove id id (lz_starts s) Hin) as Hr. rewrite decide_True in Hr by done.
    specialize (Hs id). unfold slot_ok in Hs. unfold idle_slot. simpl.
    destruct (lz_waking s !! id) as [w|]; [|lia]. destruct Hs as (H1 & H2 & H3).
    destruct (wk_starting w) eqn:E1; [|lia]. destruct (wk_stopping w) eqn:E2; [done|].
    split; [lia|by exists w].
Qed.

Lemma stop_back id s :
  serial s -> id ∈ lz_stops s ->
  let s' := set_stops (remove_one id (lz_stops s)) s in
  others_ok id s' /\ idle_slot id s'
  /\ exists w, lz_waking s !! id = Some w /\ wk_starting w = false.
Proof.
  intros Hs Hin. simpl. split; [|].
  - intros i Hi. specialize (Hs i). unfold slot_ok in *. simpl.
    rewrite (inflight_remove i id (lz_stops s)) in Hs by done. by rewrite decide_False in Hs.
  - pose proof (inflight_remove id id (lz_stops s) Hin) as Hr. rewrite decide_True in Hr by done.
    specialize (Hs id). unfold slot_ok in Hs. unfold idle_slot. simpl.
    destruct (lz_waking s !! id) as [w|]; [|lia]. destruct Hs as (H1 & H2 & H3).
    destruct (wk_stopping w) eqn:E2; [|lia]. rewrite andb_true_r in H3. rewrite H3 in H1.
    split; [lia|by exists w].
Qed.

Section serial_ops.
Context {WI : Wire}.

Lemma on_wake_request_serial open r s : serial s -> serial (on_wake_request open r s).
Proof.
  intros Hs. unfold on_wake_request.
  destruct (lz_waking s !! wr_plugin_id r) as [w|] eqn:Hw.
  - destruct (_ <=? _)%nat; [by eapply quiet_serial|].
    eapply (set_slot_serial (wr_plugin_id r) w); [done|done|reflexivity|done..].
  - case_bool_decide.
    + destruct (match request_action _ with Some _ => _ | None => _ end); [|by eapply quiet_serial].
      destruct (reinject_fields open (wr_plugin_id r) [wr_msg r] s) as (? & ? & ? & _).
      by eapply quiet_serial.
    + apply spawn_start_serial; [|by apply (slot_ok_none _ s)|done].
      apply serial_others. by eapply (quiet_serial s).
Qed.

Lemma on_start_result_serial id res s :
  serial s -> id ∈ lz_starts s -> serial (on_start_result id res s).
Proof.
  intros Hs Hin. destruct (start_back id s Hs Hin) as (Ho & Hi & w & Hw & _ & Hst).
  unfold on_start_result. cbv zeta. cbn [lz_waking set_starts]. rewrite Hw.
  cbn [wk_want_stop wk_queue]. destruct (wk_want_stop w); [by apply spawn_stop_serial|].
  destruct res as [u|e].
  - intros i. unfold slot_ok. cbn [lz_waking set_waking lz_starts lz_stops set_starts].
    rewrite lookup_insert. case_decide; [|by apply Ho].
    subst. destruct Hi as [H1 H2]. cbn [lz_starts lz_stops set_starts] in H1, H2.
    by rewrite H1, H2, Hst.
  - match goal with |- serial (fail_queue _ ?q ?s1) =>
      destruct (fail_queue_fields id q s1) as (E1 & E2 & E3 & _) end.
    by eapply (drop_slot_serial id).
Qed.

Lemma on_stopped_serial id s : serial s -> id ∈ lz_stops s -> serial (on_stopped id s).
Proof.
  intros Hs Hin. destruct (stop_back id s Hs Hin) as (Ho & Hi & w & Hw & Hst).
  unfold on_stopped. cbv zeta. cbn [lz_waking set_stops]. rewrite Hw. cbn [wk_queue].
  destruct (wk_queue w); [by eapply (drop_slot_serial id)|]. by apply spawn_start_serial.
Qed.

(** Draining slots whose start has returned. *)
Lemma drain_serial open l s :
  serial s ->
  (forall id w, id ∈ l -> lz_waking s !! id = Some w ->
     wk_starting w = false /\ wk_stopping w = false) ->
  serial (foldl (drain_ready open) s l).
Proof.
  revert s. induction l as [|id l IH]; intros s Hs Hpre; simpl; [done|].
  unfold drain_ready at 2. destruct (lz_waking s !! id) as [w|] eqn:Hw.
  - destruct (Hpre id w ltac:(left) Hw) as [Ha Hb].
    match goal with |- context [reinject _ _ _ ?s1] =>
      destruct (reinject_fields open id (wk_queue w) s1) as (E1 & E2 & E3 & _) end.
    apply IH.
    + eapply (drop_slot_serial id s); [by apply serial_others| |done..].
      specialize (Hs id). unfold slot_ok in Hs. rewrite Hw, Ha, Hb in Hs. by destruct Hs as (? & ? & _).
    + intros i w' Hi. rewrite E1. simpl. intros [_ Hl]%lookup_delete_Some.
      apply (Hpre i); [by right|done].
  - apply IH; [done|]. intros i w' Hi. apply Hpre. by right.
Qed.

Lemma expire_fields s id w :
  lz_waking s !! id = Some w ->
  (forall i, i <> id -> lz_waking (expire_slot s id) !! i = lz_waking s !! i)
  /\ lz_starts (expire_slot s id) = lz_starts s.
Proof.
  intros Hw. unfold expire_slot. rewrite Hw. cbv zeta.
  destruct (fail_queue_fields id (wk_queue w) s) as (E1 & E2 & E3 & _). cbn [wk_starting].
  destruct (wk_starting w); simpl; rewrite ?E1, ?E2; (split; [|done]); intros i Hi;
    by rewrite lookup_insert_ne.
Qed.

Lemma expire_serial l s :
  serial s -> NoDup l ->
  (forall id w, id ∈ l -> lz_waking s !! id = Some w -> wk_stopping w = false) ->
  serial (foldl expire_slot s l).
Proof.
  intros Hs Hnd. revert s Hs. induction Hnd as [|id l Hid Hnd IH]; intros s Hs Hpre; simpl; [done|].
  destruct (lz_waking s !! id) as [w|] eqn:Hw; cycle 1.
  { unfold expire_slot at 2. rewrite Hw. apply IH; [done|]. intros i w' Hi. apply Hpre. by right. }
  pose proof (Hpre id w ltac:(left) Hw) as Hst.
  destruct (expire_fields s id w Hw) as [Hoff _]. apply IH.
  - unfold expire_slot. rewrite Hw. cbv zeta. cbn [wk_starting].
    destruct (fail_queue_fields id (wk_queue w) s) as (E1 & E2 & E3 & _).
    assert (serial (upd_registry (lazy_gate_release id) (fail_queue id (wk_queue w) s))) as Hs'
      by (by eapply (quiet_serial s)).
    destruct (wk_starting w) eqn:Ha.
    + eapply (set_slot_serial id w); [exact Hs'|simpl; by rewrite E1|reflexivity|done..].
    + apply spawn_stop_serial; [by apply serial_others| |done].
      specialize (Hs' id). unfold slot_ok in Hs'. simpl in Hs'. rewrite E1, Hw, Ha, Hst in Hs'.
      by destruct Hs' as (? & ? & _).
  - intros i w' Hi. rewrite Hoff by set_solver. apply Hpre. by right.
Qed.

Lemma drain_waking open l s i :
  lz_waking (foldl (drain_ready open) s l) !! i
  = (if decide (i ∈ l) then None else lz_waking s !! i)
  /\ lz_starts (foldl (drain_ready open) s l) = lz_starts s.
Proof.
  revert s. induction l as [|id l IH]; intros s; cbn [foldl].
  { by rewrite decide_False by apply not_elem_of_nil. }
  assert (lz_waking (drain_ready open s id) = delete id (lz_waking s)
    /\ lz_starts (drain_ready open s id) = lz_starts s) as [E1 E2].
  { unfold drain_ready. destruct (lz_waking s !! id) as [w|] eqn:Hw; [|by rewrite delete_id].
    match goal with |- context [reinject _ _ _ ?s1] =>
      destruct (reinject_fields open id (wk_queue w) s1) as (-> & -> & _) end. done. }
  destruct (IH (drain_ready open s id)) as [-> ->]. rewrite E1, E2. split; [|done].
  rewrite lookup_delete. repeat case_decide; set_solver.
Qed.

Lemma expire_waking l s i :
  (lz_waking s !! i = None -> lz_waking (foldl expire_slot s l) !! i = None)
  /\ lz_starts (foldl expire_slot s l) = lz_starts s.
Proof.
  revert s. induction l as [|id l IH]; intros s; cbn [foldl]; [done|].
  destruct (IH (expire_slot s id)) as [H1 ->].
  destruct (lz_waking s !! id) as [w|] eqn:Hw.
  - destruct (expire_fields s id w Hw) as [Hoff ->]. split; [|done]. intros Hn. apply H1.
    rewrite Hoff; [done|]. intros ->. congruence.
  - unfold expire_slot in *. rewrite Hw in *. done.
Qed.

Lemma trim_fields l s :
  lz_waking (foldl trim_gate s l) = lz_waking s /\ lz_starts (foldl trim_gate s l) = lz_starts s
  /\ lz_stops (foldl trim_gate s l) = lz_stops s.
Proof.
  revert s. induction l as [|id l IH]; intros s; cbn [foldl]; [done|].
  destruct (IH (trim_gate s id)) as (-> & -> & ->). unfold trim_gate. case_bool_decide; [done|].
  by destruct (lazy_gate_trim _ _ _ _) as [r []].
Qed.

(** No slot is drained while its start is in flight. *)
Definition slots_kept (s : LazyStarter) : Prop :=
  forall id, id ∈ lz_starts s -> is_Some (lz_waking s !! id).

Lemma settled_not_stopping w : settled_slot w = true -> wk_stopping w = false.
Proof. unfold settled_slot. by destruct (wk_stopping w). Qed.

Lemma poll_waking_serial open t s :
  serial s -> slots_kept (poll_waking open t s) -> serial (poll_waking open t s).
Proof.
  unfold poll_waking. cbv zeta. intros Hs Hk.
  match goal with |- serial (foldl trim_gate ?s2 ?l) =>
    destruct (trim_fields l s2) as (T1 & T2 & T3); set (s3 := foldl trim_gate s2 l) in * end.
  assert (forall id w, id ∈ ready_ids s -> lz_waking s !! id = Some w ->
    wk_starting w = false /\ wk_stopping w = false) as Hready.
  { intros id w Hin Hw. pose proof Hin as (w' & Hw' & Hp)%filter_keys_elem. simplify_eq. boolify.
    split; [|by apply settled_not_stopping]. destruct (wk_starting w) eqn:Ha; [|done]. exfalso.
    specialize (Hs id). unfold slot_ok in Hs. rewrite Hw, Ha in Hs. destruct Hs as (Hc & _).
    destruct (drain_waking open (ready_ids s) s id) as [D1 D2].
    rewrite decide_True in D1 by done.
    destruct (expire_waking (expired_ids t s) (foldl (drain_ready open) s (ready_ids s)) id)
      as [E1 E2].
    destruct (Hk id) as [w' Hk']; [|rewrite T1, (E1 D1) in Hk'; done].
    rewrite T2, E2, D2. apply inflight_elem. lia. }
  eapply quiet_serial; [|exact T1|exact T2|exact T3].
  apply expire_serial; [by apply drain_serial|apply filter_keys_NoDup|].
  intros id w (w0 & Hw0 & Hp)%filter_keys_elem Hw.
  destruct (drain_waking open (ready_ids s) s id) as [D1 _]. rewrite D1 in Hw.
  case_decide; [done|]. simplify_eq. boolify. by apply settled_not_stopping.
Qed.

(** Runs in which every start returns before its plugin's slot is drained. *)
Inductive prompt_run (t : Z) : LazyStarter -> Prop :=
| prompt_init w : prompt_run t (mkLazy w ∅ [] [] [])
| prompt_step o s s' :
    prompt_run t s -> waker_step t o s s' -> slots_kept s' -> prompt_run t s'
| prompt_others w s : prompt_run t s -> prompt_run t (upd_world (fun _ => w) s).

Lemma sweep_one_serial now s d : serial s -> serial (sweep_one now s d).
Proof.
  intros Hs. unfold sweep_one. case_bool_decide as Hw; [done|].
  destruct (bool_decide _); [done|]. simpl.
  destruct (idle_for_at _ _ _); [|by eapply (quiet_serial s)].
  destruct (_ || _); [done|]. apply spawn_stop_serial; [|apply (slot_ok_none _ s); [done|]|done].
  - apply serial_others. by eapply (quiet_serial s).
  - by apply eq_None_not_Some.
Qed.

Lemma sweep_idle_serial now s : serial s -> serial (sweep_idle now s).
Proof.
  unfold sweep_idle. generalize (list_dormant (lz_reg s)). intros l. revert s.
  induction l as [|d l IH]; intros s Hs; [done|]. by apply IH, sweep_one_serial.
Qed.

Lemma prompt_run_serial t s : prompt_run t s -> serial s.
Proof.
  induction 1 as [w|o s s' _ Hs Hstep Hk|w s _ Hs].
  - intros id. unfold slot_ok. simpl. by rewrite lookup_empty.
  - destruct Hstep.
    + apply on_wake_request_serial. by eapply quiet_serial.
    + by apply on_start_result_serial.
    + by apply on_stopped_serial.
    + by apply poll_waking_serial.
    + by apply sweep_idle_serial.
  - by eapply (quiet_serial s).
Qed.

(** The waker serialises the life of each plugin: as long as a start has
    returned by the time its registered plugin is drained, at no point of any run
    is more than one start or stop of the same plugin in flight, whatever the
    other tasks do, however many calls arrive and however starts and stops end. *)
Theorem wake_serialized t s id :
  prompt_run t s -> (inflight id (lz_starts s) + inflight id (lz_stops s) <= 1)%nat.
Proof.
  intros Hr. pose proof (prompt_run_serial t s Hr id) as Hs. unfold slot_ok in Hs.
  destruct (lz_waking s !! id) as [w|]; [|lia]. destruct Hs as (-> & -> & Hb).
  destruct (wk_starting w), (wk_stopping w); simpl in *; lia || done.
Qed.
End serial_ops.

(** ** The idle sweep *)
Section sweep.
Context (now : Z).

(** A lazy plugin that the sweep should stop. *)
Definition idle_candidate (s : LazyStarter) (d : DormantPlugin) : Prop :=
  let id := dp_plugin_id d in
  lz_waking s !! id = None /\ is_Some (get id (lz_reg s))
  /\ has_pending_for_provider id (lz_reg s) = false
  /\ exists idle, idle_for_at id now (lz_reg s) = Some idle /\ (dp_idle_stop d <= idle)%Z.

(** What one plugin's turn leaves alone. *)
Lemma sweep_one_frame s d :
  let s' := sweep_one now s d in
  (forall i, i <> dp_plugin_id d -> lz_waking s' !! i = lz_waking s !! i
     /\ last_used (lz_reg s') !! i = last_used (lz_reg s) !! i)
  /\ by_plugin_id (lz_reg s') = by_plugin_id (lz_reg s)
  /\ pending_actions (lz_reg s') = pending_actions (lz_reg s)
  /\ lz_starts s' = lz_starts s
  /\ (forall i, is_Some (lazy_gates (lz_reg s) !! i) -> is_Some (lazy_gates (lz_reg s') !! i)).
Proof.
  unfold sweep_one. cbv zeta. destruct (_ || _); [done|].
  destruct (idle_for_at _ _ _) as [idle|].
  - destruct (_ || _); [done|]. unfold lz_reg. simpl. unfold lazy_gate_hold.
    destruct (lazy_gates _ !! dp_plugin_id d) eqn:Hg; simpl; (split_and!; try done);
      try (intros i Hi; by rewrite lookup_insert_ne).
    intros i Hi. rewrite lookup_insert_is_Some'. by right.
  - unfold lz_reg. simpl. unfold touch_used. destruct (is_lazy _ _); simpl; (split_and!; try done).
    intros i Hi. by rewrite lookup_insert_ne.
Qed.

Lemma idle_candidate_frame s d x :
  dp_plugin_id x <> dp_plugin_id d ->
  idle_candidate (sweep_one now s d) x <-> idle_candidate s x.
Proof.
  intros Hne. destruct (sweep_one_frame s d) as (Hf & Hb & Hp & _ & _).
  destruct (Hf _ Hne) as [H1 H2]. unfold idle_candidate, get, has_pending_for_provider, idle_for_at.
  by rewrite H1, H2, Hb, Hp.
Qed.

Lemma sweep_one_stops s d i :
  i ∈ lz_stops (sweep_one now s d)
  <-> i ∈ lz_stops s \/ (i = dp_plugin_id d /\ idle_candidate s d).
Proof.
  unfold sweep_one, idle_candidate. cbv zeta. set (id := dp_plugin_id d).
  case_bool_decide as Hw; simpl.
  { split; [by left|]. intros [?|(_ & E & _)]; [done|]. rewrite E in Hw. by destruct Hw. }
  apply eq_None_not_Some in Hw. case_bool_decide as Hg.
  { split; [by left|]. intros [?|(_ & _ & [e E] & _)]; [done|congruence]. }
  destruct (idle_for_at id now (lz_reg s)) as [idle|] eqn:Hi; cycle 1.
  { simpl. split; [by left|]. intros [?|(_ & _ & _ & _ & ? & ? & _)]; [done|congruence]. }
  destruct (Z.ltb_spec idle (dp_idle_stop d)) as [Hlt|Hge]; simpl.
  { split; [by left|]. intros [?|(_ & _ & _ & _ & j & Hj & ?)]; [done|]. simplify_eq. lia. }
  destruct (has_pending_for_provider id (lz_reg s)) eqn:Hp; simpl.
  { split; [by left|]. intros [?|(_ & _ & _ & ? & _)]; done. }
  rewrite elem_of_cons. split; [intros [->|?]; [right|by left]|intros [?|[-> _]]; [by right|by left]].
  split_and!; [done|done|by apply not_eq_None_Some|done|]. by exists idle.
Qed.

Lemma sweep_stops l s i :
  NoDup (dp_plugin_id <$> l) ->
  i ∈ lz_stops (foldl (sweep_one now) s l)
  <-> i ∈ lz_stops s \/ exists d, d ∈ l /\ dp_plugin_id d = i /\ idle_candidate s d.
Proof.
  revert s. induction l as [|d l IH]; intros s Hnd; simpl; [set_solver|].
  apply NoDup_cons in Hnd as [Hd Hnd]. rewrite IH, sweep_one_stops by done.
  assert (forall x, x ∈ l -> idle_candidate (sweep_one now s d) x <-> idle_candidate s x) as Hx.
  { intros x Hin. apply idle_candidate_frame. intros E. apply Hd. rewrite <- E.
    by apply list_elem_of_fmap_2. }
  setoid_rewrite elem_of_cons. split.
  - intros [[?|[-> ?]]|(x & Hin & <- & Hc)]; [by left|right; eauto|].
    right. exists x. rewrite <- Hx; eauto.
  - intros [?|(x & [->|Hin] & <- & Hc)]; [by left; left|by left; right|].
    right. exists x. rewrite Hx; eauto.
Qed.

Lemma sweep_frame l s :
  let s' := foldl (sweep_one now) s l in
  by_plugin_id (lz_reg s') = by_plugin_id (lz_reg s)
  /\ pending_actions (lz_reg s') = pending_actions (lz_reg s) /\ lz_starts s' = lz_starts s
  /\ (forall i, is_Some (lazy_gates (lz_reg s) !! i) -> is_Some (lazy_gates (lz_reg s') !! i))
  /\ (forall i, i ∈ lz_stops s' -> i ∈ lz_stops s \/ is_Some (lazy_gates (lz_reg s') !! i)).
Proof.
  revert s. induction l as [|d l IH]; intros s; simpl; [split_and!; auto|].
  destruct (IH (sweep_one now s d)) as (-> & -> & -> & Hg & Hs).
  destruct (sweep_one_frame s d) as (_ & -> & -> & -> & Hg1). split_and!; [done..|auto|].
  intros i [Hi|?]%Hs; [|by right]. destruct (decide (i ∈ lz_stops s)); [by left|].
  right. apply Hg. apply sweep_one_stops in Hi as [?|[-> (Hw & He & Hp & idle & Hidle & Hle)]];
    [done|].
  unfold sweep_one. cbv zeta. rewrite Hw, Hidle, Hp. rewrite bool_decide_eq_false_2 by (by intros [? ?]).
  rewrite bool_decide_eq_false_2 by (by apply not_eq_None_Some).
  destruct (Z.ltb_spec idle (dp_idle_stop d)); [lia|]. simpl. unfold lz_reg. simpl.
  unfold lazy_gate_hold.
  destruct (lazy_gates (w_reg (lz_world s)) !! dp_plugin_id d) eqn:E; simpl;
    [by rewrite E|by rewrite lookup_insert_eq].
Qed.

Lemma list_dormant_spec r :
  reg_ok r -> NoDup (dp_plugin_id <$> list_dormant r)
  /\ forall id d, d ∈ list_dormant r /\ dp_plugin_id d = id <-> dormant r !! id = Some d.
Proof.
  intros Hr. unfold list_dormant. split.
  - assert (dp_plugin_id <$> (map_to_list (dormant r)).*2 = (map_to_list (dormant r)).*1) as ->.
    { rewrite <- list_fmap_compose. apply list_fmap_ext. intros k [p d] Hk. simpl.
      apply list_elem_of_lookup_2, elem_of_map_to_list in Hk. by apply (ok_dormant_key _ Hr). }
    apply NoDup_fst_map_to_list.
  - intros id d. rewrite list_elem_of_fmap. split.
    + intros [([p d'] & -> & Hp%elem_of_map_to_list) <-]. simpl.
      by rewrite (ok_dormant_key _ Hr _ _ Hp).
    + intros Hd. split; [|by apply (ok_dormant_key _ Hr)].
      exists (id, d). by rewrite elem_of_map_to_list.
Qed.

(** The idle sweep stops exactly the lazy plugins that are live, not being
    woken or stopped already, without any pending action, and unused for at
    least their idle time; the gate of each is held from that moment, so that
    calls arriving during the stop queue up, and neither the registered plugins
    nor the pending actions nor the starts in flight change. *)
Theorem sweep_idle_exact s :
  reg_ok (lz_reg s) ->
  let s' := sweep_idle now s in
  (forall id, id ∈ lz_stops s' <-> id ∈ lz_stops s
     \/ exists d, dormant (lz_reg s) !! id = Some d /\ idle_candidate s d)
  /\ (forall id, id ∈ lz_stops s' -> id ∈ lz_stops s \/ is_Some (lazy_gates (lz_reg s') !! id))
  /\ by_plugin_id (lz_reg s') = by_plugin_id (lz_reg s)
  /\ pending_actions (lz_reg s') = pending_actions (lz_reg s) /\ lz_starts s' = lz_starts s.
Proof.
  intros Hr. destruct (list_dormant_spec _ Hr) as [Hnd Hl]. cbv zeta. unfold sweep_idle.
  destruct (sweep_frame (list_dormant (lz_reg s)) s) as (H1 & H2 & H3 & _ & H4).
  split_and!; [|done..]. intros id. rewrite sweep_stops by done.
  apply or_iff_compat_l. split.
  - intros (d & Hin & Hid & Hc). exists d. split; [|done]. by apply Hl.
  - intros (d & [Hin Hid]%Hl & Hc). eauto.
Qed.
End sweep.

(** ** A concrete waker *)
#[local] Instance demo_wire : Wire := {|
  encode _ := None;
  decode _ := None;
  crc32 _ := 0%Z;
  target_as_str _ := None;
  parse_frag_header _ := None;
  serialize_header _ := [];
  compute_tag _ _ _ := [];
  verify_tag _ _ _ _ := true;
  derive_session_key ikm _ _ := ikm;
  perm_str_name _ := "";
  perm_from_str_name _ := None;
  action_status_i32 _ := 0%Z;
  device_os_try_from _ := None;
  PROTOCOL_VERSION := "1.7"
|}.

Definition demo_dormant : DormantPlugin := mkDormant "lz" [] (from_secs 60).
Definition demo_call (n : N) : WakeRequest :=
  mkWake "lz" (mkMsg n (build_frame "kernel" 0 []) 0 0 n).
Definition demo_clock : Clock := mkClock (from_secs 1) 1000.
Definition demo_registry : Registry := register_dormant demo_dormant registry_new.
Definition demo_world (r : Registry) (q : list WakeRequest) : World :=
  mkWorld r ∅ bus_new None 0 0 0 (Some (mkWakeChan 8 q false)) None demo_clock true.

(** The plugin comes up between two steps of the waker. *)
Definition demo_up (s : LazyStarter) : LazyStarter :=
  upd_world (fun _ => upd_reg (fun r => (register_with_device demo_clock "lz" 5
    (mkManifest [] [] [] [] [] []) 0 (demo_meta "") r).1) (lz_world s)) s.

Definition demo_s0 : LazyStarter :=
  mkLazy (demo_world demo_registry [demo_call 1]) ∅ [] [] [].
Definition demo_woken : LazyStarter :=
  on_wake_request true (demo_call 1) (upd_world (set_lazy (Some (mkWakeChan 8 [] false))) demo_s0).
Definition demo_started : LazyStarter := on_start_result "lz" (Ok tt) demo_woken.
Definition demo_drained (s : LazyStarter) : LazyStarter := poll_waking true (from_secs 10) (demo_up s).
Definition demo_stopping (s : LazyStarter) : LazyStarter := sweep_idle (from_secs 100) (demo_drained s).

Lemma demo_woken_run : waker_run (from_secs 10) [demo_call 1] demo_woken.
Proof.
  apply (run_step _ [] (Some (demo_call 1)) demo_s0 demo_woken (run_init _ _)).
  by apply (wk_request _ true (demo_call 1) [] 8 false demo_s0).
Qed.

Lemma demo_drained_run : waker_run (from_secs 10) [demo_call 1] (demo_drained demo_woken).
Proof.
  apply (run_step _ [demo_call 1] None (demo_up demo_woken)).
  - apply run_others, demo_woken_run.
  - apply wk_poll. reflexivity.
Qed.

(** Without that promptness a stop can be launched while the start of the same
    plugin is still in flight: the plugin registers and is drained before its
    start call has returned, and the idle sweep then stops it. *)
Lemma start_stop_overlap :
  waker_run (from_secs 10) [demo_call 1] (demo_stopping demo_woken)
  /\ lz_starts (demo_stopping demo_woken) = ["lz"] /\ lz_stops (demo_stopping demo_woken) = ["lz"].
Proof.
  split; [|split; vm_compute; reflexivity].
  apply (run_step _ [demo_call 1] None (demo_drained demo_woken)); [apply demo_drained_run|].
  apply wk_sweep.
Qed.


Lemma demo_prompt : prompt_run (from_secs 10) (demo_stopping demo_started).
Proof.
  apply (prompt_step _ None (demo_drained demo_started)); [|apply wk_sweep|].
  2:{ intros id Hin. vm_compute in Hin. by apply elem_of_nil in Hin. }
  apply (prompt_step _ None (demo_up demo_started)); [apply prompt_others| |].
  - apply (prompt_step _ None demo_woken); [|apply wk_started; left|].
    + apply (prompt_step _ (Some (demo_call 1)) demo_s0); [apply prompt_init| |].
      * by apply (wk_request _ true (demo_call 1) [] 8 false demo_s0).
      * intros id [->|Hn%elem_of_nil]%elem_of_cons; [|done]. vm_compute. by eexists.
    + intros id Hin. vm_compute in Hin. by apply elem_of_nil in Hin.
  - apply wk_poll. reflexivity.
  - intros id Hin. vm_compute in Hin. by apply elem_of_nil in Hin.
Qed.

Lemma wake_serialized_witness :
  lz_stops (demo_stopping demo_started) = ["lz"]
  /\ (inflight "lz" (lz_starts (demo_stopping demo_started))
      + inflight "lz" (lz_stops (demo_stopping demo_started)) <= 1)%nat.
Proof.
  split; [vm_compute; reflexivity|].
  apply (wake_serialized (from_secs 10) (demo_stopping demo_started) "lz"). exact demo_prompt.
Defined.

Lemma demo_up_ok : reg_ok (lz_reg (demo_up demo_started)).
Proof.
  apply register_with_device_ok.
  apply (set_gates_ok (lazy_gates (lz_reg demo_started))
    (touch_used demo_clock "lz" demo_registry)).
  apply touch_used_ok, register_dormant_ok, registry_new_ok.
Qed.

Lemma sweep_idle_exact_witness :
  reg_ok (lz_reg (demo_up demo_started))
  /\ ("lz" ∈ lz_stops (sweep_idle (from_secs 100) (demo_drained demo_started))).
Proof.
  split; [exact demo_up_ok|].
  assert (reg_ok (lz_reg (demo_drained demo_started))) as Hok.
  { apply (set_gates_ok (lazy_gates (lz_reg (demo_drained demo_started)))
      (lz_reg (demo_up demo_started))), demo_up_ok. }
  apply (sweep_idle_exact (from_secs 100) (demo_drained demo_started) Hok). right.
  exists demo_dormant. split; [vm_compute; reflexivity|]. split_and!.
  - vm_compute. reflexivity.
  - vm_compute. by eexists.
  - vm_compute. reflexivity.
  - exists (from_secs 99). split; [vm_compute; reflexivity|vm_compute; discriminate].
Defined.
