(* ===== verification/Router.v ===== *)
(** * The message router (src/ipc/protocol/router.rs)

    One definition per arm of [handle_kernel_message], the peer paths
    [forward] and [broadcast], the relay to a bridged host, and one iteration
    of the [run_with_context] loop: [route_message] for a received frame,
    [prune_step] for the prune tick. A handler returns the new state and
    whether the message counts against the connection's error budget. The
    governor rate limiters are the interface [Governor]: one bucket per key. *)

From S2P Require Import Prelude Errors Wire Validate Registry Events Auth Kernel.

(** ** The governor crate *)
Class Governor := {
  bucket : Type;
  gov_check : Z -> Z -> option bucket -> bucket * bool; (* quota, now, state of the key *)
  gov_recent : Z -> Z -> bucket -> bool
}.

Record Limiter `{Governor} (K : Type) `{Countable K} := mkLimiter {
  lim_quota : Z;
  lim_state : gmap K bucket
}.
Arguments mkLimiter {_} K {_ _} _ _.
Arguments lim_quota {_ K _ _} _.
Arguments lim_state {_ K _ _} _.

(** [limiter.check_key(&k).is_ok()] *)
Definition check_key `{Governor, Countable K} (now : Z) (k : K) (l : Limiter K)
    : Limiter K * bool :=
  let '(b, ok) := gov_check (lim_quota l) now (lim_state l !! k) in
  (mkLimiter K (lim_quota l) (<[k := b]> (lim_state l)), ok).

Definition retain_recent `{Governor, Countable K} (now : Z) (l : Limiter K) : Limiter K :=
  mkLimiter K (lim_quota l)
    (base.filter (fun kb => gov_recent (lim_quota l) now kb.2 = true) (lim_state l)).

(** [rps.and_then(NonZeroU32::new).map(RateLimiter::keyed)] *)
Definition limiter_new `{Governor} (K : Type) `{Countable K} (rps : option Z)
    : option (Limiter K) :=
  match rps with
  | Some n => if (n =? 0)%Z then None else Some (mkLimiter K n ∅)
  | None => None
  end.

(** An optional limiter: absent means unlimited. *)
Definition check_opt `{Governor, Countable K} (now : Z) (k : K) (l : option (Limiter K))
    : option (Limiter K) * bool :=
  match l with
  | None => (None, true)
  | Some l => let '(l', ok) := check_key now k l in (Some l', ok)
  end.

(** ** The parameters of [run_with_context] *)
Record RouterCfg := mkRouterCfg {
  rc_jwt_validator : option JwtValidator;
  rc_start_time : Z;
  rc_config_path : option string;
  rc_mac_secret : option bytes;
  rc_legacy_plugin_mac : bool;
  rc_config_permissions : option (gmap string (list string));
  rc_ipc_rate_limit_rps : option Z;
  rc_action_caller_rate_limit_rps : option Z;
  rc_action_caller_max_concurrent : option Z;
  rc_action_timeout_ms : Z;
  rc_max_conn_errors : Z;
  rc_max_tracked_error_conns : nat;
  rc_session_idle_timeout_secs : option Z;
  rc_device_store : option DeviceStore;
  rc_device_callers : option (gmap string (list string));
  rc_load_config : string -> Result (string * Z) VynkorError;
  rc_set_log_level : string -> bool
}.

Definition now (w : World) : Z := clk_now (w_clk w).

(** The registered plugin id of a connection, or the empty string. *)
Definition sender_of (conn_id : N) (r : Registry) : string :=
  match get_by_conn_id conn_id r with
  | Some e => pe_plugin_id e
  | None => EmptyString
  end.

Definition effective_timeout (cfg : RouterCfg) (req : ActionRequest) : Z :=
  if (rq_timeout_ms req =? 0)%Z then rc_action_timeout_ms cfg else rq_timeout_ms req.

(** [format!("kact-{}", ACTION_CORRELATION_SEQ.fetch_add(1))] *)
Definition next_internal_id (w : World) : World * string :=
  (set_action_seq (u64_succ (w_action_seq w)) w, "kact-" +:+ fmt_N (w_action_seq w)).

(** [tx.try_send(WakeRequest { .. }).is_ok()] *)
Definition wake_try_send (req : WakeRequest) (w : World) : World * bool :=
  match w_lazy w with
  | None => (w, false)
  | Some c =>
      if wc_closed c || (wc_capacity c <=? length (wc_queue c))%nat then (w, false)
      else (set_lazy (Some (mkWakeChan (wc_capacity c) (wc_queue c ++ [req]) false)) w, true)
  end.

Section registration.
Context `{Wire, Serde, Crypto, Jwt, !RowCodec DeviceRecord}.

(** The token check: [Err] is the reject reason. *)
Definition authenticate (cfg : RouterCfg) (now_secs : Z) (reg : PluginRegister)
    (manifest : PluginManifest) : Result PluginManifest string :=
  match rc_jwt_validator cfg with
  | None => Ok manifest
  | Some validator =>
      match jwt_validate validator now_secs (pr_jwt_token reg) with
      | Err _ => Err "authentication failed"
      | Ok claims =>
          let device_match := negb (str_is_empty (pr_device_id reg))
                              && (cl_sub claims =s pr_device_id reg) in
          if negb (cl_sub claims =s pr_plugin_id reg) && negb device_match
          then Err "token plugin_id mismatch"
          else Ok (mkManifest (cl_permissions claims) (mf_actions manifest)
                     (mf_events manifest) (cl_ipc_targets claims) (mf_platforms manifest)
                     (mf_action_specs manifest))
      end
  end.

(** The device credential check: [Err] is the reject reason. *)
Definition device_secret_for (cfg : RouterCfg) (now_secs : Z) (reg : PluginRegister)
    : Result (option bytes) string :=
  if negb (str_is_empty (pr_device_id reg)) && bool_decide (is_Some (rc_mac_secret cfg)) then
    match rc_device_store cfg with
    | None => Ok None
    | Some store =>
        match active_secret now_secs (pr_device_id reg) store with
        | Ok (Some secret) => Ok (Some (str_bytes secret))
        | Ok None => Err "unknown device — pair it first"
        | Err e => Err (display e)
        end
    end
  else Ok None.

(** T-04: the operator's allowlist caps the claimed permissions. *)
Definition clamp_permissions (cfg : RouterCfg) (plugin_id : string) (manifest : PluginManifest)
    : PluginManifest :=
  match rc_config_permissions cfg with
  | None => manifest
  | Some m =>
      match m !! plugin_id with
      | None => manifest
      | Some allowed =>
          match allowed with
          | [] => manifest
          | _ =>
              let allowed_norm := map normalize_permission allowed in
              mkManifest
                (base.filter (fun p => str_mem (normalize_permission p) allowed_norm = true)
                   (mf_permissions manifest))
                (mf_actions manifest) (mf_events manifest) (mf_ipc_targets manifest)
                (mf_platforms manifest) (mf_action_specs manifest)
          end
      end
  end.

Definition is_mux_device (reg : PluginRegister) : bool :=
  negb (bool_decide (pr_capabilities reg = []))
  && negb (str_is_empty (pr_device_id reg)) && (pr_plugin_id reg =s pr_device_id reg).

(** Evict the previous holder of the id when its channel is closed. *)
Definition evict_stale (reg_id : string) (w : World) : World :=
  match get reg_id (w_reg w) with
  | None => w
  | Some e =>
      if is_closed (pe_write_tx e) (w_chans w) then
        let payload := plugin_lifecycle_payload (w_reg w) reg_id in
        match unregister_if_dead reg_id w with
        | (w, false) => w
        | (w, true) =>
            let w := set_bus (unsubscribe_all reg_id (w_bus w)) w in
            publish (plugin_left_event reg_id payload w) w
        end
      else w
  end.

Definition meta_of (reg : PluginRegister) : DeviceMeta :=
  mkDeviceMeta (pr_device_id reg) (pr_user_id reg)
    (default Unspecified (device_os_try_from (pr_os reg))) (pr_arch reg)
    (pr_os_version reg) (pr_capabilities reg).

Definition do_register (reg : PluginRegister) (manifest : PluginManifest)
    (msg : IncomingMessage) (w : World) : World * Result unit VynkorError :=
  let '(r, result) :=
    if is_mux_device reg
    then register_device (w_clk w) (pr_device_id reg) (m_conn_id msg) (pr_capabilities reg)
           manifest (m_write_tx msg) (meta_of reg) (w_reg w)
    else register_with_device (w_clk w) (pr_plugin_id reg) (m_conn_id msg) manifest
           (m_write_tx msg) (meta_of reg) (w_reg w) in
  (set_reg r w, result).

(** The frame-MAC input keying material of the connection. *)
Definition mac_ikm (cfg : RouterCfg) (secret : bytes) (device_secret : option bytes)
    (plugin_id : string) : bytes :=
  match device_secret with
  | Some s => s
  | None => if rc_legacy_plugin_mac cfg then secret
            else str_bytes (plugin_mac_secret secret plugin_id)
  end.

(** After the registry call: ack, frame MAC, lifecycle event. [rand] are the
    bytes of the per-registration nonce. *)
Definition finish_register (cfg : RouterCfg) (rand : bytes) (mid : string)
    (msg : IncomingMessage) (plugin_id : string) (device_secret : option bytes)
    (result : Result unit VynkorError) (w : World) : World :=
  let session_nonce :=
    if bool_decide (is_Some (rc_mac_secret cfg)) && is_ok result then rand else [] in
  let ack := match result with
             | Ok _ =>
                 let granted := match get plugin_id (w_reg w) with
                                | Some e => mf_permissions (pe_manifest e)
                                | None => []
                                end in
                 mkAck true EmptyString granted session_nonce
             | Err e => mkAck false (display e) [] []
             end in
  let w := send_envelope (m_write_tx msg) (envelope_reply mid (PPluginRegisterAck ack)) w in
  let w := match rc_mac_secret cfg, is_ok result with
           | Some secret, true =>
               let key := derive_session_key (mac_ikm cfg secret device_secret plugin_id)
                            session_nonce plugin_id in
               set_chans (send_await (m_write_tx msg) (OEnableMac key (m_session_key msg))
                            (w_chans w)) w
           | _, _ => w
           end in
  if is_ok result then
    publish (mkEvent ("sys-joined-" +:+ plugin_id +:+ "-" +:+ fmt_Z (now_ms w))
               "system.plugin_joined" (plugin_lifecycle_payload (w_reg w) plugin_id) 0) w
  else w.

(** The [PluginRegister] arm *)
Definition handle_register (cfg : RouterCfg) (rand : bytes) (mid : string)
    (reg : PluginRegister) (msg : IncomingMessage) (w : World) : World * bool :=
  let plugin_id := pr_plugin_id reg in
  let now_secs := (now_ms w / 1000)%Z in
  let version := if str_is_empty (pr_protocol_version reg) then Supported
                 else check_protocol_version (pr_protocol_version reg) in
  match version with
  | Rejected reason => (send_error (m_write_tx msg) ErrProtocolMismatch reason w, true)
  | Supported | NewerMinor =>
  match authenticate cfg now_secs reg (default manifest_default (pr_manifest reg)) with
  | Err reason => (send_register_reject (m_write_tx msg) reason w, true)
  | Ok manifest =>
  match device_secret_for cfg now_secs reg with
  | Err reason => (send_register_reject (m_write_tx msg) reason w, true)
  | Ok device_secret =>
      let manifest := clamp_permissions cfg plugin_id manifest in
      let reg_id := if is_mux_device reg then pr_device_id reg else plugin_id in
      let w := evict_stale reg_id w in
      let '(w, result) := do_register reg manifest msg w in
      (finish_register cfg rand mid msg plugin_id device_secret result w, false)
  end end end.
End registration.

Section simple_arms.
Context `{Wire, Serde}.

(** The [Ping] arm *)
Definition handle_ping (mid : string) (timestamp : Z) (msg : IncomingMessage) (w : World)
    : World * bool :=
  (send_envelope (m_write_tx msg) (envelope_reply mid (PPong timestamp (now_ms w))) w, false).

(** The [Pong] arm *)
Definition handle_pong (msg : IncomingMessage) (w : World) : World * bool :=
  (match get_by_conn_id (m_conn_id msg) (w_reg w) with
   | Some entry => upd_reg (record_pong (w_clk w) (pe_plugin_id entry)) w
   | None => w
   end, false).

(** The [Subscribe] arm *)
Definition handle_subscribe (event_types : list string) (msg : IncomingMessage) (w : World)
    : World * bool :=
  (match get_by_conn_id (m_conn_id msg) (w_reg w) with
   | Some entry => set_bus (subscribe (pe_plugin_id entry) event_types (w_bus w)) w
   | None => w
   end, false).

(** The [Unsubscribe] arm *)
Definition handle_unsubscribe (event_types : list string) (msg : IncomingMessage) (w : World)
    : World * bool :=
  (match get_by_conn_id (m_conn_id msg) (w_reg w) with
   | Some entry => set_bus (unsubscribe (pe_plugin_id entry) event_types (w_bus w)) w
   | None => w
   end, false).

(** The [EventPublish] arm *)
Definition handle_event_publish (mid event_type : string) (payload_json : bytes)
    (msg : IncomingMessage) (w : World) : World * bool :=
  let sender_id := sender_of (m_conn_id msg) (w_reg w) in
  let '(w, st, event_id) :=
    if is_err (check_permission (w_reg w) sender_id PermissionEventPublish)
    then (w, EventPublishPermissionDeny, EmptyString)
    else
      let seq := w_event_seq w in
      let w := set_event_seq (u64_succ seq) w in
      let event_id := "evt-" +:+ sender_id +:+ "-" +:+ fmt_Z (now_ms w) +:+ "-" +:+ fmt_N seq in
      let namespaced := "plugin." +:+ sender_id +:+ "." +:+ event_type in
      (publish (mkEvent event_id namespaced payload_json 0) w, EventPublishOk, event_id) in
  (send_envelope (m_write_tx msg)
     (envelope_reply mid (PEventPublishAck event_id st EmptyString)) w, false).

Definition READONLY_COMMANDS : list string := ["health_check"; "list_plugins"; "get_manifest"].

(** The [KernelCommand] arm *)
Definition handle_kernel_command (cfg : RouterCfg) (mid command_id command : string)
    (params_json : bytes) (msg : IncomingMessage) (w : World) : World * bool :=
  let sender_id := sender_of (m_conn_id msg) (w_reg w) in
  let outcome :=
    if negb (str_mem command READONLY_COMMANDS)
       && is_err (check_permission (w_reg w) sender_id PermissionKernelAdmin)
    then permission_denied (sender_id +:+ " lacks PERMISSION_KERNEL_ADMIN")
    else dispatch (rc_load_config cfg) (rc_set_log_level cfg) command (w_reg w) (now w)
           (rc_start_time cfg) (rc_config_path cfg) params_json in
  (send_envelope (m_write_tx msg)
     (envelope_reply mid (PKernelCommandAck command_id (co_status outcome)
                            (co_data_json outcome) (co_error outcome))) w, false).

(** The [EventAck] arm *)
Definition handle_event_ack (event_id : string) (w : World) : World * bool :=
  (match w_store w with
   | Some s => set_store (Some (mark_delivered (w_db_ok w) event_id s)) w
   | None => w
   end, false).
End simple_arms.

Section actions.
Context `{Wire}.

(** [relay_action_to_host] *)
Definition relay_action_to_host (cfg : RouterCfg) (msg : IncomingMessage) (mid : string)
    (req : ActionRequest) (sender_id : string) (w : World) : World * bool :=
  if bool_decide (w_bridge w = None) || (m_conn_id msg =? BRIDGE_CONN_ID_BASE)%N
  then (w, false)
  else match get_by_conn_id BRIDGE_CONN_ID_BASE (w_reg w) with
  | None => (w, false)
  | Some host =>
      let '(w, internal_id) := next_internal_id w in
      let pending := mkPending (m_write_tx msg) (rq_action_id req) sender_id
                       (now w + from_millis (effective_timeout cfg req))
                       (pe_plugin_id host) (rq_streaming req) false (now w) in
      let w := upd_reg (register_pending_action internal_id pending) w in
      let relayed := envelope_reply mid (PActionRequest
            (mkActionRequest internal_id (rq_action req) (rq_params_json req)
               (rq_timeout_ms req) (rq_streaming req) sender_id)) in
      match try_send_envelope (pe_write_tx host) relayed w with
      | (w, false) => (upd_reg (fun r => (take_pending_action internal_id r).1) w, false)
      | (w, true) => (w, true)
      end
  end.

(** The [Found] arm: mint the internal id, record the pending action, send the
    request to the provider with the stamped caller. *)
Definition route_action (cfg : RouterCfg) (msg : IncomingMessage) (mid : string)
    (req : ActionRequest) (sender_id caller_id : string) (provider : PluginEntry) (w : World)
    : World :=
  let '(w, internal_id) := next_internal_id w in
  let pending := mkPending (m_write_tx msg) (rq_action_id req) sender_id
                   (now w + from_millis (effective_timeout cfg req))
                   (pe_plugin_id provider) (rq_streaming req) false (now w) in
  let w := upd_reg (register_pending_action internal_id pending) w in
  let forwarded := envelope_reply mid (PActionRequest
        (mkActionRequest internal_id (rq_action req) (rq_params_json req)
           (rq_timeout_ms req) (rq_streaming req) caller_id)) in
  let w := send_envelope (pe_write_tx provider) forwarded w in
  upd_reg (touch_used (w_clk w) (pe_plugin_id provider)) w.

(** The identity a request is routed under. *)
Definition device_caller (r : Registry) (sender_id claimed : string) : option DeviceCaller :=
  match get_device sender_id r with
  | Some _ => Some (DeviceCaller_new sender_id claimed)
  | None => None
  end.

Definition caller_id_of (sender_id : string) (c : option DeviceCaller) : string :=
  match c with Some c => dc_scoped c | None => sender_id end.

Definition caller_denied (cfg : RouterCfg) (sender_id : string) (c : option DeviceCaller)
    : bool :=
  match c, rc_device_callers cfg with
  | Some c, Some rules => negb (allowed_by c sender_id rules)
  | _, _ => false
  end.

(** The provider lookup, with a live provider behind a drain gate turned into
    a dormant one. *)
Definition gated_lookup (action : string) (addr : N) (r : Registry)
    : Registry * ActionLookup :=
  match find_action_provider action r with
  | Found p =>
      let '(r', passes) := lazy_gate_passes (pe_plugin_id p) addr r in
      (r', if passes then Found p else Dormant (pe_plugin_id p))
  | other => (r, other)
  end.

(** The permission guard on a live or dormant provider. *)
Definition permission_blocked (r : Registry) (provider_id action sender_id : string)
    (provider_live : bool) : bool :=
  let perm := match action_requirement provider_id action r with
              | Some p => Some p
              | None => required_permission_for_action action
              end in
  match perm with
  | None => false
  | Some perm =>
      (provider_live && is_err (check_permission r provider_id perm))
      || is_err (check_permission r sender_id perm)
  end.

Definition over_concurrency (cfg : RouterCfg) (r : Registry) (sender_id provider_id : string)
    : bool :=
  match rc_action_caller_max_concurrent cfg with
  | Some cap => (cap <=? count_pending_actions_for sender_id provider_id r)%Z
  | None => false
  end.

(** What the request is refused with, and whether the wake queue refused it. *)
Record Refusal := mkRefusal { rf_status : ActionStatus; rf_lazy_unavailable : bool }.

Definition refuse (s : ActionStatus) : option Refusal := Some (mkRefusal s false).

Context `{Governor}.

(** The guards and the dispatch of the [ActionRequest] arm. *)
Definition dispatch_action (cfg : RouterCfg) (msg : IncomingMessage) (mid : string)
    (req : ActionRequest) (sender_id caller_id : string) (denied : bool)
    (lookup : ActionLookup) (lim : option (Limiter (string * string))) (w : World)
    : option (Limiter (string * string)) * World * option Refusal :=
  let guarded provider_id live go :=
    if permission_blocked (w_reg w) provider_id (rq_action req) sender_id live
    then (lim, w, refuse ActionPermissionDeny)
    else if over_concurrency cfg (w_reg w) sender_id provider_id
    then (lim, w, refuse ActionQuotaExceeded)
    else let '(lim, ok) := check_opt (now w) (sender_id, provider_id) lim in
         if negb ok then (lim, w, refuse ActionQuotaExceeded)
         else let '(w, res) := go w in (lim, w, res) in
  if denied then (lim, w, refuse ActionPermissionDeny)
  else match lookup with
  | NotFound =>
      match relay_action_to_host cfg msg mid req sender_id w with
      | (w, true) => (lim, w, None)
      | (w, false) => (lim, w, refuse ActionNotFound)
      end
  | Ambiguous _ => (lim, w, refuse ActionNotFound)
  | Dormant plugin_id =>
      guarded plugin_id false (fun w =>
        match wake_try_send (mkWake plugin_id msg) w with
        | (w, true) => (w, None)
        | (w, false) => (w, Some (mkRefusal ActionError true))
        end)
  | Found provider =>
      guarded (pe_plugin_id provider) true (fun w =>
        (route_action cfg msg mid req sender_id caller_id provider w, None))
  end.

(** The error text of a refusal *)
Definition refusal_text (r : Registry) (action caller_id : string) (denied : bool)
    (rf : Refusal) : string :=
  let specific :=
    match rf_status rf with
    | ActionNotFound =>
        match offline_device_reason r action with
        | Some e => Some e
        | None => ambiguous_action_reason r action
        end
    | ActionPermissionDeny =>
        if denied then Some ("caller " +:+ caller_id +:+ " not allowed by device_callers")
        else None
    | ActionError => if rf_lazy_unavailable rf then Some "lazy start queue unavailable"
                     else None
    | _ => None
    end in
  default (action_status_message (rf_status rf)) specific.

(** The [ActionRequest] arm *)
Definition handle_action_request (cfg : RouterCfg) (mid : string) (req : ActionRequest)
    (msg : IncomingMessage) (lim : option (Limiter (string * string))) (w : World)
    : option (Limiter (string * string)) * World * bool :=
  let sender_id := sender_of (m_conn_id msg) (w_reg w) in
  let dc := device_caller (w_reg w) sender_id (rq_caller_plugin_id req) in
  let caller_id := caller_id_of sender_id dc in
  let denied := caller_denied cfg sender_id dc in
  let '(r, lookup) := gated_lookup (rq_action req) (m_addr msg) (w_reg w) in
  let w := set_reg r w in
  let '(lim, w, refused) :=
    dispatch_action cfg msg mid req sender_id caller_id denied lookup lim w in
  match refused with
  | None => (lim, w, false)
  | Some rf =>
      let error := refusal_text (w_reg w) (rq_action req) caller_id denied rf in
      (lim, send_envelope (m_write_tx msg) (envelope_reply mid (PActionResponse
              (mkActionResponse (rq_action_id req) (action_status_i32 (rf_status rf)) []
                 error))) w, false)
  end.

(** The [ActionResponse] arm *)
Definition handle_action_response (mid : string) (resp : ActionResponse)
    (msg : IncomingMessage) (w : World) : World * bool :=
  match get_by_conn_id (m_conn_id msg) (w_reg w) with
  | None => (w, false)
  | Some sender =>
      let status_ok := (rs_status resp =? action_status_i32 ActionOk)%Z in
      match resolve_action_response (w_clk w) (rs_action_id resp) (pe_plugin_id sender)
              status_ok (w_reg w) with
      | (_, None) => (w, false)
      | (r, Some pending) =>
          let w := set_reg r w in
          let w := upd_reg (touch_used (w_clk w) (pa_provider_id pending)) w in
          (send_envelope (pa_requester_write_tx pending)
             (envelope_reply mid (PActionResponse
                (mkActionResponse (pa_original_action_id pending) (rs_status resp)
                   (rs_data_json resp) (rs_error resp)))) w, false)
      end
  end.

(** The [ActionRequestChunk] arm *)
Definition handle_request_chunk (mid action_id : string) (seq : Z) (chunk : bytes)
    (final : bool) (msg : IncomingMessage) (w : World) : World * bool :=
  let sender_id := sender_of (m_conn_id msg) (w_reg w) in
  let found := match find_pending_internal_id sender_id action_id (w_reg w) with
               | None => None
               | Some internal_id =>
                   match get_pending_action internal_id (w_reg w) with
                   | Some pending => Some (internal_id, pending)
                   | None => None
                   end
               end in
  match found with
  | None => (w, false)
  | Some (internal_id, pending) =>
      let w := upd_reg (touch_pending_action (w_clk w) internal_id) w in
      match get (pa_provider_id pending) (w_reg w) with
      | None => (abort_stream internal_id "provider disconnected" w, false)
      | Some provider_entry =>
          match try_send_envelope (pe_write_tx provider_entry)
                  (envelope_reply mid (PActionRequestChunk internal_id seq chunk final)) w with
          | (w, true) => (w, false)
          | (w, false) => (abort_stream internal_id "receiver backpressure" w, false)
          end
      end
  end.

(** The [ActionResponseChunk] arm *)
Definition handle_response_chunk (mid action_id : string) (seq : Z) (chunk : bytes)
    (msg : IncomingMessage) (w : World) : World * bool :=
  let found := match get_by_conn_id (m_conn_id msg) (w_reg w) with
               | None => None
               | Some sender =>
                   match get_pending_action action_id (w_reg w) with
                   | Some pending => if pa_provider_id pending =s pe_plugin_id sender
                                     then Some pending else None
                   | None => None
                   end
               end in
  match found with
  | None => (w, false)
  | Some pending =>
      let w := upd_reg (touch_pending_action (w_clk w) action_id) w in
      match try_send_envelope (pa_requester_write_tx pending)
              (envelope_reply mid (PActionResponseChunk (pa_original_action_id pending)
                 seq chunk)) w with
      | (w, true) => (w, false)
      | (w, false) => (abort_stream action_id "receiver backpressure" w, false)
      end
  end.

(** Which session a [SessionClose] names, and whether its provider sent it. *)
Definition resolve_session (sender_id action_id : string) (r : Registry)
    : option (string * PendingAction * bool) :=
  let by_requester :=
    match find_pending_internal_id sender_id action_id r with
    | None => None
    | Some internal_id =>
        match get_pending_action internal_id r with
        | Some pending => Some (internal_id, pending, false)
        | None => None
        end
    end in
  match get_pending_action action_id r with
  | Some pending => if pa_provider_id pending =s sender_id
                    then Some (action_id, pending, true) else by_requester
  | None => by_requester
  end.

(** The [SessionClose] arm *)
Definition handle_session_close (mid action_id reason : string) (msg : IncomingMessage)
    (w : World) : World * bool :=
  match get_by_conn_id (m_conn_id msg) (w_reg w) with
  | None => (send_error (m_write_tx msg) ErrNotRegistered "not registered" w, true)
  | Some sender =>
      match resolve_session (pe_plugin_id sender) action_id (w_reg w) with
      | None => (send_error (m_write_tx msg) ErrUnknown "no matching session" w, true)
      | Some (internal_id, pending, from_provider) =>
          if negb (pa_session_accepted pending) then
            (send_error (m_write_tx msg) ErrUnknown
               "session not accepted, nothing to close" w, true)
          else
            let w :=
              if from_provider then
                (try_send_envelope (pa_requester_write_tx pending)
                   (envelope_reply mid (PSessionClose (pa_original_action_id pending) reason))
                   w).1
              else match get (pa_provider_id pending) (w_reg w) with
                   | Some provider_entry =>
                       (try_send_envelope (pe_write_tx provider_entry)
                          (envelope_reply mid (PSessionClose internal_id reason)) w).1
                   | None => w
                   end in
            (upd_reg (fun r => (take_pending_action internal_id r).1) w, false)
      end
  end.

(** ** Peer-to-peer frames *)

(** The allowlist test of [forward]: the target itself, or the device of a
    resolved [<device>.<cap>] target. *)
Definition forward_allowed (targets : list string) (plugin_id : string) (resolved : bool)
    : bool :=
  str_mem plugin_id targets
  || (str_contains "." plugin_id && resolved
      && match split_once "." plugin_id with
         | Some (dev, _) => str_mem dev targets
         | None => false
         end).

(** The pending slot [forward] opens for a device capability called with an
    empty action name. *)
Definition forward_pending (msg : IncomingMessage) (plugin_id sender_id : string)
    (entry : PluginEntry) (w : World) : World :=
  match decode (f_payload (m_frame msg)) with
  | Some env =>
      match env_payload env with
      | Some (PActionRequest req) =>
          if str_is_empty (rq_action req) && str_contains "." plugin_id then
            upd_reg (register_pending_action (rq_action_id req)
                       (mkPending (m_write_tx msg) (rq_action_id req) sender_id
                          (now w + from_millis 30000) (pe_plugin_id entry)
                          (rq_streaming req) false (now w))) w
          else w
      | _ => w
      end
  | None => w
  end.

Definition audio_blocked (r : Registry) (frame : Frame) (sender_id : string) : bool :=
  flag_set (f_flags frame) FLAG_RAW_BINARY
  && is_err (check_permission r sender_id PermissionAudioStream).

(** [forward] *)
Definition forward (msg : IncomingMessage) (plugin_id : string) (w : World) : World * bool :=
  let deny m := (send_error (m_write_tx msg) ErrPermissionDenied m w, true) in
  match get_by_conn_id (m_conn_id msg) (w_reg w) with
  | None => (send_error (m_write_tx msg) ErrNotRegistered "not registered" w, true)
  | Some sender =>
      let sender_id := pe_plugin_id sender in
      if is_err (check_ipc_send (w_reg w) sender_id) then deny "PERMISSION_IPC_SEND required"
      else match get sender_id (w_reg w) with
      | None => deny "sender not found"
      | Some sender_entry =>
          let resolved := get_mux plugin_id (w_reg w) in
          let cross_user := match resolved with
                            | Some t => negb (pe_user_id t =s pe_user_id sender_entry)
                            | None => false
                            end in
          if cross_user then deny "cross-user IPC denied"
          else if negb (forward_allowed (mf_ipc_targets (pe_manifest sender_entry)) plugin_id
                          (bool_decide (is_Some resolved)))
          then deny "target not in ipc_targets allowlist"
          else if audio_blocked (w_reg w) (m_frame msg) sender_id
          then deny "PERMISSION_AUDIO_STREAM required for FLAG_RAW_BINARY frames"
          else match resolved with
          | Some entry =>
              let w := forward_pending msg plugin_id sender_id entry w in
              (set_chans (try_send (pe_write_tx entry) (out_frame (strip_mac (m_frame msg)))
                            (w_chans w)).1 w, false)
          | None =>
              let '(w, relayed) := match w_bridge w with
                                   | Some conns => relay_to_host conns (m_frame msg) w
                                   | None => (w, false)
                                   end in
              if relayed then (w, false)
              else (send_error (m_write_tx msg) ErrUnknown "plugin not found" w, true)
          end
      end
  end.

(** One iteration of the [broadcast] loop *)
Definition broadcast_to (msg : IncomingMessage) (sender_id : string) (w : World)
    (entry : PluginEntry) : World :=
  if (pe_conn_id entry =? m_conn_id msg)%N then w
  else if is_err (check_ipc_target (w_reg w) sender_id (pe_plugin_id entry)) then w
  else set_chans (try_send (pe_write_tx entry) (out_frame (strip_mac (m_frame msg)))
                    (w_chans w)).1 w.

(** [broadcast] *)
Definition broadcast (msg : IncomingMessage) (w : World) : World * bool :=
  let deny m := (send_error (m_write_tx msg) ErrPermissionDenied m w, true) in
  match get_by_conn_id (m_conn_id msg) (w_reg w) with
  | None => (send_error (m_write_tx msg) ErrNotRegistered "not registered" w, true)
  | Some sender =>
      let sender_id := pe_plugin_id sender in
      if is_err (check_ipc_send (w_reg w) sender_id) then deny "PERMISSION_IPC_SEND required"
      else if audio_blocked (w_reg w) (m_frame msg) sender_id
      then deny "PERMISSION_AUDIO_STREAM required for FLAG_RAW_BINARY frames"
      else (foldl (broadcast_to msg sender_id) w (list_plugins (w_reg w)), false)
  end.
End actions.

(** ** The kernel arm and the loop *)
Section loop.
Context `{Wire, Serde, Crypto, Jwt, !RowCodec DeviceRecord, Governor}.

(** [handle_kernel_message] *)
Definition handle_kernel_message (cfg : RouterCfg) (rand : bytes) (msg : IncomingMessage)
    (lim : option (Limiter (string * string))) (w : World)
    : option (Limiter (string * string)) * World * bool :=
  let same (p : World * bool) := (lim, p.1, p.2) in
  match decode (f_payload (m_frame msg)) with
  | None => same (send_error (m_write_tx msg) ErrDeserialization "decode failed" w, true)
  | Some env =>
      let is_register := match env_payload env with
                         | Some (PPluginRegister _) => true
                         | _ => false
                         end in
      let mid := env_message_id env in
      if negb is_register && negb (is_registered (m_conn_id msg) (w_reg w))
      then same (send_error (m_write_tx msg) ErrNotRegistered "not registered" w, true)
      else match env_payload env with
      | Some (PPluginRegister reg) => same (handle_register cfg rand mid reg msg w)
      | Some (PPing ts) => same (handle_ping mid ts msg w)
      | Some (PPong _ _) => same (handle_pong msg w)
      | Some (PSubscribe ts) => same (handle_subscribe ts msg w)
      | Some (PUnsubscribe ts) => same (handle_unsubscribe ts msg w)
      | Some (PEventPublish t p) => same (handle_event_publish mid t p msg w)
      | Some (PActionRequest req) => handle_action_request cfg mid req msg lim w
      | Some (PActionResponse resp) => same (handle_action_response mid resp msg w)
      | Some (PActionRequestChunk a s c f) => same (handle_request_chunk mid a s c f msg w)
      | Some (PActionResponseChunk a s c) => same (handle_response_chunk mid a s c msg w)
      | Some (PSessionClose a reason) => same (handle_session_close mid a reason msg w)
      | Some (PKernelCommand i c p) => same (handle_kernel_command cfg mid i c p msg w)
      | Some (PEventAck i) => same (handle_event_ack i w)
      | _ => same (send_error (m_write_tx msg) ErrUnknown "unhandled message" w, true)
      end
  end.

(** The state of the [run_with_context] task *)
Record RouterState := mkRouterState {
  rt_world : World;
  rt_error_counts : gmap N (Z * Z);
  rt_ipc_limiter : option (Limiter N);
  rt_action_limiter : option (Limiter (string * string))
}.

Definition router_init (cfg : RouterCfg) (w : World) : RouterState :=
  mkRouterState w ∅ (limiter_new N (rc_ipc_rate_limit_rps cfg))
    (limiter_new (string * string) (rc_action_caller_rate_limit_rps cfg)).

Definition ERROR_BUDGET_IDLE_TTL : Z := from_secs 300.

(** The bookkeeping after a message: spend or clear the error budget. *)
Definition note_result (cfg : RouterCfg) (conn_id : N) (errored : bool) (t : Z)
    (counts : gmap N (Z * Z)) : gmap N (Z * Z) :=
  if errored then
    let counts := if (rc_max_tracked_error_conns cfg <=? size counts)%nat
                  then base.filter (fun kc => duration_since t kc.2.2 < ERROR_BUDGET_IDLE_TTL)%Z
                         counts
                  else counts in
    let c := match counts !! conn_id with Some (c, _) => c | None => 0%Z end in
    <[conn_id := (u32_succ c, t)]> counts
  else delete conn_id counts.

Definition throttled (cfg : RouterCfg) (conn_id : N) (counts : gmap N (Z * Z)) : bool :=
  (rc_max_conn_errors cfg <=? match counts !! conn_id with Some (c, _) => c | None => 0 end)%Z.

(** One received message *)
Definition route_message (cfg : RouterCfg) (rand : bytes) (msg : IncomingMessage)
    (st : RouterState) : RouterState :=
  let w := rt_world st in
  let conn_id := m_conn_id msg in
  let '(ipc, ok) := check_opt (now w) conn_id (rt_ipc_limiter st) in
  let counts := rt_error_counts st in
  let stay w := mkRouterState w counts ipc (rt_action_limiter st) in
  if negb ok then stay (send_error (m_write_tx msg) ErrRateLimited "IPC rate limit exceeded" w)
  else match target_as_str (m_frame msg) with
  | None => stay (send_error (m_write_tx msg) ErrUnknown "invalid UTF-8 in frame target" w)
  | Some target =>
      if throttled cfg conn_id counts && negb (is_throttle_exempt (m_frame msg)) then stay w
      else
        let '(lim, w, errored) :=
          if target =s "kernel" then
            handle_kernel_message cfg rand msg (rt_action_limiter st) w
          else if target =s "*" then
            let '(w, e) := broadcast msg w in (rt_action_limiter st, w, e)
          else
            let '(w, e) := forward msg target w in (rt_action_limiter st, w, e) in
        mkRouterState w (note_result cfg conn_id errored (now w) counts) ipc lim
  end.

(** One prune tick: forget idle buckets, time out actions, end idle sessions. *)
Definition prune_step (cfg : RouterCfg) (st : RouterState) : RouterState :=
  let w := rt_world st in
  let t := now w in
  let '(r, expired) := sweep_expired_actions t (w_reg w) in
  let w := foldl (fun w p => send_envelope (pa_requester_write_tx p)
                    (envelope_of (PActionResponse (mkActionResponse (pa_original_action_id p)
                       (action_status_i32 ActionTimeout) [] "action timed out"))) w)
             (set_reg r w) expired in
  let w := match rc_session_idle_timeout_secs cfg with
           | None => w
           | Some idle_secs =>
               let '(r, idle) := sweep_idle_sessions t (from_secs idle_secs) (w_reg w) in
               foldl (fun w kp => notify_forced_termination kp.1 kp.2 "idle timeout" w)
                 (set_reg r w) idle
           end in
  mkRouterState w (rt_error_counts st) (retain_recent t <$> rt_ipc_limiter st)
    (retain_recent t <$> rt_action_limiter st).
End loop.
