(* ===== verification/KernelInv.v ===== *)
(** * What kernel operations may touch, and the kernel-wide invariant

    [only_sends P w w'] says that a run from [w] to [w'] did nothing but send:
    the message counter moved and channels satisfying [P] had frames appended.
    With it every helper of helpers.rs and bus.rs gets one frame lemma, and the
    invariant [kernel_ok] is preserved by every step of every task. *)

From S2P Require Import Prelude Errors Wire Validate Registry RegistryInv RegistryProps Events.
From S2P Require Import Auth Kernel Router.

(** ** Sending *)
Definition appended (c : Chan) (l : list Outbound) : Chan :=
  mkChan (ch_capacity c) (ch_queue c ++ l) (ch_closed c).

Definition grows (P : N -> Prop) (cs cs' : Chans) : Prop :=
  forall tx, cs' !! tx = cs !! tx
    \/ (P tx /\ exists c l, cs !! tx = Some c /\ cs' !! tx = Some (appended c l)).

Definition only_sends (P : N -> Prop) (w w' : World) : Prop :=
  exists n cs, w' = set_chans cs (set_msg_seq n w) /\ grows P (w_chans w) cs.

Lemma appended_app c l k : appended (appended c l) k = appended c (l ++ k).
Proof. unfold appended. simpl. by rewrite (assoc_L (++)). Qed.

Lemma grows_refl P cs : grows P cs cs.
Proof. intros tx. by left. Qed.

Lemma grows_trans P cs1 cs2 cs3 : grows P cs1 cs2 -> grows P cs2 cs3 -> grows P cs1 cs3.
Proof.
  intros H1 H2 tx. destruct (H1 tx) as [E1|(HP & c & l & Hc & Hc')],
    (H2 tx) as [E2|(HP2 & c2 & l2 & Hc2 & Hc2')].
  - left. congruence.
  - right. split; [done|]. exists c2, l2. by rewrite <- E1.
  - right. split; [done|]. exists c, l. by rewrite E2.
  - right. split; [done|]. rewrite Hc' in Hc2. simplify_eq. exists c, (l ++ l2).
    by rewrite Hc2', appended_app.
Qed.

Lemma grows_mono (P Q : N -> Prop) cs cs' :
  (forall tx, P tx -> Q tx) -> grows P cs cs' -> grows Q cs cs'.
Proof. intros HPQ H tx. destruct (H tx) as [|[? ?]]; naive_solver. Qed.

Lemma try_send_grows tx o cs : grows (eq tx) cs (try_send tx o cs).1.
Proof.
  unfold try_send. intros tx'.
  destruct (cs !! tx) as [c|] eqn:Hc; [|by left].
  destruct (ch_closed c); [by left|]. destruct (Nat.leb _ _); [by left|]. simpl.
  destruct (decide (tx = tx')) as [<-|]; [|left; by rewrite lookup_insert_ne].
  right. split; [done|]. exists c, [o]. split; [done|]. by rewrite lookup_insert_eq.
Qed.

Lemma send_await_grows tx o cs : grows (eq tx) cs (send_await tx o cs).
Proof.
  unfold send_await. intros tx'. destruct (cs !! tx) as [c|] eqn:Hc; [|by left].
  destruct (ch_closed c); [by left|].
  destruct (decide (tx = tx')) as [<-|]; [|left; by rewrite lookup_insert_ne].
  right. split; [done|]. exists c, [o]. split; [done|]. by rewrite lookup_insert_eq.
Qed.

Lemma world_eta_send w : w = set_chans (w_chans w) (set_msg_seq (w_msg_seq w) w).
Proof. by destruct w. Qed.

Lemma only_sends_refl P w : only_sends P w w.
Proof. exists (w_msg_seq w), (w_chans w). split; [apply world_eta_send|apply grows_refl]. Qed.

Lemma only_sends_trans P w1 w2 w3 :
  only_sends P w1 w2 -> only_sends P w2 w3 -> only_sends P w1 w3.
Proof.
  intros (n & cs & -> & H1) (n' & cs' & -> & H2). exists n', cs'. split; [done|].
  by eapply grows_trans.
Qed.

Lemma only_sends_mono (P Q : N -> Prop) w w' :
  (forall tx, P tx -> Q tx) -> only_sends P w w' -> only_sends Q w w'.
Proof. intros HPQ (n & cs & -> & H). exists n, cs. split; [done|]. by eapply grows_mono. Qed.

Lemma only_sends_foldl {A} (P : N -> Prop) (f : World -> A -> World) l w :
  (forall w a, a ∈ l -> only_sends P w (f w a)) -> only_sends P w (foldl f w l).
Proof.
  revert w. induction l as [|a l IH]; intros w H; simpl; [apply only_sends_refl|].
  eapply only_sends_trans; [apply H; left|]. apply IH. intros. apply H. by right.
Qed.

Lemma only_sends_chans P w cs : grows P (w_chans w) cs -> only_sends P w (set_chans cs w).
Proof. intros H. exists (w_msg_seq w), cs. split; [by destruct w|done]. Qed.

Lemma only_sends_fields P w w' :
  only_sends P w w' ->
  w_reg w' = w_reg w /\ w_bus w' = w_bus w /\ w_store w' = w_store w
  /\ w_action_seq w' = w_action_seq w /\ w_event_seq w' = w_event_seq w
  /\ w_lazy w' = w_lazy w /\ w_bridge w' = w_bridge w /\ w_clk w' = w_clk w.
Proof. by intros (n & cs & -> & _). Qed.

Lemma only_sends_reg P w w' : only_sends P w w' -> w_reg w' = w_reg w.
Proof. by intros (n & cs & -> & _). Qed.

Lemma only_sends_grows P w w' : only_sends P w w' -> grows P (w_chans w) (w_chans w').
Proof. by intros (n & cs & -> & H). Qed.

#[export] Hint Resolve only_sends_refl grows_refl try_send_grows send_await_grows : vyn.

Section frame.
Context `{Wire}.

Lemma build_outbound_frame env w :
  exists n, (build_outbound env w).1 = set_msg_seq n w.
Proof.
  unfold build_outbound, kernel_message_id. destruct (str_is_empty _); simpl; [eauto|].
  exists (w_msg_seq w). by destruct w.
Qed.

Lemma send_envelope_sends tx env w : only_sends (eq tx) w (send_envelope tx env w).
Proof.
  unfold send_envelope. destruct (build_outbound_frame env w) as [n Hn].
  destruct (build_outbound env w) as [w1 o]. simpl in Hn. subst w1.
  destruct o as [out|].
  - exists n, (try_send tx out (w_chans w)).1. split; [done|]. apply try_send_grows.
  - exists n, (w_chans w). split; [by destruct w|apply grows_refl].
Qed.

Lemma try_send_envelope_sends tx env w :
  only_sends (eq tx) w (try_send_envelope tx env w).1.
Proof.
  unfold try_send_envelope. destruct (build_outbound_frame env w) as [n Hn].
  destruct (build_outbound env w) as [w1 o]. simpl in Hn. subst w1.
  destruct o as [out|].
  - pose proof (try_send_grows tx out (w_chans w)) as Hg.
    change (w_chans (set_msg_seq n w)) with (w_chans w).
    destruct (try_send tx out (w_chans w)) as [cs r]. exists n, cs. by split.
  - exists n, (w_chans w). split; [by destruct w|apply grows_refl].
Qed.

Lemma send_error_sends tx code m w : only_sends (eq tx) w (send_error tx code m w).
Proof. apply send_envelope_sends. Qed.

Lemma send_register_reject_sends tx m w : only_sends (eq tx) w (send_register_reject tx m w).
Proof. apply send_envelope_sends. Qed.

Definition any_chan (tx : N) : Prop := True.

Lemma to_any P w w' : only_sends P w w' -> only_sends any_chan w w'.
Proof. by apply only_sends_mono. Qed.

Lemma notify_forced_termination_sends k p reason w :
  only_sends any_chan w (notify_forced_termination k p reason w).
Proof.
  unfold notify_forced_termination. eapply only_sends_trans;
    [eapply to_any, (try_send_envelope_sends (pa_requester_write_tx p)
       (envelope_of (PActionStreamAbort (pa_original_action_id p) reason)))|].
  set (w1 := (try_send_envelope _ _ w).1). clearbody w1.
  set (w2 := if pa_session_accepted p then w1 else _).
  assert (only_sends any_chan w1 w2) as H2.
  { subst w2. destruct (pa_session_accepted p); [apply only_sends_refl|].
    eapply to_any, try_send_envelope_sends. }
  eapply only_sends_trans; [exact H2|]. clearbody w2.
  destruct (get _ _); [eapply to_any, try_send_envelope_sends|apply only_sends_refl].
Qed.

Lemma deliver_to_sends payload w p : only_sends any_chan w (deliver_to payload w p).
Proof.
  unfold deliver_to. destruct (get p (w_reg w)); [|apply only_sends_refl].
  eapply to_any, only_sends_chans, try_send_grows.
Qed.

Lemma kernel_message_id_sends P w : only_sends P w (kernel_message_id w).1.
Proof.
  exists (u64_succ (w_msg_seq w)), (w_chans w). split; [by destruct w|apply grows_refl].
Qed.

Lemma deliver_sends e w : only_sends any_chan w (deliver e w).
Proof.
  unfold deliver. case_bool_decide; [apply only_sends_refl|].
  pose proof (kernel_message_id_sends any_chan w) as Hk.
  destruct (kernel_message_id w) as [w1 mid]. simpl in Hk.
  eapply only_sends_trans; [exact Hk|]. destruct (encode _); [|apply only_sends_refl].
  apply only_sends_foldl. intros. apply deliver_to_sends.
Qed.

(** Publishing persists at most one row and sends. *)
Lemma publish_frame e w :
  exists s, only_sends any_chan (set_store s w) (publish e w).
Proof.
  unfold publish. destruct (w_store w) as [s|] eqn:Hs.
  - eexists. apply deliver_sends.
  - exists (w_store w). rewrite <- (ltac:(by destruct w) : w = set_store (w_store w) w).
    apply deliver_sends.
Qed.

Lemma publish_reg e w : w_reg (publish e w) = w_reg w.
Proof. destruct (publish_frame e w) as [s Hs]. by apply only_sends_reg in Hs. Qed.

Lemma publish_bus e w : w_bus (publish e w) = w_bus w.
Proof. destruct (publish_frame e w) as [s Hs]. by apply only_sends_fields in Hs as (_ & -> & _). Qed.

Lemma send_envelope_reg tx env w : w_reg (send_envelope tx env w) = w_reg w.
Proof. eapply only_sends_reg, send_envelope_sends. Qed.

Lemma send_envelope_bus tx env w : w_bus (send_envelope tx env w) = w_bus w.
Proof. by destruct (only_sends_fields _ _ _ (send_envelope_sends tx env w)) as (_ & -> & _). Qed.

Lemma try_send_envelope_reg tx env w w' b :
  try_send_envelope tx env w = (w', b) -> w_reg w' = w_reg w /\ w_bus w' = w_bus w.
Proof.
  intros H1. pose proof (try_send_envelope_sends tx env w) as H2. rewrite H1 in H2. simpl in H2.
  by apply only_sends_fields in H2 as (-> & -> & _).
Qed.
End frame.

(** ** The kernel-wide invariant *)

(** No pending action waits on a provider that is not registered. *)
Definition pending_live (r : Registry) : Prop :=
  forall k p, pending_actions r !! k = Some p -> is_Some (by_plugin_id r !! pa_provider_id p).

Record core_ok (r : Registry) (b : EventBus) : Prop := {
  co_reg : reg_ok r;
  co_pending : pending_live r;
  co_bus : bus_ok b
}.

Definition kernel_ok (w : World) : Prop := core_ok (w_reg w) (w_bus w).

Lemma only_sends_ok P w w' : only_sends P w w' -> kernel_ok w -> kernel_ok w'.
Proof. unfold kernel_ok. by intros (-> & -> & _)%only_sends_fields. Qed.

(** The registry part: operations that keep the plugin map and only shrink or
    refresh the pending map. *)
Definition pending_sub (r r' : Registry) : Prop :=
  by_plugin_id r' = by_plugin_id r
  /\ forall k p', pending_actions r' !! k = Some p' ->
       exists p, pending_actions r !! k = Some p /\ pa_provider_id p' = pa_provider_id p.

Lemma pending_sub_live r r' : pending_sub r r' -> pending_live r -> pending_live r'.
Proof.
  intros [Hb Hp] Hl k p' Hk. destruct (Hp _ _ Hk) as (p & Hk' & ->). rewrite Hb. by eapply Hl.
Qed.

Lemma take_pending_action_sub k r : pending_sub r (take_pending_action k r).1.
Proof.
  unfold take_pending_action. destruct (pending_actions r !! k); simpl; [|split; eauto].
  split; [done|]. simpl. intros k' p' [_ ?]%lookup_delete_Some. eauto.
Qed.

Lemma take_pending_action_ok k r b : core_ok r b -> core_ok (take_pending_action k r).1 b.
Proof.
  intros []. split; [|by eapply pending_sub_live, co_pending0; apply take_pending_action_sub|done].
  unfold take_pending_action. case_match; simpl; auto with vyn.
Qed.

Lemma bulk_take_ok sel r b : core_ok r b -> core_ok (take_keys (pending_keys sel r) r).1 b.
Proof.
  intros []. destruct (take_keys _ r) as [r' l] eqn:Ht.
  apply bulk_take_spec in Ht as (-> & _). split; simpl; [auto with vyn| |done].
  intros k p. simpl. rewrite map_lookup_filter_Some. intros [? _]. by eapply co_pending0.
Qed.

Lemma touch_used_core clk p r b : core_ok r b -> core_ok (touch_used clk p r) b.
Proof.
  intros []. split; [by apply touch_used_ok| |done].
  unfold touch_used. by destruct (is_lazy p r).
Qed.

Lemma register_pending_core k p r b :
  core_ok r b -> is_Some (by_plugin_id r !! pa_provider_id p) ->
  core_ok (register_pending_action k p r) b.
Proof.
  intros [] Hp. split; [by apply set_pending_ok| |done].
  intros k' p'. simpl. rewrite lookup_insert_Some. intros [[_ <-]|[_ ?]]; [done|].
  by eapply co_pending0.
Qed.

Lemma touch_pending_core clk k r b : core_ok r b -> core_ok (touch_pending_action clk k r) b.
Proof.
  intros []. split; [by apply set_pending_ok| |done]. eapply pending_sub_live; [|done].
  split; [done|]. simpl. intros k' p'. rewrite lookup_alter.
  case_decide; [subst|eauto]. intros (p & Hp & ->)%fmap_Some. eauto.
Qed.

Lemma resolve_core clk k q ok r b :
  core_ok r b -> core_ok (resolve_action_response clk k q ok r).1 b.
Proof.
  intros []. split; [|eapply pending_sub_live; [|done]|done].
  - unfold resolve_action_response. repeat case_match; simpl; auto with vyn.
  - unfold resolve_action_response. destruct (pending_actions r !! k) as [p|] eqn:Hp;
      [|split; eauto]. destruct (negb _); [split; eauto|].
    destruct (ok && pa_streaming p); split; try done; simpl.
    + intros k' p' [[<- <-]|[_ ?]]%lookup_insert_Some; eauto.
    + intros k' p' [_ ?]%lookup_delete_Some; eauto.
Qed.

Lemma gate_passes_core p a r b : core_ok r b -> core_ok (lazy_gate_passes p a r).1 b.
Proof.
  intros []. unfold lazy_gate_passes. repeat case_match; simpl; split; auto with vyn.
Qed.

Lemma insert_entry_pending clk e meta caps r :
  pending_live r -> pending_live (insert_entry clk e meta caps r).
Proof.
  intros Hl k p. destruct (insert_entry_fields clk e meta caps r) as (-> & _ & -> & _).
  intros Hk. destruct (Hl _ _ Hk) as [e' He']. rewrite lookup_insert.
  case_decide; [by eexists|by eexists].
Qed.

Lemma register_with_device_core clk p c mf tx meta r b :
  core_ok r b -> core_ok (register_with_device clk p c mf tx meta r).1 b.
Proof.
  intros []. split; [by apply register_with_device_ok| |done].
  destruct (register_with_device _ _ _ _ _ _ _) as [r' res] eqn:Hr.
  apply register_with_device_cases in Hr as [(? & _ & ->)|(_ & _ & _ & _ & _ & ->)]; [done|].
  by apply insert_entry_pending.
Qed.

Lemma register_device_core clk d c caps mf tx meta r b :
  core_ok r b -> core_ok (register_device clk d c caps mf tx meta r).1 b.
Proof.
  intros []. split; [by apply register_device_ok| |done].
  destruct (register_device _ _ _ _ _ _ _ _) as [r' res] eqn:Hr.
  apply register_device_cases in Hr as [(? & _ & ->)|(_ & _ & _ & _ & _ & ->)]; [done|].
  by apply insert_entry_pending.
Qed.

Section removal.
Context `{Wire}.

Lemma fail_pending_reg p w :
  w_reg (fail_pending_for_provider p w) = (take_pending_actions_for_provider p (w_reg w)).1
  /\ w_bus (fail_pending_for_provider p w) = w_bus w.
Proof.
  unfold fail_pending_for_provider.
  destruct (take_pending_actions_for_provider p (w_reg w)) as [r taken].
  assert (only_sends any_chan (set_reg r w) (foldl (fun w kp => send_envelope
    (pa_requester_write_tx kp.2) (envelope_of (gone_payload ("provider " +:+ p
      +:+ " disconnected") kp.2)) w) (set_reg r w) taken)) as Hs.
  { apply only_sends_foldl. intros. eapply to_any, send_envelope_sends. }
  apply only_sends_fields in Hs as (-> & -> & _). done.
Qed.

Lemma unregister_if_ok p pred w : kernel_ok w -> kernel_ok (unregister_if p pred w).1.
Proof.
  intros [Hr Hp Hb]. unfold unregister_if.
  pose proof (unregister_core_ok p pred _ Hr) as Hok.
  destruct (unregister_core p pred (w_reg w)) as [r b] eqn:Hu.
  apply unregister_core_cases in Hu as [(-> & _ & _)|(e & -> & He & _ & Hbp & _ & Hpend & _)];
    simpl in *; [by split|].
  destruct (fail_pending_reg p (set_reg r w)) as [H1 H2]. unfold kernel_ok. rewrite H1, H2.
  unfold take_pending_actions_for_provider. simpl.
  destruct (take_keys _ r) as [r' l] eqn:Ht. apply bulk_take_spec in Ht as (-> & _).
  split; [by apply set_pending_ok| |done].
  intros k q. simpl. rewrite map_lookup_filter_Some, Hpend. simpl. intros [Hk Hq].
  apply str_eqb_neq in Hq. rewrite Hbp. destruct (Hp _ _ Hk) as [e' He'].
  rewrite lookup_delete_ne by done. by eexists.
Qed.
End removal.
