(* ===== verification/RouterInv.v ===== *)
(** * Every task preserves the kernel invariant

    One preservation lemma per handler, the step relation of the whole kernel
    (router iterations, prune ticks, disconnects, stops by the manager, retry
    rounds, registrations by the bridge, steps of the lazy waker, and the environment
    moving clocks and channels), and the reachable states. *)

From S2P Require Import Prelude Errors Wire Validate Registry RegistryInv RegistryProps Events.
From S2P Require Import Auth Kernel Lazy Router KernelInv.

Lemma ok_set_reg r w : core_ok r (w_bus w) -> kernel_ok (set_reg r w).
Proof. done. Qed.

Lemma ok_set_bus b w : kernel_ok w -> bus_ok b -> kernel_ok (set_bus b w).
Proof. intros [] Hb. by split. Qed.

Lemma ok_upd_reg f w : core_ok (f (w_reg w)) (w_bus w) -> kernel_ok (upd_reg f w).
Proof. done. Qed.

Lemma ok_set_chans cs w : kernel_ok w -> kernel_ok (set_chans cs w).
Proof. done. Qed.

Lemma ok_set_store s w : kernel_ok w -> kernel_ok (set_store s w).
Proof. done. Qed.

#[export] Hint Resolve ok_set_reg ok_set_chans ok_set_store : vyn.

Section handlers.
Context {WI : Wire}.

Lemma ok_send tx env w : kernel_ok w -> kernel_ok (send_envelope tx env w).
Proof. apply (only_sends_ok (eq tx)), send_envelope_sends. Qed.

Lemma ok_try_send tx env w w' b :
  try_send_envelope tx env w = (w', b) -> kernel_ok w -> kernel_ok w'.
Proof. unfold kernel_ok. by intros [-> ->]%try_send_envelope_reg. Qed.

Lemma ok_try_send_1 tx env w : kernel_ok w -> kernel_ok (try_send_envelope tx env w).1.
Proof. destruct (try_send_envelope tx env w) eqn:E. by eapply ok_try_send. Qed.

Lemma ok_publish e w : kernel_ok w -> kernel_ok (publish e w).
Proof. unfold kernel_ok. by rewrite publish_reg, publish_bus. Qed.

Lemma ok_error tx code m w : kernel_ok w -> kernel_ok (send_error tx code m w).
Proof. apply ok_send. Qed.

Lemma ok_reject tx m w : kernel_ok w -> kernel_ok (send_register_reject tx m w).
Proof. apply ok_send. Qed.

Lemma ok_notify k p reason w :
  kernel_ok w -> kernel_ok (notify_forced_termination k p reason w).
Proof. eapply only_sends_ok, notify_forced_termination_sends. Qed.

Lemma ok_abort k reason w : kernel_ok w -> kernel_ok (abort_stream k reason w).
Proof.
  intros Hok. unfold abort_stream. pose proof (take_pending_action_ok k _ _ Hok) as Ht.
  destruct (take_pending_action k (w_reg w)) as [r [p|]]; [|done].
  apply ok_notify. exact Ht.
Qed.

#[local] Hint Resolve ok_send ok_publish ok_error ok_reject ok_notify ok_abort
  ok_try_send_1 : vyn.

Lemma ok_take k w : kernel_ok w -> kernel_ok (upd_reg (fun r => (take_pending_action k r).1) w).
Proof. intros Hok. by apply ok_upd_reg, take_pending_action_ok. Qed.

Lemma ok_pending k p w :
  kernel_ok w -> is_Some (by_plugin_id (w_reg w) !! pa_provider_id p) ->
  kernel_ok (upd_reg (register_pending_action k p) w).
Proof. intros. by apply ok_upd_reg, register_pending_core. Qed.

(** A connection's entry is the live entry of its plugin id. *)
Lemma conn_entry_live r c e :
  reg_ok r -> get_by_conn_id c r = Some e ->
  by_plugin_id r !! pe_plugin_id e = Some e /\ pe_conn_id e = c.
Proof.
  intros Hok. unfold get_by_conn_id. destruct (by_conn_id r !! c) as [p|] eqn:Hc; [|done].
  intros He. destruct (ok_plug _ Hok _ _ He) as [Hp _].
  destruct (ok_conn _ Hok _ _ Hc) as (e' & He' & Hc'). split; congruence.
Qed.

Lemma found_live r a e :
  reg_ok r -> find_action_provider a r = Found e -> by_plugin_id r !! pe_plugin_id e = Some e.
Proof.
  intros Hok. unfold find_action_provider.
  destruct (ambiguous_actions r !! a); [done|].
  destruct (action_index r !! a) as [q|]; [|by repeat case_match].
  destruct (by_plugin_id r !! q) as [e'|] eqn:He; [|by repeat case_match].
  destruct (forallb _ _); [|done]. intros [= <-]. by destruct (ok_plug _ Hok _ _ He) as [-> _].
Qed.

Lemma get_mux_live r t e :
  reg_ok r -> get_mux t r = Some e -> by_plugin_id r !! pe_plugin_id e = Some e.
Proof.
  intros Hok. unfold get_mux, get. destruct (by_plugin_id r !! t) as [e'|] eqn:He.
  - intros [= <-]. by destruct (ok_plug _ Hok _ _ He) as [-> _].
  - destruct (split_once "." t) as [[dev cap]|]; [|done].
    destruct (by_plugin_id r !! dev) as [e'|] eqn:Hd; [|done].
    destruct (_ || _); [|done]. intros [= <-]. by destruct (ok_plug _ Hok _ _ Hd) as [-> _].
Qed.

Lemma ok_relay cfg msg mid req s w w' b :
  relay_action_to_host cfg msg mid req s w = (w', b) -> kernel_ok w -> kernel_ok w'.
Proof.
  intros Hr Hok. unfold relay_action_to_host in Hr. destruct (_ || _); [by simplify_eq|].
  destruct (get_by_conn_id _ _) as [host|] eqn:Hh; [|by simplify_eq].
  apply conn_entry_live in Hh as [Hh _]; [|apply Hok].
  cbn [next_internal_id] in Hr.
  destruct (try_send_envelope _ _ _) as [w2 b2] eqn:Hs.
  assert (kernel_ok w2) as H2.
  { eapply ok_try_send; [exact Hs|]. apply ok_pending; [done|]. by eexists. }
  destruct b2; simplify_eq; [done|by apply ok_take].
Qed.

Lemma ok_route_action cfg msg mid req s c e w :
  kernel_ok w -> is_Some (by_plugin_id (w_reg w) !! pe_plugin_id e) ->
  kernel_ok (route_action cfg msg mid req s c e w).
Proof.
  intros Hok He. unfold route_action. cbn [next_internal_id].
  apply ok_upd_reg, touch_used_core, ok_send, ok_pending; done.
Qed.

Lemma gated_lookup_spec a addr r b r' l :
  core_ok r b -> gated_lookup a addr r = (r', l) ->
  core_ok r' b /\ by_plugin_id r' = by_plugin_id r
  /\ forall e, l = Found e -> by_plugin_id r !! pe_plugin_id e = Some e.
Proof.
  intros Hok. unfold gated_lookup. destruct (find_action_provider a r) as [|e|ids|id] eqn:Hf;
    try (intros [= <- <-]; by split_and!).
  pose proof (gate_passes_core (pe_plugin_id e) addr r b Hok) as Hg.
  assert (by_plugin_id (lazy_gate_passes (pe_plugin_id e) addr r).1 = by_plugin_id r) as Hb.
  { unfold lazy_gate_passes. by repeat case_match. }
  destruct (lazy_gate_passes _ _ _) as [r1 ok]. intros [= <- <-]. split_and!; [done..|].
  destruct ok; [|done]. intros e' [= <-]. eapply found_live; [apply Hok|done].
Qed.
End handlers.

(** ** The lazy waker *)
Section waker.
Context {WI : Wire}.

Lemma set_gates_core g r b : core_ok r b -> core_ok (set_gates g r) b.
Proof. intros []. split; [by apply set_gates_ok|done|done]. Qed.

Lemma gate_ops_core clk p a r b :
  core_ok r b ->
  core_ok (lazy_gate_hold p r) b /\ core_ok (lazy_gate_release p r) b
  /\ core_ok (lazy_gate_allow clk p a r) b.
Proof.
  intros Hr. unfold lazy_gate_hold, lazy_gate_release, lazy_gate_allow.
  split_and!; [destruct (_ !! p)| |destruct (_ !! p)]; auto using set_gates_core.
Qed.

Lemma ok_lazy_fail m st e s : kernel_ok (lz_world s) -> kernel_ok (lz_world (fail_msg m st e s)).
Proof.
  intros Hok. unfold fail_msg. simpl. repeat case_match; try done. by apply ok_send.
Qed.

Lemma ok_lazy_foldl {A} (f : LazyStarter -> A -> LazyStarter) l s :
  (forall s x, kernel_ok (lz_world s) -> kernel_ok (lz_world (f s x))) ->
  kernel_ok (lz_world s) -> kernel_ok (lz_world (foldl f s l)).
Proof.
  intros Hf. revert s. induction l as [|x l IH]; intros s Hok; [done|]. by apply IH, Hf.
Qed.

Lemma ok_fail_queue id q s : kernel_ok (lz_world s) -> kernel_ok (lz_world (fail_queue id q s)).
Proof. apply ok_lazy_foldl. intros. by apply ok_lazy_fail. Qed.

Lemma ok_reinject open id q s :
  kernel_ok (lz_world s) -> kernel_ok (lz_world (reinject open id q s)).
Proof.
  intros Hok. unfold reinject. destruct open.
  - apply ok_lazy_foldl; [|done]. intros s' m Hs'. by apply gate_ops_core.
  - destruct q; [done|]. by apply gate_ops_core.
Qed.

Lemma ok_on_wake_request open r s :
  kernel_ok (lz_world s) -> kernel_ok (lz_world (on_wake_request open r s)).
Proof.
  intros Hok. unfold on_wake_request. destruct (_ !! _) as [w|].
  - destruct (_ <=? _)%nat; [by apply ok_lazy_fail|done].
  - case_bool_decide.
    + destruct (match request_action _ with Some _ => _ | None => _ end);
        [by apply ok_reinject|by apply ok_lazy_fail].
    + apply (gate_ops_core (lz_clk s) _ 0). by apply touch_used_core.
Qed.

Lemma ok_poll_waking open t s :
  kernel_ok (lz_world s) -> kernel_ok (lz_world (poll_waking open t s)).
Proof.
  intros Hok. unfold poll_waking. apply ok_lazy_foldl; [|apply ok_lazy_foldl; [|apply ok_lazy_foldl]].
  - intros s' id Hs. unfold trim_gate. case_bool_decide; [done|].
    unfold lazy_gate_trim. destruct (lazy_gates (lz_reg s') !! id) as [g|]; simpl.
    + case_bool_decide; [|by apply set_gates_core]. by do 2 apply set_gates_core.
    + by apply set_gates_core.
  - intros s' id Hs. unfold expire_slot. destruct (_ !! id) as [w|]; [|done]. cbv zeta.
    assert (kernel_ok (lz_world (upd_registry (lazy_gate_release id)
      (fail_queue id (wk_queue w) s')))) by (by apply set_gates_core, ok_fail_queue).
    by destruct (wk_starting _).
  - intros s' id Hs. unfold drain_ready. destruct (_ !! id); [|done]. by apply ok_reinject.
  - done.
Qed.

Lemma ok_sweep_idle now s :
  kernel_ok (lz_world s) -> kernel_ok (lz_world (sweep_idle now s)).
Proof.
  apply ok_lazy_foldl. intros s' d Hs. unfold sweep_one. destruct (_ || _); [done|].
  destruct (idle_for_at _ _ _); [|by apply touch_used_core].
  destruct (_ || _); [done|]. by apply (gate_ops_core (lz_clk s') _ 0).
Qed.

Lemma ok_waker_step t o s s' :
  waker_step t o s s' -> kernel_ok (lz_world s) -> kernel_ok (lz_world s').
Proof.
  intros Hs Hok. destruct Hs as [| |id s Hin| |].
  - by apply ok_on_wake_request.
  - unfold on_start_result. simpl. destruct (_ !! _) as [w|]; [|done].
    destruct (wk_want_stop w); [done|]. destruct result; [done|].
    by apply ok_fail_queue, set_gates_core.
  - unfold on_stopped. simpl. destruct (_ !! _) as [w|]; [|done].
    destruct (wk_queue w); [by apply set_gates_core|]. by apply (gate_ops_core (lz_clk s) _ 0).
  - by apply ok_poll_waking.
  - by apply ok_sweep_idle.
Qed.
End waker.

Section loop.
Context {WI : Wire} {SI : Serde} {CI : Crypto} {JI : Jwt} {RI : RowCodec DeviceRecord}
  {GI : Governor}.

Lemma ok_dispatch_action cfg msg mid req s c d l lim w lim' w' rf :
  kernel_ok w -> (forall e, l = Found e -> is_Some (by_plugin_id (w_reg w) !! pe_plugin_id e)) ->
  dispatch_action cfg msg mid req s c d l lim w = (lim', w', rf) -> kernel_ok w'.
Proof.
  intros Hok Hl Hd. unfold dispatch_action in Hd. destruct d; [by simplify_eq|].
  destruct l as [|e|ids|id].
  - destruct (relay_action_to_host _ _ _ _ _ _) as [w1 [|]] eqn:Hr; simplify_eq;
      by eapply ok_relay.
  - destruct (permission_blocked _ _ _ _ _); [by simplify_eq|].
    destruct (over_concurrency _ _ _ _); [by simplify_eq|].
    destruct (check_opt _ _ _) as [lim1 [|]]; simplify_eq/=; [|done].
    apply ok_route_action; eauto.
  - by simplify_eq.
  - destruct (permission_blocked _ _ _ _ _); [by simplify_eq|].
    destruct (over_concurrency _ _ _ _); [by simplify_eq|].
    destruct (check_opt _ _ _) as [lim1 [|]]; simplify_eq/=; [|done].
    unfold wake_try_send in Hd. destruct (w_lazy w); [|by simplify_eq].
    destruct (_ || _); by simplify_eq.
Qed.

Lemma ok_action_request cfg mid req msg lim w :
  kernel_ok w -> kernel_ok (handle_action_request cfg mid req msg lim w).1.2.
Proof.
  intros Hok. unfold handle_action_request.
  destruct (gated_lookup _ _ _) as [r l] eqn:Hg.
  destruct (gated_lookup_spec _ _ _ _ _ _ Hok Hg) as (Hr & Hbp & Hl).
  destruct (dispatch_action _ _ _ _ _ _ _ _ _ _) as [[lim1 w1] rf] eqn:Hd.
  apply ok_dispatch_action in Hd; [|done|].
  - destruct rf; simpl; [by apply ok_send|done].
  - intros e He. simpl. rewrite Hbp. eexists. by apply Hl.
Qed.

Lemma ok_action_response mid resp msg w :
  kernel_ok w -> kernel_ok (handle_action_response mid resp msg w).1.
Proof.
  intros Hok. unfold handle_action_response. destruct (get_by_conn_id _ _) as [e|]; [|done].
  pose proof (resolve_core (w_clk w) (rs_action_id resp) (pe_plugin_id e)
    (rs_status resp =? action_status_i32 ActionOk)%Z _ _ Hok) as Hr.
  destruct (resolve_action_response _ _ _ _ _) as [r [p|]]; [|done].
  by apply ok_send, ok_upd_reg, touch_used_core.
Qed.

Lemma ok_request_chunk mid a s c f msg w :
  kernel_ok w -> kernel_ok (handle_request_chunk mid a s c f msg w).1.
Proof.
  intros Hok. unfold handle_request_chunk.
  destruct (find_pending_internal_id _ _ _) as [k|]; [|done].
  destruct (get_pending_action k _) as [p|]; [|done].
  assert (kernel_ok (upd_reg (touch_pending_action (w_clk w) k) w)) as H1
    by (by apply ok_upd_reg, touch_pending_core).
  destruct (get _ _); [|by apply ok_abort].
  destruct (try_send_envelope _ _ _) as [w2 [|]] eqn:Hs; apply ok_try_send in Hs; try done.
  by apply ok_abort.
Qed.

Lemma ok_response_chunk mid a s c msg w :
  kernel_ok w -> kernel_ok (handle_response_chunk mid a s c msg w).1.
Proof.
  intros Hok. unfold handle_response_chunk.
  destruct (get_by_conn_id _ _) as [e|]; [|done].
  destruct (get_pending_action a _) as [p|]; [|done]. destruct (_ =s _); [|done].
  assert (kernel_ok (upd_reg (touch_pending_action (w_clk w) a) w)) as H1
    by (by apply ok_upd_reg, touch_pending_core).
  destruct (try_send_envelope _ _ _) as [w2 [|]] eqn:Hs; apply ok_try_send in Hs; try done.
  by apply ok_abort.
Qed.

Lemma ok_session_close mid a reason msg w :
  kernel_ok w -> kernel_ok (handle_session_close mid a reason msg w).1.
Proof.
  intros Hok. unfold handle_session_close.
  destruct (get_by_conn_id _ _) as [e|]; [|by apply ok_error].
  destruct (resolve_session _ _ _) as [[[k p] fp]|]; [|by apply ok_error].
  destruct (negb _); [by apply ok_error|]. apply ok_take.
  destruct fp; [by apply ok_try_send_1|]. destruct (get _ _); [by apply ok_try_send_1|done].
Qed.

Lemma ok_forward msg t w : kernel_ok w -> kernel_ok (forward msg t w).1.
Proof.
  intros Hok. unfold forward.
  destruct (get_by_conn_id _ _) as [e|]; [|by apply ok_error].
  destruct (is_err _); [by apply ok_error|]. destruct (get _ _) as [se|]; [|by apply ok_error].
  destruct (match get_mux t (w_reg w) with Some _ => _ | None => _ end); [by apply ok_error|].
  destruct (negb _); [by apply ok_error|]. destruct (audio_blocked _ _ _); [by apply ok_error|].
  destruct (get_mux t (w_reg w)) as [te|] eqn:Hm.
  - apply ok_set_chans. unfold forward_pending. repeat case_match; try done.
    apply ok_pending; [done|]. eexists. eapply get_mux_live; [apply Hok|done].
  - destruct (w_bridge w) as [conns|]; [|by apply ok_error].
    unfold relay_to_host. destruct conns; [by apply ok_error|].
    destruct (try_send _ _ _) as [cs r]. case_bool_decide; [done|by apply ok_error].
Qed.

Lemma ok_broadcast msg w : kernel_ok w -> kernel_ok (broadcast msg w).1.
Proof.
  intros Hok. unfold broadcast.
  destruct (get_by_conn_id _ _) as [e|]; [|by apply ok_error].
  destruct (is_err _); [by apply ok_error|]. destruct (audio_blocked _ _ _); [by apply ok_error|].
  eapply (only_sends_ok any_chan); [|done]. apply only_sends_foldl. intros w1 a _.
  unfold broadcast_to. destruct (_ =? _)%N; [apply only_sends_refl|].
  destruct (is_err _); [apply only_sends_refl|].
  eapply to_any, only_sends_chans, try_send_grows.
Qed.

Lemma ok_evict_stale id w : kernel_ok w -> kernel_ok (evict_stale id w).
Proof.
  intros Hok. unfold evict_stale. destruct (get id _) as [e|]; [|done].
  destruct (is_closed _ _); [|done]. unfold unregister_if_dead.
  pose proof (unregister_if_ok id (fun e => is_closed (pe_write_tx e) (w_chans w)) w Hok) as Hu.
  destruct (unregister_if _ _ _) as [w1 [|]]; [|done]. simpl in Hu.
  apply ok_publish, ok_set_bus; [done|]. apply unsubscribe_all_ok, Hu.
Qed.

Lemma ok_do_register reg mf msg w : kernel_ok w -> kernel_ok (do_register reg mf msg w).1.
Proof.
  intros Hok. unfold do_register. destruct (is_mux_device reg).
  - pose proof (register_device_core (w_clk w) (pr_device_id reg) (m_conn_id msg)
      (pr_capabilities reg) mf (m_write_tx msg) (meta_of reg) _ _ Hok) as Hr.
    by destruct (register_device _ _ _ _ _ _ _ _).
  - pose proof (register_with_device_core (w_clk w) (pr_plugin_id reg) (m_conn_id msg)
      mf (m_write_tx msg) (meta_of reg) _ _ Hok) as Hr.
    by destruct (register_with_device _ _ _ _ _ _ _).
Qed.

Lemma ok_finish cfg rand mid msg p ds res w :
  kernel_ok w -> kernel_ok (finish_register cfg rand mid msg p ds res w).
Proof.
  intros Hok. unfold finish_register. set (ack := match res with Ok _ => _ | Err _ => _ end).
  assert (kernel_ok (send_envelope (m_write_tx msg)
    (envelope_reply mid (PPluginRegisterAck ack)) w)) as H1 by (by apply ok_send).
  destruct (rc_mac_secret cfg), (is_ok res); try done; by apply ok_publish.
Qed.

Lemma ok_register cfg rand mid reg msg w :
  kernel_ok w -> kernel_ok (handle_register cfg rand mid reg msg w).1.
Proof.
  intros Hok. unfold handle_register.
  set (v := if str_is_empty _ then _ else _). clearbody v.
  destruct v; [| |by apply ok_error];
    (destruct (authenticate _ _ _ _) as [mf|]; [|by apply ok_reject];
     destruct (device_secret_for _ _ _) as [dsec|]; [|by apply ok_reject];
     pose proof (ok_do_register reg (clamp_permissions cfg (pr_plugin_id reg) mf) msg _
       (ok_evict_stale (if is_mux_device reg then pr_device_id reg else pr_plugin_id reg) w Hok))
       as Hd;
     destruct (do_register _ _ _ _) as [w1 res]; by apply ok_finish).
Qed.

Lemma ok_kernel_message cfg rand msg lim w :
  kernel_ok w -> kernel_ok (handle_kernel_message cfg rand msg lim w).1.2.
Proof.
  intros Hok. unfold handle_kernel_message. destruct (decode _) as [env|]; [|by apply ok_error].
  destruct (_ && _); [by apply ok_error|].
  destruct (env_payload env) as [[]|]; simpl; try (by apply ok_error).
  - by apply ok_register.
  - by apply ok_send.
  - destruct (get_by_conn_id _ _); [|done]. destruct Hok. apply ok_upd_reg.
    split; [by apply record_pong_ok| |done]. unfold record_pong. simpl.
    by destruct (by_plugin_id (w_reg w) !! _).
  - destruct (get_by_conn_id _ _); [|done]. apply ok_set_bus; [done|].
    apply subscribe_ok, Hok.
  - destruct (get_by_conn_id _ _); [|done]. apply ok_set_bus; [done|].
    apply unsubscribe_ok, Hok.
  - by destruct (w_store w).
  - unfold handle_event_publish. destruct (is_err _); simpl; [by apply ok_send|].
    by apply ok_send, ok_publish.
  - by apply ok_action_request.
  - by apply ok_action_response.
  - by apply ok_request_chunk.
  - by apply ok_response_chunk.
  - by apply ok_session_close.
  - by apply ok_send.
Qed.

Lemma ok_route_message cfg rand msg st :
  kernel_ok (rt_world st) -> kernel_ok (rt_world (route_message cfg rand msg st)).
Proof.
  intros Hok. unfold route_message. destruct (check_opt _ _ _) as [ipc ok].
  destruct (negb ok); [by apply ok_error|]. destruct (target_as_str _) as [t|]; [|by apply ok_error].
  destruct (_ && _); [done|]. destruct (t =s "kernel").
  - pose proof (ok_kernel_message cfg rand msg (rt_action_limiter st) _ Hok) as Hk.
    by destruct (handle_kernel_message _ _ _ _ _) as [[lim w] e].
  - destruct (t =s "*").
    + pose proof (ok_broadcast msg _ Hok) as Hb. by destruct (broadcast _ _).
    + pose proof (ok_forward msg t _ Hok) as Hf. by destruct (forward _ _ _).
Qed.

Lemma ok_prune cfg st : kernel_ok (rt_world st) -> kernel_ok (rt_world (prune_step cfg st)).
Proof.
  intros Hok. unfold prune_step, sweep_expired_actions.
  pose proof (bulk_take_ok (is_expired (now (rt_world st))) _ _ Hok) as H1.
  destruct (take_keys _ _) as [r taken]. simpl in H1.
  match goal with |- context [foldl ?f (set_reg r (rt_world st)) ?l] =>
    assert (kernel_ok (foldl f (set_reg r (rt_world st)) l)) as H2 end.
  { eapply (only_sends_ok any_chan (set_reg r (rt_world st))); [|exact H1]. apply only_sends_foldl.
    intros. eapply to_any, send_envelope_sends. }
  revert H2. generalize (foldl (fun w p => send_envelope (pa_requester_write_tx p)
    (envelope_of (PActionResponse (mkActionResponse (pa_original_action_id p)
       (action_status_i32 ActionTimeout) [] "action timed out"))) w)
    (set_reg r (rt_world st)) taken.*2). intros w2 H2. simpl.
  destruct (rc_session_idle_timeout_secs cfg) as [idle|]; [|done].
  pose proof (bulk_take_ok (is_idle (now (rt_world st)) (from_secs idle)) _ _ H2) as H3.
  unfold sweep_idle_sessions. destruct (take_keys _ _) as [r3 l3]. simpl in H3.
  eapply (only_sends_ok any_chan (set_reg r3 w2)); [|exact H3]. apply only_sends_foldl.
  intros. apply notify_forced_termination_sends.
Qed.

Lemma ok_disconnect c w : kernel_ok w -> kernel_ok (disconnect_step c w).
Proof.
  intros Hok. unfold disconnect_step. destruct (get_by_conn_id c _) as [e|]; [|done].
  unfold unregister_conn.
  pose proof (unregister_if_ok (pe_plugin_id e) (fun e => (pe_conn_id e =? c)%N) w Hok) as Hu.
  destruct (unregister_if _ _ _) as [w1 [|]]; [|done]. simpl in Hu.
  apply ok_publish, ok_set_bus; [done|]. apply unsubscribe_all_ok, Hu.
Qed.

(** ** The whole kernel

    One step of any task. The waker's private state is whatever it is when it
    moves; bookkeeping covers the registry operations of the start-up code
    (dormant plugins, action requirements) and of the watchdog. *)
Inductive kernel_step : RouterState -> RouterState -> Prop :=
| ks_message cfg rand msg st : kernel_step st (route_message cfg rand msg st)
| ks_prune cfg st : kernel_step st (prune_step cfg st)
| ks_disconnect c w e i l : kernel_step (mkRouterState w e i l)
    (mkRouterState (disconnect_step c w) e i l)
| ks_stop p w e i l : kernel_step (mkRouterState w e i l)
    (mkRouterState (unregister p w) e i l)
| ks_retry max keep w e i l : kernel_step (mkRouterState w e i l)
    (mkRouterState (retry_worker_round max keep w) e i l)
| ks_bridge_register clk p c mf tx meta w e i l : kernel_step (mkRouterState w e i l)
    (mkRouterState (upd_reg (fun r => (register_with_device clk p c mf tx meta r).1) w) e i l)
| ks_waker t o s s' e i l :
    waker_step t o s s' ->
    kernel_step (mkRouterState (lz_world s) e i l) (mkRouterState (lz_world s') e i l)
| ks_bookkeeping f w e i l :
    (forall r, reg_step r (f r)) ->
    (forall r, by_plugin_id (f r) = by_plugin_id r /\ pending_actions (f r) = pending_actions r) ->
    kernel_step (mkRouterState w e i l) (mkRouterState (upd_reg f w) e i l)
| ks_environment w chans lazy bridge clk db e i l : kernel_step (mkRouterState w e i l)
    (mkRouterState (mkWorld (w_reg w) chans (w_bus w) (w_store w) (w_msg_seq w)
       (w_action_seq w) (w_event_seq w) lazy bridge clk db) e i l).

Definition world_empty (store : option EventStore) (clk : Clock) : World :=
  mkWorld registry_new ∅ bus_new store 0 0 0 None None clk true.

Definition kernel_reachable (st : RouterState) : Prop :=
  exists cfg store clk, rtc kernel_step (router_init cfg (world_empty store clk)) st.

Lemma kernel_step_ok st st' :
  kernel_step st st' -> kernel_ok (rt_world st) -> kernel_ok (rt_world st').
Proof.
  intros Hs Hok. destruct Hs as [| | | | | |t o s s' e i l Hw|f w e i l Hstep Heq|]; simpl in *.
  - by apply ok_route_message.
  - by apply ok_prune.
  - by apply ok_disconnect.
  - by apply (unregister_if_ok p (fun _ => true)).
  - unfold retry_worker_round. destruct (w_store w); [|done].
    destruct (retry_round _ _ _ _) as [s' pending]. eapply (only_sends_ok any_chan (set_store (Some s') w)); [|done].
    apply only_sends_foldl. intros. apply deliver_sends.
  - apply ok_upd_reg. by apply register_with_device_core.
  - by eapply ok_waker_step.
  - destruct Hok as [Hr Hp Hb]. destruct (Heq (w_reg w)) as [E1 E2].
    split; [exact (reg_step_ok _ _ (Hstep _) Hr)| |done]. intros k p Hk. simpl in *. rewrite E1.
    rewrite E2 in Hk. by eapply Hp.
  - done.
Qed.
End loop.
