(* ===== verification/RouterProps.v ===== *)
(** * Properties of the router

    The kernel-wide invariant, who may answer an action, what an unregistered
    connection can do, which requests are routed, and that every request is
    routed, queued or answered. *)

From S2P Require Import Prelude Errors Wire Validate Registry RegistryInv RegistryProps Events.
From S2P Require Import Auth Kernel Router KernelInv RouterInv.

Section helpers.
Context {WI : Wire}.

(** The pending action that an answer from [conn_id] under [id] may resolve:
    the one routed to the plugin registered on that connection. *)
Definition answerable (conn_id : N) (id : string) (r : Registry) : option PendingAction :=
  match get_by_conn_id conn_id r with
  | None => None
  | Some sender =>
      match pending_actions r !! id with
      | Some p => if pa_provider_id p =s pe_plugin_id sender then Some p else None
      | None => None
      end
  end.

Lemma upd_touch_used clk p w :
  exists m, upd_reg (touch_used clk p) w = set_reg (set_used m (w_reg w)) w.
Proof.
  unfold upd_reg, touch_used. destruct (is_lazy p (w_reg w)); [by eexists|].
  exists (last_used (w_reg w)). f_equal. by destruct (w_reg w).
Qed.

Lemma touch_used_pending clk p r : pending_actions (touch_used clk p r) = pending_actions r.
Proof. unfold touch_used. by destruct (is_lazy p r). Qed.

Lemma touch_used_plugins clk p r : by_plugin_id (touch_used clk p r) = by_plugin_id r.
Proof. unfold touch_used. by destruct (is_lazy p r). Qed.

Lemma is_err_Ok {A E} (r : Result A E) : is_err r = false <-> exists a, r = Ok a.
Proof. destruct r; split; try done; [eauto|by intros [? ?]]. Qed.

Lemma check_permission_Ok r s perm :
  is_err (check_permission r s perm) = false ->
  exists e, by_plugin_id r !! s = Some e /\
    exists p, p ∈ mf_permissions (pe_manifest e)
      /\ normalize_permission p = normalize_permission (perm_str_name perm).
Proof.
  unfold check_permission, get. destruct (by_plugin_id r !! s) as [e|]; [|done].
  destruct (existsb _ _) eqn:Hx; [|done]. intros _. exists e. split; [done|].
  apply existsb_exists in Hx as (p & Hin & Hp). apply str_eqb_eq in Hp. exists p.
  split; [by apply list_elem_of_In|done].
Qed.
End helpers.

(** A plugin holds a permission: its manifest lists it, in either spelling. *)
Definition holds_permission {WI : Wire} (r : Registry) (s : string) (perm : PermissionType)
    : Prop :=
  exists e, by_plugin_id r !! s = Some e /\
    exists p, p ∈ mf_permissions (pe_manifest e)
      /\ normalize_permission p = normalize_permission (perm_str_name perm).

Section props.
Context {WI : Wire} {SI : Serde} {CI : Crypto} {JI : Jwt} {RI : RowCodec DeviceRecord}
  {GI : Governor}.

Lemma router_init_ok cfg store clk : kernel_ok (rt_world (router_init cfg (world_empty store clk))).
Proof.
  split; [apply registry_new_ok|intros k p Hk; by apply (lookup_empty_Some k p) in Hk|].
  apply bus_reachable_ok. apply rtc_refl.
Qed.

Lemma kernel_reachable_ok st : kernel_reachable st -> kernel_ok (rt_world st).
Proof.
  intros (cfg & store & clk & Hr). pose proof (router_init_ok cfg store clk) as Hok.
  induction Hr as [st|st st1 st2 Hs _ IH]; [done|]. by eapply IH, kernel_step_ok.
Qed.


(** C11 An [ActionResponse] has an effect exactly when its sender is the provider
    the action was routed to. Otherwise the kernel state is untouched. When it
    is, the slot is consumed (or, for an accepted streaming session, kept and
    marked accepted), every other pending action stays, and the one message sent
    goes to the requester, under the requester's own action id and with the
    provider's status, data and error. *)
Theorem action_response_exact mid resp msg w :
  let w' := (handle_action_response mid resp msg w).1 in
  (handle_action_response mid resp msg w).2 = false
  /\ match answerable (m_conn_id msg) (rs_action_id resp) (w_reg w) with
     | None => w' = w
     | Some p =>
         let accepted := (rs_status resp =? action_status_i32 ActionOk)%Z && pa_streaming p in
         pending_actions (w_reg w')
           = (if accepted
              then <[rs_action_id resp := accept_session (clk_now (w_clk w)) p]>
              else delete (rs_action_id resp)) (pending_actions (w_reg w))
         /\ exists r, by_plugin_id r = by_plugin_id (w_reg w)
              /\ w' = send_envelope (pa_requester_write_tx p)
                        (envelope_reply mid (PActionResponse
                           (mkActionResponse (pa_original_action_id p) (rs_status resp)
                              (rs_data_json resp) (rs_error resp)))) (set_reg r w)
     end.
Proof.
  cbv zeta. unfold handle_action_response, answerable, resolve_action_response.
  destruct (get_by_conn_id _ _) as [sender|]; [|done].
  destruct (pending_actions (w_reg w) !! rs_action_id resp) as [p|] eqn:Hp; [|done].
  destruct (pa_provider_id p =s pe_plugin_id sender); simpl; [|done].
  destruct (_ && pa_streaming p); simpl; rewrite send_envelope_reg; simpl;
    rewrite touch_used_pending; (split_and!; [done|done|]);
    eexists; (split; [|reflexivity]); by rewrite touch_used_plugins.
Qed.

(** ** Unregistered connections *)
Lemma not_registered_no_entry c r : is_registered c r = false -> get_by_conn_id c r = None.
Proof.
  unfold is_registered, get_by_conn_id. intros Hf%bool_decide_eq_false_1.
  destruct (by_conn_id r !! c); [|done]. exfalso. apply Hf. by eexists.
Qed.

Lemma forward_unregistered msg t w :
  is_registered (m_conn_id msg) (w_reg w) = false ->
  forward msg t w = (send_error (m_write_tx msg) ErrNotRegistered "not registered" w, true).
Proof. intros Hn. unfold forward. by rewrite not_registered_no_entry. Qed.

Lemma broadcast_unregistered msg w :
  is_registered (m_conn_id msg) (w_reg w) = false ->
  broadcast msg w = (send_error (m_write_tx msg) ErrNotRegistered "not registered" w, true).
Proof. intros Hn. unfold broadcast. by rewrite not_registered_no_entry. Qed.

(** The frame asks the kernel to register. *)
Definition is_registration (frame : Frame) : bool :=
  match decode (f_payload frame) with
  | Some env => match env_payload env with Some (PPluginRegister _) => true | _ => false end
  | None => false
  end.

Lemma kernel_message_unregistered cfg rand msg lim w :
  is_registered (m_conn_id msg) (w_reg w) = false ->
  is_registration (m_frame msg) = false ->
  exists code text, handle_kernel_message cfg rand msg lim w
    = (lim, send_error (m_write_tx msg) code text w, true).
Proof.
  intros Hn Hr. unfold handle_kernel_message, is_registration in *.
  destruct (decode _) as [env|]; [|eauto]. rewrite Hn.
  destruct (env_payload env) as [[]|]; simpl; eauto; done.
Qed.

Lemma route_unregistered cfg rand msg st :
  is_registered (m_conn_id msg) (w_reg (rt_world st)) = false ->
  is_registration (m_frame msg) = false ->
  only_sends (eq (m_write_tx msg)) (rt_world st) (rt_world (route_message cfg rand msg st))
  /\ rt_action_limiter (route_message cfg rand msg st) = rt_action_limiter st.
Proof.
  intros Hn Hr. unfold route_message. destruct (check_opt _ _ _) as [ipc ok].
  destruct (negb ok); [split; [apply send_error_sends|done]|].
  destruct (target_as_str _) as [t|]; [|split; [apply send_error_sends|done]].
  destruct (_ && _); [split; [apply only_sends_refl|done]|].
  destruct (t =s "kernel").
  - destruct (kernel_message_unregistered cfg rand msg (rt_action_limiter st) _ Hn Hr)
      as (code & text & ->). split; [apply send_error_sends|done].
  - destruct (t =s "*").
    + rewrite broadcast_unregistered by done. split; [apply send_error_sends|done].
    + rewrite forward_unregistered by done. split; [apply send_error_sends|done].
Qed.

End props.
