(* ===== verification/Broker.v ===== *)
(** * An abstract call broker, and the kernel as its refinement

    What the registry, the router and the tasks around them promise about calls,
    without queues, gates, deadlines or wire messages: a set of live participants
    and a table of open calls. Every step of the kernel is at most one broker step,
    by the actor that caused it. *)

From S2P Require Import Prelude Errors Wire Validate Registry RegistryInv RegistryProps Events.
From S2P Require Import Auth Kernel Lazy Router KernelInv RouterInv RouterProps.

(** ** The specification *)
Record Call := mkCall {
  ca_caller : string;
  ca_reply_to : N;
  ca_action_id : string;
  ca_provider : string
}.

#[export] Instance call_eq_dec : EqDecision Call.
Proof. solve_decision. Defined.

Record Broker := mkBroker { bk_live : gset string; bk_calls : gmap string Call }.

Definition broker_empty : Broker := mkBroker ∅ ∅.

(** Who acts: a registered participant, a connection that is none, the prune tick,
    the kernel's own tasks *)
Inductive Actor := Peer (id : string) | Stranger | Clock | Kernel.

(** The calls to anybody but [p] *)
Definition without (p : string) (m : gmap string Call) : gmap string Call :=
  base.filter (fun kc => ca_provider kc.2 <> p) m.

(** A participant opens calls in its own name and ends only calls it is a party of;
    a call that cannot be handed over frees the id [next] it was given; the clock
    ends calls; whoever leaves takes all calls to it along, and a message can make
    only a participant leave, or hand its id to a new holder, that is [dead]
    already. *)
Inductive broker_step (dead : string -> Prop) (next : string) : Actor -> Broker -> Broker -> Prop :=
| bk_open s k c b :
    ca_caller c = s -> ca_provider c ∈ bk_live b ->
    broker_step dead next (Peer s) b (mkBroker (bk_live b) (<[k := c]> (bk_calls b)))
| bk_unsent s b :
    broker_step dead next (Peer s) b (mkBroker (bk_live b) (delete next (bk_calls b)))
| bk_finish s k c b :
    bk_calls b !! k = Some c -> s = ca_provider c \/ s = ca_caller c ->
    broker_step dead next (Peer s) b (mkBroker (bk_live b) (delete k (bk_calls b)))
| bk_expire (keep : string -> bool) b :
    broker_step dead next Clock b
      (mkBroker (bk_live b) (base.filter (fun kc => keep kc.1 = true) (bk_calls b)))
| bk_join a p b :
    a <> Clock -> p ∉ bk_live b ->
    broker_step dead next a b (mkBroker ({[p]} ∪ bk_live b) (bk_calls b))
| bk_leave a p b :
    p ∈ bk_live b -> a = Kernel \/ a <> Clock /\ dead p ->
    broker_step dead next a b (mkBroker (bk_live b ∖ {[p]}) (without p (bk_calls b)))
| bk_replace a p b :
    p ∈ bk_live b -> a <> Clock -> dead p ->
    broker_step dead next a b (mkBroker (bk_live b) (without p (bk_calls b))).

(** No call is open to somebody who has left. *)
Definition broker_ok (b : Broker) : Prop :=
  forall k c, bk_calls b !! k = Some c -> ca_provider c ∈ bk_live b.

Lemma broker_step_ok dead next a b b' : broker_step dead next a b b' -> broker_ok b -> broker_ok b'.
Proof.
  unfold broker_ok, without. intros Hs Hok. destruct Hs; simpl; intros k' c'.
  - intros [[_ <-]|[_ ?]]%lookup_insert_Some; eauto.
  - intros [_ ?]%lookup_delete_Some; eauto.
  - intros [_ ?]%lookup_delete_Some; eauto.
  - intros [? _]%map_lookup_filter_Some; eauto.
  - intros ?%Hok. set_solver.
  - intros [Hk Hne]%map_lookup_filter_Some. apply Hok in Hk. set_solver.
  - intros [Hk _]%map_lookup_filter_Some. eauto.
Qed.

(** What can happen to one open call in a step: it stays, a party of it ended it,
    the clock did, its provider left, or the actor put a call of its own in the
    slot. *)
Definition touched_by (dead : string -> Prop) (a : Actor) (c : Call) (now : option Call) : Prop :=
  match a with
  | Peer s => s = ca_provider c \/ s = ca_caller c \/ dead (ca_provider c)
              \/ exists c', now = Some c' /\ ca_caller c' = s
  | Stranger => dead (ca_provider c)
  | Clock | Kernel => True
  end.

Lemma without_lookup p m k c :
  m !! k = Some c -> ca_provider c <> p -> without p m !! k = Some c.
Proof. intros. by apply map_lookup_filter_Some. Qed.

Lemma broker_step_call dead next a b b' k c :
  broker_step dead next a b b' -> k <> next -> bk_calls b !! k = Some c -> bk_calls b' !! k <> Some c ->
  touched_by dead a c (bk_calls b' !! k).
Proof.
  intros Hs Hne Hk Hn. destruct Hs as [s k' c' b Hc Hp|s b|s k' c' b Hk' Hs|keep b|a p b Ha Hp|a p b Hp Ha|a p b Hp Ha Hd];
    simpl in *.
  - destruct (decide (k' = k)) as [->|]; [|by rewrite lookup_insert_ne in Hn].
    rewrite lookup_insert_eq. eauto 10.
  - by rewrite lookup_delete_ne in Hn.
  - destruct (decide (k' = k)) as [->|]; [|by rewrite lookup_delete_ne in Hn].
    assert (c' = c) as -> by congruence. destruct Hs; auto.
  - done.
  - done.
  - destruct (decide (ca_provider c = p)) as [<-|]; [|by rewrite (without_lookup p _ _ c) in Hn].
    destruct Ha as [->|[Ha Hd]]; [done|]. destruct a; simpl; auto.
  - destruct (decide (ca_provider c = p)) as [<-|]; [|by rewrite (without_lookup p _ _ c) in Hn].
    destruct a; simpl; auto.
Qed.

(** ** The state of the kernel as a broker *)
Definition call_of (p : PendingAction) : Call :=
  mkCall (pa_requester_id p) (pa_requester_write_tx p) (pa_original_action_id p) (pa_provider_id p).

Definition broker_of (r : Registry) : Broker :=
  mkBroker (dom (by_plugin_id r)) (call_of <$> pending_actions r).

(** The participant's channel is closed. *)
Definition channel_closed (w : World) (p : string) : Prop :=
  exists e, by_plugin_id (w_reg w) !! p = Some e /\ is_closed (pe_write_tx e) (w_chans w) = true.

Definition sender (c : N) (r : Registry) : Actor :=
  match get_by_conn_id c r with Some e => Peer (pe_plugin_id e) | None => Stranger end.

Definition same_calls (r r' : Registry) : Prop :=
  by_plugin_id r' = by_plugin_id r /\ call_of <$> pending_actions r' = call_of <$> pending_actions r.

Lemma same_broker r r' : same_calls r r' -> broker_of r' = broker_of r.
Proof. intros [H1 H2]. unfold broker_of. by rewrite H1, H2. Qed.

Section moves.
Context (dead : string -> Prop) (next : string) (a : Actor).

(** Nothing a broker sees, or one step of it *)
Definition moves (r r' : Registry) : Prop :=
  broker_of r' = broker_of r \/ broker_step dead next a (broker_of r) (broker_of r').

Lemma moves_refl r : moves r r.
Proof. by left. Qed.

Lemma moves_same r r' : same_calls r r' -> moves r r'.
Proof. left. by apply same_broker. Qed.

Lemma moves_eq r r' : r' = r -> moves r r'.
Proof. intros ->. by left. Qed.

Lemma moves_then r r1 r2 : moves r r1 -> same_calls r1 r2 -> moves r r2.
Proof. unfold moves. by intros H1 ->%same_broker. Qed.

Lemma moves_after r r1 r2 : same_calls r r1 -> moves r1 r2 -> moves r r2.
Proof. unfold moves. by intros ->%same_broker H2. Qed.
End moves.

Lemma same_refl r : same_calls r r.
Proof. done. Qed.

Lemma same_trans r1 r2 r3 : same_calls r1 r2 -> same_calls r2 r3 -> same_calls r1 r3.
Proof. intros [H1 H2] [H3 H4]. split; congruence. Qed.

Lemma same_touch_used clk p r : same_calls r (touch_used clk p r).
Proof. split; [apply touch_used_plugins|by rewrite touch_used_pending]. Qed.

Lemma same_touch_pending clk k r : same_calls r (touch_pending_action clk k r).
Proof.
  split; [done|]. apply map_eq. intros k'. simpl. rewrite !lookup_fmap, lookup_alter.
  case_decide; [subst|done]. by destruct (_ !! _).
Qed.

Lemma same_gate_passes p addr r : same_calls r (lazy_gate_passes p addr r).1.
Proof. unfold lazy_gate_passes. by repeat case_match. Qed.
