(* ===== verification/BrokerProps.v ===== *)
(** * The kernel refines the call broker

    One lemma per handler: what it does to the registry is at most one broker
    step by the sender of the message; then the tasks, the whole kernel and what
    follows for a single call. *)

From S2P Require Import Prelude Errors Wire Validate Registry RegistryInv RegistryProps Events.
From S2P Require Import Auth Kernel Lazy Router KernelInv RouterInv RouterProps Broker.

#[local] Hint Resolve moves_refl same_refl same_touch_used same_touch_pending : vyn.

(** ** Operations of the registry *)
(** The calls left by a sweep of the clock *)
Definition expire (keep : string -> bool) (b : Broker) : Broker :=
  mkBroker (bk_live b) (base.filter (fun kc => keep kc.1 = true) (bk_calls b)).

Lemma broker_bulk sel r :
  exists keep, broker_of (take_keys (pending_keys sel r) r).1 = expire keep (broker_of r).
Proof.
  destruct (take_keys _ r) as [r' l] eqn:Ht. apply bulk_take_spec in Ht as (-> & _). simpl.
  exists (fun k => match pending_actions r !! k with Some p => negb (sel p) | None => true end).
  unfold broker_of, expire. simpl. f_equal. apply map_eq. intros k. apply option_eq. intros c.
  rewrite map_lookup_filter_Some, !lookup_fmap, !fmap_Some. setoid_rewrite map_lookup_filter_Some.
  simpl. split.
  - intros (p & [Hk Hs] & ->). rewrite Hk, Hs. eauto.
  - intros [(p & Hk & ->) Hs]. rewrite Hk in Hs. apply negb_true_iff in Hs. eauto.
Qed.

Lemma expire_expire f g b : expire f (expire g b) = expire (fun k => f k && g k) b.
Proof.
  unfold expire. simpl. f_equal. apply map_eq. intros k. apply option_eq. intros c.
  rewrite !map_lookup_filter_Some. simpl. rewrite andb_true_iff. tauto.
Qed.

Section registry_ops.
Context (dead : string -> Prop) (next : string).

Lemma moves_open s k p r :
  pa_requester_id p = s -> is_Some (by_plugin_id r !! pa_provider_id p) ->
  moves dead next (Peer s) r (register_pending_action k p r).
Proof.
  intros Hs Hp. right.
  assert (broker_of (register_pending_action k p r)
    = mkBroker (bk_live (broker_of r)) (<[k := call_of p]> (bk_calls (broker_of r)))) as ->.
  { unfold broker_of. simpl. by rewrite fmap_insert. }
  apply bk_open; [done|]. simpl. by apply elem_of_dom.
Qed.

Lemma broker_take k r :
  broker_of (take_pending_action k r).1
  = mkBroker (bk_live (broker_of r)) (delete k (bk_calls (broker_of r))).
Proof.
  unfold take_pending_action, broker_of. destruct (pending_actions r !! k) eqn:Hk; simpl.
  - by rewrite fmap_delete.
  - f_equal. rewrite delete_id; [done|]. by rewrite lookup_fmap, Hk.
Qed.

(** Ending a call of which the sender is a party; nothing, where there is none *)
Lemma moves_take s k r :
  (forall p, pending_actions r !! k = Some p -> s = pa_provider_id p \/ s = pa_requester_id p) ->
  moves dead next (Peer s) r (take_pending_action k r).1.
Proof.
  intros Hs. unfold moves. rewrite broker_take. destruct (pending_actions r !! k) as [p|] eqn:Hk.
  - right. eapply (bk_finish _ _ s k (call_of p)).
    + simpl. by rewrite lookup_fmap, Hk.
    + simpl. by apply Hs.
  - left. rewrite delete_id; [done|]. simpl. by rewrite lookup_fmap, Hk.
Qed.

(** Joining under an id nobody holds *)
Definition joins (p : string) (r r' : Registry) : Prop :=
  r' = r \/ by_plugin_id r !! p = None /\ broker_of r' = mkBroker ({[p]} ∪ bk_live (broker_of r)) (bk_calls (broker_of r)).

Lemma moves_joins a p r r' : a <> Clock -> joins p r r' -> moves dead next a r r'.
Proof.
  intros Ha [->|[Hn E]]; [by left|]. right. rewrite E. apply bk_join; [done|]. simpl. by apply not_elem_of_dom.
Qed.

Lemma joins_insert clk e meta caps r :
  by_plugin_id r !! pe_plugin_id e = None -> joins (pe_plugin_id e) r (insert_entry clk e meta caps r).
Proof.
  intros Hn. right. split; [done|]. destruct (insert_entry_fields clk e meta caps r) as (Hp & _ & Hq & _).
  unfold broker_of. rewrite Hp, Hq, dom_insert_L. done.
Qed.

Lemma joins_register_with clk p c mf tx meta r :
  joins p r (register_with_device clk p c mf tx meta r).1.
Proof.
  destruct (register_with_device _ _ _ _ _ _ _) as [r' res] eqn:Hr.
  apply register_with_device_cases in Hr as [(? & _ & ->)|(_ & _ & _ & _ & Hn & ->)]; [by left|].
  by apply joins_insert.
Qed.

Lemma joins_register_device clk d c caps mf tx meta r :
  joins d r (register_device clk d c caps mf tx meta r).1.
Proof.
  destruct (register_device _ _ _ _ _ _ _ _) as [r' res] eqn:Hr.
  apply register_device_cases in Hr as [(? & _ & ->)|(_ & _ & _ & _ & Hn & ->)]; [by left|].
  by apply joins_insert.
Qed.
End registry_ops.

(** ** Removal *)
Section removal.
Context `{Wire} (dead : string -> Prop) (next : string).

(** Leaving, with all calls to the one who leaves *)
Lemma broker_unregister_if p pred w :
  w_reg (unregister_if p pred w).1 = w_reg w
  \/ exists e, by_plugin_id (w_reg w) !! p = Some e /\ pred e = true
     /\ by_plugin_id (w_reg (unregister_if p pred w).1) !! p = None
     /\ broker_of (w_reg (unregister_if p pred w).1)
        = mkBroker (bk_live (broker_of (w_reg w)) ∖ {[p]}) (without p (bk_calls (broker_of (w_reg w)))).
Proof.
  unfold unregister_if. destruct (unregister_core p pred (w_reg w)) as [r b] eqn:Hu.
  apply unregister_core_cases in Hu as [(-> & -> & _)|(e & -> & He & Hpe & Hbp & _ & Hpend & _)]; [by left|].
  right. exists e. destruct (fail_pending_reg p (set_reg r w)) as [H1 _]. cbn [fst]. rewrite H1. cbn [w_reg set_reg].
  unfold take_pending_actions_for_provider. destruct (take_keys _ r) as [r' l] eqn:Ht.
  apply bulk_take_spec in Ht as (-> & _). cbn [fst].
  split_and!; [done..|simpl; by rewrite Hbp, lookup_delete_eq|].
  unfold broker_of, without. simpl. rewrite Hbp, Hpend, dom_delete_L. f_equal. apply map_eq. intros k. apply option_eq.
  intros c. rewrite map_lookup_filter_Some, !lookup_fmap, !fmap_Some. setoid_rewrite map_lookup_filter_Some. simpl.
  split; [intros (q & [Hk Hs] & ->)|intros [(q & Hk & ->) Hs]].
  - apply str_eqb_neq in Hs. eauto.
  - exists q. split_and!; [done| |done]. by apply str_eqb_neq.
Qed.

Lemma moves_unregister_if p pred w : moves dead next Kernel (w_reg w) (w_reg (unregister_if p pred w).1).
Proof.
  destruct (broker_unregister_if p pred w) as [E|(e & He & _ & _ & E)]; [by apply moves_eq|].
  right. rewrite E. apply bk_leave; [simpl; by apply elem_of_dom_2 in He|by left].
Qed.

Lemma abort_reg k reason w : w_reg (abort_stream k reason w) = (take_pending_action k (w_reg w)).1.
Proof.
  unfold abort_stream, take_pending_action. destruct (pending_actions (w_reg w) !! k); [|done].
  by rewrite (only_sends_reg _ _ _ (notify_forced_termination_sends _ _ _ _)).
Qed.

Lemma moves_abort s k reason w :
  (forall p, pending_actions (w_reg w) !! k = Some p -> s = pa_provider_id p \/ s = pa_requester_id p) ->
  moves dead next (Peer s) (w_reg w) (w_reg (abort_stream k reason w)).
Proof. rewrite abort_reg. apply moves_take. Qed.
End removal.

(** ** Handlers *)
Section handlers.
Context {WI : Wire} {SI : Serde} {CI : Crypto} {JI : Jwt} {RI : RowCodec DeviceRecord}
  {GI : Governor}.
Context (dead : string -> Prop) (next : string).

Lemma try_reg tx env w : w_reg (try_send_envelope tx env w).1 = w_reg w.
Proof. apply (only_sends_reg (eq tx)), try_send_envelope_sends. Qed.

Lemma error_reg tx code m w : w_reg (send_error tx code m w) = w_reg w.
Proof. apply send_envelope_reg. Qed.

Lemma reject_reg tx m w : w_reg (send_register_reject tx m w) = w_reg w.
Proof. apply send_envelope_reg. Qed.

Lemma moves_relay nid s cfg msg mid req w w' b :
  kernel_ok w -> nid = (next_internal_id w).2 -> relay_action_to_host cfg msg mid req s w = (w', b) ->
  moves dead nid (Peer s) (w_reg w) (w_reg w').
Proof.
  intros Hok Hn Hr. unfold relay_action_to_host in Hr. destruct (_ || _); [simplify_eq; apply moves_refl|].
  destruct (get_by_conn_id _ _) as [host|] eqn:Hh; [|simplify_eq; apply moves_refl].
  apply conn_entry_live in Hh as [Hh _]; [|apply Hok]. cbn [next_internal_id snd] in *.
  match type of Hr with context [try_send_envelope ?tx ?env ?w1] =>
    pose proof (try_reg tx env w1) as Hsame; destruct (try_send_envelope tx env w1) as [w2 [|]] end;
    cbn [fst] in Hsame; simplify_eq/=.
  - rewrite Hsame. apply moves_open; [done|by eexists].
  - right. rewrite broker_take, Hsame. unfold broker_of. simpl.
    rewrite fmap_insert, delete_insert_eq. apply (bk_unsent _ _ _ (broker_of (w_reg w))).
Qed.

Lemma moves_route_action nid s cfg msg mid req c e w :
  is_Some (by_plugin_id (w_reg w) !! pe_plugin_id e) ->
  moves dead nid (Peer s) (w_reg w) (w_reg (route_action cfg msg mid req s c e w)).
Proof.
  intros He. unfold route_action. cbn [next_internal_id]. eapply moves_then; [|apply same_touch_used].
  rewrite send_envelope_reg. by apply moves_open.
Qed.

Lemma moves_dispatch nid s cfg msg mid req c d l lim w lim' w' rf :
  kernel_ok w -> nid = (next_internal_id w).2 ->
  (forall e, l = Found e -> is_Some (by_plugin_id (w_reg w) !! pe_plugin_id e)) ->
  dispatch_action cfg msg mid req s c d l lim w = (lim', w', rf) ->
  moves dead nid (Peer s) (w_reg w) (w_reg w').
Proof.
  intros Hok Hn Hl Hd. unfold dispatch_action in Hd. destruct d; [simplify_eq; apply moves_refl|].
  destruct l as [|e|ids|id].
  - destruct (relay_action_to_host _ _ _ _ _ _) as [w1 [|]] eqn:Hr; simplify_eq; by eapply moves_relay.
  - destruct (permission_blocked _ _ _ _ _); [simplify_eq; apply moves_refl|].
    destruct (over_concurrency _ _ _ _); [simplify_eq; apply moves_refl|].
    destruct (check_opt _ _ _) as [lim1 [|]]; simplify_eq/=; [|apply moves_refl].
    apply moves_route_action; eauto.
  - simplify_eq. apply moves_refl.
  - destruct (permission_blocked _ _ _ _ _); [simplify_eq; apply moves_refl|].
    destruct (over_concurrency _ _ _ _); [simplify_eq; apply moves_refl|].
    destruct (check_opt _ _ _) as [lim1 [|]]; simplify_eq/=; [|apply moves_refl].
    unfold wake_try_send in Hd. destruct (w_lazy w); [|simplify_eq; apply moves_refl].
    destruct (_ || _); simplify_eq; apply moves_refl.
Qed.

Lemma sender_peer c r e : get_by_conn_id c r = Some e -> sender c r = Peer (pe_plugin_id e) /\ sender_of c r = pe_plugin_id e.
Proof. unfold sender, sender_of. by intros ->. Qed.

Lemma moves_action_request nid cfg mid req msg lim w e :
  kernel_ok w -> nid = (next_internal_id w).2 -> get_by_conn_id (m_conn_id msg) (w_reg w) = Some e ->
  moves dead nid (Peer (pe_plugin_id e)) (w_reg w) (w_reg (handle_action_request cfg mid req msg lim w).1.2).
Proof.
  intros Hok Hn He. unfold handle_action_request. rewrite (proj2 (sender_peer _ _ _ He)).
  destruct (gated_lookup _ _ _) as [r l] eqn:Hg.
  destruct (gated_lookup_spec _ _ _ _ _ _ Hok Hg) as (Hr & Hbp & Hl).
  assert (same_calls (w_reg w) r) as Hsame.
  { unfold gated_lookup in Hg. destruct (find_action_provider _ _) as [|p| |]; simplify_eq; try apply same_refl.
    pose proof (same_gate_passes (pe_plugin_id p) (m_addr msg) (w_reg w)) as Hs.
    destruct (lazy_gate_passes _ _ _). by simplify_eq. }
  destruct (dispatch_action _ _ _ _ _ _ _ _ _ _) as [[lim1 w1] rf] eqn:Hd.
  apply (moves_dispatch nid) in Hd; [|done|done|].
  - eapply moves_after; [done|]. destruct rf; cbn [fst snd]; [by rewrite send_envelope_reg|done].
  - intros e' He'. simpl. rewrite Hbp. eexists. by apply Hl.
Qed.

Lemma moves_action_response mid resp msg w e :
  get_by_conn_id (m_conn_id msg) (w_reg w) = Some e ->
  moves dead next (Peer (pe_plugin_id e)) (w_reg w) (w_reg (handle_action_response mid resp msg w).1).
Proof.
  intros He. unfold handle_action_response. rewrite He. unfold resolve_action_response.
  destruct (pending_actions (w_reg w) !! rs_action_id resp) as [p|] eqn:Hp; [|apply moves_refl].
  destruct (pa_provider_id p =s pe_plugin_id e) eqn:Hs; simpl; [|apply moves_refl].
  apply str_eqb_eq in Hs. destruct (_ && _); cbn [fst]; rewrite send_envelope_reg;
    (eapply moves_then; [|apply same_touch_used]); cbn [w_reg set_reg].
  - apply moves_same. split; [done|]. simpl. rewrite fmap_insert, insert_id; [done|].
    by rewrite lookup_fmap, Hp.
  - pose proof (moves_take dead next (pe_plugin_id e) (rs_action_id resp) (w_reg w)) as Ht.
    unfold take_pending_action in Ht. rewrite Hp in Ht. apply Ht. intros ? [= <-]. by left.
Qed.

Lemma find_pending_requester s a r k p :
  find_pending_internal_id s a r = Some k -> pending_actions r !! k = Some p -> pa_requester_id p = s.
Proof.
  unfold find_pending_internal_id. destruct (base.filter _ _) as [|kp l] eqn:Hf; [done|].
  intros [= <-] Hp. assert (kp ∈ kp :: l) as Hin by left. rewrite <- Hf in Hin.
  apply list_elem_of_filter in Hin as [[<- _] Hin]. destruct kp as [k q].
  apply elem_of_map_to_list in Hin. simpl in *. congruence.
Qed.

(** The chunk paths: refresh the slot, send, and end the call when that fails *)
Lemma moves_touch_abort s clk k tx env reason w :
  (forall p, pending_actions (w_reg w) !! k = Some p -> s = pa_provider_id p \/ s = pa_requester_id p) ->
  moves dead next (Peer s) (w_reg w)
    (w_reg (match try_send_envelope tx env (upd_reg (touch_pending_action clk k) w) with
            | (w, true) => (w, false)
            | (w, false) => (abort_stream k reason w, false)
            end).1)
  /\ moves dead next (Peer s) (w_reg w)
       (w_reg (abort_stream k reason (upd_reg (touch_pending_action clk k) w))).
Proof.
  intros Hs. set (w1 := upd_reg _ w).
  assert (forall w2, w_reg w2 = w_reg w1 ->
    moves dead next (Peer s) (w_reg w) (w_reg (abort_stream k reason w2))) as Ha.
  { intros w2 E. eapply (moves_after _ _ _ _ (w_reg w1)); [apply same_touch_pending|]. rewrite <- E. apply moves_abort. rewrite E. simpl.
    rewrite lookup_alter_eq. intros p (q & Hq & ->)%fmap_Some. exact (Hs q Hq). }
  split; [|by apply Ha]. pose proof (try_reg tx env w1) as Ht.
  destruct (try_send_envelope tx env w1) as [w2 [|]]; cbn [fst] in *; [|by apply Ha].
  rewrite Ht. apply moves_same, same_touch_pending.
Qed.

Lemma moves_request_chunk mid a s c f msg w e :
  get_by_conn_id (m_conn_id msg) (w_reg w) = Some e ->
  moves dead next (Peer (pe_plugin_id e)) (w_reg w) (w_reg (handle_request_chunk mid a s c f msg w).1).
Proof.
  intros He. unfold handle_request_chunk. rewrite (proj2 (sender_peer _ _ _ He)).
  destruct (find_pending_internal_id _ _ _) as [k|] eqn:Hf; [|apply moves_refl].
  destruct (get_pending_action k _) as [p|] eqn:Hp; [|apply moves_refl].
  assert (forall q, pending_actions (w_reg w) !! k = Some q ->
    pe_plugin_id e = pa_provider_id q \/ pe_plugin_id e = pa_requester_id q) as Hs.
  { intros q Hq. right. symmetry. by eapply find_pending_requester. }
  destruct (get _ _); [by apply moves_touch_abort|].
  by apply (moves_touch_abort _ _ _ 0 (envelope_of (PPing 0))).
Qed.

Lemma moves_response_chunk mid a s c msg w e :
  get_by_conn_id (m_conn_id msg) (w_reg w) = Some e ->
  moves dead next (Peer (pe_plugin_id e)) (w_reg w) (w_reg (handle_response_chunk mid a s c msg w).1).
Proof.
  intros He. unfold handle_response_chunk. rewrite He.
  destruct (get_pending_action a _) as [p|] eqn:Hp; [|apply moves_refl].
  destruct (_ =s _) eqn:Hs; [|apply moves_refl]. apply str_eqb_eq in Hs.
  apply moves_touch_abort. unfold get_pending_action in Hp. intros q Hq. left. congruence.
Qed.

Lemma resolve_session_party s a r k p b :
  resolve_session s a r = Some (k, p, b) ->
  pending_actions r !! k = Some p /\ (s = pa_provider_id p \/ s = pa_requester_id p).
Proof.
  unfold resolve_session, get_pending_action. intros Hr.
  assert (forall o, match find_pending_internal_id s a r with
      | Some i => match pending_actions r !! i with Some q => Some (i, q, false) | None => None end
      | None => None end = o -> o = Some (k, p, b) ->
    pending_actions r !! k = Some p /\ (s = pa_provider_id p \/ s = pa_requester_id p)) as Hreq.
  { intros o <-. destruct (find_pending_internal_id s a r) as [i|] eqn:Hf; [|done].
    destruct (pending_actions r !! i) as [q|] eqn:Hq; [|done]. intros [= <- <- <-].
    split; [done|]. right. symmetry. by eapply find_pending_requester. }
  destruct (pending_actions r !! a) as [q|] eqn:Hq; [|by eapply Hreq].
  destruct (pa_provider_id q =s s) eqn:Hs; [|by eapply Hreq].
  apply str_eqb_eq in Hs. simplify_eq. by split; [|left].
Qed.

Lemma moves_session_close mid a reason msg w e :
  get_by_conn_id (m_conn_id msg) (w_reg w) = Some e ->
  moves dead next (Peer (pe_plugin_id e)) (w_reg w) (w_reg (handle_session_close mid a reason msg w).1).
Proof.
  intros He. unfold handle_session_close. rewrite He.
  destruct (resolve_session _ _ _) as [[[k p] fp]|] eqn:Hr; [|by apply moves_eq, error_reg].
  apply resolve_session_party in Hr as [Hk Hs].
  destruct (negb _); [by apply moves_eq, error_reg|]. cbn [fst].
  set (w1 := if fp then _ else _).
  assert (w_reg w1 = w_reg w) as E.
  { unfold w1. destruct fp; [apply try_reg|]. destruct (get _ _); [apply try_reg|done]. }
  simpl. rewrite E. apply moves_take. intros q Hq. simplify_eq. done.
Qed.

Lemma forward_pending_moves msg t s te w :
  is_Some (by_plugin_id (w_reg w) !! pe_plugin_id te) ->
  moves dead next (Peer s) (w_reg w) (w_reg (forward_pending msg t s te w)).
Proof.
  intros Hte. unfold forward_pending. repeat case_match; try apply moves_refl.
  by apply moves_open.
Qed.

Lemma moves_forward msg t w :
  kernel_ok w -> moves dead next (sender (m_conn_id msg) (w_reg w)) (w_reg w) (w_reg (forward msg t w).1).
Proof.
  intros Hok. unfold forward, sender.
  destruct (get_by_conn_id _ _) as [e|]; [|by apply moves_eq, error_reg].
  destruct (is_err _); [by apply moves_eq, error_reg|].
  destruct (get _ _) as [se|]; [|by apply moves_eq, error_reg].
  destruct (match get_mux t (w_reg w) with Some _ => _ | None => _ end); [by apply moves_eq, error_reg|].
  destruct (negb _); [by apply moves_eq, error_reg|].
  destruct (audio_blocked _ _ _); [by apply moves_eq, error_reg|].
  destruct (get_mux t (w_reg w)) as [te|] eqn:Hm.
  - apply forward_pending_moves. eexists. eapply get_mux_live; [apply Hok|done].
  - destruct (w_bridge w) as [conns|]; [|by apply moves_eq, error_reg].
    unfold relay_to_host. destruct conns; [by apply moves_eq, error_reg|].
    destruct (try_send _ _ _) as [cs r]. case_bool_decide; [apply moves_refl|]. apply moves_eq. simpl. by rewrite error_reg.
Qed.

Lemma broadcast_reg msg w : w_reg (broadcast msg w).1 = w_reg w.
Proof.
  unfold broadcast. destruct (get_by_conn_id _ _) as [e|]; [|apply error_reg].
  destruct (is_err _); [apply error_reg|]. destruct (audio_blocked _ _ _); [apply error_reg|].
  apply (only_sends_reg any_chan), only_sends_foldl. intros w1 a _.
  unfold broadcast_to. destruct (_ =? _)%N; [apply only_sends_refl|].
  destruct (is_err _); [apply only_sends_refl|]. eapply to_any, only_sends_chans, try_send_grows.
Qed.

End handlers.

Section loop.
Context {WI : Wire} {SI : Serde} {CI : Crypto} {JI : Jwt} {RI : RowCodec DeviceRecord}
  {GI : Governor}.

(** Registration: the previous holder of the id leaves when its channel is closed,
    then the id joins. *)
Lemma evict_stale_broker id w :
  w_reg (evict_stale id w) = w_reg w
  \/ channel_closed w id /\ by_plugin_id (w_reg (evict_stale id w)) !! id = None
     /\ broker_of (w_reg (evict_stale id w))
        = mkBroker (bk_live (broker_of (w_reg w)) ∖ {[id]}) (without id (bk_calls (broker_of (w_reg w)))).
Proof.
  unfold evict_stale. destruct (get id _) as [e|]; [|by left].
  destruct (is_closed _ _); [|by left]. unfold unregister_if_dead.
  destruct (broker_unregister_if id (fun e => is_closed (pe_write_tx e) (w_chans w)) w)
    as [E|(e' & He & Hc & Hn & E)]; destruct (unregister_if _ _ _) as [w1 [|]];
    cbn [fst] in *; rewrite ?publish_reg; cbn [w_reg set_bus].
  1,2: by left.
  all: right; split_and!; [by exists e'|done..].
Qed.

Lemma do_register_joins reg mf msg w :
  joins (if is_mux_device reg then pr_device_id reg else pr_plugin_id reg)
    (w_reg w) (w_reg (do_register reg mf msg w).1).
Proof.
  unfold do_register. destruct (is_mux_device reg).
  - pose proof (joins_register_device (w_clk w) (pr_device_id reg) (m_conn_id msg)
      (pr_capabilities reg) mf (m_write_tx msg) (meta_of reg) (w_reg w)) as Hr.
    by destruct (register_device _ _ _ _ _ _ _ _).
  - pose proof (joins_register_with (w_clk w) (pr_plugin_id reg) (m_conn_id msg)
      mf (m_write_tx msg) (meta_of reg) (w_reg w)) as Hr.
    by destruct (register_with_device _ _ _ _ _ _ _).
Qed.

Lemma moves_evict_join next a id w r' :
  a <> Clock -> joins id (w_reg (evict_stale id w)) r' -> moves (channel_closed w) next a (w_reg w) r'.
Proof.
  intros Ha Hj. destruct (evict_stale_broker id w) as [E|(Hd & Hn & E)].
  - rewrite E in Hj. by eapply moves_joins.
  - right. assert (id ∈ bk_live (broker_of (w_reg w))) as Hin.
    { destruct Hd as (e & He & _). simpl. by apply elem_of_dom_2 in He. }
    destruct Hj as [->|[_ Ej]].
    + rewrite E. apply bk_leave; [done|by right].
    + rewrite Ej, E. simpl. rewrite <- union_difference_singleton_L by done. by apply bk_replace.
Qed.

Lemma finish_reg cfg rand mid msg p ds res w :
  w_reg (finish_register cfg rand mid msg p ds res w) = w_reg w.
Proof.
  unfold finish_register. set (ack := match res with Ok _ => _ | Err _ => _ end).
  destruct (rc_mac_secret cfg), (is_ok res); rewrite ?publish_reg; simpl; by rewrite send_envelope_reg.
Qed.

Lemma moves_register next a cfg rand mid reg msg w :
  a <> Clock -> moves (channel_closed w) next a (w_reg w) (w_reg (handle_register cfg rand mid reg msg w).1).
Proof.
  intros Ha. unfold handle_register. set (v := if str_is_empty _ then _ else _). clearbody v.
  destruct v; [| |by apply moves_eq, error_reg];
    (destruct (authenticate _ _ _ _) as [mf|]; [|by apply moves_eq, reject_reg];
     destruct (device_secret_for _ _ _) as [dsec|]; [|by apply moves_eq, reject_reg];
     pose proof (do_register_joins reg (clamp_permissions cfg (pr_plugin_id reg) mf) msg
       (evict_stale (if is_mux_device reg then pr_device_id reg else pr_plugin_id reg) w)) as Hj;
     destruct (do_register _ _ _ _) as [w1 res]; cbn [fst] in *; rewrite finish_reg;
     by eapply moves_evict_join).
Qed.

Lemma sender_not_clock c r : sender c r <> Clock.
Proof. unfold sender. by destruct (get_by_conn_id c r). Qed.

Lemma registered_entry c r :
  reg_ok r -> is_registered c r = true -> exists e, get_by_conn_id c r = Some e.
Proof.
  intros Hok. unfold is_registered, get_by_conn_id.
  intros [p Hc]%bool_decide_eq_true. rewrite Hc. destruct (ok_conn _ Hok _ _ Hc) as (e & He & _). eauto.
Qed.

Lemma same_record_pong clk p r : same_calls r (record_pong clk p r).
Proof. unfold record_pong. simpl. by destruct (by_plugin_id r !! p). Qed.

Lemma event_publish_reg mid t p msg w : w_reg (handle_event_publish mid t p msg w).1 = w_reg w.
Proof.
  unfold handle_event_publish. destruct (is_err _); simpl; rewrite send_envelope_reg; [done|].
  by rewrite publish_reg.
Qed.

Lemma moves_kernel_message next cfg rand msg lim w :
  kernel_ok w -> next = (next_internal_id w).2 ->
  moves (channel_closed w) next (sender (m_conn_id msg) (w_reg w)) (w_reg w)
    (w_reg (handle_kernel_message cfg rand msg lim w).1.2).
Proof.
  intros Hok Hn. unfold handle_kernel_message. destruct (decode _) as [env|]; [|by apply moves_eq, error_reg].
  destruct (match env_payload env with Some (PPluginRegister _) => true | _ => false end) eqn:Hreg.
  { simpl. destruct (env_payload env) as [[]|]; try done. apply moves_register, sender_not_clock. }
  destruct (is_registered _ _) eqn:Hr; cbn [negb andb]; [|by apply moves_eq, error_reg].
  apply registered_entry in Hr as [e He]; [|apply Hok]. rewrite (proj1 (sender_peer _ _ _ He)).
  destruct (env_payload env) as [[]|]; cbn [fst snd]; try (by apply moves_eq, error_reg).
  - done.
  - by apply moves_eq, send_envelope_reg.
  - unfold handle_pong. rewrite He. apply moves_same, same_record_pong.
  - unfold handle_subscribe. rewrite He. apply moves_refl.
  - unfold handle_unsubscribe. rewrite He. apply moves_refl.
  - unfold handle_event_ack. by destruct (w_store w); apply moves_refl.
  - apply moves_eq, event_publish_reg.
  - by apply moves_action_request.
  - by apply moves_action_response.
  - by apply moves_request_chunk.
  - by apply moves_response_chunk.
  - by apply moves_session_close.
  - by apply moves_eq, send_envelope_reg.
Qed.

Lemma moves_route_message next cfg rand msg st :
  kernel_ok (rt_world st) -> next = (next_internal_id (rt_world st)).2 ->
  moves (channel_closed (rt_world st)) next (sender (m_conn_id msg) (w_reg (rt_world st)))
    (w_reg (rt_world st)) (w_reg (rt_world (route_message cfg rand msg st))).
Proof.
  intros Hok Hn. unfold route_message. destruct (check_opt _ _ _) as [ipc ok].
  destruct (negb ok); [by apply moves_eq, error_reg|].
  destruct (target_as_str _) as [t|]; [|by apply moves_eq, error_reg].
  destruct (_ && _); [apply moves_refl|]. destruct (t =s "kernel").
  - pose proof (moves_kernel_message next cfg rand msg (rt_action_limiter st) _ Hok Hn) as Hk.
    by destruct (handle_kernel_message _ _ _ _ _) as [[lim w] e].
  - destruct (t =s "*").
    + pose proof (broadcast_reg msg (rt_world st)) as Hb. destruct (broadcast _ _). by apply moves_eq.
    + pose proof (moves_forward (channel_closed (rt_world st)) next msg t _ Hok) as Hf.
      by destruct (forward _ _ _).
Qed.

Lemma moves_prune dead next cfg st :
  moves dead next Clock (w_reg (rt_world st)) (w_reg (rt_world (prune_step cfg st))).
Proof.
  unfold prune_step, sweep_expired_actions.
  destruct (broker_bulk (is_expired (now (rt_world st))) (w_reg (rt_world st))) as [k1 H1].
  destruct (take_keys _ _) as [r taken]. cbn [fst snd] in *.
  match goal with |- context [foldl ?f (set_reg r (rt_world st)) ?l] =>
    assert (w_reg (foldl f (set_reg r (rt_world st)) l) = r) as H2;
    [|revert H2; generalize (foldl f (set_reg r (rt_world st)) l)] end.
  { rewrite (only_sends_reg any_chan (set_reg r (rt_world st))); [done|]. apply only_sends_foldl.
    intros. eapply to_any, send_envelope_sends. }
  intros w2 H2. cbn [rt_world]. right.
  destruct (rc_session_idle_timeout_secs cfg) as [idle|]; [|rewrite H2, H1; apply bk_expire].
  destruct (broker_bulk (is_idle (now (rt_world st)) (from_secs idle)) (w_reg w2)) as [k2 H3].
  unfold sweep_idle_sessions. rewrite H2 in *. destruct (take_keys _ _) as [r3 l3]. cbn [fst snd] in *.
  match goal with |- context [foldl ?f (set_reg r3 w2) ?l] =>
    assert (w_reg (foldl f (set_reg r3 w2) l) = r3) as -> end.
  { apply (only_sends_reg any_chan (set_reg r3 w2)), only_sends_foldl. intros.
    apply notify_forced_termination_sends. }
  rewrite H3, H1, expire_expire. apply bk_expire.
Qed.

Lemma moves_disconnect dead next c w : moves dead next Kernel (w_reg w) (w_reg (disconnect_step c w)).
Proof.
  unfold disconnect_step. destruct (get_by_conn_id c _) as [e|]; [|apply moves_refl].
  unfold unregister_conn.
  pose proof (moves_unregister_if dead next (pe_plugin_id e) (fun e => (pe_conn_id e =? c)%N) w) as Hu.
  destruct (unregister_if _ _ _) as [w1 [|]]; cbn [fst] in Hu; [by rewrite publish_reg|done].
Qed.
End loop.

(** ** The waker never touches a call *)
Section waker.
Context {WI : Wire} (r0 : Registry).

Definition calls_as (s : LazyStarter) : Prop := same_calls r0 (w_reg (lz_world s)).

Lemma calls_upd f s :
  (forall r, same_calls r (f r)) -> calls_as s -> calls_as (upd_registry f s).
Proof. intros Hf Hs. eapply same_trans; [exact Hs|apply Hf]. Qed.

Lemma same_hold p r : same_calls r (lazy_gate_hold p r).
Proof. unfold lazy_gate_hold. by destruct (_ !! p). Qed.

Lemma same_allow clk p addr r : same_calls r (lazy_gate_allow clk p addr r).
Proof. unfold lazy_gate_allow. by destruct (_ !! p). Qed.

Lemma same_trim clk p ttl r : same_calls r (lazy_gate_trim clk p ttl r).1.
Proof. unfold lazy_gate_trim. by destruct (_ !! p). Qed.

#[local] Hint Resolve same_hold same_allow same_trim same_touch_used : vyn.

Lemma calls_fail m st e s : calls_as s -> calls_as (fail_msg m st e s).
Proof.
  intros Hs. unfold calls_as, fail_msg. simpl. repeat case_match; try done. by rewrite send_envelope_reg.
Qed.

Lemma calls_foldl {A} (f : LazyStarter -> A -> LazyStarter) l s :
  (forall s x, calls_as s -> calls_as (f s x)) -> calls_as s -> calls_as (foldl f s l).
Proof. intros Hf. revert s. induction l as [|x l IH]; intros s Hs; [done|]. by apply IH, Hf. Qed.

Lemma calls_fail_queue id q s : calls_as s -> calls_as (fail_queue id q s).
Proof. apply calls_foldl. intros. by apply calls_fail. Qed.

Lemma calls_reinject open id q s : calls_as s -> calls_as (reinject open id q s).
Proof.
  intros Hs. unfold reinject. destruct open.
  - apply calls_foldl; [|done]. intros s' m Hs'. apply (calls_upd _ s'); auto with vyn.
  - destruct q; [done|]. apply (calls_upd _ s); auto with vyn.
Qed.

Lemma calls_wake_request open r s : calls_as s -> calls_as (on_wake_request open r s).
Proof.
  intros Hs. unfold on_wake_request. destruct (_ !! _) as [w|].
  - destruct (_ <=? _)%nat; [by apply calls_fail|done].
  - case_bool_decide.
    + destruct (match request_action _ with Some _ => _ | None => _ end);
        [by apply calls_reinject|by apply calls_fail].
    + apply (calls_upd _ (upd_registry _ s)); [auto with vyn|]. apply calls_upd; auto with vyn.
Qed.

Lemma calls_release id s : calls_as s -> calls_as (upd_registry (lazy_gate_release id) s).
Proof. apply calls_upd. done. Qed.

Lemma calls_trim s id : calls_as s -> calls_as (trim_gate s id).
Proof.
  intros Hs. unfold trim_gate. case_bool_decide; [done|].
  pose proof (same_trim (lz_clk s) id ALLOW_TTL (lz_reg s)) as Ht.
  destruct (lazy_gate_trim _ _ _ _) as [r e]. cbn [fst] in Ht.
  assert (calls_as (upd_registry (fun _ => r) s)) by (eapply same_trans; [exact Hs|done]).
  destruct e; [by apply calls_release|done].
Qed.

Lemma calls_poll open t s : calls_as s -> calls_as (poll_waking open t s).
Proof.
  intros Hs. unfold poll_waking. apply calls_foldl; [|apply calls_foldl; [|apply calls_foldl]].
  - intros. by apply calls_trim.
  - intros s' id Hs'. unfold expire_slot. destruct (_ !! id) as [w|]; [|done]. cbv zeta.
    pose proof (calls_release id _ (calls_fail_queue id (wk_queue w) _ Hs')) as H1.
    by destruct (wk_starting _).
  - intros s' id Hs'. unfold drain_ready. destruct (_ !! id); [|done]. by apply calls_reinject.
  - done.
Qed.

Lemma calls_sweep now s : calls_as s -> calls_as (sweep_idle now s).
Proof.
  apply calls_foldl. intros s' d Hs. unfold sweep_one. destruct (_ || _); [done|].
  destruct (idle_for_at _ _ _); [|apply calls_upd; auto with vyn].
  destruct (_ || _); [done|]. apply (calls_upd _ s'); auto with vyn.
Qed.

Lemma calls_waker_step t o s s' : waker_step t o s s' -> calls_as s -> calls_as s'.
Proof.
  intros Hw Hs. destruct Hw as [| |id s Hin| |].
  - by apply calls_wake_request.
  - unfold on_start_result. simpl. destruct (_ !! _) as [w|]; [|done].
    destruct (wk_want_stop w); [done|]. destruct result; [done|].
    apply calls_fail_queue. by apply (calls_release id s).
  - unfold on_stopped. simpl. destruct (_ !! _) as [w|]; [|done].
    destruct (wk_queue w); [by apply (calls_release id s)|]. apply (calls_upd _ s); auto with vyn.
  - by apply calls_poll.
  - by apply calls_sweep.
Qed.
End waker.

(** ** The whole kernel *)
Section kernel.
Context {WI : Wire} {SI : Serde} {CI : Crypto} {JI : Jwt} {RI : RowCodec DeviceRecord}
  {GI : Governor}.

Definition next_id (st : RouterState) : string := (next_internal_id (rt_world st)).2.

Definition kernel_broker (st : RouterState) : Broker := broker_of (w_reg (rt_world st)).

(** At most one step of the broker, by [a] *)
Definition broker_turn (st : RouterState) (a : Actor) (st' : RouterState) : Prop :=
  kernel_broker st' = kernel_broker st
  \/ broker_step (channel_closed (rt_world st)) (next_id st) a (kernel_broker st) (kernel_broker st').

Lemma retry_reg max keep w : w_reg (retry_worker_round max keep w) = w_reg w.
Proof.
  unfold retry_worker_round. destruct (w_store w); [|done].
  destruct (retry_round _ _ _ _) as [s' pending].
  rewrite (only_sends_reg any_chan (set_store (Some s') w)); [done|].
  apply only_sends_foldl. intros. apply deliver_sends.
Qed.

Lemma kernel_step_turn st st' :
  kernel_step st st' -> kernel_ok (rt_world st) -> exists a, broker_turn st a st'.
Proof.
  intros Hs Hok. destruct Hs as [cfg rand msg st|cfg st|c w e i l|p w e i l|max keep w e i l
    |clk p c mf tx meta w e i l|t o s s' e i l Hw|f w e i l Hstep Heq|]; unfold broker_turn, kernel_broker;
    simpl in *.
  - eexists. by apply moves_route_message.
  - exists Clock. apply moves_prune.
  - exists Kernel. apply moves_disconnect.
  - exists Kernel. apply moves_unregister_if.
  - exists Kernel. left. by rewrite retry_reg.
  - exists Kernel. eapply moves_joins; [done|]. apply joins_register_with.
  - exists Kernel. left. apply same_broker. by eapply (calls_waker_step (w_reg (lz_world s))).
  - exists Kernel. left. apply same_broker. destruct (Heq (w_reg w)) as [E1 E2]. split; [done|]. by rewrite E2.
  - exists Kernel. by left.
Qed.

(** A run of the broker: every step by somebody, under whatever channels are closed *)
Definition broker_run : Broker -> Broker -> Prop :=
  rtc (fun b b' => exists dead next a, broker_step dead next a b b').

Lemma kernel_run st : kernel_reachable st -> broker_run broker_empty (kernel_broker st).
Proof.
  intros (cfg & store & clk & Hr). set (st0 := router_init cfg (world_empty store clk)) in Hr.
  assert (kernel_broker st0 = broker_empty) as E0.
  { unfold kernel_broker, broker_of, broker_empty. simpl. by rewrite dom_empty_L, fmap_empty. }
  rewrite <- E0. pose proof (router_init_ok cfg store clk) as Hok. fold st0 in Hok. clearbody st0. clear E0.
  induction Hr as [|st0 st1 st2 Hs _ IH]; [apply rtc_refl|].
  destruct (kernel_step_turn _ _ Hs Hok) as [a [E|Hb]].
  - rewrite <- E. by eapply IH, kernel_step_ok.
  - eapply rtc_l; [by eauto|]. by eapply IH, kernel_step_ok.
Qed.


End kernel.
