(* ===== verification/RouterSafety.v ===== *)
(** * Authorization of routed actions and of peer-to-peer frames

    A pending action exists only for a request that passed every gate; every
    request is routed, queued or answered; a frame reaches another plugin only
    when the sender's permissions, allowlist and user allow it. *)

From S2P Require Import Prelude Errors Wire Validate Registry RegistryInv RegistryProps Events.
From S2P Require Import Auth Kernel Router KernelInv RouterInv RouterProps.

Section props.
Context {WI : Wire} {SI : Serde} {CI : Crypto} {JI : Jwt} {RI : RowCodec DeviceRecord}
  {GI : Governor}.

(** ** The outcomes of an action request *)
Definition queued_wake (w w' : World) (id : string) (msg : IncomingMessage) : Prop :=
  exists c, w_lazy w = Some c
    /\ w' = set_lazy (Some (mkWakeChan (wc_capacity c) (wc_queue c ++ [mkWake id msg]) false)) w.

Lemma dispatch_action_cases cfg msg mid req s c d l lim w lim' w' rf :
  dispatch_action cfg msg mid req s c d l lim w = (lim', w', rf) ->
  (exists prov, d = false /\ l = Found prov /\ rf = None
     /\ permission_blocked (w_reg w) (pe_plugin_id prov) (rq_action req) s true = false
     /\ over_concurrency cfg (w_reg w) s (pe_plugin_id prov) = false
     /\ w' = route_action cfg msg mid req s c prov w)
  \/ (exists id, d = false /\ l = Dormant id /\ rf = None /\ queued_wake w w' id msg)
  \/ (d = false /\ l = NotFound /\ rf = None
      /\ relay_action_to_host cfg msg mid req s w = (w', true))
  \/ (is_Some rf /\ (w' = w \/ relay_action_to_host cfg msg mid req s w = (w', false))).
Proof.
  assert (forall (x : Refusal), is_Some (Some x)) as Href by (by eexists).
  unfold dispatch_action. destruct d; [intros [= <- <- <-]; auto 10|].
  destruct l as [|prov|ids|id].
  - destruct (relay_action_to_host _ _ _ _ _ _) as [w1 [|]]; intros [= <- <- <-]; auto 10.
  - destruct (permission_blocked _ _ _ _ _) eqn:Hp; [intros [= <- <- <-]; auto 10|].
    destruct (over_concurrency _ _ _ _) eqn:Ho; [intros [= <- <- <-]; auto 10|].
    destruct (check_opt _ _ _) as [lim1 [|]]; simpl; intros [= <- <- <-]; [|auto 10].
    left. by exists prov.
  - intros [= <- <- <-]. auto 10.
  - destruct (permission_blocked _ _ _ _ _); [intros [= <- <- <-]; auto 10|].
    destruct (over_concurrency _ _ _ _); [intros [= <- <- <-]; auto 10|].
    destruct (check_opt _ _ _) as [lim1 [|]]; simpl; [|intros [= <- <- <-]; auto 10].
    unfold wake_try_send. destruct (w_lazy w) as [ch|] eqn:Hl; [|intros [= <- <- <-]; auto 10].
    destruct (_ || _); intros [= <- <- <-]; [auto 10|].
    right; left. exists id. split_and!; [done..|by exists ch].
Qed.

(** The pending slot opened for a request routed to [provider]. *)
Definition slot_for (cfg : RouterCfg) (msg : IncomingMessage) (req : ActionRequest)
    (s provider : string) (t : Z) : PendingAction :=
  mkPending (m_write_tx msg) (rq_action_id req) s
    (t + from_millis (effective_timeout cfg req)) provider (rq_streaming req) false t.

Lemma route_action_pending cfg msg mid req s c e w :
  pending_actions (w_reg (route_action cfg msg mid req s c e w))
  = <["kact-" +:+ fmt_N (w_action_seq w) := slot_for cfg msg req s (pe_plugin_id e) (now w)]>
      (pending_actions (w_reg w)).
Proof.
  unfold route_action. cbn [next_internal_id]. unfold upd_reg at 1. simpl.
  by rewrite touch_used_pending, send_envelope_reg.
Qed.

Lemma relay_pending cfg msg mid req s w w' :
  relay_action_to_host cfg msg mid req s w = (w', true) ->
  exists host, get_by_conn_id BRIDGE_CONN_ID_BASE (w_reg w) = Some host
    /\ pending_actions (w_reg w')
       = <["kact-" +:+ fmt_N (w_action_seq w) := slot_for cfg msg req s (pe_plugin_id host) (now w)]>
           (pending_actions (w_reg w)).
Proof.
  unfold relay_action_to_host. destruct (_ || _); [done|].
  destruct (get_by_conn_id _ _) as [host|]; [|done]. cbn [next_internal_id].
  destruct (try_send_envelope _ _ _) as [w1 [|]] eqn:Hs; [|done]. intros [= <-].
  exists host. split; [done|]. apply try_send_envelope_reg in Hs as [-> _]. done.
Qed.

Lemma relay_failed_pending cfg msg mid req s w w' k p :
  relay_action_to_host cfg msg mid req s w = (w', false) ->
  pending_actions (w_reg w') !! k = Some p -> pending_actions (w_reg w) !! k = Some p.
Proof.
  unfold relay_action_to_host. destruct (_ || _); [by intros [= <-]|].
  destruct (get_by_conn_id _ _) as [host|]; [|by intros [= <-]]. cbn [next_internal_id].
  destruct (try_send_envelope _ _ _) as [w1 [|]] eqn:Hs; [done|]. intros [= <-].
  apply try_send_envelope_reg in Hs as [Hr _]. unfold upd_reg. simpl. rewrite Hr. simpl.
  unfold take_pending_action. simpl. rewrite lookup_insert_eq. simpl.
  rewrite delete_insert_eq. by intros [_ ?]%lookup_delete_Some.
Qed.

Lemma gated_lookup_frame a addr r r' l :
  gated_lookup a addr r = (r', l) ->
  (forall prov, l = Found prov -> find_action_provider a r = Found prov)
  /\ (l = NotFound -> find_action_provider a r = NotFound)
  /\ exists g, r' = set_gates g r.
Proof.
  unfold gated_lookup. destruct (find_action_provider a r) as [|e|ids|id] eqn:Hf;
    try (intros [= <- <-]; split_and!; try done; exists (lazy_gates r); by destruct r).
  unfold lazy_gate_passes. destruct (lazy_gates r !! pe_plugin_id e) as [g|].
  - destruct (g !! addr); intros [= <- <-]; (split_and!; [naive_solver|done|]);
      [by eexists|exists (lazy_gates r); by destruct r].
  - intros [= <- <-]. split_and!; try naive_solver. exists (lazy_gates r). by destruct r.
Qed.

(** C4 A pending action that an [ActionRequest] opens sits under the kernel's
    own next correlation id, belongs to the authenticated sender (its channel,
    its plugin id, its action id), and was let through every gate: the
    device_callers policy, the provider being the single live declarer of the
    action (or, when nobody declares it, the bridged host), both provider and
    sender holding the permission the provider declared for the action, and the
    per-provider concurrency cap. *)
Theorem action_request_authorized cfg mid req msg lim w lim' w' e k p :
  handle_action_request cfg mid req msg lim w = (lim', w', e) ->
  pending_actions (w_reg w') !! k = Some p -> pending_actions (w_reg w) !! k <> Some p ->
  let r := w_reg w in
  let s := sender_of (m_conn_id msg) r in
  k = "kact-" +:+ fmt_N (w_action_seq w)
  /\ p = slot_for cfg msg req s (pa_provider_id p) (now w)
  /\ caller_denied cfg s (device_caller r s (rq_caller_plugin_id req)) = false
  /\ ((exists prov, find_action_provider (rq_action req) r = Found prov
         /\ pa_provider_id p = pe_plugin_id prov
         /\ (forall perm, action_requirement (pe_plugin_id prov) (rq_action req) r = Some perm ->
               holds_permission r (pe_plugin_id prov) perm /\ holds_permission r s perm)
         /\ (forall cap, rc_action_caller_max_concurrent cfg = Some cap ->
               (count_pending_actions_for s (pe_plugin_id prov) r < cap)%Z))
      \/ (find_action_provider (rq_action req) r = NotFound
          /\ exists host, get_by_conn_id BRIDGE_CONN_ID_BASE r = Some host
               /\ pa_provider_id p = pe_plugin_id host)).
Proof.
  intros Hh Hk Hold. cbv zeta. unfold handle_action_request in Hh.
  set (s := sender_of _ _) in *. set (dcl := device_caller _ _ _) in *.
  destruct (gated_lookup _ _ _) as [r l] eqn:Hg.
  destruct (gated_lookup_frame _ _ _ _ _ Hg) as (Hfound & Hnone & g & ->).
  destruct (dispatch_action _ _ _ _ _ _ _ _ _ _) as [[lim1 w1] rf] eqn:Hd.
  assert (pending_actions (w_reg w1) !! k = Some p) as Hk1.
  { destruct rf; simplify_eq; [by rewrite send_envelope_reg in Hk|done]. }
  clear Hh Hk. apply dispatch_action_cases in Hd as
    [(prov & Hden & -> & _ & Hperm & Hcap & ->)|[(id & _ & _ & _ & c & _ & ->)|
     [(Hden & -> & _ & Hrel)|(_ & [->|Hrel])]]]; [|done| |done|].
  - rewrite route_action_pending in Hk1. simpl in Hk1.
    apply lookup_insert_Some in Hk1 as [[<- <-]|[_ ?]]; [|done].
    split_and!; try done. left. exists prov. split_and!; [by apply Hfound|done| |].
    + intros perm Hreq. unfold permission_blocked in Hperm. simpl in Hperm.
      unfold action_requirement in *. simpl in Hperm. rewrite Hreq in Hperm.
      apply orb_false_iff in Hperm as [H1 H2].
      split; by apply check_permission_Ok.
    + intros cap Hc. unfold over_concurrency in Hcap. rewrite Hc in Hcap.
      by apply Z.leb_gt in Hcap.
  - apply relay_pending in Hrel as (host & Hhost & Hp). rewrite Hp in Hk1. simpl in Hk1.
    apply lookup_insert_Some in Hk1 as [[<- <-]|[_ ?]]; [|done].
    split_and!; try done. right. split; [by apply Hnone|]. exists host. split; done.
  - eapply relay_failed_pending in Hrel; [|exact Hk1]. done.
Qed.

(** ** Peer-to-peer frames *)
Lemma strip_mac_clears frame : flag_set (f_flags (strip_mac frame)) FLAG_MAC_PRESENT = false.
Proof.
  unfold flag_set, strip_mac, flag_clear. simpl.
  rewrite <- Z.land_assoc. by rewrite Z.land_0_r.
Qed.

Lemma audio_blocked_false r frame s :
  audio_blocked r frame s = false -> flag_set (f_flags frame) FLAG_RAW_BINARY = true ->
  holds_permission r s PermissionAudioStream.
Proof. unfold audio_blocked. intros Ha Hf. rewrite Hf in Ha. by apply check_permission_Ok. Qed.

(** The allowlist reading of [forward_allowed]. *)
Lemma forward_allowed_spec targets t b :
  forward_allowed targets t b = true ->
  t ∈ targets \/ (b = true /\ exists dev cap, split_once "." t = Some (dev, cap) /\ dev ∈ targets).
Proof.
  unfold forward_allowed. intros [Ht|Ht]%orb_true_iff; [left; by apply str_mem_elem|right].
  apply andb_true_iff in Ht as [[_ Hb]%andb_true_iff Ht]. split; [done|].
  destruct (split_once "." t) as [[dev cap]|]; [|done]. exists dev, cap. split; [done|].
  by apply str_mem_elem.
Qed.

Lemma forward_pending_chans msg t s e w : w_chans (forward_pending msg t s e w) = w_chans w.
Proof. unfold forward_pending. by repeat case_match. Qed.

(** Everything a sender must satisfy for a peer-to-peer frame to leave it. *)
Definition may_send (r : Registry) (msg : IncomingMessage) (sender : PluginEntry) : Prop :=
  get_by_conn_id (m_conn_id msg) r = Some sender
  /\ holds_permission r (pe_plugin_id sender) PermissionIpcSend
  /\ (flag_set (f_flags (m_frame msg)) FLAG_RAW_BINARY = true ->
      holds_permission r (pe_plugin_id sender) PermissionAudioStream).

(** C14 Default-deny unicast: when [forward] refuses, the only effect is an error
    on the sender's own channel. When it does not, the sender is registered and
    holds PERMISSION_IPC_SEND (and PERMISSION_AUDIO_STREAM for raw binary), and
    either the target resolved to a plugin of the same user that the sender's
    ipc_targets allow, whose channel alone was offered the frame, payload intact
    and MAC flag and tag removed; or nobody local has that name, the sender's
    ipc_targets list it, and the same stripped frame went to the bridged host. *)
Theorem forward_authorized msg t w :
  kernel_ok w ->
  let '(w', errored) := forward msg t w in
  if errored then only_sends (eq (m_write_tx msg)) w w'
  else exists sender, may_send (w_reg w) msg sender
    /\ flag_set (f_flags (strip_mac (m_frame msg))) FLAG_MAC_PRESENT = false
    /\ match get_mux t (w_reg w) with
       | Some target =>
           pe_user_id target = pe_user_id sender
           /\ (t ∈ mf_ipc_targets (pe_manifest sender)
               \/ exists dev cap, split_once "." t = Some (dev, cap)
                    /\ dev ∈ mf_ipc_targets (pe_manifest sender))
           /\ w_chans w' = (try_send (pe_write_tx target)
                              (OFrame (strip_mac (m_frame msg))) (w_chans w)).1
       | None =>
           t ∈ mf_ipc_targets (pe_manifest sender)
           /\ exists conns, w_bridge w = Some conns
                /\ relay_to_host conns (m_frame msg) w = (w', true)
       end.
Proof.
  intros Hok. unfold forward.
  destruct (get_by_conn_id _ _) as [sender|] eqn:Hs; [|apply send_error_sends].
  destruct (is_err _) eqn:Hipc; [apply send_error_sends|]. apply check_permission_Ok in Hipc.
  destruct (conn_entry_live _ _ _ (co_reg _ _ Hok) Hs) as [Hget _]. unfold get at 1. rewrite Hget.
  destruct (match get_mux t (w_reg w) with Some _ => _ | None => _ end) eqn:Hu;
    [apply send_error_sends|].
  destruct (forward_allowed _ _ _) eqn:Hall; simpl; [|apply send_error_sends].
  destruct (audio_blocked _ _ _) eqn:Ha; [apply send_error_sends|].
  apply forward_allowed_spec in Hall.
  assert (may_send (w_reg w) msg sender) as Hmay.
  { split_and!; [done|done|]. by apply audio_blocked_false. }
  destruct (get_mux t (w_reg w)) as [target|].
  - exists sender. split_and!; [done|apply strip_mac_clears| | |].
    + by apply negb_false_iff, str_eqb_eq in Hu.
    + naive_solver.
    + simpl. by rewrite forward_pending_chans.
  - destruct (w_bridge w) as [conns|]; [|apply send_error_sends].
    destruct (relay_to_host conns (m_frame msg) w) as [w1 [|]] eqn:Hr.
    + exists sender. split_and!; [done|apply strip_mac_clears| |by eauto]. naive_solver.
    + eapply only_sends_trans; [|apply send_error_sends]. unfold relay_to_host in Hr.
      destruct conns as [|tx conns]; [simplify_eq; apply only_sends_refl|].
      destruct (try_send _ _ _) as [cs rs] eqn:Ht. simplify_eq.
      apply bool_decide_eq_false_1 in H0.
      apply try_send_not_Sent in Ht; [|done]. subst cs. apply only_sends_chans, grows_refl.
Qed.

(** The registered plugins a broadcast of [msg] by [sender] is meant for. *)
Definition recipients (r : Registry) (msg : IncomingMessage) (sender : PluginEntry)
    : list PluginEntry :=
  base.filter (fun e => pe_conn_id e <> m_conn_id msg
                 /\ pe_user_id e = pe_user_id sender
                 /\ pe_plugin_id e ∈ mf_ipc_targets (pe_manifest sender)) (list_plugins r).

Lemma check_ipc_target_spec r sender e :
  reg_ok r -> by_plugin_id r !! pe_plugin_id sender = Some sender ->
  by_plugin_id r !! pe_plugin_id e = Some e ->
  is_err (check_ipc_target r (pe_plugin_id sender) (pe_plugin_id e)) = false
  <-> pe_user_id e = pe_user_id sender /\ pe_plugin_id e ∈ mf_ipc_targets (pe_manifest sender).
Proof.
  intros Hok Hs He. unfold check_ipc_target, get. rewrite Hs, He.
  destruct (str_eqb_spec (pe_user_id e) (pe_user_id sender)); simpl; [|naive_solver].
  destruct (str_mem _ _) eqn:Hm; boolify; naive_solver.
Qed.

Lemma broadcast_fold msg sender w l :
  kernel_ok w -> by_plugin_id (w_reg w) !! pe_plugin_id sender = Some sender ->
  (forall e, e ∈ l -> by_plugin_id (w_reg w) !! pe_plugin_id e = Some e) ->
  foldl (broadcast_to msg (pe_plugin_id sender)) w l
  = set_chans (foldl (fun cs e => (try_send (pe_write_tx e) (OFrame (strip_mac (m_frame msg))) cs).1)
      (w_chans w) (base.filter (fun e => pe_conn_id e <> m_conn_id msg
                 /\ pe_user_id e = pe_user_id sender
                 /\ pe_plugin_id e ∈ mf_ipc_targets (pe_manifest sender)) l)) w.
Proof.
  intros Hok Hs. revert w Hok Hs. induction l as [|e l IH]; intros w Hok Hs Hl; [by destruct w|].
  assert (by_plugin_id (w_reg w) !! pe_plugin_id e = Some e) as He by (apply Hl; left).
  assert (forall x, x ∈ l -> by_plugin_id (w_reg w) !! pe_plugin_id x = Some x) as Hl'
    by (intros; apply Hl; by right).
  simpl. rewrite filter_cons. unfold broadcast_to at 2.
  pose proof (check_ipc_target_spec _ _ _ (co_reg _ _ Hok) Hs He) as Hc.
  destruct (N.eqb_spec (pe_conn_id e) (m_conn_id msg)) as [Hcid|Hcid].
  - rewrite IH by done. case_decide; [naive_solver|done].
  - destruct (is_err _) eqn:Herr.
    + rewrite IH by done. case_decide as Hd; [|done]. exfalso.
      assert (true = false); [|done]. apply Hc. naive_solver.
    + rewrite IH by done. case_decide as Hd; [done|]. exfalso. apply Hd. naive_solver.
Qed.

(** A broadcast reaches exactly the registered plugins that are not the
    sender's own connection, belong to the sender's user and are listed in the
    sender's ipc_targets: each is offered one copy of the frame with the MAC
    flag removed, and nothing else in the kernel changes; a refused broadcast
    only puts an error on the sender's channel. *)
Theorem broadcast_exact msg w :
  kernel_ok w ->
  let '(w', errored) := broadcast msg w in
  if errored then only_sends (eq (m_write_tx msg)) w w'
  else exists sender, may_send (w_reg w) msg sender
    /\ w' = set_chans (foldl (fun cs e => (try_send (pe_write_tx e)
                                 (OFrame (strip_mac (m_frame msg))) cs).1)
                         (w_chans w) (recipients (w_reg w) msg sender)) w.
Proof.
  intros Hok. unfold broadcast.
  destruct (get_by_conn_id _ _) as [sender|] eqn:Hs; [|apply send_error_sends].
  destruct (is_err _) eqn:Hipc; [apply send_error_sends|]. apply check_permission_Ok in Hipc.
  destruct (audio_blocked _ _ _) eqn:Ha; [apply send_error_sends|].
  destruct (conn_entry_live _ _ _ (co_reg _ _ Hok) Hs) as [Hget _].
  exists sender. split; [split_and!; [done..|by apply audio_blocked_false]|].
  apply broadcast_fold; [done|done|]. intros e (q & He)%list_plugins_elem.
  by destruct (ok_plug _ (co_reg _ _ Hok) _ _ He) as [-> _].
Qed.
End props.
