(* ===== verification/RegistrationProps.v ===== *)
(** * Properties of registration

    Who can register and with which permissions, that a live plugin cannot be
    taken over while a dead one is replaced for good, and that the frame MAC is
    switched on after the acknowledgement. *)

From S2P Require Import Prelude Errors Wire Validate Registry RegistryInv RegistryProps Events.
From S2P Require Import Auth Kernel Router KernelInv RouterInv RouterProps.

Section props.
Context {WI : Wire} {SI : Serde} {CI : Crypto} {JI : Jwt} {RI : RowCodec DeviceRecord}.

(** ** The registry after an eviction and after a registration *)
Lemma unregister_if_cases p pred w w' b :
  unregister_if p pred w = (w', b) ->
  (b = false /\ w' = w /\ forall e, by_plugin_id (w_reg w) !! p = Some e -> pred e = false) \/
  (exists e, b = true /\ by_plugin_id (w_reg w) !! p = Some e /\ pred e = true
     /\ by_plugin_id (w_reg w') = delete p (by_plugin_id (w_reg w))
     /\ by_conn_id (w_reg w') = delete (pe_conn_id e) (by_conn_id (w_reg w))
     /\ w_bus w' = w_bus w).
Proof.
  unfold unregister_if. destruct (unregister_core p pred (w_reg w)) as [r c] eqn:Hu.
  apply unregister_core_cases in Hu as [(-> & _ & Hno)|(e & -> & He & Hp & Hbp & Hbc & _)].
  - intros [= <- <-]. left. done.
  - intros [= <- <-]. right. exists e.
    destruct (fail_pending_reg p (set_reg r w)) as [-> ->]. simpl.
    unfold take_pending_actions_for_provider. destruct (take_keys _ r) as [r' l] eqn:Ht.
    apply bulk_take_spec in Ht as (-> & _). done.
Qed.

Lemma evict_stale_cases id w :
  (w_reg (evict_stale id w) = w_reg w
   /\ forall e, by_plugin_id (w_reg w) !! id = Some e ->
        is_closed (pe_write_tx e) (w_chans w) = false)
  \/ (exists e, by_plugin_id (w_reg w) !! id = Some e
      /\ is_closed (pe_write_tx e) (w_chans w) = true
      /\ by_plugin_id (w_reg (evict_stale id w)) = delete id (by_plugin_id (w_reg w))
      /\ by_conn_id (w_reg (evict_stale id w)) = delete (pe_conn_id e) (by_conn_id (w_reg w))).
Proof.
  unfold evict_stale, get. destruct (by_plugin_id (w_reg w) !! id) as [e|] eqn:He; [|by left].
  destruct (is_closed _ _) eqn:Hc; [|left; split; [done|naive_solver]].
  unfold unregister_if_dead. destruct (unregister_if _ _ _) as [w1 b] eqn:Hu.
  apply unregister_if_cases in Hu as [(-> & -> & Hno)|(e' & -> & He' & _ & Hbp & Hbc & _)].
  - specialize (Hno e He). simpl in Hno. congruence.
  - right. exists e. rewrite He in He'. simplify_eq. rewrite publish_reg. by simpl.
Qed.

(** The entry a successful registration creates. *)
Definition fresh_entry (reg : PluginRegister) (mf : PluginManifest) (msg : IncomingMessage)
    (e : PluginEntry) : Prop :=
  pe_plugin_id e = pr_plugin_id reg /\ pe_conn_id e = m_conn_id msg
  /\ pe_write_tx e = m_write_tx msg
  /\ mf_permissions (pe_manifest e) = mf_permissions mf
  /\ mf_ipc_targets (pe_manifest e) = mf_ipc_targets mf.

Lemma is_mux_device_eq reg : is_mux_device reg = true -> pr_device_id reg = pr_plugin_id reg.
Proof. unfold is_mux_device. intros. by boolify. Qed.

Lemma do_register_cases reg mf msg w w' res :
  do_register reg mf msg w = (w', res) ->
  (exists err, res = Err err /\ w_reg w' = w_reg w) \/
  (res = Ok tt /\ by_plugin_id (w_reg w) !! pr_plugin_id reg = None
   /\ exists e, fresh_entry reg mf msg e
      /\ by_plugin_id (w_reg w') = <[pr_plugin_id reg := e]> (by_plugin_id (w_reg w))
      /\ by_conn_id (w_reg w') = <[m_conn_id msg := pr_plugin_id reg]> (by_conn_id (w_reg w))).
Proof.
  unfold do_register. destruct (is_mux_device reg) eqn:Hm.
  - apply is_mux_device_eq in Hm. destruct (register_device _ _ _ _ _ _ _ _) as [r x] eqn:Hr.
    intros [= <- <-]. apply register_device_cases in Hr as
      [(err & -> & ->)|(-> & _ & _ & _ & Hn & ->)]; [left; eauto|right]. rewrite Hm in *.
    split_and!; [done|done|]. eexists. split; [|split; apply insert_entry_fields].
    by split_and!.
  - destruct (register_with_device _ _ _ _ _ _ _) as [r x] eqn:Hr. intros [= <- <-].
    apply register_with_device_cases in Hr as
      [(err & -> & ->)|(-> & _ & _ & _ & Hn & ->)]; [left; eauto|right].
    split_and!; [done|done|]. eexists. split; [|split; apply insert_entry_fields].
    by split_and!.
Qed.

Lemma finish_register_reg cfg rand mid msg p ds res w :
  w_reg (finish_register cfg rand mid msg p ds res w) = w_reg w.
Proof.
  unfold finish_register. set (ack := match res with Ok _ => _ | Err _ => _ end).
  destruct (rc_mac_secret cfg), (is_ok res); rewrite ?publish_reg; simpl;
    by rewrite ?publish_reg, ?send_envelope_reg.
Qed.

(** What a [PluginRegister] does to the registry. *)
Lemma handle_register_cases cfg rand mid reg msg w w' err :
  handle_register cfg rand mid reg msg w = (w', err) ->
  let p := pr_plugin_id reg in
  w_reg w' = w_reg w
  \/ (w_reg w' = w_reg (evict_stale p w))
  \/ (exists mf dsec e,
        (pr_protocol_version reg = EmptyString
         \/ forall why, check_protocol_version (pr_protocol_version reg) <> Rejected why)
        /\ authenticate cfg (now_ms w / 1000) reg (default manifest_default (pr_manifest reg)) = Ok mf
        /\ device_secret_for cfg (now_ms w / 1000) reg = Ok dsec
        /\ fresh_entry reg (clamp_permissions cfg p mf) msg e
        /\ by_plugin_id (w_reg (evict_stale p w)) !! p = None
        /\ by_plugin_id (w_reg w') = <[p := e]> (by_plugin_id (w_reg (evict_stale p w)))
        /\ by_conn_id (w_reg w') = <[m_conn_id msg := p]> (by_conn_id (w_reg (evict_stale p w)))).
Proof.
  intros Hh. cbv zeta. unfold handle_register in Hh.
  assert ((if is_mux_device reg then pr_device_id reg else pr_plugin_id reg)
          = pr_plugin_id reg) as Hid.
  { destruct (is_mux_device reg) eqn:Hm; [|done]. by apply is_mux_device_eq. }
  rewrite Hid in Hh. set (v := if str_is_empty _ then _ else _) in Hh.
  assert ((forall why, v <> Rejected why) -> pr_protocol_version reg = EmptyString
    \/ forall why, check_protocol_version (pr_protocol_version reg) <> Rejected why) as Hv.
  { subst v. destruct (pr_protocol_version reg); [by left|by right]. }
  destruct v as [| |why]; [| |left; simplify_eq; apply send_envelope_reg];
    (destruct (authenticate _ _ _ _) as [mf|] eqn:Ha;
       [|left; simplify_eq; apply send_envelope_reg];
     destruct (device_secret_for _ _ _) as [dsec|] eqn:Hds;
       [|left; simplify_eq; apply send_envelope_reg];
     destruct (do_register _ _ _ _) as [w1 res] eqn:Hr; simplify_eq;
     rewrite finish_register_reg;
     apply do_register_cases in Hr as [(er & _ & ->)|(_ & Hn & e & He & Hbp & Hbc)];
       [by right; left|right; right; exists mf, dsec, e; split_and!; eauto; by apply Hv]).
Qed.

(** ** Claims *)

(** The permissions a registered manifest may hold under the operator's
    allowlist. *)
Definition within_allowlist (cfg : RouterCfg) (p : string) (perms : list string) : Prop :=
  forall m allowed, rc_config_permissions cfg = Some m -> m !! p = Some allowed ->
    allowed <> [] ->
    forall q, q ∈ perms -> normalize_permission q ∈ normalize_permission <$> allowed.

Lemma clamp_within cfg p mf : within_allowlist cfg p (mf_permissions (clamp_permissions cfg p mf)).
Proof.
  intros m allowed Hm Hp Hne q. unfold clamp_permissions. rewrite Hm, Hp.
  destruct allowed as [|a allowed]; [done|]. cbn [mf_permissions].
  rewrite elem_of_filter_list, str_mem_elem. by intros [? _].
Qed.

Lemma clamp_subset cfg p mf :
  mf_permissions (clamp_permissions cfg p mf) ⊆ mf_permissions mf
  /\ mf_ipc_targets (clamp_permissions cfg p mf) = mf_ipc_targets mf.
Proof.
  unfold clamp_permissions. repeat case_match; try done. split; [|done].
  intros q. cbn [mf_permissions]. rewrite elem_of_filter_list. by intros [_ ?].
Qed.

(** A fresh connection is not the connection of any entry. *)
Lemma conn_of_entry r p e : reg_ok r -> by_plugin_id r !! p = Some e ->
  by_conn_id r !! pe_conn_id e = Some p.
Proof. intros Hok He. by destruct (ok_plug _ Hok _ _ He). Qed.

(** C5 The registration gate: if after a [PluginRegister] a connection that was
    not registered holds an entry, then the entry has the requested id, the
    protocol version was empty or supported, a configured JWT validator accepted
    the token for that plugin id or for its device, a configured device store
    had an active credential for a named device, and the granted permissions are
    all claimed by the token and within the operator's allowlist, the ipc
    targets exactly the token's. *)
Theorem registration_gate cfg rand mid reg msg w w' err p e :
  kernel_ok w -> by_conn_id (w_reg w) !! m_conn_id msg = None ->
  handle_register cfg rand mid reg msg w = (w', err) ->
  by_plugin_id (w_reg w') !! p = Some e -> pe_conn_id e = m_conn_id msg ->
  let secs := (now_ms w / 1000)%Z in
  p = pr_plugin_id reg
  /\ (pr_protocol_version reg = EmptyString
      \/ forall why, check_protocol_version (pr_protocol_version reg) <> Rejected why)
  /\ (forall v, rc_jwt_validator cfg = Some v -> exists claims,
        jwt_validate v secs (pr_jwt_token reg) = Ok claims
        /\ (cl_sub claims = pr_plugin_id reg
            \/ (pr_device_id reg <> EmptyString /\ cl_sub claims = pr_device_id reg))
        /\ mf_permissions (pe_manifest e) ⊆ cl_permissions claims
        /\ mf_ipc_targets (pe_manifest e) = cl_ipc_targets claims)
  /\ (forall store, rc_device_store cfg = Some store -> is_Some (rc_mac_secret cfg) ->
        pr_device_id reg <> EmptyString ->
        exists s, active_secret secs (pr_device_id reg) store = Ok (Some s))
  /\ within_allowlist cfg p (mf_permissions (pe_manifest e)).
Proof.
  intros Hok Hc Hh Hp Hcid. cbv zeta.
  assert (forall r, reg_ok r -> by_conn_id r !! m_conn_id msg = None ->
            by_plugin_id r !! p = Some e -> False) as Habs.
  { intros r Hr Hn He. pose proof (conn_of_entry _ _ _ Hr He) as H1. congruence. }
  assert (by_conn_id (w_reg (evict_stale (pr_plugin_id reg) w)) !! m_conn_id msg = None) as Hce.
  { destruct (evict_stale_cases (pr_plugin_id reg) w) as [[-> _]|(e' & _ & _ & _ & ->)]; [done|].
    by apply lookup_delete_None; right. }
  assert (reg_ok (w_reg (evict_stale (pr_plugin_id reg) w))) as Hoke
    by (apply (ok_evict_stale (pr_plugin_id reg) w Hok)).
  apply handle_register_cases in Hh as [E|[E|(mf & dsec & e' & Hv & Ha & Hd & He & _ & Hbp & _)]].
  { exfalso. rewrite E in Hp. eapply Habs; [apply Hok|done|done]. }
  { exfalso. rewrite E in Hp. eapply Habs; done. }
  rewrite Hbp in Hp. apply lookup_insert_Some in Hp as [[<- <-]|[_ Hp]];
    [|exfalso; by eapply Habs].
  destruct He as (_ & _ & _ & Hperm & Htgt). rewrite Hperm, Htgt.
  destruct (clamp_subset cfg (pr_plugin_id reg) mf) as [Hsub Heq].
  split_and!; [done|done| | |apply clamp_within].
  - intros v Hj. unfold authenticate in Ha. rewrite Hj in Ha.
    destruct (jwt_validate _ _ _) as [claims|]; [|done]. exists claims.
    destruct (_ && _) eqn:Hsub'; [done|]. simplify_eq. simpl in *. split_and!; [done| |done..].
    apply andb_false_iff in Hsub' as [?|?]; boolify; [by left|].
    right. split; [|done]. by destruct (pr_device_id reg).
  - intros store Hst Hmac Hdev. unfold device_secret_for in Hd. rewrite Hst in Hd.
    rewrite bool_decide_eq_true_2, andb_true_r in Hd by done.
    destruct (pr_device_id reg) as [|a d]; [done|]. simpl in Hd.
    destruct (active_secret _ _ _) as [[s|]|]; [by eexists|done|done].
Qed.
(** ** Taking over an id *)
Lemma handle_register_other cfg rand mid reg msg w w' err q :
  handle_register cfg rand mid reg msg w = (w', err) -> q <> pr_plugin_id reg ->
  by_plugin_id (w_reg w') !! q = by_plugin_id (w_reg w) !! q.
Proof.
  intros Hh Hne.
  assert (by_plugin_id (w_reg (evict_stale (pr_plugin_id reg) w)) !! q
          = by_plugin_id (w_reg w) !! q) as He.
  { destruct (evict_stale_cases (pr_plugin_id reg) w) as [[-> _]|(e & _ & _ & -> & _)]; [done|].
    by rewrite lookup_delete_ne. }
  apply handle_register_cases in Hh as [->|[->|(mf & dsec & e & _ & _ & _ & _ & _ & -> & _)]];
    [done|done|]. by rewrite lookup_insert_ne.
Qed.

Lemma disconnect_unknown c w : by_conn_id (w_reg w) !! c = None -> disconnect_step c w = w.
Proof. intros Hc. unfold disconnect_step, get_by_conn_id. by rewrite Hc. Qed.

(** An id cannot be taken over from a live plugin: while the holder's channel
    is open, a registration for the same id leaves the holder in place. And a
    dead holder is replaced for good: if another connection registers the id,
    the late disconnect of the old connection does nothing, so the new
    registration survives it. *)
Theorem id_takeover cfg rand mid reg msg w w' err old :
  kernel_ok w -> handle_register cfg rand mid reg msg w = (w', err) ->
  by_plugin_id (w_reg w) !! pr_plugin_id reg = Some old ->
  (is_closed (pe_write_tx old) (w_chans w) = false ->
     by_plugin_id (w_reg w') !! pr_plugin_id reg = Some old)
  /\ (forall new, by_plugin_id (w_reg w') !! pr_plugin_id reg = Some new ->
        pe_conn_id new <> pe_conn_id old ->
        disconnect_step (pe_conn_id old) w' = w').
Proof.
  intros Hok Hh Hold. split.
  - intros Hopen. destruct (evict_stale_cases (pr_plugin_id reg) w)
      as [[He _]|(e & He & Hcl & _)]; [|congruence].
    apply handle_register_cases in Hh as [->|[->|(mf & dsec & e & _ & _ & _ & _ & Hn & _)]];
      [done|by rewrite He|]. rewrite He in Hn. congruence.
  - intros new Hnew Hne. apply disconnect_unknown.
    destruct (by_conn_id (w_reg w') !! pe_conn_id old) as [q|] eqn:Hq; [|done]. exfalso.
    assert (reg_ok (w_reg w')) as Hok'.
    { pose proof (ok_register cfg rand mid reg msg w Hok) as H1. rewrite Hh in H1. apply H1. }
    destruct (ok_conn _ Hok' _ _ Hq) as (e' & He' & Hc').
    destruct (decide (q = pr_plugin_id reg)) as [->|Hqp]; [congruence|].
    rewrite (handle_register_other _ _ _ _ _ _ _ _ _ Hh Hqp) in He'.
    pose proof (conn_of_entry _ _ _ (co_reg _ _ Hok) He') as H1.
    pose proof (conn_of_entry _ _ _ (co_reg _ _ Hok) Hold) as H2. congruence.
Qed.

(** ** The frame MAC starts after the acknowledgement *)
Lemma send_envelope_room tx mid payload w c body :
  mid <> EmptyString -> w_chans w !! tx = Some c -> ch_closed c = false ->
  (length (ch_queue c) < ch_capacity c)%nat ->
  encode (mkEnvelope mid "kernel" (now_ms w) (Some payload)) = Some body ->
  send_envelope tx (envelope_reply mid payload) w
  = set_chans (<[tx := appended c [OFrame (build_frame "client" 0 body)]]> (w_chans w)) w.
Proof.
  intros Hmid Hc Hopen Hroom Henc. unfold send_envelope, build_outbound, envelope_reply. simpl.
  destruct mid as [|a mid]; [done|]. simpl. rewrite Henc. unfold try_send. rewrite Hc, Hopen.
  by destruct (Nat.leb_spec (ch_capacity c) (length (ch_queue c))); [lia|].
Qed.

(** When a registration succeeds on a kernel with a MAC secret, the sender's
    channel receives, in this order, the acknowledgement carrying the nonce and
    then the command that installs the session key, before any later frame: the
    key is derived from the device's secret if the connection has one, else from
    the per-plugin secret (the master only in legacy mode), over that nonce and
    that plugin id. So neither direction is tagged before the plugin can know
    the nonce. *)
Theorem mac_after_ack cfg rand mid msg p dsec w secret c body :
  rc_mac_secret cfg = Some secret -> mid <> EmptyString ->
  w_chans w !! m_write_tx msg = Some c -> ch_closed c = false ->
  (length (ch_queue c) < ch_capacity c)%nat ->
  let granted := match get p (w_reg w) with
                 | Some e => mf_permissions (pe_manifest e) | None => [] end in
  encode (mkEnvelope mid "kernel" (now_ms w)
            (Some (PPluginRegisterAck (mkAck true EmptyString granted rand)))) = Some body ->
  exists later,
    w_chans (finish_register cfg rand mid msg p dsec (Ok tt) w) !! m_write_tx msg
    = Some (appended c ([OFrame (build_frame "client" 0 body);
                         OEnableMac (derive_session_key (mac_ikm cfg secret dsec p) rand p)
                           (m_session_key msg)] ++ later)).
Proof.
  intros Hsec Hmid Hc Hopen Hroom granted Henc. unfold finish_register. rewrite Hsec.
  rewrite bool_decide_eq_true_2 by (by eexists). cbn [is_ok andb]. fold granted.
  rewrite (send_envelope_room _ _ _ _ c body) by done. simpl w_chans.
  unfold send_await. rewrite lookup_insert_eq. simpl ch_closed. rewrite Hopen.
  set (w1 := set_chans _ _). set (ev := mkEvent _ _ _ _).
  destruct (publish_frame ev w1) as [st Hst]. apply only_sends_grows in Hst.
  specialize (Hst (m_write_tx msg)). simpl in Hst. rewrite lookup_insert_eq in Hst.
  destruct Hst as [->|(_ & c2 & l & [= <-] & ->)].
  - exists []. unfold push_out, appended. simpl. by rewrite <- (assoc_L (++)).
  - exists l. unfold push_out, appended. simpl. by rewrite <- !(assoc_L (++)).
Qed.
End props.
