(* ===== verification/KernelProps.v ===== *)
(** * Delivery, throttling and teardown properties

    Every requester of a vanished or overdue provider is answered; a burst of
    bad messages costs a bounded number of replies; and the behaviours in which
    the code departs from its documentation, stated exactly. *)

From S2P Require Import Prelude Errors Wire Validate Registry RegistryInv RegistryProps Events.
From S2P Require Import Auth Kernel Router KernelInv RouterInv RouterProps RegistrationProps.

Section delivery.
Context {WI : Wire}.

(** [o] is a kernel frame that carries [payload]. *)
Definition carries (payload : Payload) (o : Outbound) : Prop :=
  exists mid ts body, encode (mkEnvelope mid "kernel" ts (Some payload)) = Some body
    /\ o = OFrame (build_frame "client" 0 body).

Definition encodable : Prop := forall env, is_Some (encode env).

Lemma send_envelope_at tx p w c :
  encodable -> w_chans w !! tx = Some c -> ch_closed c = false ->
  (length (ch_queue c) < ch_capacity c)%nat ->
  exists o, w_chans (send_envelope tx (envelope_of p) w) !! tx = Some (appended c [o])
    /\ carries p o.
Proof.
  intros Henc Hc Hopen Hroom. unfold send_envelope, build_outbound, kernel_message_id. simpl.
  set (mid := "k-" +:+ _). set (e := mkEnvelope mid "kernel" _ _).
  destruct (Henc e) as [body Hb]. rewrite Hb. unfold try_send. simpl. rewrite Hc, Hopen.
  destruct (Nat.leb_spec (ch_capacity c) (length (ch_queue c))); [lia|]. simpl.
  rewrite lookup_insert_eq. eexists. split; [reflexivity|]. exists mid, (now_ms w), body. done.
Qed.

Lemma send_envelope_other tx tx' env w :
  tx' <> tx -> w_chans (send_envelope tx env w) !! tx' = w_chans w !! tx'.
Proof.
  intros Hne. destruct (only_sends_grows _ _ _ (send_envelope_sends tx env w) tx')
    as [|[? _]]; congruence.
Qed.

(** A batch of kernel messages: every one for a channel with room arrives, in
    order, and nothing else does. *)
Lemma send_all {A} (to : A -> N) (what : A -> Payload) (l : list A) w tx c :
  encodable -> w_chans w !! tx = Some c -> ch_closed c = false ->
  (length (ch_queue c) + length (base.filter (fun a => to a = tx) l) <= ch_capacity c)%nat ->
  exists frames,
    w_chans (foldl (fun w a => send_envelope (to a) (envelope_of (what a)) w) w l) !! tx
      = Some (appended c frames)
    /\ Forall2 (fun a o => carries (what a) o) (base.filter (fun a => to a = tx) l) frames.
Proof.
  intros Henc. revert w c. induction l as [|a l IH]; intros w c Hc Hopen Hroom.
  - exists []. split; [|constructor]. simpl. rewrite Hc. unfold appended.
    rewrite (right_id_L [] (++)). by destruct c.
  - simpl. rewrite filter_cons in Hroom |- *. destruct (decide (to a = tx)) as [<-|Hne].
    + simpl in Hroom. destruct (send_envelope_at (to a) (what a) w c) as (o & Ho & Hcar);
        [done..|lia|].
      destruct (IH _ _ Ho) as (frames & Hf & Hall); [done|simpl; rewrite length_app; simpl; lia|].
      exists (o :: frames). rewrite Hf, appended_app. split; [done|]. by constructor.
    + apply IH; [by rewrite send_envelope_other|done|done].
Qed.

(** ** A provider goes away *)

(** The in-flight actions of provider [p] asked for by channel [tx]. *)
Definition waiting_on (p : string) (tx : N) (r : Registry) : gmap string PendingAction :=
  base.filter (fun kq => pa_provider_id kq.2 = p /\ pa_requester_write_tx kq.2 = tx)
    (pending_actions r).

Lemma taken_waiting sel r r' taken tx (P : string * PendingAction -> Prop)
    `{!forall x, Decision (P x)} :
  take_keys (pending_keys sel r) r = (r', taken) ->
  (forall kq, P kq <-> sel kq.2 = true /\ pa_requester_write_tx kq.2 = tx) ->
  base.filter (fun kq => pa_requester_write_tx kq.2 = tx) taken
  ≡ₚ map_to_list (base.filter P (pending_actions r)).
Proof.
  intros Ht HP. apply bulk_take_spec in Ht as (_ & Hnd & Hin). apply NoDup_Permutation.
  - apply NoDup_filter. by eapply NoDup_fmap_1.
  - apply NoDup_map_to_list.
  - intros [k q]. rewrite elem_of_filter_list, Hin, elem_of_map_to_list, map_lookup_filter_Some.
    rewrite HP. simpl. naive_solver.
Qed.

(** C21 When a plugin is unregistered, by whatever path, none of its in-flight
    actions is left behind: no pending slot names it any more, and each requester
    whose channel has room gets exactly one message per action it was waiting
    for, under its own action id: an error response if it was still waiting for
    its response, a stream abort if its session was already accepted. *)
Theorem provider_gone_answers_all p pred w w' tx c :
  encodable -> unregister_if p pred w = (w', true) ->
  w_chans w !! tx = Some c -> ch_closed c = false ->
  (length (ch_queue c) + size (waiting_on p tx (w_reg w)) <= ch_capacity c)%nat ->
  has_pending_for_provider p (w_reg w') = false
  /\ exists l frames, l ≡ₚ map_to_list (waiting_on p tx (w_reg w))
      /\ w_chans w' !! tx = Some (appended c frames)
      /\ Forall2 (fun kq o => carries
           (gone_payload ("provider " +:+ p +:+ " disconnected") kq.2) o) l frames.
Proof.
  intros Henc Hu Hc Hopen Hroom. unfold unregister_if in Hu.
  destruct (unregister_core p pred (w_reg w)) as [r b] eqn:Hcore.
  apply unregister_core_cases in Hcore as [(-> & _)|(e & -> & _ & _ & _ & _ & Hpend & _)]; [done|].
  simplify_eq. destruct (fail_pending_reg p (set_reg r w)) as [Hreg _]. rewrite Hreg.
  unfold fail_pending_for_provider, take_pending_actions_for_provider in *. simpl.
  destruct (take_keys _ r) as [r' taken] eqn:Ht. split.
  - apply bulk_take_spec in Ht as (-> & _). unfold has_pending_for_provider. simpl.
    apply not_true_is_false. intros ([k q] & Hin%list_elem_of_In & Hq)%existsb_exists.
    apply elem_of_map_to_list, map_lookup_filter_Some in Hin as [_ Hf]. simpl in *. congruence.
  - pose proof (taken_waiting _ _ _ _ tx
      (fun kq => pa_provider_id kq.2 = p /\ pa_requester_write_tx kq.2 = tx) Ht) as Hperm.
    rewrite Hpend in Hperm. specialize (Hperm ltac:(intros; by rewrite str_eqb_eq)).
    destruct (send_all (fun kq => pa_requester_write_tx kq.2)
      (fun kq => gone_payload ("provider " +:+ p +:+ " disconnected") kq.2) taken
      (set_reg r' (set_reg r w)) tx c) as (frames & Hf & Hall); [done..| |].
    + rewrite Hperm. by rewrite length_map_to_list.
    + eauto.
Qed.

(** ** A provider is late *)
Definition overdue (t : Z) (tx : N) (r : Registry) : gmap string PendingAction :=
  base.filter (fun kq => is_expired t kq.2 = true /\ pa_requester_write_tx kq.2 = tx)
    (pending_actions r).

Definition timeout_payload (p : PendingAction) : Payload :=
  PActionResponse (mkActionResponse (pa_original_action_id p)
    (action_status_i32 ActionTimeout) [] "action timed out").

Context {GI : Governor}.

Lemma prune_world cfg st :
  exists r taken,
    take_keys (pending_keys (is_expired (now (rt_world st))) (w_reg (rt_world st)))
      (w_reg (rt_world st)) = (r, taken)
    /\ let w1 := foldl (fun w kp => send_envelope (pa_requester_write_tx kp.2)
                          (envelope_of (timeout_payload kp.2)) w)
                   (set_reg r (rt_world st)) taken in
       exists w2, only_sends any_chan w2 (rt_world (prune_step cfg st))
         /\ w_chans w2 = w_chans w1
         /\ (w2 = w1 \/ exists keys, w_reg w2 = (take_keys keys (w_reg w1)).1).
Proof.
  unfold prune_step, sweep_expired_actions.
  destruct (take_keys _ _) as [r taken]. exists r, taken. split; [done|]. cbv zeta.
  assert (foldl (fun w p => send_envelope (pa_requester_write_tx p)
     (envelope_of (timeout_payload p)) w) (set_reg r (rt_world st)) taken.*2
    = foldl (fun w kp => send_envelope (pa_requester_write_tx kp.2)
        (envelope_of (timeout_payload kp.2)) w) (set_reg r (rt_world st)) taken) as Hf.
  { generalize (set_reg r (rt_world st)). induction taken as [|a l IH]; intros w; simpl; [done|].
    apply IH. }
  unfold timeout_payload at 1 in Hf. rewrite Hf. clear Hf.
  set (w1 := foldl _ _ _). clearbody w1. destruct (rc_session_idle_timeout_secs cfg) as [idle|].
  - unfold sweep_idle_sessions. destruct (take_keys _ (w_reg w1)) as [r3 l3] eqn:H3.
    exists (set_reg r3 w1). simpl. split_and!; [|done|].
    + apply only_sends_foldl. intros. apply notify_forced_termination_sends.
    + right. exists (pending_keys (is_idle (now (rt_world st)) (from_secs idle)) (w_reg w1)).
      by rewrite H3.
  - exists w1. simpl. split_and!; [apply only_sends_refl|done|by left].
Qed.

Lemma take_keys_lookup keys r k p :
  pending_actions (take_keys keys r).1 !! k = Some p -> pending_actions r !! k = Some p.
Proof.
  revert r. induction keys as [|a keys IH]; intros r; simpl; [done|].
  unfold take_pending_action. destruct (pending_actions r !! a) as [q|].
  - destruct (take_keys keys _) as [r2 l] eqn:Ht. simpl. intros Hk.
    pose proof (IH (set_pending (delete a (pending_actions r)) r)) as H1. rewrite Ht in H1.
    simpl in H1. specialize (H1 Hk). by apply lookup_delete_Some in H1 as [_ ?].
  - destruct (take_keys keys r) as [r2 l] eqn:Ht. simpl. intros Hk.
    specialize (IH r). rewrite Ht in IH. by apply IH.
Qed.

(** A prune tick leaves no expired action behind, and every requester whose
    channel has room is told, once per expired action and under its own action
    id, that the action timed out. *)
Theorem prune_times_out cfg st tx c :
  encodable -> w_chans (rt_world st) !! tx = Some c -> ch_closed c = false ->
  let t := now (rt_world st) in
  (length (ch_queue c) + size (overdue t tx (w_reg (rt_world st))) <= ch_capacity c)%nat ->
  (forall k p, pending_actions (w_reg (rt_world (prune_step cfg st))) !! k = Some p ->
     is_expired t p = false)
  /\ exists l frames later, l ≡ₚ map_to_list (overdue t tx (w_reg (rt_world st)))
      /\ w_chans (rt_world (prune_step cfg st)) !! tx = Some (appended c (frames ++ later))
      /\ Forall2 (fun kq o => carries (timeout_payload kq.2) o) l frames.
Proof.
  intros Henc Hc Hopen t Hroom.
  destruct (prune_world cfg st) as (r & taken & Ht & w2 & Hs2 & Hch & Hreg).
  set (w1 := foldl _ _ _) in *.
  assert (w_reg w1 = r) as Hr1.
  { subst w1. assert (only_sends any_chan (set_reg r (rt_world st)) (foldl (fun w kp =>
      send_envelope (pa_requester_write_tx kp.2) (envelope_of (timeout_payload kp.2)) w)
      (set_reg r (rt_world st)) taken)) as Hs.
    { apply only_sends_foldl. intros. eapply to_any, send_envelope_sends. }
    by apply only_sends_reg in Hs. }
  split.
  - intros k p. rewrite (only_sends_reg _ _ _ Hs2). intros Hk.
    assert (pending_actions r !! k = Some p) as Hk1.
    { destruct Hreg as [->|[keys Hk2]]; [by rewrite Hr1 in Hk|].
      rewrite Hk2, Hr1 in Hk. by apply take_keys_lookup in Hk. }
    apply bulk_take_spec in Ht as (-> & _). by apply map_lookup_filter_Some in Hk1 as [_ ?].
  - pose proof (taken_waiting _ _ _ _ tx (fun kq => is_expired t kq.2 = true
      /\ pa_requester_write_tx kq.2 = tx) Ht ltac:(done)) as Hperm.
    destruct (send_all (fun kq => pa_requester_write_tx kq.2) (fun kq => timeout_payload kq.2)
      taken (set_reg r (rt_world st)) tx c) as (frames & Hf & Hall); [done..| |].
    { rewrite Hperm. by rewrite length_map_to_list. }
    fold w1 in Hf. rewrite <- Hch in Hf.
    destruct (only_sends_grows _ _ _ Hs2 tx) as [E|(_ & c2 & later & Hc2 & E)];
      rewrite E; rewrite Hf in *; simplify_eq.
    + eexists. exists frames, []. split_and!; [exact Hperm| |exact Hall].
      by rewrite (right_id_L [] (++)).
    + eexists. exists frames, later. split_and!; [exact Hperm| |exact Hall].
      by rewrite appended_app.
Qed.
End delivery.

Section throttle.
Context {WI : Wire} {SI : Serde} {CI : Crypto} {JI : Jwt} {RI : RowCodec DeviceRecord}
  {GI : Governor}.

Definition queue_len (tx : N) (w : World) : nat :=
  match w_chans w !! tx with Some c => length (ch_queue c) | None => 0 end.

Lemma queue_len_send tx tx' env w :
  (queue_len tx (send_envelope tx' env w) <= queue_len tx w + 1)%nat.
Proof.
  unfold queue_len, send_envelope. destruct (build_outbound_frame env w) as [n Hn].
  destruct (build_outbound env w) as [w1 o]. simpl in Hn. subst w1.
  destruct o as [out|]; [|simpl; lia]. unfold try_send. simpl.
  destruct (w_chans w !! tx') as [c'|] eqn:Hc'; [|simpl; lia].
  destruct (ch_closed c'); [simpl; lia|]. destruct (Nat.leb _ _); [simpl; lia|]. simpl.
  rewrite lookup_insert. case_decide; [subst; rewrite Hc'; simpl; rewrite length_app; simpl|];
    simpl; lia.
Qed.

Definition route_all (cfg : RouterCfg) (rand : bytes) (msgs : list IncomingMessage)
    (st : RouterState) : RouterState :=
  foldl (fun st m => route_message cfg rand m st) st msgs.

(** A frame of a misbehaving connection: well-formed target, not one of the
    messages the throttle lets through, not a registration. *)
Definition junk (c : N) (m : IncomingMessage) : Prop :=
  m_conn_id m = c /\ is_Some (target_as_str (m_frame m))
  /\ is_throttle_exempt (m_frame m) = false /\ is_registration (m_frame m) = false.

(** The error count of a connection. *)
Definition errors_of (c : N) (counts : gmap N (Z * Z)) : Z :=
  match counts !! c with Some (k, _) => k | None => 0 end.

(** Entries noted at the current instant survive the staleness prune. *)
Definition noted_now (t : Z) (c : N) (counts : gmap N (Z * Z)) : Prop :=
  forall k last, counts !! c = Some (k, last) -> last = t.

Lemma note_error cfg c t counts :
  noted_now t c counts ->
  errors_of c (note_result cfg c true t counts) = u32_succ (errors_of c counts)
  /\ noted_now t c (note_result cfg c true t counts).
Proof.
  intros Hn. unfold note_result, errors_of. rewrite lookup_insert_eq. split.
  - f_equal. destruct (Nat.leb _ _); [|done]. destruct (counts !! c) as [[k last]|] eqn:Hc.
    + assert (base.filter (fun kc => duration_since t kc.2.2 < ERROR_BUDGET_IDLE_TTL)%Z counts
        !! c = Some (k, last)) as ->; [|done].
      apply map_lookup_filter_Some. split; [done|]. simpl. rewrite (Hn _ _ Hc).
      unfold duration_since, saturating_sub, ERROR_BUDGET_IDLE_TTL, from_secs. lia.
    + assert (base.filter (fun kc => duration_since t kc.2.2 < ERROR_BUDGET_IDLE_TTL)%Z counts
        !! c = None) as ->; [|done]. apply map_lookup_filter_None. by left.
  - intros k last. rewrite lookup_insert_eq. by intros [= _ <-].
Qed.

(** One junk message from an unregistered connection: silence when throttled,
    else at most one reply and one error noted. *)
Lemma junk_step cfg rand c tx m st :
  junk c m -> is_registered c (w_reg (rt_world st)) = false -> rt_ipc_limiter st = None ->
  noted_now (now (rt_world st)) c (rt_error_counts st) ->
  let st' := route_message cfg rand m st in
  w_reg (rt_world st') = w_reg (rt_world st) /\ rt_ipc_limiter st' = None
  /\ now (rt_world st') = now (rt_world st)
  /\ noted_now (now (rt_world st)) c (rt_error_counts st')
  /\ if (rc_max_conn_errors cfg <=? errors_of c (rt_error_counts st))%Z
     then queue_len tx (rt_world st') = queue_len tx (rt_world st)
          /\ errors_of c (rt_error_counts st') = errors_of c (rt_error_counts st)
     else (queue_len tx (rt_world st') <= queue_len tx (rt_world st) + 1)%nat
          /\ errors_of c (rt_error_counts st') = u32_succ (errors_of c (rt_error_counts st)).
Proof.
  intros (Hc & [t Ht] & Hex & Hreg) Hn Hipc Hnow. subst c. cbv zeta.
  unfold route_message. rewrite Hipc. simpl check_opt. cbn [negb]. rewrite Ht, Hex.
  fold (errors_of (m_conn_id m) (rt_error_counts st)). unfold throttled.
  fold (errors_of (m_conn_id m) (rt_error_counts st)).
  destruct (_ <=? _)%Z; [done|]. cbn [andb].
  assert (exists code text,
    (if t =s "kernel" then handle_kernel_message cfg rand m (rt_action_limiter st) (rt_world st)
     else if t =s "*" then let '(w, e) := broadcast m (rt_world st) in (rt_action_limiter st, w, e)
     else let '(w, e) := forward m t (rt_world st) in (rt_action_limiter st, w, e))
    = (rt_action_limiter st, send_error (m_write_tx m) code text (rt_world st), true))
    as (code & text & ->).
  { destruct (t =s "kernel"); [by apply kernel_message_unregistered|].
    destruct (t =s "*"); [rewrite broadcast_unregistered by done; eauto|].
    rewrite forward_unregistered by done. eauto. }
  pose proof (send_error_sends (m_write_tx m) code text (rt_world st)) as Hs.
  apply only_sends_fields in Hs as (Hr & _ & _ & _ & _ & _ & _ & Hclk).
  assert (now (send_error (m_write_tx m) code text (rt_world st)) = now (rt_world st)) as Hnw
    by (unfold now; by rewrite Hclk).
  simpl. rewrite Hnw. destruct (note_error cfg _ _ _ Hnow) as [H1 H2].
  split_and!; try done. apply queue_len_send.
Qed.

(** The error budget bounds amplification: an unregistered connection that
    sends any number of messages in one burst, whatever their targets and
    contents, receives at most [max_conn_errors] replies in total (frames with an
    undecodable target and the payload kinds exempt from throttling apart). *)
Theorem burst_replies_bounded cfg rand c tx msgs st :
  (forall m, m ∈ msgs -> junk c m) ->
  is_registered c (w_reg (rt_world st)) = false -> rt_ipc_limiter st = None ->
  rt_error_counts st !! c = None -> (0 <= rc_max_conn_errors cfg <= u32_max)%Z ->
  (queue_len tx (rt_world (route_all cfg rand msgs st))
   <= queue_len tx (rt_world st) + Z.to_nat (rc_max_conn_errors cfg))%nat.
Proof.
  intros Hj Hn Hipc Hcnt Hmax.
  assert (forall k, (0 <= k <= rc_max_conn_errors cfg)%Z ->
    errors_of c (rt_error_counts st) = k -> noted_now (now (rt_world st)) c (rt_error_counts st) ->
    (queue_len tx (rt_world (route_all cfg rand msgs st))
     <= queue_len tx (rt_world st) + Z.to_nat (rc_max_conn_errors cfg - k))%nat) as Hgen.
  { clear Hcnt. revert st Hn Hipc. induction msgs as [|m msgs IH];
      intros st Hn Hipc k Hk Hc Hnow; simpl; [lia|].
    destruct (junk_step cfg rand c tx m st) as (Hr & Hi & Ht & Hn' & Hq);
      [apply Hj; left|done..|]. rewrite <- Ht in Hn'. rewrite <- Hr in Hn.
    destruct (Z.leb_spec (rc_max_conn_errors cfg) (errors_of c (rt_error_counts st))).
    - destruct Hq as [Hq He].
      specialize (IH ltac:(intros; apply Hj; by right) _ Hn Hi k Hk ltac:(congruence) Hn').
      unfold route_all in *. lia.
    - destruct Hq as [Hq He]. rewrite Hc in *.
      assert (u32_succ k = k + 1)%Z as Hsucc.
      { unfold u32_succ, u32_max in *. apply Z.mod_small. lia. }
      specialize (IH ltac:(intros; apply Hj; by right) _ Hn Hi (k + 1)%Z ltac:(lia)
        ltac:(congruence) Hn'). unfold route_all in *. lia. }
  specialize (Hgen 0%Z). rewrite Z.sub_0_r in Hgen. apply Hgen; [lia| |].
  - unfold errors_of. by rewrite Hcnt.
  - intros k last. by rewrite Hcnt.
Qed.

Lemma route_undecodable cfg rand msg st :
  rt_ipc_limiter st = None -> target_as_str (m_frame msg) = None ->
  route_message cfg rand msg st
  = mkRouterState (send_error (m_write_tx msg) ErrUnknown "invalid UTF-8 in frame target"
                     (rt_world st)) (rt_error_counts st) None (rt_action_limiter st).
Proof. intros Hipc Ht. unfold route_message. by rewrite Hipc, Ht. Qed.

(** A frame whose target is not UTF-8 escapes the error budget: the kernel
    answers it with an error every time, even on a throttled connection, and
    never counts it, so a burst of [n] such frames costs [n] replies. *)
Theorem undecodable_target_unbudgeted cfg rand msg st n c :
  rt_ipc_limiter st = None -> target_as_str (m_frame msg) = None -> encodable ->
  w_chans (rt_world st) !! m_write_tx msg = Some c -> ch_closed c = false ->
  (length (ch_queue c) + n <= ch_capacity c)%nat ->
  let st' := route_all cfg rand (replicate n msg) st in
  queue_len (m_write_tx msg) (rt_world st') = (queue_len (m_write_tx msg) (rt_world st) + n)%nat
  /\ rt_error_counts st' = rt_error_counts st.
Proof.
  intros Hipc Ht Henc. cbv zeta. revert st c Hipc.
  induction n as [|n IH]; intros st c Hipc Hc Hopen Hroom; simpl; [split; [lia|done]|].
  rewrite route_undecodable by done.
  destruct (send_envelope_at (m_write_tx msg) (PError ErrUnknown "invalid UTF-8 in frame target"
    EmptyString) (rt_world st) c) as (o & Ho & _); [done..|lia|].
  destruct (IH (mkRouterState (send_error (m_write_tx msg) ErrUnknown
    "invalid UTF-8 in frame target" (rt_world st)) (rt_error_counts st) None
    (rt_action_limiter st)) (appended c [o])) as [IH1 IH2]; [done|exact Ho|done| |].
  { simpl. rewrite length_app. simpl. lia. }
  split; [|exact IH2]. etransitivity; [exact IH1|]. unfold queue_len. simpl rt_world. unfold send_error. rewrite Ho, Hc. simpl.
  rewrite length_app. simpl. lia.
Qed.
End throttle.

Section departures.
Context {WI : Wire} {SI : Serde}.

Lemma forward_pending_slot msg t s target w env req :
  decode (f_payload (m_frame msg)) = Some env -> env_payload env = Some (PActionRequest req) ->
  rq_action req = EmptyString -> str_contains "." t = true ->
  forward_pending msg t s target w
  = upd_reg (register_pending_action (rq_action_id req)
      (mkPending (m_write_tx msg) (rq_action_id req) s (now w + from_millis 30000)
         (pe_plugin_id target) (rq_streaming req) false (now w))) w.
Proof. intros Hd Hp Ha Ht. unfold forward_pending. by rewrite Hd, Hp, Ha, Ht. Qed.

(** A unicast action request to a device capability files its pending slot
    under the sender's own action id, not under a kernel-minted one: if that id
    equals the correlation id of somebody else's in-flight action, the slot is
    overwritten, and the provider of the overwritten action can no longer answer
    its requester. *)
Theorem forward_overwrites_slot msg t w w' env req target victim :
  forward msg t w = (w', false) -> get_mux t (w_reg w) = Some target ->
  decode (f_payload (m_frame msg)) = Some env -> env_payload env = Some (PActionRequest req) ->
  rq_action req = EmptyString -> str_contains "." t = true ->
  pending_actions (w_reg w) !! rq_action_id req = Some victim ->
  pa_provider_id victim <> pe_plugin_id target ->
  (exists p, pending_actions (w_reg w') !! rq_action_id req = Some p
     /\ pa_requester_write_tx p = m_write_tx msg)
  /\ forall c provider, get_by_conn_id c (w_reg w') = Some provider ->
       pe_plugin_id provider = pa_provider_id victim ->
       answerable c (rq_action_id req) (w_reg w') = None.
Proof.
  intros Hf Hm Hd Hp Ha Ht Hv Hne. unfold forward in Hf.
  destruct (get_by_conn_id _ _) as [sender|]; [|done].
  destruct (is_err _); [done|]. destruct (get _ _) as [se|]; [|done]. rewrite Hm in Hf.
  destruct (negb (pe_user_id target =s _)); [done|]. destruct (negb _); [done|].
  destruct (audio_blocked _ _ _); [done|].
  rewrite (forward_pending_slot _ _ _ _ _ _ _ Hd Hp Ha Ht) in Hf. simplify_eq. simpl.
  unfold answerable. simpl. rewrite !lookup_insert_eq. split; [by eexists|].
  intros c provider -> Hprov. simpl. rewrite Hprov.
  by destruct (str_eqb_spec (pe_plugin_id target) (pa_provider_id victim)); [congruence|].
Qed.

(** The device_callers policy looks the device up under the sender's plugin
    id: with the policy set and a device not listed in it, every call of the
    device's own (mux) registration is denied, whatever local plugin it names,
    while no call of a plugin of that same device that registered under another
    id (such as [<device>.<capability>]) is denied. *)
Theorem device_callers_only_mux cfg r rules d s claimed :
  rc_device_callers cfg = Some rules -> rules !! d = None ->
  is_Some (get_device d r) -> get_device s r = None ->
  caller_denied cfg d (device_caller r d claimed) = true
  /\ caller_denied cfg s (device_caller r s claimed) = false.
Proof.
  intros Hcfg Hrules [dev Hd] Hs. unfold device_caller. rewrite Hd, Hs. simpl. rewrite Hcfg.
  unfold allowed_by. by rewrite Hrules.
Qed.

Lemma unsubscribe_all_row p b t :
  bus_ok b -> p ∉ row_of t (subscriptions (unsubscribe_all p b)).
Proof.
  intros Hok Hin. apply (unsubscribe_all_ok p b Hok) in Hin. revert Hin.
  unfold unsubscribe_all. destruct (by_plugin b !! p) as [types|] eqn:Hp; simpl; unfold row_of.
  - rewrite lookup_delete_eq. set_solver.
  - rewrite Hp. set_solver.
Qed.

(** A connection loss ends a plugin's subscriptions, a stop does not: the
    disconnect of a registered connection removes its plugin from every event's
    targets, but when the manager unregisters the plugin first, the disconnect
    that follows finds no entry and does nothing, so the id stays subscribed and
    the next plugin registered under it receives those events. *)
Theorem stop_keeps_subscriptions w c e t :
  kernel_ok w -> get_by_conn_id c (w_reg w) = Some e ->
  pe_plugin_id e ∈ event_targets t (w_bus w) ->
  pe_plugin_id e ∉ event_targets t (w_bus (disconnect_step c w))
  /\ disconnect_step c (unregister (pe_plugin_id e) w) = unregister (pe_plugin_id e) w
  /\ pe_plugin_id e ∈ event_targets t (w_bus (unregister (pe_plugin_id e) w)).
Proof.
  intros Hok He Hsub. destruct (conn_entry_live _ _ _ (co_reg _ _ Hok) He) as [Hlive Hcid].
  split.
  - unfold disconnect_step. rewrite He. unfold unregister_conn.
    destruct (unregister_if _ _ _) as [w1 b] eqn:Hu.
    apply unregister_if_cases in Hu as [(-> & -> & Hno)|(e' & -> & _ & _ & _ & _ & Hb)].
    { specialize (Hno _ Hlive). simpl in Hno. apply N.eqb_neq in Hno. done. }
    rewrite publish_bus. simpl. rewrite Hb. unfold event_targets.
    intros [Hin|Hin]%elem_of_union; by eapply unsubscribe_all_row in Hin; [|apply Hok].
  - unfold unregister. destruct (unregister_if _ _ _) as [w1 b] eqn:Hu. simpl.
    apply unregister_if_cases in Hu as [(-> & -> & Hno)|(e' & -> & He' & _ & _ & Hbc & Hb)].
    { specialize (Hno _ Hlive). done. }
    rewrite Hlive in He'. simplify_eq. rewrite Hb. split; [|done].
    apply disconnect_unknown. rewrite Hbc. apply lookup_delete_eq.
Qed.

(** A configuration reload that applied nothing reports one empty name
    instead of an empty list: the list rendered between the brackets is then
    the empty string in quotes. *)
Lemma reload_reports_empty_name load path level port r t t0 params :
  load path = Ok (level, port) ->
  dispatch load (fun _ => false) "reload_config" r t t0 (Some path) params
  = outcome_ok ("{" +:+ quoted "reloaded" +:+ ":[" +:+ quoted "" +:+ "],"
      +:+ quoted "log_level" +:+ ":" +:+ quoted level +:+ ","
      +:+ quoted "port" +:+ ":" +:+ fmt_Z port +:+ "}").
Proof. intros Hl. unfold dispatch. simpl. by rewrite Hl. Qed.
End departures.
