(* ===== verification/Witnesses.v ===== *)
(** * Concrete runs of the kernel

    A small concrete kernel (wire codec by table, three plugins, four
    channels) on which the hypotheses of the kernel theorems hold and their
    conclusions are observed. *)

From S2P Require Import Prelude Errors Wire Validate Registry RegistryInv RegistryProps Events.
From S2P Require Import Auth Kernel Router KernelInv RouterInv RouterProps RouterSafety RegistrationProps.
From S2P Require Import KernelProps Lazy Broker BrokerProps.

(** ** The concrete interfaces *)
Definition demo_request (id action : string) : ActionRequest :=
  mkActionRequest id action [] 0 false "".

Definition demo_register (p : string) : PluginRegister :=
  mkPluginRegister p None "" "" "" "" 0 "" "" [].

Definition demo_decode (b : bytes) : option Envelope :=
  match b with
  | [Byte.x01] => Some (envelope_reply "m1" (PPluginRegister (demo_register "new")))
  | [Byte.x02] => Some (envelope_reply "m2" (PActionRequest (demo_request "r1" "do")))
  | [Byte.x03] => Some (envelope_reply "m3" (PPing 7))
  | [Byte.x04] => Some (envelope_reply "m4" (PActionRequest (demo_request "kact-0" "")))
  | [Byte.x05] => Some (envelope_reply "m5" (PActionResponse (mkActionResponse "kact-0" 1 [] "")))
  | _ => None
  end.

#[local] Instance demo_wire : Wire := {|
  encode _ := Some [Byte.x00];
  decode := demo_decode;
  crc32 _ := 0%Z;
  target_as_str f := match f_target f with
                     | [Byte.xff] => None
                     | t => Some (string_of_bytes t)
                     end;
  parse_frag_header _ := None;
  serialize_header _ := [];
  compute_tag _ _ _ := [];
  verify_tag _ _ _ _ := true;
  derive_session_key ikm _ _ := ikm;
  perm_str_name p := match p with
                     | PermissionIpcSend => "PERMISSION_IPC_SEND"
                     | PermissionAudioStream => "PERMISSION_AUDIO_STREAM"
                     | PermissionNetwork => "PERMISSION_NETWORK"
                     | _ => "PERMISSION_OTHER"
                     end;
  perm_from_str_name _ := None;
  action_status_i32 s := if decide (s = ActionOk) then 1%Z else 2%Z;
  device_os_try_from _ := None;
  PROTOCOL_VERSION := "1.7"
|}.

#[local] Instance demo_serde : Serde := {|
  json_to_string _ := "{}";
  json_from_slice _ := None
|}.

#[local] Instance demo_gov : Governor := {|
  bucket := unit;
  gov_check _ _ _ := (tt, true);
  gov_recent _ _ _ := true
|}.

#[local] Instance demo_crypto : Crypto := {|
  hkdf_sha256 _ ikm info := ikm ++ info;
  sha256 b := b;
  aes_encrypt _ _ _ m := Some m;
  aes_decrypt _ _ _ c := Some c;
  base64url b := string_of_bytes b
|}.

#[local] Instance demo_jwt : Jwt := {|
  jwt_decode _ _ _ _ := Err "no token";
  jwt_encode _ _ := Err "no token"
|}.

#[local] Instance demo_rows : RowCodec DeviceRecord := {|
  rows_print _ := "[]";
  rows_parse _ := Ok []
|}.

(** ** The concrete kernel *)
Definition app_manifest : PluginManifest :=
  mkManifest ["ipc_send"; "network"] [] [] ["svc"; "phone"] [] [].
Definition svc_manifest : PluginManifest := mkManifest ["network"] ["do"] [] [] [] [].

Definition kreg : Registry :=
  let r := registry_new in
  let r := (register_with_device demo_clk "app" 1 app_manifest 1 (demo_meta "") r).1 in
  let r := (register_with_device demo_clk "svc" 2 svc_manifest 2 (demo_meta "") r).1 in
  let r := (register_device demo_clk "phone" 3 ["geo"] manifest_default 3
              (demo_meta "phone") r).1 in
  let r := (register_with_device demo_clk "phone.cam" 4 manifest_default 4
              (demo_meta "phone") r).1 in
  set_action_requirements "svc" {["do" := PermissionNetwork]} r.

Definition open_chan : Chan := mkChan 8 [] false.
Definition kchans : Chans :=
  (<[1%N := open_chan]> (<[2%N := open_chan]> (<[3%N := open_chan]> (<[9%N := open_chan]> ∅)))).

Definition kworld : World :=
  mkWorld kreg kchans (subscribe "app" ["system.plugin_joined"] bus_new) None 0 0 0 None None
    demo_clk true.

Definition kcfg : RouterCfg :=
  mkRouterCfg None 0 None (Some [Byte.x01]) false (Some {["new" := ["network"]]}) None None
    (Some 4%Z) 30000 3 100 None None None (fun _ => Err ETimeout) (fun _ => false).

Definition kframe (target payload : bytes) : Frame := mkFrame 0 1 1 target 0 payload None.
Definition kmsg (conn tx : N) (target payload : bytes) : IncomingMessage :=
  mkMsg conn (kframe target payload) tx 0 0.
Definition kstate (w : World) : RouterState := mkRouterState w ∅ None None.

Definition to_kernel : bytes := str_bytes "kernel".

Lemma kreg_reachable : reg_reachable kreg.
Proof.
  unfold reg_reachable, kreg. cbv zeta.
  eapply rtc_r; [|apply step_set_requirements]. eapply rtc_r; [|apply step_register].
  eapply rtc_r; [|apply step_register_device]. eapply rtc_r; [|apply step_register].
  eapply rtc_r; [|apply step_register]. apply rtc_refl.
Qed.

Lemma kworld_ok : kernel_ok kworld.
Proof.
  split.
  - apply reg_reachable_inv, kreg_reachable.
  - intros k p Hk. vm_compute in Hk. discriminate.
  - apply bus_reachable_ok. apply rtc_once. constructor.
Qed.

Lemma kencodable : encodable.
Proof. intros env. by eexists. Qed.



Definition k_action : option (Limiter (string * string)) * World * bool :=
  handle_action_request kcfg "m2" (demo_request "r1" "do") (kmsg 1 1 to_kernel [Byte.x02]) None
    kworld.

Lemma k_action_eq :
  handle_action_request kcfg "m2" (demo_request "r1" "do") (kmsg 1 1 to_kernel [Byte.x02]) None
    kworld = (k_action.1.1, k_action.1.2, k_action.2).
Proof. unfold k_action. by destruct (handle_action_request _ _ _ _ _ _) as [[? ?] ?]. Qed.

(** "app" calls "do": the slot is "kact-0", routed to "svc". *)
Lemma action_request_authorized_witness :
  exists p, pending_actions (w_reg k_action.1.2) !! "kact-0" = Some p
    /\ p = slot_for kcfg (kmsg 1 1 to_kernel [Byte.x02]) (demo_request "r1" "do")
             (sender_of 1 kreg) (pa_provider_id p) (now kworld)
    /\ sender_of 1 kreg = "app"%string.
Proof.
  destruct (pending_actions (w_reg k_action.1.2) !! "kact-0") as [p|] eqn:Hp;
    [|vm_compute in Hp; discriminate].
  exists p. split; [reflexivity|].
  destruct (action_request_authorized kcfg "m2" (demo_request "r1" "do")
    (kmsg 1 1 to_kernel [Byte.x02]) None kworld k_action.1.1 k_action.1.2 k_action.2 "kact-0" p
    k_action_eq Hp) as (_ & H & _); [vm_compute; discriminate|].
  split; [exact H|vm_compute; reflexivity].
Defined.


(** "app" unicasts to "svc": delivered on channel 2 with the MAC flag off. *)
Lemma forward_authorized_witness :
  (forward (kmsg 1 1 (str_bytes "svc") [Byte.x03]) "svc" kworld).2 = false
  /\ exists sender, may_send kreg (kmsg 1 1 (str_bytes "svc") [Byte.x03]) sender.
Proof.
  pose proof (forward_authorized (kmsg 1 1 (str_bytes "svc") [Byte.x03]) "svc" kworld
    kworld_ok) as H.
  destruct (forward _ _ _) as [w' e] eqn:E.
  assert (e = false) as -> by (vm_compute in E; by injection E as _ <-).
  split; [reflexivity|]. destruct H as (sender & Hs & _). by exists sender.
Defined.

(** "app" broadcasts: only "svc" and "phone" are recipients. *)
Lemma broadcast_exact_witness :
  exists sender, may_send kreg (kmsg 1 1 (str_bytes "*") [Byte.x03]) sender
    /\ length (recipients kreg (kmsg 1 1 (str_bytes "*") [Byte.x03]) sender) = 2%nat.
Proof.
  pose proof (broadcast_exact (kmsg 1 1 (str_bytes "*") [Byte.x03]) kworld kworld_ok) as H.
  destruct (broadcast _ _) as [w' e] eqn:E.
  assert (e = false) as -> by (vm_compute in E; by injection E as _ <-).
  destruct H as (sender & Hs & _). exists sender. split; [exact Hs|].
  destruct Hs as [Hc _]. vm_compute in Hc. injection Hc as <-. vm_compute. reflexivity.
Defined.

Definition k_registered : World * bool :=
  handle_register kcfg [Byte.x09] "m1" (demo_register "new") (kmsg 5 9 to_kernel [Byte.x01]) kworld.

(** Connection 5 registers "new". *)
Lemma registration_gate_witness :
  exists e, by_plugin_id (w_reg k_registered.1) !! "new" = Some e
    /\ within_allowlist kcfg "new" (mf_permissions (pe_manifest e)).
Proof.
  destruct (by_plugin_id (w_reg k_registered.1) !! "new") as [e|] eqn:He;
    [|vm_compute in He; discriminate].
  exists e. split; [reflexivity|].
  destruct (registration_gate kcfg [Byte.x09] "m1"
    (demo_register "new") (kmsg 5 9 to_kernel [Byte.x01]) kworld k_registered.1 k_registered.2
    "new" e kworld_ok) as (_ & _ & _ & _ & H);
    [vm_compute; reflexivity|apply surjective_pairing|exact He| |exact H].
  vm_compute in He. injection He as <-. reflexivity.
Defined.

(** The holder "phone.cam" has a closed channel (4 has no receiver): connection 5
    takes the id over; the late disconnect of connection 4 changes nothing. *)
Definition k_reg_cam : PluginRegister :=
  mkPluginRegister "phone.cam" None "" "" "phone" "" 0 "" "" [].
Definition k_takeover : World * bool :=
  handle_register kcfg [Byte.x09] "m1" k_reg_cam (kmsg 5 9 to_kernel [Byte.x01]) kworld.

Lemma id_takeover_witness :
  disconnect_step 4 k_takeover.1 = k_takeover.1
  /\ is_registered 5 (w_reg k_takeover.1) = true.
Proof.
  split; [|vm_compute; reflexivity].
  destruct (by_plugin_id kreg !! "phone.cam") as [old|] eqn:Ho; [|vm_compute in Ho; discriminate].
  destruct (by_plugin_id (w_reg k_takeover.1) !! "phone.cam") as [new|] eqn:Hn;
    [|vm_compute in Hn; discriminate].
  destruct (id_takeover kcfg [Byte.x09] "m1" k_reg_cam (kmsg 5 9 to_kernel [Byte.x01]) kworld
    k_takeover.1 k_takeover.2 old kworld_ok (surjective_pairing _) Ho) as [_ H].
  specialize (H new Hn). vm_compute in Ho, Hn. injection Ho as <-. injection Hn as <-.
  apply H. discriminate.
Defined.

Lemma mac_after_ack_witness :
  exists later, w_chans (finish_register kcfg [Byte.x09] "m1" (kmsg 5 9 to_kernel [Byte.x01])
      "new" None (Ok tt) kworld) !! 9%N
    = Some (appended open_chan ([OFrame (build_frame "client" 0 [Byte.x00]);
        OEnableMac (derive_session_key (mac_ikm kcfg [Byte.x01] None "new") [Byte.x09] "new") 0]
        ++ later)).
Proof.
  apply (mac_after_ack kcfg [Byte.x09] "m1" (kmsg 5 9 to_kernel [Byte.x01]) "new" None kworld
    [Byte.x01] open_chan [Byte.x00]);
    [reflexivity|discriminate|reflexivity|reflexivity|simpl; lia|reflexivity].
Defined.

(** "svc" disconnects while "app" waits for it. *)
Lemma provider_gone_answers_all_witness :
  has_pending_for_provider "svc" (w_reg (unregister "svc" k_action.1.2)) = false
  /\ queue_len 1 (unregister "svc" k_action.1.2) = 1%nat.
Proof.
  split; [|vm_compute; reflexivity].
  refine (proj1 (provider_gone_answers_all "svc" (fun _ => true) k_action.1.2
    (unregister "svc" k_action.1.2) 1 open_chan kencodable _ _ _ _));
    [vm_compute; reflexivity|vm_compute; reflexivity|reflexivity|vm_compute; lia].
Defined.

Definition k_late : World :=
  let w := k_action.1.2 in
  mkWorld (w_reg w) (w_chans w) (w_bus w) (w_store w) (w_msg_seq w) (w_action_seq w)
    (w_event_seq w) (w_lazy w) (w_bridge w) (mkClock 40000000000 2000) true.

(** Forty seconds later the call has timed out. *)
Lemma prune_times_out_witness :
  queue_len 1 (rt_world (prune_step kcfg (kstate k_late))) = 1%nat
  /\ forall k p, pending_actions (w_reg (rt_world (prune_step kcfg (kstate k_late)))) !! k = Some p
       -> is_expired 40000000000 p = false.
Proof.
  split; [vm_compute; reflexivity|].
  refine (proj1 (prune_times_out kcfg (kstate k_late) 1 open_chan kencodable _ _ _));
    [vm_compute; reflexivity|reflexivity|vm_compute; lia].
Defined.

(** Seven pings from an unregistered connection with a budget of three. *)
Lemma burst_replies_bounded_witness :
  let msgs := replicate 7 (kmsg 7 9 to_kernel [Byte.x03]) in
  queue_len 9 (rt_world (route_all kcfg [] msgs (kstate kworld))) = 3%nat
  /\ (queue_len 9 (rt_world (route_all kcfg [] msgs (kstate kworld)))
      <= queue_len 9 kworld + 3)%nat.
Proof.
  split; [vm_compute; reflexivity|].
  apply (burst_replies_bounded kcfg [] 7 9 (replicate 7 (kmsg 7 9 to_kernel [Byte.x03]))
    (kstate kworld)).
  - intros m [-> _]%elem_of_replicate. split_and!; vm_compute; try reflexivity. by eexists.
  - vm_compute. reflexivity.
  - reflexivity.
  - reflexivity.
  - vm_compute. split; discriminate.
Defined.

(** Seven frames with an undecodable target: seven replies. *)
Lemma undecodable_target_unbudgeted_witness :
  queue_len 9 (rt_world (route_all kcfg [] (replicate 7 (kmsg 7 9 [Byte.xff] []))
    (kstate kworld))) = 7%nat.
Proof.
  apply (undecodable_target_unbudgeted kcfg [] (kmsg 7 9 [Byte.xff] []) (kstate kworld) 7
    open_chan); [reflexivity|reflexivity|apply kencodable|reflexivity|reflexivity|simpl; lia].
Defined.

(** "phone.geo" called directly with action id "kact-0" while "app" waits on
    "kact-0" from "svc". *)
Definition k_steal : World :=
  (forward (kmsg 1 1 (str_bytes "phone.geo") [Byte.x04]) "phone.geo" k_action.1.2).1.

Lemma forward_overwrites_slot_witness : answerable 2 "kact-0" (w_reg k_steal) = None.
Proof.
  destruct (get_mux "phone.geo" (w_reg k_action.1.2)) as [target|] eqn:Ht;
    [|vm_compute in Ht; discriminate].
  destruct (pending_actions (w_reg k_action.1.2) !! "kact-0") as [victim|] eqn:Hv;
    [|vm_compute in Hv; discriminate].
  destruct (get_by_conn_id 2 (w_reg k_steal)) as [provider|] eqn:Hp;
    [|vm_compute in Hp; discriminate].
  destruct (forward_overwrites_slot (kmsg 1 1 (str_bytes "phone.geo") [Byte.x04]) "phone.geo"
    k_action.1.2 k_steal (envelope_reply "m4" (PActionRequest (demo_request "kact-0" "")))
    (demo_request "kact-0" "") target victim) as [_ H];
    [vm_compute; reflexivity|exact Ht|reflexivity|reflexivity|reflexivity|reflexivity|exact Hv| |].
  - vm_compute in Ht, Hv. injection Ht as <-. injection Hv as <-. discriminate.
  - apply (H 2%N provider Hp). vm_compute in Hv, Hp. injection Hv as <-. injection Hp as <-.
    reflexivity.
Defined.

Definition kcfg_callers : RouterCfg :=
  mkRouterCfg None 0 None None false None None None None 30000 3 100 None None
    (Some ∅) (fun _ => Err ETimeout) (fun _ => false).

(** The unlisted device "phone" is denied; its plugin "phone.cam" is not. *)
Lemma device_callers_only_mux_witness :
  caller_denied kcfg_callers "phone" (device_caller kreg "phone" "x") = true
  /\ caller_denied kcfg_callers "phone.cam" (device_caller kreg "phone.cam" "x") = false.
Proof.
  apply (device_callers_only_mux kcfg_callers kreg ∅ "phone" "phone.cam" "x");
    [reflexivity|reflexivity|vm_compute; by eexists|vm_compute; reflexivity].
Defined.

(** "app" is stopped, then its connection closes: it is still subscribed. *)
Lemma stop_keeps_subscriptions_witness :
  "app" ∈ event_targets "system.plugin_joined"
    (w_bus (disconnect_step 1 (unregister "app" kworld))).
Proof.
  destruct (get_by_conn_id 1 kreg) as [e|] eqn:He; [|vm_compute in He; discriminate].
  destruct (stop_keeps_subscriptions kworld 1 e "system.plugin_joined" kworld_ok He)
    as (_ & H1 & H2).
  - vm_compute in He. injection He as <-. vm_compute. done.
  - assert (pe_plugin_id e = "app"%string) as Hid
      by (vm_compute in He; by injection He as <-).
    rewrite Hid in H1, H2. rewrite H1. exact H2.
Defined.

(** The broker: "app" has called "do", the kernel routed it to "svc" as "kact-0". *)
Definition kb_joined : World :=
  upd_reg (fun r => (register_with_device demo_clk "svc" 2 svc_manifest 2 (demo_meta "") r).1)
    (upd_reg (fun r => (register_with_device demo_clk "app" 1 app_manifest 1 (demo_meta "") r).1)
       (mkWorld registry_new kchans bus_new None 0 0 0 None None demo_clk true)).

Definition kb_called : RouterState :=
  route_message kcfg [] (kmsg 1 1 to_kernel [Byte.x02]) (kstate kb_joined).

Lemma kb_called_reachable : kernel_reachable kb_called.
Proof.
  exists kcfg, None, demo_clk. eapply rtc_r; [|apply ks_message].
  eapply rtc_r; [|apply ks_bridge_register]. eapply rtc_r; [|apply ks_bridge_register].
  eapply rtc_once. apply (ks_environment (world_empty None demo_clk) kchans None None demo_clk true).
Qed.


