(* ===== verification/Sandbox.v ===== *)
(** * Plugin sandboxing (src/plugins/fsaccess.rs, src/plugins/runner.rs,
    src/plugins/shim.rs, src/plugins/seccomp.rs)

    What the kernel itself decides about a plugin's confinement: the filesystem
    mode and its passage through the environment to the shim, the Landlock rules
    that are requested, the resource limits and the per-plugin process scope, the
    shim's readiness gate and its reap loop. The operating system and the
    landlock and seccompiler crates answer through the records [Host],
    [Landlock] and [Seccomp]. Paths are UTF-8 strings. *)

From S2P Require Import Prelude.

(** ** Paths: the parts of [std::path] the code uses *)
Inductive Component := RootDir | CurDir | ParentDir | Normal (part : string).

(** [Path::components]: empty pieces and inner [.] are dropped. *)
Definition piece_component (first : bool) (s : string) : list Component :=
  if str_is_empty s then []
  else if s =s "." then (if first then [CurDir] else [])
  else if s =s ".." then [ParentDir]
  else [Normal s].

Definition is_absolute (p : string) : bool := starts_with "/" p.

Definition components (p : string) : list Component :=
  match split "/" p with
  | [] => []
  | s :: rest =>
      (if is_absolute p then [RootDir] else piece_component true s)
        ++ concat (map (piece_component false) rest)
  end.

Definition component_str (c : Component) : string :=
  match c with
  | RootDir => EmptyString
  | CurDir => "."
  | ParentDir => ".."
  | Normal s => s
  end.

(** A path with the given components ([Path] equality is componentwise). *)
Definition path_of (cs : list Component) : string :=
  match cs with
  | [RootDir] => "/"
  | _ => join "/" (map component_str cs)
  end.

(** [Path::parent] *)
Definition parent (p : string) : option string :=
  match last (components p) with
  | None | Some RootDir => None
  | Some _ => Some (path_of (removelast (components p)))
  end.

(** [Path::join] *)
Definition path_join (p q : string) : string :=
  if is_absolute q then q
  else if str_is_empty p then q
  else match last (split "/" p) with
       | Some EmptyString => p +:+ q
       | _ => p +:+ "/" +:+ q
       end.

(** [s.split_whitespace()]: a byte at a time; the encodings of white space
    cannot start inside another character. *)
Fixpoint ws_tokens (fuel : nat) (cur : bytes) (l : bytes) : list bytes :=
  let flush := match cur with [] => [] | _ => [reverse cur] end in
  match fuel with
  | O => flush
  | S fuel' =>
      match l with
      | [] => flush
      | b :: l' =>
          match strip_any ws_codes l with
          | Some l'' => flush ++ ws_tokens fuel' [] l''
          | None => ws_tokens fuel' (b :: cur) l'
          end
      end
  end.

Definition split_whitespace (s : string) : list string :=
  string_of_bytes <$> ws_tokens (S (length (str_bytes s))) [] (str_bytes s).

(** ** src/plugins/fsaccess.rs *)
Inductive FsAccessMode := FsFull | FsReadOnly | FsNone.

#[export] Instance FsAccessMode_eq_dec : EqDecision FsAccessMode.
Proof. solve_decision. Defined.

Definition fs_as_str (m : FsAccessMode) : string :=
  match m with
  | FsFull => "full"
  | FsReadOnly => "read-only"
  | FsNone => "none"
  end.

Definition fs_parse (s : string) : option FsAccessMode :=
  if s =s "full" then Some FsFull
  else if (s =s "read-only") || (s =s "readonly") then Some FsReadOnly
  else if s =s "none" then Some FsNone
  else None.

Record FsRestriction := mkFsRestriction {
  fr_mode : FsAccessMode;
  fr_readonly_paths : list string;
  fr_writable_paths : list string
}.

Definition MAX_FS_ACCESS_ENV : string := "VYN_MAX_FS_ACCESS".
Definition RO_PATHS_ENV : string := "VYN_RO_PATHS".
Definition RW_PATHS_ENV : string := "VYN_RW_PATHS".
Definition PATH_SEP : ascii := ascii_of_N 31.

Definition join_paths_env (paths : list string) : string :=
  join (String PATH_SEP EmptyString) paths.

(** The process environment is a lookup function. *)
Definition Env : Type := string -> option string.

Definition parse_paths_env (env : Env) (name : string) : list string :=
  match env name with
  | Some v => filter (fun s => s <> EmptyString) (split PATH_SEP v)
  | None => []
  end.

Definition from_env (env : Env) : option FsRestriction :=
  match env MAX_FS_ACCESS_ENV with
  | None => None
  | Some v =>
      match fs_parse v with
      | None => None
      | Some mode =>
          if bool_decide (mode = FsFull) then None
          else Some (mkFsRestriction mode (parse_paths_env env RO_PATHS_ENV)
                       (parse_paths_env env RW_PATHS_ENV))
      end
  end.

(** The access sets [apply] computes, by name. *)
Inductive Access := AccessAll | AccessRead | AccessFileRead | AccessFileWrite | AccessSocket.

Definition grants_write (a : Access) : bool :=
  match a with AccessAll | AccessFileWrite => true | _ => false end.

Inductive PathKind := Missing | IsDir | IsFile.

Record Host := mkHost {
  h_kind : string -> PathKind;
  h_open_err : string -> option string;
  h_canonicalize : string -> option string;
  h_env : Env
}.

Inductive RulesetStatus := FullyEnforced | PartiallyEnforced | NotEnforced.

(** The landlock crate: creating the ruleset, adding a rule, enforcing it. *)
Record Landlock := mkLandlock {
  ll_create_err : option string;
  ll_add_err : string * Access -> option string;
  ll_restrict : list (string * Access) -> Result RulesetStatus string
}.

Definition path_exists (h : Host) (p : string) : bool :=
  match h_kind h p with Missing => false | _ => true end.

Definition default_system_read_dirs : list string :=
  ["/usr/lib"; "/usr/lib64"; "/lib"; "/lib64"].

(** The [PATH] search: the first directory that holds the command. *)
Definition resolve_binary_path (h : Host) (binary : string) : string :=
  if is_absolute binary then binary
  else if (1 <? Z.of_nat (length (components binary)))%Z then
    default binary (h_canonicalize h binary)
  else match h_env h "PATH" with
       | None => binary
       | Some paths =>
           match List.find (path_exists h)
                   (map (fun dir => path_join dir binary) (split ":" paths)) with
           | Some candidate => candidate
           | None => binary
           end
       end.

Definition rule_for (h : Host) (path : string) (dir_access file_access : Access)
    : Result (option (string * Access)) string :=
  match h_kind h path with
  | Missing => Ok None
  | k => match h_open_err h path with
         | Some e => Err e
         | None => Ok (Some (path, match k with IsDir => dir_access | _ => file_access end))
         end
  end.

(** One [if let Some(rule) = rule_for(..)? { created = created.add_rule(rule)? }]. *)
Definition add_path (h : Host) (ll : Landlock) (dir_access file_access : Access)
    (created : Result (list (string * Access)) string) (path : string)
    : Result (list (string * Access)) string :=
  let? rules := created in
  let? r := rule_for h path dir_access file_access in
  match r with
  | None => Ok rules
  | Some rule =>
      match ll_add_err ll rule with
      | Some e => Err e
      | None => Ok (rules ++ [rule])
      end
  end.

Definition binary_dir (h : Host) (plugin_binary : string) : list string :=
  match parent (resolve_binary_path h plugin_binary) with
  | Some dir => if str_is_empty dir then [] else [dir]
  | None => []
  end.

(** The rules [apply] adds, in order. *)
Definition fs_rules (h : Host) (ll : Landlock) (restriction : FsRestriction)
    (plugin_binary : string) (socket_path : option string)
    : Result (list (string * Access)) string :=
  let created := match ll_create_err ll with Some e => Err e | None => Ok [] end in
  let created := foldl (add_path h ll AccessRead AccessFileRead) created
                   default_system_read_dirs in
  let created := foldl (add_path h ll AccessRead AccessFileRead) created
                   (binary_dir h plugin_binary) in
  let created := add_path h ll AccessRead AccessFileRead created "/etc/ld.so.cache" in
  let created := match socket_path with
                 | Some sp => add_path h ll AccessSocket AccessSocket created sp
                 | None => created
                 end in
  let created := if bool_decide (fr_mode restriction = FsReadOnly)
                 then foldl (add_path h ll AccessRead AccessFileRead) created
                        (fr_readonly_paths restriction)
                 else created in
  foldl (add_path h ll AccessAll AccessFileWrite) created (fr_writable_paths restriction).

(** [apply]: the rules in force afterwards, or the error that fails the spawn. *)
Definition apply_fs (h : Host) (ll : Landlock) (restriction : FsRestriction)
    (plugin_binary : string) (socket_path : option string)
    : Result (list (string * Access)) string :=
  let? rules := fs_rules h ll restriction plugin_binary socket_path in
  let? status := ll_restrict ll rules in
  match status with
  | NotEnforced => Err "Landlock not enforced — kernel too old or Landlock unavailable"
  | _ => Ok rules
  end.

(** ** src/plugins/runner.rs *)
Definition DEFAULT_MAX_PROCS : Z := 1024.
Definition DEFAULT_MAX_VMEM_MB : Z := 2048.
Definition VYN_CGROUP_DIR : string := "vyn".

(** Operations of the child before [exec]; the host says which fail. *)
Inductive SysOp :=
| OpUnshare (flags : list string)
| OpWrite (path contents : string)
| OpSetRlimitAs (bytes : Z)
| OpSetPdeathsig
| OpUnblockSignals
| OpMountProc
| OpDupStdout
| OpWriteReady
| OpSocketpair
| OpSigaction (sig : string)
| OpBlockSignals
| OpMakePrivate.

Definition SysHost : Type := SysOp -> option string.

Fixpoint run_ops (sys : SysHost) (ops : list SysOp) : Result unit string :=
  match ops with
  | [] => Ok tt
  | op :: ops' => match sys op with Some e => Err e | None => run_ops sys ops' end
  end.

Definition join_pids_cgroup (sys : SysHost) (pid : N) (path : string) : bool :=
  match sys (OpWrite (path_join path "cgroup.procs") (fmt_N pid +:+ String (ascii_of_N 10) EmptyString)) with
  | None => true
  | Some _ => false
  end.

(** The [u64] product of release builds wraps. *)
Definition vmem_bytes (max_vmem_mb : Z) : Z := (max_vmem_mb * 1024 * 1024) mod 2 ^ 64.

(** The flag says whether the process joined its scope. *)
Definition apply_resource_limits (sys : SysHost) (pid : N) (max_procs max_vmem_mb : Z)
    (pids_cgroup : option string) : Result bool string :=
  let joined_cgroup := match pids_cgroup with
                       | Some path => join_pids_cgroup sys pid path
                       | None => false
                       end in
  if (max_vmem_mb =? 0)%Z then Ok joined_cgroup
  else match sys (OpSetRlimitAs (vmem_bytes max_vmem_mb)) with
       | Some e => Err e
       | None => Ok joined_cgroup
       end.

Definition nl : string := String (ascii_of_N 10) EmptyString.

Definition userns_ops (uid gid : N) : list SysOp :=
  [OpUnshare ["CLONE_NEWUSER"];
   OpWrite "/proc/self/setgroups" ("deny" +:+ nl);
   OpWrite "/proc/self/uid_map" ("0 " +:+ fmt_N uid +:+ " 1" +:+ nl);
   OpWrite "/proc/self/gid_map" ("0 " +:+ fmt_N gid +:+ " 1" +:+ nl)].

Definition sandbox_pre_exec (sys : SysHost) (uid gid pid : N) (max_procs max_vmem_mb : Z)
    (pids_cgroup : option string) : Result bool string :=
  let? _ := run_ops sys (if (uid =? 0)%N then [] else userns_ops uid gid) in
  let? _ := run_ops sys [OpUnshare ["CLONE_NEWNET"]] in
  apply_resource_limits sys pid max_procs max_vmem_mb pids_cgroup.

(** The cgroup file system as the supervisor meets it. *)
Record CgroupFs := mkCgroupFs {
  cg_is_file : string -> bool;
  cg_read : string -> option string;
  cg_mkdir : string -> bool;
  cg_write : string -> string -> bool
}.

Definition parse_cgroup_v2_line (line : string) : option string :=
  match strip_prefix "0::" line with
  | None => None
  | Some rest => let path := str_trim rest in
                 if str_is_empty path then None else Some path
  end.

(** [str::lines]: pieces between line feeds, a final empty piece and a carriage
    return before the line feed dropped. *)
Definition strip_cr (s : string) : string :=
  match last (str_bytes s) with
  | Some b => if (Byte.to_N b =? 13)%N then string_of_bytes (removelast (str_bytes s)) else s
  | None => s
  end.

Definition str_lines (s : string) : list string :=
  let pieces := split (ascii_of_N 10) s in
  let whole := map strip_cr (removelast pieces) in
  match last pieces with
  | Some EmptyString | None => whole
  | Some rest => whole ++ [rest]
  end.

Definition cgroup_relative_path (fs : CgroupFs) : option string :=
  match cg_read fs "/proc/self/cgroup" with
  | None => None
  | Some contents => head (omap parse_cgroup_v2_line (str_lines contents))
  end.

(** Root first, one more component each time. *)
Fixpoint extend_paths (acc : string) (cs : list Component) : list string :=
  match cs with
  | [] => []
  | Normal part :: cs' => let acc := path_join acc part in acc :: extend_paths acc cs'
  | _ :: cs' => extend_paths acc cs'
  end.

Definition ancestor_paths (self_path : string) : list string :=
  "/" :: extend_paths "/" (components self_path).

Definition has_pids_controller (fs : CgroupFs) (cgroup_dir : string) : bool :=
  match cg_read fs (path_join cgroup_dir "cgroup.subtree_control") with
  | None => false
  | Some ctl => str_mem "pids" (split_whitespace ctl)
  end.

Definition enable_pids_controller (fs : CgroupFs) (cgroup_dir : string) : bool :=
  match cg_read fs (path_join cgroup_dir "cgroup.subtree_control") with
  | None => false
  | Some ctl =>
      str_mem "pids" (split_whitespace ctl)
      || cg_write fs (path_join cgroup_dir "cgroup.subtree_control") ("+pids" +:+ nl)
  end.

(** [plugin_id.chars()]: a character is a byte that continues no other. *)
Definition char_heads (s : string) : list ascii :=
  List.filter (fun c => negb ((128 <=? ascii_n c)%N && (ascii_n c <=? 191)%N))
    (String.list_ascii_of_string s).

Definition scope_char (c : ascii) : bool :=
  is_ascii_alphanumeric c || Ascii.eqb c "." || Ascii.eqb c "_" || Ascii.eqb c "-".

Definition sanitize_plugin_id (plugin_id : string) : string :=
  let out := String.string_of_list_ascii
               (map (fun c => if scope_char c then c else "_"%char)
                  (take 63 (char_heads plugin_id))) in
  if (out =s EmptyString) || (out =s ".") || (out =s "..") then "plugin" else out.

(** One ancestor of the probe: [None] is [continue]. *)
Definition try_scope (fs : CgroupFs) (scope_name : string) (max_procs : Z)
    (ancestor : string) : option string :=
  let dir := path_join "/sys/fs/cgroup" (default ancestor (strip_prefix "/" ancestor)) in
  if negb (has_pids_controller fs dir) then None
  else
    let container := path_join dir VYN_CGROUP_DIR in
    if negb (cg_mkdir fs container) then None
    else if negb (enable_pids_controller fs container) then None
    else
      let scope := path_join container scope_name in
      if negb (cg_mkdir fs scope) then None
      else if cg_write fs (path_join scope "pids.max") (fmt_Z max_procs +:+ nl)
           then Some scope else None.

Definition prepare_pids_cgroup (fs : CgroupFs) (plugin_id : string) (max_procs : Z)
    : option string :=
  if negb (cg_is_file fs "/sys/fs/cgroup/cgroup.controllers") then None
  else match cgroup_relative_path fs with
       | None => None
       | Some self_cgroup =>
           head (omap (try_scope fs (sanitize_plugin_id plugin_id) max_procs)
                   (ancestor_paths self_cgroup))
       end.

(** ** src/plugins/seccomp.rs, on x86_64 *)
Definition denied : list string :=
  ["ptrace"; "bpf"; "keyctl"; "add_key"; "request_key"; "reboot"; "kexec_load";
   "kexec_file_load"; "init_module"; "finit_module"; "delete_module"; "mount"; "umount2";
   "pivot_root"; "chroot"; "setns"; "open_tree"; "move_mount"; "fsopen"; "fsconfig";
   "fspick"; "mount_setattr"; "open_by_handle_at"; "name_to_handle_at";
   "process_vm_readv"; "process_vm_writev"; "perf_event_open"; "userfaultfd";
   "io_uring_setup"; "io_uring_enter"; "io_uring_register"; "kcmp"; "swapon"; "swapoff";
   "acct"; "syslog"; "sethostname"; "setdomainname"; "modify_ldt"; "quotactl";
   "lookup_dcookie"; "vhangup"; "fanotify_init"].

Inductive SeccompAction := Allow | KillProcess.

(** The seccompiler crate: the target architecture, filter construction from
    the deny list with its default and match actions, compilation, installation. *)
Record Seccomp := mkSeccomp {
  sc_arch : option string;
  sc_new : list string -> SeccompAction -> SeccompAction -> option string;
  sc_compile : option string;
  sc_apply : option string
}.

Definition apply_seccomp (sc : Seccomp) : Result unit string :=
  match sc_arch sc with
  | Some e => Err ("seccomp: unsupported architecture x86_64: " +:+ e)
  | None =>
      match sc_new sc denied Allow KillProcess with
      | Some e => Err ("seccomp: invalid filter: " +:+ e)
      | None =>
          match sc_compile sc with
          | Some e => Err ("seccomp: compile failed: " +:+ e)
          | None => match sc_apply sc with
                    | Some e => Err ("seccomp: apply failed: " +:+ e)
                    | None => Ok tt
                    end
          end
      end
  end.

(** ** src/plugins/shim.rs *)

(** The plugin's [pre_exec] hook: [Ok] is reached only through the readiness
    byte, the last operation; the rules in force are its value. *)
Definition shim_pre_exec (sys : SysHost) (h : Host) (ll : Landlock) (sc : Seccomp)
    (fs_restriction : option FsRestriction) (plugin_binary : string)
    (socket_path : option string) : Result (option (list (string * Access))) string :=
  let? _ := run_ops sys [OpSetPdeathsig; OpUnblockSignals; OpMountProc; OpDupStdout] in
  let? rules := match fs_restriction with
                | None => Ok None
                | Some restriction =>
                    match apply_fs h ll restriction plugin_binary socket_path with
                    | Ok rs => Ok (Some rs)
                    | Err e => Err e
                    end
                end in
  let? _ := apply_seccomp sc in
  let? _ := run_ops sys [OpWriteReady] in
  Ok rules.

(** The readiness wait: what [poll] and [read] came back with. *)
Inductive ReadyPoll :=
| PollIn (read_result : Result (list Byte.byte) string)
| PollOther.

(** [Err] with [true]: the child was killed first. *)
Definition shim_await_ready (p : ReadyPoll) : Result unit (bool * string) :=
  match p with
  | PollIn (Ok [b]) =>
      if (Byte.to_N b =? 82)%N then Ok tt else Err (true, "plugin did not signal readiness")
  | PollIn (Ok _) => Err (true, "plugin did not signal readiness")
  | PollIn (Err _) => Err (false, "read readiness")
  | PollOther => Err (true, "plugin did not signal readiness within 10s")
  end.

(** [str::parse] of an unsigned integer: an optional plus, then digits, at least
    one, within the width. *)
Fixpoint parse_digits (acc : Z) (s : string) : option Z :=
  match s with
  | EmptyString => Some acc
  | String c s' =>
      if is_ascii_digit c then parse_digits (acc * 10 + (Z.of_N (ascii_n c) - 48))%Z s'
      else None
  end.

Definition parse_uint (max : Z) (s : string) : option Z :=
  let body := default s (strip_prefix "+" s) in
  if str_is_empty body then None
  else match parse_digits 0 body with
       | Some n => if (n <=? max)%Z then Some n else None
       | None => None
       end.

Definition shim_grace_secs (env : Env) : Z :=
  match env "VYN_SHIM_GRACE_SECS" with
  | Some s => default 5%Z (parse_uint u64_max s)
  | None => 5
  end.

Inductive WaitStatus :=
| WExited (code : Z)
| WSignaled (sig : Z)
| WAlive
| WInterrupted
| WFailed (e : string).

(** The reap loop's locals and flags; times are in milliseconds. *)
Record ShimState := mkShim {
  sh_kill_deadline : option Z;
  sh_sigkill_sent : bool
}.

(** What one iteration sees: [waitpid], the forwarded flag, the clock. *)
Record ShimPoll := mkPoll { sp_status : WaitStatus; sp_forwarded : bool; sp_now : Z }.

(** The escalation timer: armed on the first observation of a forwarded signal. *)
Definition arm_deadline (grace_secs : Z) (st : ShimState) (p : ShimPoll) : option Z :=
  match sh_kill_deadline st with
  | Some d => Some d
  | None => if sp_forwarded p then Some (sp_now p + grace_secs * 1000)%Z else None
  end.

Definition deadline_due (deadline : option Z) (now : Z) : bool :=
  match deadline with Some d => (d <=? now)%Z | None => false end.

(** One iteration: its result if the loop ends, whether SIGKILL was sent. *)
Definition shim_poll (grace_secs : Z) (st : ShimState) (p : ShimPoll)
    : option (Result Z string) * ShimState * bool :=
  match sp_status p with
  | WExited code => (Some (Ok code), st, false)
  | WSignaled sig => (Some (Ok (128 + sig)%Z), st, false)
  | WFailed e => (Some (Err e), st, false)
  | WInterrupted => (None, st, false)
  | WAlive =>
      let deadline := arm_deadline grace_secs st p in
      if deadline_due deadline (sp_now p)
      then (None, mkShim deadline true, negb (sh_sigkill_sent st))
      else (None, mkShim deadline (sh_sigkill_sent st), false)
  end.

(** The loop over a run of iterations: the result, if reached, and the times at
    which SIGKILL was sent. *)
Fixpoint shim_reap (grace_secs : Z) (st : ShimState) (polls : list ShimPoll)
    : option (Result Z string) * list Z :=
  match polls with
  | [] => (None, [])
  | p :: polls' =>
      let '(res, st, killed) := shim_poll grace_secs st p in
      let now := if killed then [sp_now p] else [] in
      match res with
      | Some r => (Some r, now)
      | None => let '(r, kills) := shim_reap grace_secs st polls' in (r, now ++ kills)
      end
  end.
