(* ===== verification/SandboxProps.v ===== *)
(** * Theorems on plugin sandboxing

    The restriction the supervisor writes is the one the shim reads; a rule of
    the Landlock ruleset only ever comes from the configuration or the fixed
    execution needs; the process scope stays below its container; a plugin that
    reports readiness is confined; the shim's escalation is sent once and not
    before its deadline. *)

From S2P Require Import Prelude Sandbox.

(** ** Splitting what was joined *)
Lemma join_cons sep x y l : join sep (x :: y :: l) = x +:+ sep +:+ join sep (y :: l).
Proof. done. Qed.

Lemma split_no_sep c s : str_contains c s = false -> split c s = [s].
Proof.
  induction s as [|a s IH]; [done|]. simpl.
  intros [Ha Hs]%orb_false_iff. by rewrite Ha, IH.
Qed.

Lemma split_app c p q :
  str_contains c p = false -> split c (p +:+ String c q) = p :: split c q.
Proof.
  induction p as [|a p IH].
  - intros _. change (EmptyString +:+ String c q) with (String c q). simpl.
    by rewrite Ascii.eqb_refl.
  - intros [Ha Hp]%orb_false_iff.
    change (String a p +:+ String c q) with (String a (p +:+ String c q)).
    simpl. by rewrite Ha, IH.
Qed.

Lemma split_join c l :
  l <> [] -> Forall (fun s => str_contains c s = false) l ->
  split c (join (String c EmptyString) l) = l.
Proof.
  intros Hne Hl. induction l as [|x [|y l] IH]; [done| |].
  - apply split_no_sep. by inversion Hl.
  - apply Forall_cons in Hl as [Hx Hl]. rewrite join_cons.
    change (String c EmptyString +:+ ?r) with (String c r).
    rewrite split_app by done. f_equal. by apply IH.
Qed.

Definition env_path (p : string) : Prop := p <> EmptyString /\ str_contains PATH_SEP p = false.

Lemma filter_Forall {A} (P : A -> Prop) `{!∀ x, Decision (P x)} (l : list A) :
  Forall P l -> base.filter P l = l.
Proof.
  induction 1 as [|x l Hx Hl IH]; [done|]. rewrite filter_cons_True by done. by f_equal.
Qed.

Lemma paths_env_roundtrip env name paths :
  Forall env_path paths -> env name = Some (join_paths_env paths) ->
  parse_paths_env env name = paths.
Proof.
  intros Hp He. unfold parse_paths_env. rewrite He. unfold join_paths_env.
  destruct paths as [|p paths]; [done|].
  rewrite split_join; [|done|].
  - apply filter_Forall. eapply Forall_impl; [exact Hp|]. by intros ? [? _].
  - eapply Forall_impl; [exact Hp|]. by intros ? [_ ?].
Qed.

(** ** Landlock rules *)
Section landlock.
Context (h : Host) (ll : Landlock).

(** [P] holds of every rule added so far. *)
Definition all_rules (P : string * Access -> Prop) (c : Result (list (string * Access)) string)
    : Prop :=
  match c with Ok rules => Forall P rules | Err _ => True end.

Lemma add_path_all P da fa c path :
  all_rules P c -> (path_exists h path = true -> P (path, da) /\ P (path, fa)) ->
  all_rules P (add_path h ll da fa c path).
Proof.
  unfold add_path, rule_for, path_exists. intros Hc Hp.
  destruct c as [rules|]; [|done].
  destruct (h_kind h path); [done|..]; destruct (Hp eq_refl) as [Hd Hf];
    destruct (h_open_err h path); try done; simpl;
    destruct (ll_add_err ll _); try done; simpl; apply Forall_app; auto.
Qed.

Lemma add_paths_all P da fa paths c :
  all_rules P c ->
  (forall p, p ∈ paths -> path_exists h p = true -> P (p, da) /\ P (p, fa)) ->
  all_rules P (foldl (add_path h ll da fa) c paths).
Proof.
  revert c. induction paths as [|p paths IH]; simpl; intros c Hc Hp; [done|].
  apply IH; [apply add_path_all|]; try done; intros; apply Hp; try done;
    apply elem_of_cons; auto.
Qed.

(** Where a rule of the ruleset can come from. *)
Definition rule_origin (fr : FsRestriction) (binary : string) (socket : option string)
    (r : string * Access) : Prop :=
  path_exists h r.1 = true /\
  match r.2 with
  | AccessAll | AccessFileWrite => r.1 ∈ fr_writable_paths fr
  | AccessSocket => socket = Some r.1
  | AccessRead | AccessFileRead =>
      r.1 ∈ default_system_read_dirs \/ r.1 ∈ binary_dir h binary \/ r.1 = "/etc/ld.so.cache"
      \/ (fr_mode fr = FsReadOnly /\ r.1 ∈ fr_readonly_paths fr)
  end.

Lemma fs_rules_origin fr binary socket :
  all_rules (rule_origin fr binary socket) (fs_rules h ll fr binary socket).
Proof.
  unfold fs_rules, rule_origin. apply add_paths_all; [|naive_solver].
  case_bool_decide as Hm; [apply add_paths_all; [|naive_solver]|].
  all: destruct socket; [apply add_path_all; [|naive_solver]|].
  all: apply add_path_all; [|naive_solver].
  all: apply add_paths_all; [|naive_solver]; apply add_paths_all; [|naive_solver].
  all: by destruct (ll_create_err ll); simpl.
Qed.
End landlock.

(** A sandboxed plugin that reported readiness runs under the ruleset the
    configuration describes: with a restriction set, Landlock is enforced, a
    rule that grants writing is on a configured writable path, a rule that
    grants reading is on a system library directory, the plugin's own
    directory, the loader cache or (in read-only mode only) a configured
    read-only path, the one socket rule is on the kernel's socket, and the
    seccomp deny list was installed with kill as its
    match action. *)
Theorem ready_plugin_confined sys h ll sc fr binary socket rules :
  shim_pre_exec sys h ll sc (Some fr) binary socket = Ok rules ->
  exists rs st,
    rules = Some rs /\ ll_restrict ll rs = Ok st /\ st <> NotEnforced /\
    Forall (rule_origin h fr binary socket) rs /\
    sc_new sc denied Allow KillProcess = None /\ sc_apply sc = None /\
    sys OpWriteReady = None.
Proof.
  unfold shim_pre_exec, apply_fs. intros H.
  pose proof (fs_rules_origin h ll fr binary socket) as Hall.
  destruct (run_ops sys [OpSetPdeathsig; _; _; _]); [|done].
  destruct (fs_rules h ll fr binary socket) as [rs|]; [|done].
  destruct (ll_restrict ll rs) as [st|] eqn:Hst; [|done].
  exists rs, st. unfold apply_seccomp in H. simpl in H.
  destruct st; try done;
    destruct (sc_arch sc), (sc_new sc denied Allow KillProcess) eqn:?, (sc_compile sc),
      (sc_apply sc), (sys OpWriteReady); try done;
    by simplify_eq.
Qed.

(** ** The process scope *)
Lemma str_all_list p l :
  Forall (fun c => p c = true) l -> str_all p (String.string_of_list_ascii l) = true.
Proof. induction 1 as [|c l Hc _ IH]; [done|]. simpl. by rewrite Hc. Qed.

Lemma length_string_of_list l : String.length (String.string_of_list_ascii l) = length l.
Proof. induction l; simpl; congruence. Qed.

Lemma sanitize_safe id :
  let s := sanitize_plugin_id id in
  str_all scope_char s = true /\ String.length s <= 63 /\
  s <> EmptyString /\ s <> "." /\ s <> "..".
Proof.
  simpl. unfold sanitize_plugin_id. set (out := String.string_of_list_ascii _).
  destruct ((out =s "") || (out =s ".") || (out =s "..")) eqn:E; [split_and!; [done|simpl; lia|done..]|].
  boolify. split_and!; try done.
  - apply str_all_list, Forall_map, Forall_true. intros c.
    destruct (scope_char c) eqn:Hc; [done|]. reflexivity.
  - unfold out. rewrite length_string_of_list, length_map, length_take. lia.
Qed.

(** The process scope of a plugin, whatever bytes its id holds, is a direct
    child of the [vyn] container of an ancestor of the kernel's own cgroup that
    delegates the pids controller; its name has no separator and is not a dot
    entry; and the configured limit was written to it. *)
Theorem cgroup_scope_contained fs id max_procs scope :
  prepare_pids_cgroup fs id max_procs = Some scope ->
  exists self anc name,
    cgroup_relative_path fs = Some self /\ anc ∈ ancestor_paths self /\
    let dir := path_join "/sys/fs/cgroup" (default anc (strip_prefix "/" anc)) in
    has_pids_controller fs dir = true /\
    scope = path_join (path_join dir VYN_CGROUP_DIR) name /\
    str_contains "/" name = false /\ name <> "" /\ name <> "." /\ name <> ".." /\
    cg_write fs (path_join scope "pids.max") (fmt_Z max_procs +:+ nl) = true.
Proof.
  unfold prepare_pids_cgroup. destruct (negb _); [done|].
  destruct (cgroup_relative_path fs) as [self|]; [|done].
  intros Hh%head_Some_elem_of. apply list_elem_of_omap in Hh as (anc & Hanc & Ht).
  destruct (sanitize_safe id) as (Hall & _ & Hne & Hd & Hdd).
  exists self, anc, (sanitize_plugin_id id). split; [done|]. split; [done|]. cbv zeta.
  unfold try_scope in Ht. cbv zeta in Ht.
  destruct (has_pids_controller fs _); [|done]. simpl in Ht.
  destruct (negb (cg_mkdir fs _)); [done|]. destruct (negb _); [done|].
  destruct (negb (cg_mkdir fs _)); [done|]. destruct (cg_write fs _ _) eqn:Hw; simplify_eq.
  split_and!; try done. by eapply str_all_contains.
Qed.

(** ** The shim's reap loop *)
Lemma shim_reap_sent grace d polls : (shim_reap grace (mkShim d true) polls).2 = [].
Proof.
  revert d. induction polls as [|p polls IH]; intros d; [done|]. simpl. unfold shim_poll.
  destruct (sp_status p); try done; simpl.
  - destruct (deadline_due _ _); simpl;
      by specialize (IH (arm_deadline grace (mkShim d true) p)); destruct (shim_reap _ _ _).
  - by specialize (IH d); destruct (shim_reap _ _ _).
Qed.

(** The first iteration that sees the forwarded signal with the plugin alive. *)
Definition observes (p : ShimPoll) : Prop := sp_status p = WAlive /\ sp_forwarded p = true.

Lemma shim_reap_kills grace d polls t :
  t ∈ (shim_reap grace (mkShim d false) polls).2 ->
  (shim_reap grace (mkShim d false) polls).2 = [t] /\
  exists p, p ∈ polls /\ sp_status p = WAlive /\ sp_now p = t /\
    match d with
    | Some d0 => (d0 <= t)%Z
    | None => exists q, q ∈ polls /\ observes q /\ (sp_now q + grace * 1000 <= t)%Z
    end.
Proof.
  revert d. induction polls as [|p polls IH]; intros d Ht; [by apply elem_of_nil in Ht|].
  simpl in *. unfold shim_poll in *.
  destruct (sp_status p) eqn:Hs; simpl in *; try by apply elem_of_nil in Ht.
  - destruct (deadline_due (arm_deadline grace (mkShim d false) p) (sp_now p)) eqn:Hdue.
    + pose proof (shim_reap_sent grace (arm_deadline grace (mkShim d false) p) polls) as Hnil.
      simpl in *. destruct (shim_reap _ _ _) as [r kills]. simpl in *. subst kills.
      apply list_elem_of_singleton in Ht as ->. split; [done|].
      exists p. split; [left|]. split_and!; [done..|].
      unfold deadline_due, arm_deadline in Hdue. simpl in Hdue. destruct d as [d0|].
      * by boolify.
      * destruct (sp_forwarded p) eqn:Hf; [|done]. boolify.
        exists p. split; [left|]. done.
    + specialize (IH (arm_deadline grace (mkShim d false) p)).
      simpl in *. destruct (shim_reap _ _ _) as [r kills]. simpl in *.
      destruct (IH Ht) as (-> & q & Hq & Hqs & <- & Hd). split; [done|].
      exists q. split; [by right|]. split_and!; [done..|].
      unfold arm_deadline in Hd; simpl in Hd. destruct d as [d0|]; [done|].
      destruct (sp_forwarded p) eqn:Hf.
      * exists p. split; [left|]. done.
      * destruct Hd as (q' & ? & ? & ?). exists q'. split; [by right|]. done.
  - specialize (IH d). destruct (shim_reap _ _ _) as [r kills]. simpl in *.
    destruct (IH Ht) as (-> & q & Hq & Hqs & <- & Hd). split; [done|].
    exists q. split; [by right|]. split_and!; [done..|].
    destruct d; [done|]. destruct Hd as (q' & ? & ? & ?). exists q'. split; [by right|]. done.
Qed.

Lemma shim_reap_due grace d polls p :
  (shim_reap grace (mkShim (Some d) false) polls).1 = None ->
  p ∈ polls -> sp_status p = WAlive -> (d <= sp_now p)%Z ->
  (shim_reap grace (mkShim (Some d) false) polls).2 <> [].
Proof.
  induction polls as [|q polls IH]; intros Hr Hp Ha Hd; [by apply elem_of_nil in Hp|].
  simpl in *. unfold shim_poll in *.
  destruct (sp_status q) eqn:Hs; simpl in *; try done.
  - unfold arm_deadline in *; simpl in *.
    destruct (d <=? sp_now q)%Z eqn:Hdue; simpl in *.
    + by destruct (shim_reap _ (mkShim _ true) _).
    + apply elem_of_cons in Hp as [->|Hp]; [by boolify; lia|].
      destruct (shim_reap _ _ _) as [r kills]. simpl in *. by apply IH.
  - apply elem_of_cons in Hp as [->|Hp]; [congruence|].
    destruct (shim_reap _ _ _) as [r kills]. simpl in *. by apply IH.
Qed.

Definition shim_start : ShimState := mkShim None false.

Lemma shim_reap_quiet grace pre polls :
  Forall (fun p => ~ observes p) pre ->
  (shim_reap grace shim_start (pre ++ polls)).1 = None ->
  shim_reap grace shim_start (pre ++ polls) = shim_reap grace shim_start polls.
Proof.
  unfold shim_start, observes. induction 1 as [|p pre Hp _ IH]; [done|].
  simpl. unfold shim_poll. destruct (sp_status p) eqn:Hs; simpl; try done.
  - unfold arm_deadline. simpl. destruct (sp_forwarded p) eqn:Hf; [naive_solver|]. simpl.
    destruct (shim_reap _ _ (pre ++ polls)). simpl in *. done.
  - destruct (shim_reap _ _ (pre ++ polls)). simpl in *. done.
Qed.

(** The shim's escalation is sent exactly when it is due: at most once, only
    while the plugin is alive, never before the grace period has passed since
    the loop first saw a forwarded terminal signal; and a loop still running
    after it saw the plugin alive past that moment has sent it. *)
Theorem shim_escalates_once grace polls :
  (forall t, t ∈ (shim_reap grace shim_start polls).2 ->
    (shim_reap grace shim_start polls).2 = [t] /\
    exists p q, p ∈ polls /\ sp_status p = WAlive /\ sp_now p = t /\
      q ∈ polls /\ observes q /\ (sp_now q + grace * 1000 <= t)%Z) /\
  (forall pre q post p, polls = pre ++ q :: post -> Forall (fun p => ~ observes p) pre ->
    observes q -> p ∈ post -> sp_status p = WAlive ->
    (sp_now q + grace * 1000 <= sp_now p)%Z ->
    (shim_reap grace shim_start polls).1 = None ->
    (shim_reap grace shim_start polls).2 <> []).
Proof.
  split.
  - intros t (H & p & ? & ? & ? & q & ? & ? & ?)%shim_reap_kills. split; [done|].
    exists p, q. done.
  - intros pre q post p -> Hpre [Hqs Hqf] Hp Ha Hd Hr.
    rewrite shim_reap_quiet in Hr |- * by done.
    simpl in *. unfold shim_poll, arm_deadline in *. rewrite Hqs, Hqf in *. simpl in *.
    destruct (_ <=? _)%Z; simpl in *; [by destruct (shim_reap _ (mkShim _ true) _)|].
    pose proof (fun Hr => shim_reap_due grace _ _ _ Hr Hp Ha Hd) as Hk.
    destruct (shim_reap _ _ _). simpl in *. by apply Hk.
Qed.

(** ** Resource limits *)

(** The address-space limit asked for is the configured number of mebibytes for
    every value below 2^44; at 2^44 the product wraps to a limit of zero. *)
Lemma vmem_bytes_exact mb :
  (0 <= mb < 2 ^ 44)%Z -> vmem_bytes mb = (mb * 2 ^ 20)%Z.
Proof.
  intros H. unfold vmem_bytes. rewrite Z.mod_small; lia.
Qed.

Lemma vmem_bytes_wraps : vmem_bytes (2 ^ 44) = 0%Z.
Proof. reflexivity. Qed.

(** Resource limits without a process scope: when the plugin could not join
    a scope, or has none, the limits still succeed, whatever process budget was
    configured, and the only limit in force is the one on the address space. *)
Lemma no_scope_no_process_cap sys pid max_procs max_vmem_mb path :
  (forall e, sys (OpSetRlimitAs e) = None) ->
  (forall p, path = Some p -> join_pids_cgroup sys pid p = false) ->
  apply_resource_limits sys pid max_procs max_vmem_mb path = Ok false.
Proof.
  intros Hs Hj. unfold apply_resource_limits. rewrite Hs.
  destruct path as [p|]; [rewrite (Hj p eq_refl)|]; by destruct (_ =? 0)%Z.
Qed.

(** The new mount API is denied except for its last call. *)
Lemma fsmount_not_denied : "fsmount" ∉ denied /\ "fsopen" ∈ denied /\ "move_mount" ∈ denied.
Proof. split_and!; [apply str_mem_false|apply str_mem_elem..]; reflexivity. Qed.

(** ** A concrete host *)
Definition demo_host : Host :=
  mkHost (fun p => if (p =s "/usr/lib") || (p =s "/opt/p") then IsDir
                   else if p =s "/var/p" then IsDir else Missing)
    (fun _ => None) (fun _ => None) (fun _ => None).
Definition demo_landlock : Landlock :=
  mkLandlock None (fun _ => None) (fun _ => Ok FullyEnforced).
Definition demo_seccomp : Seccomp := mkSeccomp None (fun _ _ _ => None) None None.

Lemma ready_plugin_confined_witness :
  Forall (rule_origin demo_host (mkFsRestriction FsNone ["/srv"] ["/var/p"]) "/opt/p/bin" None)
    [("/usr/lib", AccessRead); ("/opt/p", AccessRead); ("/var/p", AccessAll)].
Proof.
  destruct (ready_plugin_confined (fun _ => None) demo_host demo_landlock demo_seccomp
    (mkFsRestriction FsNone ["/srv"] ["/var/p"]) "/opt/p/bin" None
    (Some [("/usr/lib", AccessRead); ("/opt/p", AccessRead); ("/var/p", AccessAll)]))
    as (rs & st & Hrs & _ & _ & Hall & _).
  - vm_compute. reflexivity.
  - injection Hrs as <-. exact Hall.
Defined.

Definition demo_cgroups : CgroupFs :=
  mkCgroupFs (fun _ => true)
    (fun p => if p =s "/proc/self/cgroup" then Some ("0::/user.slice" +:+ nl)
              else if starts_with "/sys/fs/cgroup/user.slice" p then Some "cpu pids" else None)
    (fun _ => true) (fun _ _ => true).

Lemma cgroup_scope_contained_witness :
  exists self anc name,
    cgroup_relative_path demo_cgroups = Some self /\ anc ∈ ancestor_paths self /\
    "/sys/fs/cgroup/user.slice/vyn/a_.._b"
    = path_join (path_join (path_join "/sys/fs/cgroup" (default anc (strip_prefix "/" anc)))
        VYN_CGROUP_DIR) name.
Proof.
  destruct (cgroup_scope_contained demo_cgroups "a/../b" 64
    "/sys/fs/cgroup/user.slice/vyn/a_.._b") as (self & anc & name & H1 & H2 & _ & H3 & _).
  - vm_compute. reflexivity.
  - exists self, anc, name. split; [exact H1|]. split; [exact H2|exact H3].
Defined.
