(* ===== verification/Supervisor.v ===== *)
(** * The plugin supervisor (src/plugins/supervisor/mod.rs, spawn.rs and
    watchdog.rs, src/plugins/manager.rs, src/plugins/metrics.rs)

    [Sup] is the mutable state of [PluginSupervisor]: one field per concurrent
    map, the exit-event channel, the shared log buffers behind their handles, and
    the signals sent so far. [SupOpts] holds the fields fixed at construction.
    What the operating system answers (a spawn, the shim's first line, an exit
    status) is an argument. [Sys] adds the tasks: the children with their wait
    tasks, the starts in flight, and where the monitor loop stands; [sys_step]
    runs one atomic piece of one task, between two suspension points. *)

From S2P Require Import Prelude Errors Wire Validate Registry Events Auth Kernel.
From S2P Require Import Sandbox.

Inductive RestartPolicy := Always | OnFailure | Never.

#[export] Instance RestartPolicy_eq_dec : EqDecision RestartPolicy.
Proof. solve_decision. Defined.

Record PluginConfig := mkPluginConfig {
  pc_plugin_id : string;
  pc_binary_path : string;
  pc_args : list string;
  pc_env : list string;
  pc_restart_policy : RestartPolicy;
  pc_max_restarts : Z;
  pc_sandbox : bool;
  pc_grace_seconds : Z;
  pc_max_procs : option Z;
  pc_max_vmem_mb : option Z;
  pc_max_fs_access : FsAccessMode;
  pc_readonly_paths : list string;
  pc_writable_paths : list string
}.

Record PluginProcess := mkProcess { pp_plugin_id : string; pp_pid : Z }.

Record SupEntry := mkSupEntry {
  se_config : PluginConfig;
  se_restart_count : Z;
  se_pid : Z;
  se_shim_pid : option Z;
  se_epoch : N
}.

Record ExitEvent := mkExit {
  xe_plugin_id : string;
  xe_epoch : N;
  xe_pid : Z;
  xe_success : bool
}.

Inductive Signal := SIGTERM | SIGKILL.

(** Fields set before the supervisor is shared. *)
Record SupOpts := mkSupOpts {
  so_socket_path : string;
  so_data_dir : option string;
  so_mac_master : option bytes;
  so_legacy_plugin_mac : bool;
  so_max_log_lines : nat;
  so_has_bus : bool;
  so_backoff_base_ms : Z;
  so_backoff_max_ms : Z;
  so_shim_bin : string
}.

Record Sup := mkSup {
  sv_entries : gmap string SupEntry;
  sv_events : list ExitEvent;
  sv_log_buffers : gmap string N;
  sv_logs : gmap N (list string);
  sv_forced_restarts : gset string;
  sv_stopped_counts : gmap string Z;
  sv_next_epoch : N;
  sv_stopped_epochs : gmap string N;
  sv_signals : list (Z * Signal)
}.

Definition set_entries (m : gmap string SupEntry) (s : Sup) : Sup :=
  mkSup m (sv_events s) (sv_log_buffers s) (sv_logs s) (sv_forced_restarts s)
    (sv_stopped_counts s) (sv_next_epoch s) (sv_stopped_epochs s) (sv_signals s).
Definition set_events (l : list ExitEvent) (s : Sup) : Sup :=
  mkSup (sv_entries s) l (sv_log_buffers s) (sv_logs s) (sv_forced_restarts s)
    (sv_stopped_counts s) (sv_next_epoch s) (sv_stopped_epochs s) (sv_signals s).
Definition set_log_buffers (b : gmap string N) (l : gmap N (list string)) (s : Sup) : Sup :=
  mkSup (sv_entries s) (sv_events s) b l (sv_forced_restarts s)
    (sv_stopped_counts s) (sv_next_epoch s) (sv_stopped_epochs s) (sv_signals s).
Definition set_forced (f : gset string) (s : Sup) : Sup :=
  mkSup (sv_entries s) (sv_events s) (sv_log_buffers s) (sv_logs s) f
    (sv_stopped_counts s) (sv_next_epoch s) (sv_stopped_epochs s) (sv_signals s).
Definition set_stopped_counts (c : gmap string Z) (s : Sup) : Sup :=
  mkSup (sv_entries s) (sv_events s) (sv_log_buffers s) (sv_logs s) (sv_forced_restarts s)
    c (sv_next_epoch s) (sv_stopped_epochs s) (sv_signals s).
Definition set_next_epoch (n : N) (s : Sup) : Sup :=
  mkSup (sv_entries s) (sv_events s) (sv_log_buffers s) (sv_logs s) (sv_forced_restarts s)
    (sv_stopped_counts s) n (sv_stopped_epochs s) (sv_signals s).
Definition set_stopped_epochs (m : gmap string N) (s : Sup) : Sup :=
  mkSup (sv_entries s) (sv_events s) (sv_log_buffers s) (sv_logs s) (sv_forced_restarts s)
    (sv_stopped_counts s) (sv_next_epoch s) m (sv_signals s).

(** [nix::sys::signal::kill] with the [u32] pid cast to [i32] *)
Definition as_i32 (pid : Z) : Z :=
  let p := (pid mod 2 ^ 32)%Z in if (p <? 2 ^ 31)%Z then p else (p - 2 ^ 32)%Z.

Definition kill (target : Z) (sig : Signal) (s : Sup) : Sup :=
  mkSup (sv_entries s) (sv_events s) (sv_log_buffers s) (sv_logs s) (sv_forced_restarts s)
    (sv_stopped_counts s) (sv_next_epoch s) (sv_stopped_epochs s)
    (sv_signals s ++ [(target, sig)]).

Definition signal_target (e : SupEntry) : Z := as_i32 (default (se_pid e) (se_shim_pid e)).

(** [PluginSupervisor::with_events] *)
Definition sup_new : Sup := mkSup ∅ [] ∅ ∅ ∅ ∅ 0 ∅ [].

(** ** Log buffers *)
Definition log_push (max_lines : nat) (buf : list string) (line : string) : list string :=
  (if (max_lines <=? length buf)%nat then tail buf else buf) ++ [line].

(** One line of [drain_to_log]: the task holds the buffer, not the plugin id. *)
Definition drain_line (o : SupOpts) (buf : N) (line : string) (s : Sup) : Sup :=
  set_log_buffers (sv_log_buffers s)
    (alter (fun l => log_push (so_max_log_lines o) l line) buf (sv_logs s)) s.

Definition get_logs (plugin_id : string) (n : nat) (s : Sup) : list string :=
  match sv_log_buffers s !! plugin_id with
  | None => []
  | Some b => let l := default [] (sv_logs s !! b) in drop (length l - n) l
  end.

(** ** Backoff *)

(** An [f64] holds 53 significant bits, rounded to nearest, ties to even. *)
Definition round53 (n : Z) : Z :=
  let sh := (Z.log2 n - 52)%Z in
  if (sh <=? 0)%Z then n
  else
    let q := Z.shiftr n sh in
    let r := (n - Z.shiftl q sh)%Z in
    let half := Z.shiftl 1 (sh - 1) in
    let up := (half <? r)%Z || ((r =? half)%Z && Z.odd q) in
    Z.shiftl (if up then q + 1 else q) sh.

(** [(ms as f64 * 0.2) as u64]; [0.2] is 7205759403792794 / 2^55. *)
Definition jitter_band (ms : Z) : Z :=
  Z.shiftr (round53 (round53 ms * 7205759403792794)) 55.

(** [jitter_ms], with the number the generator drew from [0..=2 * band]. *)
Definition jitter_ms (ms draw : Z) : Z :=
  if (jitter_band ms =? 0)%Z then ms else ((ms - jitter_band ms + draw) mod 2 ^ 64)%Z.

Definition backoff_ms (o : SupOpts) (restart_count : Z) : Z :=
  Z.min (u64_saturating_mul (so_backoff_base_ms o) (Z.shiftl 1 (Z.min restart_count 8)))
    (so_backoff_max_ms o).

Definition backoff_delay (o : SupOpts) (restart_count draw : Z) : Z :=
  jitter_ms (backoff_ms o restart_count) draw.

(** ** The spawned command *)
Definition mac_env_override `{Crypto} (master : option bytes) (legacy : bool)
    (plugin_id : string) : option string :=
  match master with
  | Some m => if negb legacy then Some (plugin_mac_secret m plugin_id) else None
  | None => None
  end.

Definition JWT_ENV : string := "VYN_JWT_SECRET".

Definition merged_env (operator_env : list string) (mac_override : option string)
    : list (string * string) :=
  let out := filter (fun kv => mac_override = None \/ kv.1 <> JWT_ENV)
               (omap (split_once "=") operator_env) in
  match mac_override with
  | Some key => out ++ [(JWT_ENV, key)]
  | None => out
  end.

Record Cmd := mkCmd {
  cmd_program : string;
  cmd_args : list string;
  cmd_env : list (string * string)
}.

(** The variable the child sees: [Command::env] keeps the last value set. *)
Definition cmd_var (c : Cmd) (name : string) : option string :=
  snd <$> last (filter (fun kv => kv.1 = name) (cmd_env c)).

Definition plugin_data_dir (o : SupOpts) (plugin_id : string) (created : bool)
    : option string :=
  match so_data_dir o with
  | Some d => if created then Some (path_join (path_join d "plugins") plugin_id) else None
  | None => None
  end.

(** The variables that tell the shim its grace period and file restriction. *)
Definition shim_env (config : PluginConfig) (writable_paths : list string)
    : list (string * string) :=
  (if (0 <? pc_grace_seconds config)%Z
   then [("VYN_SHIM_GRACE_SECS", fmt_Z (pc_grace_seconds config))] else [])
  ++ (if bool_decide (pc_max_fs_access config = FsFull) then []
      else [(MAX_FS_ACCESS_ENV, fs_as_str (pc_max_fs_access config));
            (RO_PATHS_ENV, join_paths_env (pc_readonly_paths config));
            (RW_PATHS_ENV, join_paths_env writable_paths)]).

(** What the kernel sets before the operator's variables. *)
Definition kernel_env (o : SupOpts) (config : PluginConfig) (data : option string)
    : list (string * string) :=
  (if pc_sandbox config
   then shim_env config (pc_writable_paths config ++ option_list data) else [])
  ++ [("VYN_SOCKET_PATH", so_socket_path o)]
  ++ (match data with Some dir => [("VYN_DATA_DIR", dir)] | None => [] end).

(** The program, its arguments and the variables set on top of the inherited
    environment, in the order they are set (Linux). *)
Definition build_command `{Crypto} (o : SupOpts) (config : PluginConfig)
    (data_dir_created : bool) : Cmd :=
  let data := plugin_data_dir o (pc_plugin_id config) data_dir_created in
  let '(program, pre_args) :=
    if pc_sandbox config then (so_shim_bin o, ["__shim"; pc_binary_path config])
    else (pc_binary_path config, []) in
  mkCmd program (pre_args ++ pc_args config)
    (kernel_env o config data
     ++ merged_env (pc_env config)
          (mac_env_override (so_mac_master o) (so_legacy_plugin_mac o)
             (pc_plugin_id config))).

(** ** Spawning *)

(** A spawn between its guard and its registration: on a sandboxed plugin the
    task waits up to 15 s here for the shim's first line. *)
Record Spawning := mkSpawning {
  sg_config : PluginConfig;
  sg_restart_count : Z;
  sg_epoch : N
}.

(** What [cmd.spawn] answered. *)
Definition SpawnAnswer : Type := Result unit string.

(** [spawn_internal], up to the wait: the guard, the new epoch, the fork and the
    fresh log buffer (one handle per spawn: the epoch names it). *)
Definition spawn_begin (config : PluginConfig) (restart_count : Z)
    (replace_epoch : option N) (forked : SpawnAnswer) (s : Sup)
    : Sup * Result Spawning VynkorError :=
  match replace_epoch, sv_entries s !! pc_plugin_id config with
  | None, Some _ => (s, Err (EPluginAlreadyRunning (pc_plugin_id config)))
  | _, _ =>
      let epoch := u64_succ (sv_next_epoch s) in
      let s := set_next_epoch epoch s in
      match forked with
      | Err e => (s, Err (EIo e))
      | Ok _ =>
          (set_log_buffers (<[pc_plugin_id config := epoch]> (sv_log_buffers s))
             (<[epoch := []]> (sv_logs s)) s,
           Ok (mkSpawning config restart_count epoch))
      end
  end.

(** The shim's first line, as [timeout(15s, lines.next_line())] returns it. *)
Inductive ShimLine :=
| ShimTimeout
| ShimIoError (e : string)
| ShimSaid (line : option string).

Record Started := mkStarted { sd_child_id : option Z; sd_shim_line : ShimLine }.

Definition debug_opt_string (o : option string) : string :=
  match o with
  | Some s => "Some(" +:+ str_debug s +:+ ")"
  | None => "None"
  end.

(** The plugin's pid and the shim's. *)
Definition spawned_pids (sandbox : bool) (st : Started)
    : Result (Z * option Z) VynkorError :=
  if sandbox then
    match sd_shim_line st with
    | ShimTimeout =>
        Err (EInternal "sandbox shim did not report a plugin pid within 15s")
    | ShimIoError e => Err (EIo e)
    | ShimSaid line =>
        let dead := Err (EInternal ("sandbox shim exited before the plugin started (line: "
                                    +:+ debug_opt_string line +:+ ")")) in
        match (l ← line; parse_uint u32_max (str_trim l)) with
        | Some p =>
            if (0 <? p)%Z then
              match sd_child_id st with
              | Some shim_pid => Ok (p, Some shim_pid)
              | None => Err (EInternal "no shim pid")
              end
            else dead
        | None => dead
        end
    end
  else match sd_child_id st with
       | Some pid => Ok (pid, None)
       | None => Err (EInternal "no pid")
       end.

(** [spawn_internal], the rest: the entry is inserted unconditionally. *)
Definition spawn_finish (sg : Spawning) (st : Started) (s : Sup)
    : Sup * Result PluginProcess VynkorError :=
  match spawned_pids (pc_sandbox (sg_config sg)) st with
  | Err e => (s, Err e)
  | Ok (pid, shim_pid) =>
      let id := pc_plugin_id (sg_config sg) in
      (set_entries (<[id := mkSupEntry (sg_config sg) (sg_restart_count sg) pid shim_pid
                              (sg_epoch sg)]> (sv_entries s)) s,
       Ok (mkProcess id pid))
  end.

(** ** Operations of the supervisor *)

(** [stop_plugin]; [in_grace] says whether the tree exited before the deadline. *)
Definition stop_plugin (plugin_id : string) (in_grace : bool) (s : Sup)
    : Sup * Result unit VynkorError :=
  match sv_entries s !! plugin_id with
  | None => (s, Err (EPluginNotFound plugin_id))
  | Some entry =>
      let s := set_entries (delete plugin_id (sv_entries s)) s in
      let s := set_stopped_epochs (<[plugin_id := se_epoch entry]> (sv_stopped_epochs s)) s in
      let s := set_forced (sv_forced_restarts s ∖ {[plugin_id]}) s in
      let target := signal_target entry in
      let s := kill target SIGTERM s in
      (if in_grace then s else kill target SIGKILL s, Ok tt)
  end.

(** The deadline of the escalation above, in seconds. *)
Definition stop_grace (config : PluginConfig) : Z :=
  if (0 <? pc_grace_seconds config)%Z then pc_grace_seconds config else 5.

Definition restart_plugin (plugin_id : string) (s : Sup) : Sup * Result unit VynkorError :=
  match sv_entries s !! plugin_id with
  | None => (s, Err (EPluginNotFound plugin_id))
  | Some entry =>
      let s := set_forced ({[plugin_id]} ∪ sv_forced_restarts s) s in
      (kill (signal_target entry) SIGTERM s, Ok tt)
  end.

Definition is_running (plugin_id : string) (s : Sup) : bool :=
  bool_decide (is_Some (sv_entries s !! plugin_id)).

Definition grace_seconds_for (plugin_id : string) (s : Sup) : option Z :=
  match sv_entries s !! plugin_id with
  | Some e => if (0 <? pc_grace_seconds (se_config e))%Z
              then Some (pc_grace_seconds (se_config e)) else None
  | None => None
  end.

Definition restart_count (plugin_id : string) (s : Sup) : option Z :=
  match sv_entries s !! plugin_id with
  | Some e => Some (se_restart_count e)
  | None => sv_stopped_counts s !! plugin_id
  end.

(** [graceful_shutdown]: signals with the second at which each is sent. *)
Definition shutdown_signals (default_grace_seconds : Z) (s : Sup)
    : list (Z * (Z * Signal)) :=
  let es := map snd (map_to_list (sv_entries s)) in
  map (fun e => (0%Z, (signal_target e, SIGTERM))) es
  ++ map (fun e => let grace := pc_grace_seconds (se_config e) in
                   ((if (0 <? grace)%Z then grace else default_grace_seconds)%Z,
                    (signal_target e, SIGKILL))) es.

(** ** The monitor loop (watchdog.rs) *)
Definition epoch_is (m : gmap string N) (plugin_id : string) (epoch : N) : bool :=
  match m !! plugin_id with Some e => (e =? epoch)%N | None => false end.

Definition is_current (ev : ExitEvent) (s : Sup) : bool :=
  match sv_entries s !! xe_plugin_id ev with
  | Some e => (se_epoch e =? xe_epoch ev)%N
  | None => false
  end.

Definition was_stopped (ev : ExitEvent) (s : Sup) : bool :=
  epoch_is (sv_stopped_epochs s) (xe_plugin_id ev) (xe_epoch ev).

Definition should_restart (forced : bool) (ev : ExitEvent) (entry : SupEntry) : bool :=
  forced
  || match pc_restart_policy (se_config entry) with
     | Never => false
     | Always => (se_restart_count entry <? pc_max_restarts (se_config entry))%Z
     | OnFailure => negb (xe_success ev)
                    && (se_restart_count entry <? pc_max_restarts (se_config entry))%Z
     end.

Definition died_event (ev : ExitEvent) (count : Z) (will_restart : bool) : Event :=
  mkEvent ("sys-died-" +:+ xe_plugin_id ev +:+ "-" +:+ fmt_Z count) "system.plugin_died"
    (str_bytes ("{" +:+ quoted "plugin_id" +:+ ":" +:+ quoted (xe_plugin_id ev) +:+ ","
       +:+ quoted "restart_count" +:+ ":" +:+ fmt_Z count +:+ ","
       +:+ quoted "will_restart" +:+ ":" +:+ (if will_restart then "true" else "false")
       +:+ "}")) 0.

(** Where the loop is suspended: on [recv], while it publishes, in the backoff
    sleep, or in the respawn. *)
Inductive MonPhase :=
| MonIdle
| MonPublishing (ev : ExitEvent) (decision : option (PluginConfig * Z)) (count : Z)
| MonBackoff (config : PluginConfig) (new_count : Z) (epoch : N) (delay : Z)
| MonSpawning (sg : Spawning).

(** From [recv] to the publication of the death. *)
Definition monitor_recv (ev : ExitEvent) (s : Sup) : Sup * MonPhase :=
  let forced := bool_decide (xe_plugin_id ev ∈ sv_forced_restarts s) in
  let s := set_forced (sv_forced_restarts s ∖ {[xe_plugin_id ev]}) s in
  if negb (is_current ev s) || was_stopped ev s then (s, MonIdle)
  else
    match sv_entries s !! xe_plugin_id ev with
    | None => (s, MonIdle)
    | Some entry =>
        (s, MonPublishing ev
              (if should_restart forced ev entry
               then Some (se_config entry, se_restart_count entry) else None)
              (se_restart_count entry))
    end.

(** From the publication to the next suspension. *)
Definition monitor_published (o : SupOpts) (ev : ExitEvent)
    (decision : option (PluginConfig * Z)) (draw : Z) (s : Sup) : Sup * MonPhase :=
  match decision with
  | Some (config, prev_count) =>
      let new_count := u32_succ prev_count in
      (s, MonBackoff config new_count (xe_epoch ev) (backoff_delay o new_count draw))
  | None =>
      let id := xe_plugin_id ev in
      let final_count := match sv_entries s !! id with
                         | Some e => se_restart_count e
                         | None => 0%Z
                         end in
      (set_stopped_counts (<[id := final_count]> (sv_stopped_counts s))
         (set_entries (delete id (sv_entries s)) s), MonIdle)
  end.

(** After the backoff: cancelled by a stop of this instance, or respawn. *)
Definition monitor_awake (config : PluginConfig) (new_count : Z) (epoch : N)
    (forked : SpawnAnswer) (s : Sup) : Sup * MonPhase :=
  if epoch_is (sv_stopped_epochs s) (pc_plugin_id config) epoch then (s, MonIdle)
  else match spawn_begin config new_count (Some epoch) forked s with
       | (s, Ok sg) => (s, MonSpawning sg)
       | (s, Err _) => (s, MonIdle)
       end.

(** ** The watchdog loop: one round *)
Definition PING_TARGET : string := "client".

Definition watchdog_one `{Wire} (interval timeout : Z) (ws : World * Sup)
    (e : string * SupEntry) : World * Sup :=
  let '(w, s) := ws in
  let overdue := match last_pong e.1 (w_reg w) with
                 | Some t => (interval + timeout <? duration_since (clk_now (w_clk w)) t)%Z
                 | None => false
                 end in
  if overdue then (w, kill (signal_target e.2) SIGKILL s)
  else match get e.1 (w_reg w) with
       | None => (w, s)
       | Some reg_entry =>
           match encode (envelope_of (PPing (now_ms w))) with
           | None => (w, s)
           | Some payload =>
               (set_chans (try_send (pe_write_tx reg_entry)
                             (out_frame (build_frame PING_TARGET 0 payload))
                             (w_chans w)).1 w, s)
           end
       end.

Definition watchdog_round `{Wire} (interval timeout : Z) (w : World) (s : Sup)
    : World * Sup :=
  foldl (watchdog_one interval timeout) (w, s) (map_to_list (sv_entries s)).

(** ** All the tasks *)

(** A running child and its wait task. *)
Record Child := mkChild {
  cd_plugin_id : string;
  cd_pid : Z;
  cd_shim_pid : option Z
}.

Record Sys := mkSys {
  y_world : World;
  y_sup : Sup;
  y_children : gmap N Child;
  y_reaped : list ExitEvent;
  y_starting : list Spawning;
  y_mon : MonPhase
}.

Definition EXIT_CAPACITY : nat := 64.

Inductive Action :=
| AStart (config : PluginConfig) (forked : SpawnAnswer)
| AStarted (i : nat) (st : Started)
| AStop (plugin_id : string) (in_grace : bool)
| ARestart (plugin_id : string)
| AExit (epoch : N) (success orphan : bool)
| ASend (i : nat)
| AMonRecv
| AMonPublished (draw : Z)
| AMonAwake (forked : SpawnAnswer)
| AMonSpawned (st : Started)
| AWatchdog (interval timeout : Z)
| ALog (buf : N) (line : string)
| AWorld (w : World).

(** The wait task of a spawn that got as far as an entry. *)
Definition add_child (sg : Spawning) (st : Started) (m : gmap N Child) : gmap N Child :=
  match spawned_pids (pc_sandbox (sg_config sg)) st with
  | Ok (pid, shim_pid) =>
      <[sg_epoch sg := mkChild (pc_plugin_id (sg_config sg)) pid shim_pid]> m
  | Err _ => m
  end.

(** The wait task after [child.wait()]: the sweep of a sandboxed plugin that
    outlived its shim, then the exit is published. *)
Definition reap_child (c : Child) (orphan : bool) (s : Sup) : Sup :=
  match cd_shim_pid c with
  | Some _ => if orphan then kill (as_i32 (cd_pid c)) SIGKILL s else s
  | None => s
  end.

Definition set_sup (s : Sup) (y : Sys) : Sys :=
  mkSys (y_world y) s (y_children y) (y_reaped y) (y_starting y) (y_mon y).

Definition remove_nth {A} (i : nat) (l : list A) : list A := take i l ++ drop (S i) l.

Definition sys_step `{Wire} (o : SupOpts) (a : Action) (y : Sys) : option Sys :=
  let s := y_sup y in
  match a with
  | AStart config forked =>
      let '(s, r) := spawn_begin config 0 None forked s in
      Some (mkSys (y_world y) s (y_children y) (y_reaped y)
              (match r with Ok sg => y_starting y ++ [sg] | Err _ => y_starting y end)
              (y_mon y))
  | AStarted i st =>
      sg ← y_starting y !! i;
      Some (mkSys (y_world y) (spawn_finish sg st s).1 (add_child sg st (y_children y))
              (y_reaped y) (remove_nth i (y_starting y)) (y_mon y))
  | AStop id in_grace => Some (set_sup (stop_plugin id in_grace s).1 y)
  | ARestart id => Some (set_sup (restart_plugin id s).1 y)
  | AExit epoch success orphan =>
      c ← y_children y !! epoch;
      Some (mkSys (y_world y) (reap_child c orphan s) (delete epoch (y_children y))
              (y_reaped y ++ [mkExit (cd_plugin_id c) epoch (cd_pid c) success])
              (y_starting y) (y_mon y))
  | ASend i =>
      ev ← y_reaped y !! i;
      if (length (sv_events s) <? EXIT_CAPACITY)%nat then
        Some (mkSys (y_world y) (set_events (sv_events s ++ [ev]) s) (y_children y)
                (remove_nth i (y_reaped y)) (y_starting y) (y_mon y))
      else None
  | AMonRecv =>
      match y_mon y, sv_events s with
      | MonIdle, ev :: q =>
          let '(s, m) := monitor_recv ev (set_events q s) in
          Some (mkSys (y_world y) s (y_children y) (y_reaped y) (y_starting y) m)
      | _, _ => None
      end
  | AMonPublished draw =>
      match y_mon y with
      | MonPublishing ev decision count =>
          let w := if so_has_bus o
                   then publish (died_event ev count (bool_decide (is_Some decision)))
                          (y_world y)
                   else y_world y in
          let '(s, m) := monitor_published o ev decision draw s in
          Some (mkSys w s (y_children y) (y_reaped y) (y_starting y) m)
      | _ => None
      end
  | AMonAwake forked =>
      match y_mon y with
      | MonBackoff config new_count epoch _ =>
          let '(s, m) := monitor_awake config new_count epoch forked s in
          Some (mkSys (y_world y) s (y_children y) (y_reaped y) (y_starting y) m)
      | _ => None
      end
  | AMonSpawned st =>
      match y_mon y with
      | MonSpawning sg =>
          Some (mkSys (y_world y) (spawn_finish sg st s).1 (add_child sg st (y_children y))
                  (y_reaped y) (y_starting y) MonIdle)
      | _ => None
      end
  | AWatchdog interval timeout =>
      let '(w, s) := watchdog_round interval timeout (y_world y) s in
      Some (mkSys w s (y_children y) (y_reaped y) (y_starting y) (y_mon y))
  | ALog buf line => Some (set_sup (drain_line o buf line s) y)
  | AWorld w => Some (mkSys w s (y_children y) (y_reaped y) (y_starting y) (y_mon y))
  end.

(** A run of the tasks. *)
Fixpoint sys_run `{Wire} (o : SupOpts) (acts : list Action) (y : Sys) : option Sys :=
  match acts with
  | [] => Some y
  | a :: acts' => y' ← sys_step o a y; sys_run o acts' y'
  end.

Definition sys_init (w : World) : Sys := mkSys w sup_new ∅ [] [] MonIdle.

(** [spawn_plugin] run to its end with nothing in between. *)
Definition spawn_plugin (config : PluginConfig) (forked : SpawnAnswer) (st : Started)
    (s : Sup) : Sup * Result PluginProcess VynkorError :=
  match spawn_begin config 0 None forked s with
  | (s, Ok sg) => spawn_finish sg st s
  | (s, Err e) => (s, Err e)
  end.

(** ** src/plugins/manager.rs *)
Record PluginManager := mkManager { pm_supervisor : Sup; pm_world : World }.

Definition mgr_list (m : PluginManager) : list PluginEntry := list_plugins (w_reg (pm_world m)).

Definition mgr_get (plugin_id : string) (m : PluginManager) : option PluginEntry :=
  get plugin_id (w_reg (pm_world m)).

Definition mgr_start (config : PluginConfig) (forked : SpawnAnswer) (st : Started)
    (m : PluginManager) : PluginManager * Result PluginProcess VynkorError :=
  let '(s, r) := spawn_plugin config forked st (pm_supervisor m) in
  (mkManager s (pm_world m), r).

Definition mgr_stop `{Wire} (plugin_id : string) (in_grace : bool) (m : PluginManager)
    : PluginManager * Result unit VynkorError :=
  let '(s, result) := stop_plugin plugin_id in_grace (pm_supervisor m) in
  (mkManager s (unregister plugin_id (pm_world m)), result).

Definition mgr_restart (plugin_id : string) (m : PluginManager)
    : PluginManager * Result unit VynkorError :=
  let '(s, r) := restart_plugin plugin_id (pm_supervisor m) in (mkManager s (pm_world m), r).

Definition is_supervised (plugin_id : string) (m : PluginManager) : bool :=
  is_running plugin_id (pm_supervisor m).

Definition mgr_is_connected (plugin_id : string) (m : PluginManager) : bool :=
  bool_decide (is_Some (mgr_get plugin_id m)).

Definition mgr_logs (plugin_id : string) (n : nat) (m : PluginManager) : list string :=
  get_logs plugin_id n (pm_supervisor m).
