(* ===== verification/SupervisorProps.v ===== *)
(** * Theorems on the supervisor's operations

    Backoff delays, the environment a plugin is spawned with, log buffers, the
    watchdog round and the whole reaction to an exit. *)

From S2P Require Import Prelude Errors Wire Validate Registry Events Auth Kernel.
From S2P Require Import Sandbox SandboxProps Supervisor.

(** ** Backoff *)
Lemma round53_small n : (0 <= n < 2 ^ 53)%Z -> round53 n = n.
Proof.
  intros Hn. unfold round53. destruct (Z.eq_dec n 0%Z) as [->|]; [done|].
  assert (Z.log2 n < 53)%Z by (apply Z.log2_lt_pow2; lia).
  destruct (Z.leb_spec (Z.log2 n - 52) 0)%Z; [done|lia].
Qed.

(** Rounding keeps a value above every multiple of [2^55] below it, and adds
    less than one unit in the last place. *)
Lemma round53_bounds n k :
  (0 <= n < 2 ^ 107)%Z -> (k * 2 ^ 55 <= n)%Z ->
  (k * 2 ^ 55 <= round53 n <= n + 2 ^ Z.max 0 (Z.log2 n - 52))%Z.
Proof.
  intros Hn Hk. unfold round53. destruct (Z.leb_spec (Z.log2 n - 52) 0)%Z as [|Hsh]; [lia|].
  assert (0 < n)%Z by (destruct (Z.eq_dec n 0%Z) as [->|]; [simpl in Hsh; lia|lia]).
  assert (Z.log2 n < 107)%Z by (apply Z.log2_lt_pow2; lia).
  set (sh := (Z.log2 n - 52)%Z) in *.
  assert (H55 : (2 ^ 55 = 2 ^ (55 - sh) * 2 ^ sh)%Z) by (rewrite <- Z.pow_add_r; f_equal; lia).
  rewrite Z.shiftr_div_pow2, !Z.shiftl_mul_pow2 by lia.
  assert (0 < 2 ^ sh)%Z by (apply Z.pow_pos_nonneg; lia).
  pose proof (Z.mul_div_le n (2 ^ sh)). pose proof (Z.mul_succ_div_gt n (2 ^ sh)).
  assert (k * 2 ^ (55 - sh) <= n / 2 ^ sh)%Z.
  { apply Z.div_le_lower_bound; [done|]. nia. }
  rewrite Z.max_r by lia. destruct (_ || _); nia.
Qed.

(** The double-precision product is the integer quotient for every delay below
    2^50 milliseconds. *)
Lemma jitter_band_fifth ms : (0 <= ms < 2 ^ 50)%Z -> jitter_band ms = (ms / 5)%Z.
Proof.
  intros Hms. unfold jitter_band. rewrite (round53_small ms) by lia.
  rewrite Z.shiftr_div_pow2 by lia. set (P := (ms * 7205759403792794)%Z).
  assert (HP : (0 <= P < 2 ^ 103)%Z) by (unfold P; lia).
  pose proof (Z.div_mod ms 5 ltac:(lia)) as Hdm.
  pose proof (Z.mod_pos_bound ms 5 ltac:(lia)) as Hmod.
  set (k := (ms / 5)%Z) in *. set (r := (ms mod 5)%Z) in *.
  assert (Hlog : (Z.log2 P - 52 <= 51)%Z).
  { destruct (Z.eq_dec P 0%Z) as [->|]; [simpl; lia|].
    enough (Z.log2 P < 103)%Z by lia. apply Z.log2_lt_pow2; lia. }
  assert (H51 : (2 ^ Z.max 0 (Z.log2 P - 52) <= 2 ^ 51)%Z) by (apply Z.pow_le_mono_r; lia).
  destruct (round53_bounds P k) as [Hlo Hhi]; [lia|unfold P; nia|].
  symmetry. apply Z.div_unique with (r := (round53 P - k * 2 ^ 55)%Z); [|lia].
  left. split; [lia|]. unfold P in *. nia.
Qed.

(** Restart delays: for every restart count and every draw of the generator,
    with a ceiling below 2^50 ms, the delay lies within a fifth of the
    exponential value [base * 2^min(count, 8)] capped by the ceiling; the
    saturating product and the double-precision band never distort it. *)
Theorem backoff_bounds o count draw :
  (0 <= so_backoff_base_ms o)%Z -> (0 <= so_backoff_max_ms o < 2 ^ 50)%Z ->
  (0 <= count)%Z -> (0 <= draw <= 2 * jitter_band (backoff_ms o count))%Z ->
  let m := Z.min (so_backoff_base_ms o * 2 ^ Z.min count 8) (so_backoff_max_ms o) in
  (m - m / 5 <= backoff_delay o count draw <= m + m / 5)%Z.
Proof.
  intros Hb Hm Hc Hd m.
  assert (Hms : backoff_ms o count = m).
  { unfold backoff_ms, u64_saturating_mul, m, u64_max.
    rewrite Z.shiftl_mul_pow2 by lia. rewrite Z.mul_1_l. lia. }
  assert (Hm0 : (0 <= m < 2 ^ 50)%Z).
  { unfold m. split; [|lia]. apply Z.min_glb; [|lia]. apply Z.mul_nonneg_nonneg; [lia|].
    apply Z.pow_nonneg. lia. }
  unfold backoff_delay, jitter_ms. rewrite Hms in *. rewrite (jitter_band_fifth m) in * by done.
  pose proof (Z.div_pos m 5). destruct (Z.eqb_spec (m / 5) 0); [lia|].
  assert (m / 5 <= m)%Z by (apply Z.div_le_upper_bound; lia).
  rewrite Z.mod_small; lia.
Qed.

(** ** The environment of a spawned plugin *)
Definition named (name : string) (kv : string * string) : Prop := kv.1 = name.

Definition var_of (name : string) (env : list (string * string)) : option string :=
  snd <$> last (base.filter (fun kv => kv.1 = name) env).

Lemma cmd_var_of c name : cmd_var c name = var_of name (cmd_env c).
Proof. done. Qed.

Lemma var_of_app name a b :
  var_of name (a ++ b) = match var_of name b with Some v => Some v | None => var_of name a end.
Proof.
  unfold var_of. rewrite filter_app, last_app. by destruct (last (base.filter _ b)).
Qed.

Lemma var_of_cons_eq name v env :
  var_of name ((name, v) :: env) = match var_of name env with Some u => Some u | None => Some v end.
Proof.
  change ((name, v) :: env) with ([(name, v)] ++ env). rewrite var_of_app.
  unfold var_of at 2. by rewrite filter_cons_True.
Qed.

Lemma var_of_cons_ne name k v env :
  k <> name -> var_of name ((k, v) :: env) = var_of name env.
Proof. intros. unfold var_of. by rewrite filter_cons_False. Qed.

Lemma var_of_absent name env :
  (forall v, (name, v) ∉ env) -> var_of name env = None.
Proof.
  intros Ha. unfold var_of. destruct (base.filter _ env) as [|[k v] l] eqn:E; [done|].
  exfalso. apply (Ha v).
  assert (Hin : (k, v) ∈ base.filter (fun kv : string * string => kv.1 = name) env)
    by (rewrite E; left).
  apply elem_of_filter_list in Hin as [Hk Hin]. simpl in Hk. by subst k.
Qed.

Lemma merged_env_elem env key kv :
  kv ∈ merged_env env key <->
  (kv ∈ omap (split_once "=") env /\ (key = None \/ kv.1 <> JWT_ENV))
  \/ (exists k, key = Some k /\ kv = (JWT_ENV, k)).
Proof.
  unfold merged_env. destruct key as [k|].
  - rewrite elem_of_app, elem_of_filter_list, list_elem_of_singleton. naive_solver.
  - rewrite elem_of_filter_list. naive_solver.
Qed.

Lemma build_command_env `{Crypto} o config made :
  cmd_env (build_command o config made)
  = kernel_env o config (plugin_data_dir o (pc_plugin_id config) made)
    ++ merged_env (pc_env config)
         (mac_env_override (so_mac_master o) (so_legacy_plugin_mac o) (pc_plugin_id config)).
Proof. unfold build_command. by destruct (pc_sandbox config). Qed.

Lemma kernel_env_jwt o config data v : (JWT_ENV, v) ∉ kernel_env o config data.
Proof.
  unfold kernel_env, shim_env.
  destruct (pc_sandbox config), data, (0 <? pc_grace_seconds config)%Z,
    (bool_decide (pc_max_fs_access config = FsFull)); set_solver.
Qed.

Lemma spawned_env `{Crypto} o config made m :
  so_mac_master o = Some m -> so_legacy_plugin_mac o = false ->
  let key := plugin_mac_secret m (pc_plugin_id config) in
  let c := build_command o config made in
  cmd_env c = kernel_env o config (plugin_data_dir o (pc_plugin_id config) made)
              ++ merged_env (pc_env config) (Some key)
  /\ cmd_var c JWT_ENV = Some key.
Proof.
  intros Hm Hl key c.
  assert (Hc : cmd_env c = kernel_env o config (plugin_data_dir o (pc_plugin_id config) made)
                           ++ merged_env (pc_env config) (Some key)).
  { unfold c. rewrite build_command_env. by rewrite Hm, Hl. }
  split; [done|].
  rewrite cmd_var_of, Hc, var_of_app. unfold merged_env. by rewrite var_of_app, var_of_cons_eq.
Qed.

(** Key isolation: with a master secret and per-plugin keys, a spawned plugin
    sees exactly its own derived key as [VYN_JWT_SECRET], whatever the operator's
    configuration sets, and no variable of that name ever carries another
    value; every other operator variable is passed on unchanged. *)
Theorem spawned_key_is_derived `{Crypto} o config made m :
  so_mac_master o = Some m -> so_legacy_plugin_mac o = false ->
  let key := plugin_mac_secret m (pc_plugin_id config) in
  let c := build_command o config made in
  cmd_var c JWT_ENV = Some key /\
  (forall v, (JWT_ENV, v) ∈ cmd_env c -> v = key) /\
  (forall k v, k <> JWT_ENV -> (k, v) ∈ omap (split_once "=") (pc_env config) ->
     (k, v) ∈ cmd_env c).
Proof.
  intros Hm Hl key c. destruct (spawned_env o config made m Hm Hl) as [Hc Hv]. fold c key in Hc, Hv.
  split_and!; [done| |].
  - intros v. rewrite Hc, elem_of_app, merged_env_elem.
    intros [Hk%kernel_env_jwt|[[_ [?|?]]|(? & [= <-] & [= <-])]]; done.
  - intros k v Hk Hkv. rewrite Hc, elem_of_app, merged_env_elem. auto 10.
Qed.

(** The environment the child is started with: set variables over inherited ones. *)
Definition child_env (inherited : Env) (c : Cmd) : Env :=
  fun name => match cmd_var c name with Some v => Some v | None => inherited name end.

(** Round trip of the filesystem restriction: for a sandboxed plugin with a
    restricted mode, what the shim parses from its environment is the configured
    mode and paths, with the granted data directory as the last writable path,
    as long as no path is empty or holds the separator and the operator's own
    variables do not reuse the three names. *)
Theorem fs_restriction_roundtrip `{Crypto} o config made inherited :
  pc_sandbox config = true -> pc_max_fs_access config <> FsFull ->
  let rw := pc_writable_paths config
            ++ option_list (plugin_data_dir o (pc_plugin_id config) made) in
  Forall env_path (pc_readonly_paths config) -> Forall env_path rw ->
  (forall kv, kv ∈ omap (split_once "=") (pc_env config) ->
     kv.1 ∉ [MAX_FS_ACCESS_ENV; RO_PATHS_ENV; RW_PATHS_ENV]) ->
  from_env (child_env inherited (build_command o config made))
  = Some (mkFsRestriction (pc_max_fs_access config) (pc_readonly_paths config) rw).
Proof.
  intros Hs Hm rw Hro Hrw Hop.
  set (c := build_command o config made).
  assert (Habs : forall name key, name ∈ [MAX_FS_ACCESS_ENV; RO_PATHS_ENV; RW_PATHS_ENV] ->
    var_of name (merged_env (pc_env config) key) = None).
  { intros name key Hn. apply var_of_absent.
    intros v [[Hin _]|(k & _ & [= -> _])]%merged_env_elem; [by apply Hop in Hin|].
    set_unfold in Hn. naive_solver. }
  assert (Hvar : forall name, name ∈ [MAX_FS_ACCESS_ENV; RO_PATHS_ENV; RW_PATHS_ENV] ->
    cmd_var c name = var_of name (shim_env config rw)).
  { intros name Hn. rewrite cmd_var_of. unfold c. rewrite build_command_env, var_of_app, Habs by done.
    unfold kernel_env. rewrite Hs, var_of_app, var_of_absent; [done|].
    intros v. destruct (plugin_data_dir o (pc_plugin_id config) made); set_solver. }
  assert (Hsh : shim_env config rw = (if (0 <? pc_grace_seconds config)%Z
      then [("VYN_SHIM_GRACE_SECS", fmt_Z (pc_grace_seconds config))] else [])
      ++ [(MAX_FS_ACCESS_ENV, fs_as_str (pc_max_fs_access config));
          (RO_PATHS_ENV, join_paths_env (pc_readonly_paths config));
          (RW_PATHS_ENV, join_paths_env rw)]).
  { unfold shim_env. by rewrite bool_decide_eq_false_2. }
  assert (H1 : cmd_var c MAX_FS_ACCESS_ENV = Some (fs_as_str (pc_max_fs_access config)))
    by (rewrite Hvar, Hsh, var_of_app by set_solver; reflexivity).
  assert (H2 : cmd_var c RO_PATHS_ENV = Some (join_paths_env (pc_readonly_paths config)))
    by (rewrite Hvar, Hsh, var_of_app by set_solver; reflexivity).
  assert (H3 : cmd_var c RW_PATHS_ENV = Some (join_paths_env rw))
    by (rewrite Hvar, Hsh, var_of_app by set_solver; reflexivity).
  assert (Hp : fs_parse (fs_as_str (pc_max_fs_access config)) = Some (pc_max_fs_access config))
    by (by destruct (pc_max_fs_access config)).
  unfold from_env, child_env at 1. rewrite H1, Hp, bool_decide_eq_false_2 by done.
  rewrite (paths_env_roundtrip _ _ (pc_readonly_paths config)), (paths_env_roundtrip _ _ rw);
    try done; unfold child_env; by rewrite ?H2, ?H3.
Qed.

(** ** Spawning *)

(** The state a spawn leaves once the process is forked. *)
Definition forked_state (config : PluginConfig) (s : Sup) : Sup :=
  let epoch := u64_succ (sv_next_epoch s) in
  set_log_buffers (<[pc_plugin_id config := epoch]> (sv_log_buffers s))
    (<[epoch := []]> (sv_logs s)) (set_next_epoch epoch s).

(** Every outcome of the first half of a spawn. *)
Lemma spawn_begin_cases config count rep forked s s1 r :
  spawn_begin config count rep forked s = (s1, r) ->
  (s1 = s /\ rep = None /\ is_Some (sv_entries s !! pc_plugin_id config)
   /\ r = Err (EPluginAlreadyRunning (pc_plugin_id config)))
  \/ (rep = None -> sv_entries s !! pc_plugin_id config = None) /\
     ((exists e, forked = Err e /\ s1 = set_next_epoch (u64_succ (sv_next_epoch s)) s
                 /\ r = Err (EIo e))
      \/ (forked = Ok tt /\ s1 = forked_state config s
          /\ r = Ok (mkSpawning config count (u64_succ (sv_next_epoch s))))).
Proof.
  unfold spawn_begin, forked_state.
  destruct rep, (sv_entries s !! pc_plugin_id config), forked as [[]|]; intros ?; simplify_eq;
    naive_solver.
Qed.

Lemma spawn_begin_Ok config count rep forked s s1 sg :
  spawn_begin config count rep forked s = (s1, Ok sg) ->
  s1 = forked_state config s /\ sg = mkSpawning config count (u64_succ (sv_next_epoch s))
  /\ (rep = None -> sv_entries s !! pc_plugin_id config = None).
Proof.
  intros [(? & ? & ? & ?)|(? & [(? & ? & ? & ?)|(? & ? & ?)])]%spawn_begin_cases; by simplify_eq.
Qed.

(** ** Log buffers *)
Definition last_n {A} (n : nat) (l : list A) : list A := drop (length l - n) l.

Lemma length_last_n {A} n (l : list A) : length (last_n n l) = Nat.min n (length l).
Proof. unfold last_n. rewrite length_drop. lia. Qed.

Lemma last_n_snoc {A} n (l : list A) x : last_n (S n) (l ++ [x]) = last_n n l ++ [x].
Proof.
  unfold last_n. rewrite length_app. simpl.
  replace (length l + 1 - S n) with (length l - n) by lia.
  apply drop_app_le. lia.
Qed.

Lemma tail_last_n {A} n (l : list A) :
  n < length l -> tail (last_n (S n) l) = last_n n l.
Proof.
  intros Hn. unfold last_n. replace (length l - n) with (S (length l - S n)) by lia.
  clear Hn. generalize (length l - S n) as k.
  induction l as [|a l IH]; intros [|k]; simpl; [done..|]. apply IH.
Qed.

(** One push on a ring that holds the last [max 1 m] lines. *)
Lemma log_push_last m lines line :
  log_push m (last_n (Nat.max 1 m) lines) line = last_n (Nat.max 1 m) (lines ++ [line]).
Proof.
  unfold log_push. rewrite length_last_n.
  replace (Nat.max 1 m) with (S (Nat.max 1 m - 1)) by lia. rewrite last_n_snoc.
  f_equal. destruct (Nat.leb_spec m (Nat.min (S (Nat.max 1 m - 1)) (length lines))).
  - destruct (decide (Nat.max 1 m - 1 < length lines)); [by apply tail_last_n|].
    assert (lines = []) as -> by (apply length_zero_iff_nil; lia). done.
  - unfold last_n. f_equal. lia.
Qed.

(** The lines among interleaved writes that went to buffer [b]. *)
Definition lines_of (b : N) (writes : list (N * string)) : list string :=
  map snd (base.filter (fun w => w.1 = b) writes).

Lemma drain_lookup o writes s b l :
  sv_logs s !! b = Some (last_n (Nat.max 1 (so_max_log_lines o)) l) ->
  let s' := foldl (fun s w => drain_line o w.1 w.2 s) s writes in
  sv_log_buffers s' = sv_log_buffers s /\
  sv_logs s' !! b = Some (last_n (Nat.max 1 (so_max_log_lines o)) (l ++ lines_of b writes)).
Proof.
  revert s l. induction writes as [|[b' line] writes IH]; intros s l Hb; simpl.
  - by rewrite app_nil_r.
  - unfold lines_of. destruct (decide (b' = b)) as [->|Hne].
    + rewrite filter_cons_True by done. simpl.
      destruct (IH (drain_line o b line s) (l ++ [line])) as [H1 H2].
      * simpl. rewrite lookup_alter_eq, Hb. simpl. by rewrite log_push_last.
      * split; [done|]. by rewrite <- (assoc (++)) in H2.
    + rewrite filter_cons_False by done. apply (IH (drain_line o b' line s) l).
      simpl. by rewrite lookup_alter_ne.
Qed.

(** A plugin's log is a bounded window onto its own current process: after a
    spawn gave it a fresh buffer, and under any interleaving of lines written by
    any processes to any buffers (the previous instance of the same plugin
    included), asking for [n] lines gives exactly the last [n] of the last
    [max 1 max_log_lines] lines that process wrote, in order. *)
Theorem logs_are_last_lines o config count rep forked s s1 sg writes n :
  spawn_begin config count rep forked s = (s1, Ok sg) ->
  get_logs (pc_plugin_id config) n (foldl (fun s w => drain_line o w.1 w.2 s) s1 writes)
  = last_n n (last_n (Nat.max 1 (so_max_log_lines o)) (lines_of (sg_epoch sg) writes)).
Proof.
  intros Hs.
  assert (Hb : sv_log_buffers s1 !! pc_plugin_id config = Some (sg_epoch sg)
               /\ sv_logs s1 !! sg_epoch sg = Some []).
  { apply spawn_begin_Ok in Hs as (-> & -> & _). simpl. by rewrite !lookup_insert_eq. }
  destruct Hb as [Hb Hl].
  destruct (drain_lookup o writes s1 (sg_epoch sg) []) as [H1 H2].
  { rewrite Hl. unfold last_n. by rewrite drop_nil. }
  unfold get_logs. rewrite H1, Hb, H2. done.
Qed.

(** ** The watchdog *)
Section watchdog.
Context `{Wire} (interval timeout : Z).

Definition overdue (w : World) (id : string) : bool :=
  match last_pong id (w_reg w) with
  | Some t => (interval + timeout <? duration_since (clk_now (w_clk w)) t)%Z
  | None => false
  end.

Definition ping (w : World) : option Outbound :=
  match encode (envelope_of (PPing (now_ms w))) with
  | Some payload => Some (out_frame (build_frame PING_TARGET 0 payload))
  | None => None
  end.

Lemma watchdog_one_eq w s e :
  watchdog_one interval timeout (w, s) e =
  if overdue w e.1 then (w, kill (signal_target e.2) SIGKILL s)
  else match get e.1 (w_reg w), ping w with
       | Some r, Some out => (set_chans (try_send (pe_write_tx r) out (w_chans w)).1 w, s)
       | _, _ => (w, s)
       end.
Proof.
  unfold watchdog_one, ping. fold (overdue w e.1). destruct (overdue w e.1); [done|].
  destruct (get e.1 (w_reg w)); [|done]. by destruct (encode _).
Qed.

(** A queue only grows by a [try_send]. *)
Lemma try_send_queue_mono tx tx' out cs c o :
  cs !! tx = Some c -> o ∈ ch_queue c ->
  exists c', (try_send tx' out cs).1 !! tx = Some c' /\ o ∈ ch_queue c'.
Proof.
  intros Hc Ho. unfold try_send. destruct (cs !! tx') as [c0|] eqn:H0; [|eauto].
  destruct (ch_closed c0); [eauto|]. case_match; [eauto|]. simpl.
  destruct (decide (tx = tx')) as [<-|Hne].
  - rewrite lookup_insert_eq. simplify_eq. eexists; split; [done|]. simpl. set_solver.
  - rewrite lookup_insert_ne by done. eauto.
Qed.

Lemma watchdog_fold es w s :
  let '(w', s') := foldl (watchdog_one interval timeout) (w, s) es in
  w_reg w' = w_reg w /\ w_clk w' = w_clk w /\
  s' = foldl (fun s e => kill (signal_target e.2) SIGKILL s) s
         (base.filter (fun e => overdue w e.1 = true) es).
Proof.
  revert w s. induction es as [|e es IH]; intros w s; [done|].
  cbn [foldl]. rewrite watchdog_one_eq. destruct (overdue w e.1) eqn:Ho.
  - rewrite filter_cons_True by done. apply IH.
  - rewrite filter_cons_False by (by rewrite Ho).
    destruct (get e.1 (w_reg w)) as [r|]; [|apply IH].
    destruct (ping w) as [out|]; [|apply IH].
    specialize (IH (set_chans (try_send (pe_write_tx r) out (w_chans w)).1 w) s).
    destruct (foldl _ _ es) as [w' s']. exact IH.
Qed.

Lemma watchdog_keeps es w s tx c o :
  w_chans w !! tx = Some c -> o ∈ ch_queue c ->
  exists c', w_chans (foldl (watchdog_one interval timeout) (w, s) es).1 !! tx = Some c'
             /\ o ∈ ch_queue c'.
Proof.
  revert w s c. induction es as [|e es IH]; intros w s c Hc Ho; [by eauto|].
  cbn [foldl]. rewrite watchdog_one_eq. destruct (overdue w e.1); [by eapply IH|].
  destruct (get e.1 (w_reg w)) as [r|]; [|by eapply IH].
  destruct (ping w) as [out|]; [|by eapply IH].
  destruct (try_send_queue_mono tx (pe_write_tx r) out _ c o Hc Ho) as (c' & Hc' & Ho').
  by eapply IH.
Qed.

(** A channel stays open and fills by at most one frame per plugin of a round. *)
Lemma watchdog_room es w s tx c :
  w_chans w !! tx = Some c ->
  exists c', w_chans (foldl (watchdog_one interval timeout) (w, s) es).1 !! tx = Some c'
             /\ ch_closed c' = ch_closed c /\ ch_capacity c' = ch_capacity c
             /\ length (ch_queue c') <= length (ch_queue c) + length es.
Proof.
  revert w s c. induction es as [|e es IH]; intros w s c Hc; [simpl; eauto with lia|].
  cbn [foldl]. rewrite watchdog_one_eq. 
  assert (Hskip : forall w' s', w_chans w' = w_chans w ->
    exists c', w_chans (foldl (watchdog_one interval timeout) (w', s') es).1 !! tx = Some c'
      /\ ch_closed c' = ch_closed c /\ ch_capacity c' = ch_capacity c
      /\ length (ch_queue c') <= length (ch_queue c) + length (e :: es)).
  { intros w' s' Hw. destruct (IH w' s' c) as (c' & ? & ? & ? & ?); [by rewrite Hw|].
    exists c'. simpl. split_and!; try done; lia. }
  destruct (overdue w e.1); [by apply Hskip|].
  destruct (get e.1 (w_reg w)) as [r|]; [|by apply Hskip].
  destruct (ping w) as [out|]; [|by apply Hskip].
  unfold try_send. destruct (w_chans w !! pe_write_tx r) as [c0|] eqn:H0; [|by apply Hskip].
  destruct (ch_closed c0); [by apply Hskip|].
  destruct (_ <=? _)%nat; [by apply Hskip|]. simpl.
  destruct (decide (tx = pe_write_tx r)) as [->|Hne].
  - simplify_eq. edestruct (IH (set_chans (<[pe_write_tx r:=push_out out c]> (w_chans w)) w) s)
      as (c' & ? & Hcl & Hca & Hlen); [by simpl; rewrite lookup_insert_eq|].
    exists c'. simpl in *. rewrite length_app in Hlen. simpl in Hlen. split_and!; try done; lia.
  - edestruct (IH (set_chans (<[pe_write_tx r:=push_out out c0]> (w_chans w)) w) s c)
      as (c' & ? & ? & ? & Hlen); [by simpl; rewrite lookup_insert_ne|].
    exists c'. split_and!; try done; lia.
Qed.
End watchdog.

Lemma kills_signals es s :
  foldl (fun s (e : string * SupEntry) => kill (signal_target e.2) SIGKILL s) s es
  = mkSup (sv_entries s) (sv_events s) (sv_log_buffers s) (sv_logs s) (sv_forced_restarts s)
      (sv_stopped_counts s) (sv_next_epoch s) (sv_stopped_epochs s)
      (sv_signals s ++ map (fun e => (signal_target e.2, SIGKILL)) es).
Proof.
  revert s. induction es as [|e es IH]; intros s; simpl.
  - rewrite app_nil_r. by destruct s.
  - rewrite IH. simpl. by rewrite <- (assoc (++)).
Qed.

(** A watchdog round kills exactly the supervised plugins whose last pong is
    older than interval plus timeout (through the shim when there is one) and
    changes nothing else of the supervisor or the registry; every other
    supervised plugin that is registered with room in its channel has a ping
    queued, whatever happened to the plugins before it. *)
Theorem watchdog_exact `{Wire} interval timeout w s w' s' :
  watchdog_round interval timeout w s = (w', s') ->
  s' = mkSup (sv_entries s) (sv_events s) (sv_log_buffers s) (sv_logs s)
         (sv_forced_restarts s) (sv_stopped_counts s) (sv_next_epoch s)
         (sv_stopped_epochs s)
         (sv_signals s ++ map (fun e => (signal_target e.2, SIGKILL))
            (base.filter (fun e => overdue interval timeout w e.1 = true)
               (map_to_list (sv_entries s)))) /\
  w_reg w' = w_reg w /\
  (forall id e r out c,
     sv_entries s !! id = Some e -> overdue interval timeout w id = false ->
     get id (w_reg w) = Some r -> ping w = Some out ->
     w_chans w !! pe_write_tx r = Some c -> ch_closed c = false ->
     (length (ch_queue c) + size (sv_entries s) <= ch_capacity c)%nat ->
     exists c', w_chans w' !! pe_write_tx r = Some c' /\ out ∈ ch_queue c').
Proof.
  unfold watchdog_round. intros Hr.
  pose proof (watchdog_fold interval timeout (map_to_list (sv_entries s)) w s) as Hf.
  rewrite Hr in Hf. destruct Hf as (Hreg & _ & ->). rewrite kills_signals.
  split_and!; [done..|]. intros id e r out c He Ho Hg Hp Hc Hcl Hcap.
  assert (Hin : (id, e) ∈ map_to_list (sv_entries s)) by (by apply elem_of_map_to_list).
  apply list_elem_of_split in Hin as (l1 & l2 & Hes).
  assert (Hlen : length l1 < size (sv_entries s)).
  { rewrite <- length_map_to_list, Hes, length_app. simpl. lia. }
  rewrite Hes, foldl_app in Hr. cbn [foldl] in Hr.
  pose proof (watchdog_fold interval timeout l1 w s) as Hf1.
  pose proof (watchdog_room interval timeout l1 w s _ _ Hc) as (c1 & Hc1 & Hcl1 & Hca1 & Hl1).
  destruct (foldl (watchdog_one interval timeout) (w, s) l1) as [w1 s1].
  destruct Hf1 as (Hreg1 & Hclk1 & _). simpl in Hc1.
  assert (Hov1 : overdue interval timeout w1 id = false)
    by (unfold overdue in *; by rewrite Hreg1, Hclk1).
  assert (Hp1 : ping w1 = Some out) by (unfold ping, now_ms in *; by rewrite Hclk1).
  rewrite watchdog_one_eq in Hr. simpl in Hr. rewrite Hov1, Hreg1, Hg, Hp1 in Hr.
  unfold try_send in Hr. rewrite Hc1, Hcl1, Hcl in Hr.
  destruct (Nat.leb_spec (ch_capacity c1) (length (ch_queue c1))); [lia|]. simpl in Hr.
  edestruct (watchdog_keeps interval timeout l2 (set_chans (<[pe_write_tx r:=push_out out c1]>
    (w_chans w1)) w1) s1 (pe_write_tx r) (push_out out c1) out) as (c' & Hc' & Ho');
    [by simpl; rewrite lookup_insert_eq|simpl; set_solver|].
  rewrite Hr in Hc'. eauto.
Qed.
