(* ===== verification/SupervisorSafety.v ===== *)
(** * The supervisor under every interleaving

    Theorems over runs [sys_run] of all tasks from the initial state: an epoch
    lives in one place at a time, exits are attributed to the process they came
    from, an explicit stop is terminal, automatic restarts stay within the
    budget; and the runs in which the supervisor does not do what its comments
    say. *)

From S2P Require Import Prelude Errors Wire Validate Registry Events Auth Kernel.
From S2P Require Import Sandbox SandboxProps Supervisor SupervisorProps.

Section runs.
Context `{Wire} (o : SupOpts).

(** ** Reasoning on runs *)
Lemma sys_run_app acts1 acts2 y :
  sys_run o (acts1 ++ acts2) y = sys_run o acts1 y ≫= sys_run o acts2.
Proof.
  revert y. induction acts1 as [|a acts1 IH]; intros y; [done|]. simpl.
  destruct (sys_step o a y); simpl; [apply IH|done].
Qed.

(** An invariant of every step that is taken is one of the run. *)
Lemma sys_run_inv (P : Sys -> Prop) (Q : Action -> Prop) :
  (forall a y y', P y -> Q a -> sys_step o a y = Some y' -> P y') ->
  forall acts y y', P y -> Forall Q acts -> sys_run o acts y = Some y' -> P y'.
Proof.
  intros Hstep. induction acts as [|a acts IH]; simpl; intros y y' Hy HQ Hr.
  - by simplify_eq.
  - apply Forall_cons in HQ as [Ha HQ].
    destruct (sys_step o a y) as [y1|] eqn:Hs; [|done]. simpl in Hr. eauto.
Qed.

Lemma watchdog_sup interval timeout w s :
  exists sigs, (watchdog_round interval timeout w s).2 =
    mkSup (sv_entries s) (sv_events s) (sv_log_buffers s) (sv_logs s)
      (sv_forced_restarts s) (sv_stopped_counts s) (sv_next_epoch s) (sv_stopped_epochs s)
      sigs.
Proof.
  pose proof (watchdog_fold interval timeout (map_to_list (sv_entries s)) w s) as Hf.
  unfold watchdog_round. destruct (foldl _ _ _) as [w' s']. destruct Hf as (_ & _ & ->).
  rewrite kills_signals. eauto.
Qed.

(** ** What a step can do to the entries *)

(** The entry a completed spawn registers. *)
Definition spawned_entry (sg : Spawning) (pids : Z * option Z) : SupEntry :=
  mkSupEntry (sg_config sg) (sg_restart_count sg) pids.1 pids.2 (sg_epoch sg).

Lemma spawn_finish_cases sg st s :
  (exists e, spawned_pids (pc_sandbox (sg_config sg)) st = Err e /\
     spawn_finish sg st s = (s, Err e))
  \/ (exists pids, spawned_pids (pc_sandbox (sg_config sg)) st = Ok pids /\
     spawn_finish sg st s =
       (set_entries (<[pc_plugin_id (sg_config sg) := spawned_entry sg pids]>
                       (sv_entries s)) s,
        Ok (mkProcess (pc_plugin_id (sg_config sg)) pids.1))).
Proof.
  unfold spawn_finish, spawned_entry.
  destruct (spawned_pids _ st) as [[pid shim]|e]; [right; by eexists|left; eauto].
Qed.

(** The monitor's reaction to an event, by cases. *)
Lemma monitor_recv_cases ev s s1 m :
  monitor_recv ev s = (s1, m) ->
  s1 = set_forced (sv_forced_restarts s ∖ {[xe_plugin_id ev]}) s /\
  (m = MonIdle
   \/ exists entry, sv_entries s !! xe_plugin_id ev = Some entry /\
        se_epoch entry = xe_epoch ev /\ was_stopped ev s = false /\
        m = MonPublishing ev
              (if should_restart (bool_decide (xe_plugin_id ev ∈ sv_forced_restarts s)) ev entry
               then Some (se_config entry, se_restart_count entry) else None)
              (se_restart_count entry)).
Proof.
  unfold monitor_recv. set (s0 := set_forced _ s).
  assert (Hw : was_stopped ev s0 = was_stopped ev s) by done.
  unfold is_current. change (sv_entries s0) with (sv_entries s). rewrite Hw.
  destruct (sv_entries s !! xe_plugin_id ev) as [entry|]; simpl.
  - destruct (N.eqb_spec (se_epoch entry) (xe_epoch ev)), (was_stopped ev s); simpl;
      intros [= <- <-]; eauto 10.
  - intros [= <- <-]; eauto.
Qed.

(** Open one step: one goal per action and outcome, with the new state explicit. *)
Ltac open_step a Hs :=
  destruct a as [config forked|i st|id0 grace|id0|ep succ orphan|i| |draw|forked|st|iv tm|buf line|w0];
  cbn [sys_step] in Hs;
  [ destruct (spawn_begin config 0 None forked (y_sup _)) as [s1 [sg|err]] eqn:Hsb
  | destruct (y_starting _ !! i) as [sg|] eqn:Hi; [simpl in Hs|done]
  | | | destruct (y_children _ !! ep) as [ch|] eqn:Hch; [simpl in Hs|done]
  | destruct (y_reaped _ !! i) as [ev|] eqn:Hi; [simpl in Hs; destruct (_ <? _)%nat; [|done]|done]
  | destruct (y_mon _) eqn:Hm; try done;
    destruct (sv_events _) as [|ev q] eqn:Hq; [done|];
    destruct (monitor_recv _ _) as [s1 m1] eqn:Hmr
  | destruct (y_mon _) as [|ev dec cnt|cfg cnt ep dl|sg] eqn:Hm; try done;
    destruct (monitor_published _ _ _ _ _) as [s1 m1] eqn:Hmp
  | destruct (y_mon _) as [|ev dec cnt|cfg cnt ep dl|sg] eqn:Hm; try done;
    destruct (monitor_awake _ _ _ _ _) as [s1 m1] eqn:Hma
  | destruct (y_mon _) as [|ev dec cnt|cfg cnt ep dl|sg] eqn:Hm; try done
  | match type of Hs with context [watchdog_round iv tm ?w ?s] =>
      destruct (watchdog_sup iv tm w s) as [sigs Hwd];
      destruct (watchdog_round iv tm w s) as [w1 s1]; simpl in Hwd; subst s1 end
  | | ];
  injection Hs as <-.

Lemma monitor_published_cases ev dec draw s s1 m :
  monitor_published o ev dec draw s = (s1, m) ->
  (exists config n d, dec = Some (config, n) /\ s1 = s
     /\ m = MonBackoff config (u32_succ n) (xe_epoch ev) d)
  \/ (exists c, dec = None /\ m = MonIdle /\
      s1 = set_stopped_counts c (set_entries (delete (xe_plugin_id ev) (sv_entries s)) s)).
Proof.
  unfold monitor_published. destruct dec as [[config n]|]; intros [= <- <-]; eauto 10.
Qed.

Lemma monitor_awake_cases config n ep forked s s1 m :
  monitor_awake config n ep forked s = (s1, m) ->
  (sv_stopped_epochs s !! pc_plugin_id config = Some ep /\ s1 = s /\ m = MonIdle)
  \/ (epoch_is (sv_stopped_epochs s) (pc_plugin_id config) ep = false /\
      ((exists e, forked = Err e /\ s1 = set_next_epoch (u64_succ (sv_next_epoch s)) s
                  /\ m = MonIdle)
       \/ (forked = Ok tt /\ s1 = forked_state config s
           /\ m = MonSpawning (mkSpawning config n (u64_succ (sv_next_epoch s)))))).
Proof.
  unfold monitor_awake, epoch_is.
  destruct (sv_stopped_epochs s !! pc_plugin_id config) as [e|] eqn:He;
    [destruct (N.eqb_spec e ep) as [->|]|].
  1: intros [= <- <-]; auto.
  all: destruct (spawn_begin config n (Some ep) forked s) as [s2 r] eqn:Hsb;
    apply spawn_begin_cases in Hsb
      as [(? & ? & ?)|(_ & [(? & ? & -> & ->)|(? & -> & ->)])]; try done;
    intros [= <- <-]; eauto 10.
Qed.

(** Entries are keyed by their own plugin id. *)
Definition keyed (y : Sys) : Prop :=
  map_Forall (fun id e => pc_plugin_id (se_config e) = id) (sv_entries (y_sup y)).

Lemma finish_keyed sg st y s :
  keyed y -> sv_entries s = sv_entries (y_sup y) ->
  map_Forall (fun id e => pc_plugin_id (se_config e) = id) (sv_entries (spawn_finish sg st s).1).
Proof.
  unfold keyed. intros Hk He.
  destruct (spawn_finish_cases sg st s) as [(e & _ & ->)|(pids & _ & ->)]; simpl; rewrite He;
    [done|]. by apply map_Forall_insert_2.
Qed.

Lemma forked_state_entries config s :
  sv_entries (forked_state config s) = sv_entries s.
Proof. done. Qed.

Lemma keyed_step a y y' : keyed y -> sys_step o a y = Some y' -> keyed y'.
Proof.
  intros Hk Hs. pose proof Hk as Hk'. unfold keyed in *. open_step a Hs; simpl; try done.
  - apply spawn_begin_Ok in Hsb as (-> & _). done.
  - apply spawn_begin_cases in Hsb as [(-> & _)|(_ & [(? & _ & -> & _)|(_ & _ & ?)])]; done.
  - by eapply finish_keyed.
  - unfold stop_plugin. destruct (sv_entries _ !! id0); [|done].
    destruct grace; simpl; by apply map_Forall_delete.
  - unfold restart_plugin. by destruct (sv_entries _ !! id0).
  - unfold reap_child. by destruct (cd_shim_pid ch), orphan.
  - apply monitor_recv_cases in Hmr as (-> & _). done.
  - apply monitor_published_cases in Hmp
      as [(? & ? & ? & _ & -> & _)|(? & _ & _ & ->)]; [done|]. simpl. by apply map_Forall_delete.
  - apply monitor_awake_cases in Hma as [(_ & -> & _)|(_ & [(? & _ & -> & _)|(_ & -> & _)])]; done.
  - by eapply finish_keyed.
Qed.

Lemma keyed_run w acts y : sys_run o acts (sys_init w) = Some y -> keyed y.
Proof.
  intros Hr. eapply (sys_run_inv keyed (fun _ => True)); [| |by apply Forall_true|exact Hr].
  - intros; by eapply keyed_step.
  - by apply map_Forall_empty.
Qed.

(** ** An explicit stop is terminal *)

(** No restart of [id] is under way but, at most, that of instance [e] before its
    respawn; no start of [id] is in flight. *)
Definition pending_only (id : string) (e : N) (y : Sys) : Prop :=
  Forall (fun sg => pc_plugin_id (sg_config sg) <> id) (y_starting y) /\
  match y_mon y with
  | MonIdle => True
  | MonPublishing ev dec _ => forall cfg n, dec = Some (cfg, n) -> pc_plugin_id cfg = id -> xe_epoch ev = e
  | MonBackoff cfg _ ep _ => pc_plugin_id cfg = id -> ep = e
  | MonSpawning sg => pc_plugin_id (sg_config sg) <> id
  end.

Definition not_start_of (id : string) (a : Action) : Prop :=
  match a with AStart config _ => pc_plugin_id config <> id | _ => True end.

Definition down (id : string) (e : N) (y : Sys) : Prop :=
  keyed y /\ sv_entries (y_sup y) !! id = None /\
  sv_stopped_epochs (y_sup y) !! id = Some e /\ pending_only id e y.

Lemma finish_other sg st s id :
  pc_plugin_id (sg_config sg) <> id ->
  sv_entries (spawn_finish sg st s).1 !! id = sv_entries s !! id /\
  sv_stopped_epochs (spawn_finish sg st s).1 = sv_stopped_epochs s.
Proof.
  intros Hne. destruct (spawn_finish_cases sg st s) as [(? & _ & ->)|(? & _ & ->)]; [done|].
  simpl. by rewrite lookup_insert_ne.
Qed.

Lemma Forall_remove_nth {A} (P : A -> Prop) i l : Forall P l -> Forall P (remove_nth i l).
Proof. intros Hl. apply Forall_app. auto using Forall_take, Forall_drop. Qed.

Lemma down_step id e a y y' :
  down id e y -> not_start_of id a -> sys_step o a y = Some y' -> down id e y'.
Proof.
  intros (Hk & He & Hst & Hpf & Hpm) Hns Hs.
  split; [by eapply keyed_step|]. unfold pending_only. open_step a Hs; simpl; simpl in Hns; try done.
  - apply spawn_begin_Ok in Hsb as (-> & -> & _). split_and!; try done.
    apply Forall_app; split; [done|]. by apply Forall_singleton.
  - apply spawn_begin_cases in Hsb as [(-> & _)|(_ & [(? & _ & -> & _)|(_ & _ & ?)])]; done.
  - assert (pc_plugin_id (sg_config sg) <> id) as Hne by (by eapply Forall_lookup in Hpf).
    destruct (finish_other sg st (y_sup y) id Hne) as [-> ->].
    split_and!; try done. by apply Forall_remove_nth.
  - unfold stop_plugin. destruct (sv_entries (y_sup y) !! id0) eqn:H0; [|done].
    assert (id0 <> id) by congruence.
    destruct grace; simpl; by rewrite lookup_delete_ne, lookup_insert_ne.
  - unfold restart_plugin. by destruct (sv_entries _ !! id0).
  - unfold reap_child. by destruct (cd_shim_pid ch), orphan.
  - apply monitor_recv_cases in Hmr as (-> & [->|(ent & Hent & _ & _ & ->)]); simpl; [done|].
    split_and!; try done. intros cfg n Hd Hcfg. exfalso.
    simpl in Hent. apply Hk in Hent as Hid. destruct (should_restart _ _ _); simplify_eq. congruence.
  - apply monitor_published_cases in Hmp
      as [(cfg & n & d & -> & -> & ->)|(c & -> & -> & ->)]; simpl.
    + split_and!; try done. intros Hcfg. by eapply Hpm.
    + split_and!; try done. by apply lookup_delete_None; auto.
  - apply monitor_awake_cases in Hma
      as [(_ & -> & ->)|(Hep & [(? & _ & -> & ->)|(_ & -> & ->)])]; try done.
    split_and!; try done. simpl. intros Hcfg. specialize (Hpm Hcfg). subst ep.
    unfold epoch_is in Hep. rewrite Hcfg, Hst in Hep. by apply N.eqb_neq in Hep.
  - destruct (finish_other sg st (y_sup y) id Hpm) as [-> ->]. done.
Qed.

(** C6 An explicit stop is terminal: from any reachable state in which no start
    of the plugin is in flight and a pending restart, if any, is that of the
    registered instance, after a stop no sequence of exits, monitor steps,
    watchdog rounds, restarts and stops (short of a new explicit start of that
    plugin) makes it run again. *)
Theorem stop_terminal w acts0 y id entry grace acts y' :
  sys_run o acts0 (sys_init w) = Some y ->
  sv_entries (y_sup y) !! id = Some entry ->
  pending_only id (se_epoch entry) y ->
  Forall (not_start_of id) acts ->
  sys_run o (AStop id grace :: acts) y = Some y' ->
  is_running id (y_sup y') = false.
Proof.
  intros Hr0 He Hp Hns Hr. cbn [sys_run sys_step] in Hr. simpl in Hr.
  unfold is_running. apply bool_decide_eq_false_2. rewrite <- eq_None_not_Some.
  eapply (sys_run_inv (down id (se_epoch entry)) (not_start_of id)); [|..|exact Hr]; [| |done].
  - intros; by eapply down_step.
  - unfold down, stop_plugin. rewrite He. pose proof (keyed_run _ _ _ Hr0) as Hk.
    destruct grace; simpl; unfold keyed in *; simpl;
      rewrite lookup_delete_eq, lookup_insert_eq; split_and!; try done;
      by apply map_Forall_delete.
Qed.

(** ** The restart budget *)

(** Restarts the policy grants on its own. *)
Definition budget (config : PluginConfig) : Z :=
  match pc_restart_policy config with Never => 0 | _ => Z.max 0 (pc_max_restarts config) end.

Definition is_restart_of (id : string) (a : Action) : bool :=
  match a with ARestart id' => id' =s id | _ => false end.

Definition restarts_of (id : string) (acts : list Action) : Z :=
  Z.of_nat (length (List.filter (is_restart_of id) acts)).

(** [n] restarts of [config] are within its budget and [k] manual ones, one of
    which is still unused if the plugin is marked for a forced restart. *)
Definition within (id : string) (k : Z) (s : Sup) (config : PluginConfig) (n : Z) : Prop :=
  (0 <= n /\
   n + (if bool_decide (id ∈ sv_forced_restarts s) then 1 else 0) <= budget config + k)%Z.

Definition mon_within (id : string) (k : Z) (s : Sup) (m : MonPhase) : Prop :=
  match m with
  | MonIdle => True
  | MonPublishing ev dec _ => forall cfg n, dec = Some (cfg, n) -> pc_plugin_id cfg = id ->
      within id k s cfg (n + 1)
  | MonBackoff cfg n _ _ => pc_plugin_id cfg = id -> within id k s cfg n
  | MonSpawning sg => pc_plugin_id (sg_config sg) = id ->
      within id k s (sg_config sg) (sg_restart_count sg)
  end.

Definition budgeted (id : string) (k : Z) (y : Sys) : Prop :=
  let s := y_sup y in
  (forall e, sv_entries s !! id = Some e -> within id k s (se_config e) (se_restart_count e)) /\
  (forall sg, sg ∈ y_starting y -> pc_plugin_id (sg_config sg) = id -> sg_restart_count sg = 0%Z) /\
  mon_within id k s (y_mon y) /\
  (id ∈ sv_forced_restarts s -> 1 <= k)%Z /\ (0 <= k)%Z.

Lemma budget_nonneg config : (0 <= budget config)%Z.
Proof. unfold budget. destruct (pc_restart_policy config); lia. Qed.

Lemma within_mono id k k' s s' config n n' :
  within id k s config n ->
  (id ∈ sv_forced_restarts s' -> id ∈ sv_forced_restarts s) -> (k <= k')%Z -> (0 <= n' <= n)%Z ->
  within id k' s' config n'.
Proof.
  unfold within. intros Hw Hf Hk Hn. repeat case_bool_decide; try lia. naive_solver.
Qed.

Lemma within_restart id k s s' config n :
  within id k s config n -> within id (k + 1) s' config n.
Proof. unfold within. intros Hw. repeat case_bool_decide; lia. Qed.

Lemma within_zero id k s config :
  (id ∈ sv_forced_restarts s -> 1 <= k)%Z -> (0 <= k)%Z -> within id k s config 0.
Proof.
  unfold within. intros Hf Hk. pose proof (budget_nonneg config).
  case_bool_decide; [specialize (Hf ltac:(done))|]; lia.
Qed.

Lemma mon_within_impl id k k' s s' m :
  (forall cfg n, within id k s cfg n -> within id k' s' cfg n) ->
  mon_within id k s m -> mon_within id k' s' m.
Proof. destruct m; simpl; eauto. Qed.

(** A restart the monitor decides on is paid by the policy or by the mark. *)
Lemma decided_within id k s ev entry :
  within id k s (se_config entry) (se_restart_count entry) -> (0 <= k)%Z ->
  should_restart (bool_decide (id ∈ sv_forced_restarts s)) ev entry = true ->
  within id k (set_forced (sv_forced_restarts s ∖ {[id]}) s) (se_config entry)
    (se_restart_count entry + 1).
Proof.
  unfold within, should_restart, budget. simpl. intros [Hn Hw] Hk Hs. split; [lia|].
  rewrite (bool_decide_eq_false_2 (id ∈ _ ∖ _)) by set_solver.
  case_bool_decide; [lia|]. simpl in Hs.
  destruct (pc_restart_policy (se_config entry)); boolify; try done; lia.
Qed.

Lemma u32_succ_bounds n : (0 <= n + 1)%Z -> (0 <= u32_succ n <= n + 1)%Z.
Proof. intros. unfold u32_succ. split; [apply Z.mod_pos_bound|apply Z.mod_le]; lia. Qed.

Lemma finish_within id k sg st s :
  (pc_plugin_id (sg_config sg) = id -> within id k s (sg_config sg) (sg_restart_count sg)) ->
  (forall e, sv_entries s !! id = Some e -> within id k s (se_config e) (se_restart_count e)) ->
  forall e, sv_entries (spawn_finish sg st s).1 !! id = Some e ->
    within id k (spawn_finish sg st s).1 (se_config e) (se_restart_count e).
Proof.
  intros Hsg He e.
  destruct (spawn_finish_cases sg st s) as [(? & _ & ->)|(? & _ & ->)]; [apply He|]. simpl.
  intros [[Hid <-]|[_ Hl]]%lookup_insert_Some; simpl; [by apply Hsg|by apply He].
Qed.

Lemma finish_forced sg st s :
  sv_forced_restarts (spawn_finish sg st s).1 = sv_forced_restarts s.
Proof. by destruct (spawn_finish_cases sg st s) as [(? & _ & ->)|(? & _ & ->)]. Qed.

Lemma elem_of_remove_nth {A} i (l : list A) x : x ∈ remove_nth i l -> x ∈ l.
Proof.
  assert (Hl : Forall (fun x => x ∈ l) (remove_nth i l))
    by (apply Forall_remove_nth; by apply Forall_forall).
  rewrite Forall_forall in Hl. apply Hl.
Qed.

(** A step that touches no spawn carries the bounds over when its marks do. *)
Lemma budgeted_weaken id k k' y s' :
  budgeted id k y ->
  (forall cfg n, within id k (y_sup y) cfg n -> within id k' s' cfg n) ->
  (forall e, sv_entries s' !! id = Some e -> sv_entries (y_sup y) !! id = Some e) ->
  (id ∈ sv_forced_restarts s' -> 1 <= k')%Z -> (0 <= k')%Z ->
  budgeted id k' (set_sup s' y).
Proof.
  intros (He & Hst & Hm & _ & _) Hw Hent Hf Hk. split_and!; simpl; try done.
  - intros e Hl. by apply Hw, He, Hent.
  - by eapply mon_within_impl.
Qed.

Lemma budgeted_stop id k id0 grace y :
  budgeted id k y -> budgeted id k (set_sup (stop_plugin id0 grace (y_sup y)).1 y).
Proof.
  intros Hb. pose proof Hb as (_ & _ & _ & Hf & Hk). unfold stop_plugin.
  destruct (sv_entries (y_sup y) !! id0); [|by destruct y].
  eapply budgeted_weaken; [exact Hb| | | |done]; destruct grace; simpl;
    try (intros e [_ Hl]%lookup_delete_Some; done); try set_solver.
  all: intros cfg n Hn; eapply within_mono; [exact Hn|simpl; set_solver|lia|];
    unfold within in Hn; lia.
Qed.

Lemma budgeted_restart id k id0 y :
  budgeted id k y ->
  budgeted id (k + (if id0 =s id then 1 else 0)) (set_sup (restart_plugin id0 (y_sup y)).1 y).
Proof.
  intros Hb. pose proof Hb as (_ & _ & _ & Hf & Hk). unfold restart_plugin.
  destruct (str_eqb_spec id0 id) as [->|Hne].
  - destruct (sv_entries (y_sup y) !! id) eqn:H0; eapply budgeted_weaken; try exact Hb;
      simpl; try lia; try done; intros; by eapply within_restart.
  - rewrite Z.add_0_r. destruct (sv_entries (y_sup y) !! id0); [|by destruct y].
    eapply budgeted_weaken; [exact Hb| |done|simpl; set_solver|done].
    intros cfg n Hn. eapply within_mono; [exact Hn|simpl; set_solver|lia|].
    unfold within in Hn. lia.
Qed.

Lemma budgeted_recv id k ev q y s1 m :
  keyed y -> budgeted id k y -> monitor_recv ev (set_events q (y_sup y)) = (s1, m) ->
  budgeted id k (mkSys (y_world y) s1 (y_children y) (y_reaped y) (y_starting y) m).
Proof.
  intros Hk (He & Hst & _ & Hf & Hk0) (-> & Hmr)%monitor_recv_cases. simpl in Hmr.
  assert (Hw : forall cfg n, within id k (y_sup y) cfg n ->
    within id k (set_forced (sv_forced_restarts (y_sup y) ∖ {[xe_plugin_id ev]})
                   (set_events q (y_sup y))) cfg n).
  { intros cfg n Hn. eapply within_mono; [exact Hn|simpl; set_solver|lia|].
    unfold within in Hn. lia. }
  split_and!; simpl; [intros e Hl; by apply Hw, He|done| |set_solver|done].
  destruct Hmr as [->|(ent & Hent & _ & _ & ->)]; [done|].
  intros cfg n Hd Hcfg. apply Hk in Hent as Hid.
  destruct (should_restart _ ev ent) eqn:Hsr; simplify_eq.
  assert (xe_plugin_id ev = pc_plugin_id (se_config ent)) as Hev by done.
  rewrite Hev in *. apply (decided_within _ k (y_sup y)) in Hsr; [exact Hsr|by apply He|done].
Qed.

Lemma budgeted_finish id k y sg st rest m :
  budgeted id k y ->
  (pc_plugin_id (sg_config sg) = id -> within id k (y_sup y) (sg_config sg) (sg_restart_count sg)) ->
  (forall sg, sg ∈ rest -> sg ∈ y_starting y) -> (m = MonIdle \/ m = y_mon y) ->
  budgeted id k (mkSys (y_world y) (spawn_finish sg st (y_sup y)).1
    (add_child sg st (y_children y)) (y_reaped y) rest m).
Proof.
  intros (He & Hst & Hm & Hf & Hk0) Hsg Hrest Hmm.
  split_and!; simpl; rewrite ?finish_forced; try done.
  - by apply finish_within.
  - auto.
  - destruct Hmm as [->| ->]; [done|].
    eapply mon_within_impl; [|exact Hm]. unfold within. by rewrite finish_forced.
Qed.

Lemma budgeted_step id k a y y' :
  keyed y -> budgeted id k y -> sys_step o a y = Some y' ->
  budgeted id (k + (if is_restart_of id a then 1 else 0)) y'.
Proof.
  intros Hk Hb Hs. pose proof Hb as (He & Hst & Hm0 & Hf & Hk0).
  open_step a Hs; cbn [is_restart_of]; rewrite ?Z.add_0_r; try done.
  - apply spawn_begin_Ok in Hsb as (-> & -> & _). split_and!; simpl; try done.
    intros sg [?|Hsg]%elem_of_app; [by apply Hst|]. by apply list_elem_of_singleton in Hsg as ->.
  - apply spawn_begin_cases in Hsb as [(-> & _)|(_ & [(? & _ & -> & _)|(_ & _ & ?)])]; done.
  - apply list_elem_of_lookup_2 in Hi as Hin. apply budgeted_finish; [done| |by apply elem_of_remove_nth|auto].
    intros Hid. rewrite (Hst sg Hin Hid). by apply within_zero.
  - by apply budgeted_stop.
  - by apply budgeted_restart.
  - unfold reap_child. by destruct (cd_shim_pid ch), orphan.
  - by eapply budgeted_recv.
  - apply monitor_published_cases in Hmp
      as [(cfg & n & d & -> & -> & ->)|(c & -> & -> & ->)]; split_and!; simpl; try done.
    + intros Hcfg. specialize (Hm0 cfg n eq_refl Hcfg).
      eapply within_mono; [exact Hm0|done|lia|]. unfold within in Hm0.
      pose proof (u32_succ_bounds n). lia.
    + intros e [_ Hl]%lookup_delete_Some. by apply He.
  - apply monitor_awake_cases in Hma
      as [(_ & -> & ->)|(Hep & [(? & _ & -> & ->)|(_ & -> & ->)])]; done.
  - apply budgeted_finish; auto.
Qed.

Lemma restarts_of_cons id a acts :
  restarts_of id (a :: acts) = ((if is_restart_of id a then 1 else 0) + restarts_of id acts)%Z.
Proof. unfold restarts_of. simpl. destruct (is_restart_of id a); simpl; lia. Qed.

Lemma budgeted_run id k acts y y' :
  keyed y -> budgeted id k y -> sys_run o acts y = Some y' ->
  budgeted id (k + restarts_of id acts) y'.
Proof.
  revert k y. induction acts as [|a acts IH]; intros k y Hk Hb Hr.
  - simpl in Hr. simplify_eq. by rewrite Z.add_0_r.
  - simpl in Hr. destruct (sys_step o a y) as [y1|] eqn:Hs; [|done]. simpl in Hr.
    rewrite restarts_of_cons, Z.add_assoc. eapply IH; [by eapply keyed_step| |done].
    by eapply budgeted_step.
Qed.

(** C16 Restart budget: in every run, under every interleaving, the restart count
    of a running plugin is at most what its policy grants (none for [Never],
    [max_restarts] otherwise) plus the number of manual restarts requested;
    with no manual restart it never exceeds the configured budget. *)
Theorem restart_budget w acts y id e :
  sys_run o acts (sys_init w) = Some y ->
  sv_entries (y_sup y) !! id = Some e ->
  (0 <= se_restart_count e <= budget (se_config e) + restarts_of id acts)%Z.
Proof.
  intros Hr He.
  assert (budgeted id (0 + restarts_of id acts) y) as [Hb _].
  { eapply budgeted_run; [| |exact Hr]; [by apply map_Forall_empty|].
    unfold budgeted; simpl. split_and!; try done; set_solver. }
  destruct (Hb e He) as [? Hle]. case_bool_decide; lia.
Qed.

(** ** An epoch lives in one place at a time *)
Definition exits (y : Sys) : list ExitEvent := sv_events (y_sup y) ++ y_reaped y.

Definition mon_life (m : MonPhase) : list N :=
  match m with
  | MonIdle => []
  | MonPublishing ev _ _ => [xe_epoch ev]
  | MonBackoff _ _ ep _ => [ep]
  | MonSpawning sg => [sg_epoch sg]
  end.

(** Where the epochs are: a start or restart in flight, a running child, an exit
    not yet handled, the exit being handled. *)
Definition life (y : Sys) : list N :=
  map sg_epoch (y_starting y) ++ mon_life (y_mon y)
  ++ (map_to_list (y_children y)).*1 ++ map xe_epoch (exits y).

Lemma remove_nth_Permutation {A} i (l : list A) x :
  l !! i = Some x -> l ≡ₚ x :: remove_nth i l.
Proof.
  intros Hx. unfold remove_nth. rewrite <- (take_drop_middle l i x Hx) at 1.
  by rewrite Permutation_middle.
Qed.

Lemma children_insert e c (m : gmap N Child) :
  m !! e = None -> (map_to_list (<[e := c]> m)).*1 ≡ₚ e :: (map_to_list m).*1.
Proof. intros Hm. by rewrite (map_to_list_insert m e c Hm). Qed.

Lemma children_delete e c (m : gmap N Child) :
  m !! e = Some c -> (map_to_list m).*1 ≡ₚ e :: (map_to_list (delete e m)).*1.
Proof. intros Hm. by rewrite <- (map_to_list_delete m e c Hm). Qed.

Lemma elem_of_children e (m : gmap N Child) :
  e ∈ (map_to_list m).*1 <-> is_Some (m !! e).
Proof.
  rewrite list_elem_of_fmap. split.
  - intros ([e' c] & -> & Hin%elem_of_map_to_list). by eexists.
  - intros [c Hc]. exists (e, c). by rewrite elem_of_map_to_list.
Qed.

(** A spawn that ends, ends as a child or not at all. *)
Lemma add_child_life sg st (m : gmap N Child) :
  m !! sg_epoch sg = None ->
  (map_to_list (add_child sg st m)).*1 ⊆+ sg_epoch sg :: (map_to_list m).*1.
Proof.
  intros Hm. unfold add_child. destruct (spawned_pids _ st) as [[pid shim]|].
  - by rewrite children_insert.
  - by apply submseteq_cons.
Qed.

Lemma life_spawns_fresh y e :
  NoDup (life y) -> e ∈ map sg_epoch (y_starting y) ++ mon_life (y_mon y) ->
  y_children y !! e = None.
Proof.
  unfold life. rewrite (assoc (++)). intros (_ & Hd & _)%NoDup_app He.
  apply eq_None_not_Some. intros Hc%elem_of_children. apply (Hd e He). set_solver.
Qed.

(** The epoch [x] moves from the spawns to the children, or disappears. *)
Lemma life_finish (st st' mon mon' cs cs' ev : list N) x :
  st ++ mon ≡ₚ x :: st' ++ mon' -> cs' ⊆+ x :: cs ->
  st' ++ mon' ++ cs' ++ ev ⊆+ st ++ mon ++ cs ++ ev.
Proof.
  intros Hp Hc. rewrite !(assoc (++)). apply submseteq_app; [|done].
  etrans; [apply submseteq_app; [reflexivity|exact Hc]|].
  apply Permutation_submseteq. rewrite Hp, <- Permutation_middle. done.
Qed.

Lemma submseteq_NoDup {A} (l k : list A) : l ⊆+ k -> NoDup k -> NoDup l.
Proof. intros [k' ->]%submseteq_Permutation (? & _)%NoDup_app. done. Qed.

Lemma submseteq_Forall {A} (P : A -> Prop) (l k : list A) : l ⊆+ k -> Forall P k -> Forall P l.
Proof. intros [k' ->]%submseteq_Permutation [? _]%Forall_app. done. Qed.

(** Every step moves epochs along, drops some, or adds the next one. *)
Lemma life_step a y y' :
  NoDup (life y) -> sys_step o a y = Some y' ->
  (sv_next_epoch (y_sup y') = sv_next_epoch (y_sup y) /\ life y' ⊆+ life y)
  \/ (sv_next_epoch (y_sup y') = u64_succ (sv_next_epoch (y_sup y)) /\
      life y' ⊆+ u64_succ (sv_next_epoch (y_sup y)) :: life y).
Proof.
  intros Hnd Hs. pose proof (fun e => life_spawns_fresh y e Hnd) as Hfresh.
  unfold life, exits. open_step a Hs; simpl; try by left.
  - apply spawn_begin_Ok in Hsb as (-> & -> & _). right. split; [done|]. simpl.
    rewrite map_app. simpl. solve_submseteq.
  - apply spawn_begin_cases in Hsb as [(-> & _)|(_ & [(? & _ & -> & _)|(_ & _ & ?)])];
      [by left| |done]. right. split; [done|]. simpl. by apply submseteq_cons.
  - left. pose proof (Permutation_map sg_epoch (remove_nth_Permutation i _ _ Hi)) as Hp.
    pose proof (add_child_life sg st (y_children y)) as Hc. simpl in Hp.
    destruct (spawn_finish_cases sg st (y_sup y)) as [(? & _ & ->)|(? & _ & ->)]; simpl;
      (split; [done|]); (eapply (life_finish _ _ _ _ _ _ _ (sg_epoch sg));
        [by rewrite Hp|apply Hc, Hfresh; rewrite Hp; left]).
  - left. unfold stop_plugin. destruct (sv_entries _ !! id0); [|done]. by destruct grace.
  - left. unfold restart_plugin. by destruct (sv_entries _ !! id0).
  - left. assert (sv_next_epoch (reap_child ch orphan (y_sup y)) = sv_next_epoch (y_sup y)
      /\ sv_events (reap_child ch orphan (y_sup y)) = sv_events (y_sup y)) as [-> ->]
      by (unfold reap_child; by destruct (cd_shim_pid ch), orphan).
    split; [done|]. rewrite (children_delete _ _ _ Hch), !map_app. simpl. solve_submseteq.
  - left. split; [done|]. simpl.
    pose proof (Permutation_map xe_epoch (remove_nth_Permutation i _ _ Hi)) as Hp.
    rewrite !map_app, Hp. simpl. solve_submseteq.
  - left. apply monitor_recv_cases in Hmr as (-> & Hmr). simpl. split; [done|].
    destruct Hmr as [->|(? & _ & _ & _ & ->)]; simpl; solve_submseteq.
  - left. apply monitor_published_cases in Hmp
      as [(? & ? & ? & -> & -> & ->)|(? & -> & -> & ->)]; (split; [done|]); simpl;
      solve_submseteq.
  - apply monitor_awake_cases in Hma
      as [(_ & -> & ->)|(Hep & [(? & _ & -> & ->)|(_ & -> & ->)])]; simpl;
      [left|right|right]; (split; [done|]); solve_submseteq.
  - left. pose proof (add_child_life sg st (y_children y)) as Hc.
    destruct (spawn_finish_cases sg st (y_sup y)) as [(? & _ & ->)|(? & _ & ->)]; simpl;
      (split; [done|]); (eapply (life_finish _ _ [sg_epoch sg] []);
        [by rewrite <- Permutation_middle|apply Hc, Hfresh; set_solver]).
Qed.

(** ** Exits belong to the entry with their epoch *)
Definition spawning_epochs (y : Sys) : list N :=
  map sg_epoch (y_starting y)
  ++ match y_mon y with MonSpawning sg => [sg_epoch sg] | _ => [] end.

(** What the wait tasks say, or will say, of epoch [e]. *)
Definition reported (y : Sys) (e : N) (id : string) (pid : Z) : Prop :=
  (exists c, y_children y !! e = Some c /\ cd_plugin_id c = id /\ cd_pid c = pid)
  \/ (exists ev, ev ∈ exits y /\ xe_epoch ev = e /\ xe_plugin_id ev = id /\ xe_pid ev = pid).

Lemma finish_reported sg st y rest m e i p :
  let y' := mkSys (y_world y) (spawn_finish sg st (y_sup y)).1 (add_child sg st (y_children y))
              (y_reaped y) rest m in
  reported y' e i p ->
  reported y e i p
  \/ (e = sg_epoch sg /\ exists ent, sv_entries (y_sup y') !! i = Some ent
        /\ se_epoch ent = e /\ se_pid ent = p).
Proof.
  intros y'. unfold reported, exits, y'. simpl.
  destruct (spawn_finish_cases sg st (y_sup y)) as [(? & Hp & ->)|([pid shim] & Hp & ->)];
    unfold add_child; rewrite Hp; simpl; [by auto|].
  intros [(c & Hc & Hi & Hpid)|?]; [|by auto].
  apply lookup_insert_Some in Hc as [[<- <-]|[_ Hc]]; [|by eauto 10].
  right. split; [done|]. simpl in *. subst i p. eexists. by rewrite lookup_insert_eq.
Qed.

Lemma finish_entry sg st y rest m id ent :
  let y' := mkSys (y_world y) (spawn_finish sg st (y_sup y)).1 (add_child sg st (y_children y))
              (y_reaped y) rest m in
  sv_entries (y_sup y') !! id = Some ent ->
  sv_entries (y_sup y) !! id = Some ent
  \/ (exists c, y_children y' !! se_epoch ent = Some c /\ cd_plugin_id c = id
        /\ cd_pid c = se_pid ent).
Proof.
  intros y'. unfold y'. simpl.
  destruct (spawn_finish_cases sg st (y_sup y)) as [(? & Hp & ->)|([pid shim] & Hp & ->)];
    unfold add_child; rewrite Hp; simpl; [by auto|].
  intros [[<- <-]|[_ Hl]]%lookup_insert_Some; [|by auto].
  right. simpl. eexists. by rewrite lookup_insert_eq.
Qed.

(** A step reports nothing new but the child of a spawn that ends. *)
Lemma reported_step a y y' e nm p :
  sys_step o a y = Some y' -> reported y' e nm p ->
  reported y e nm p \/ (e ∈ spawning_epochs y /\ exists ent,
    sv_entries (y_sup y') !! nm = Some ent /\ se_epoch ent = e /\ se_pid ent = p).
Proof.
  intros Hs. unfold spawning_epochs. open_step a Hs; try by auto.
  - apply spawn_begin_Ok in Hsb as (-> & -> & _). auto.
  - apply spawn_begin_cases in Hsb as [(-> & _)|(_ & [(? & _ & -> & _)|(_ & _ & ?)])]; auto; done.
  - intros [?|[-> Hent]]%finish_reported; [by auto|]. right. split; [|done].
    apply elem_of_app. left. apply list_elem_of_lookup_2 in Hi. set_solver.
  - unfold stop_plugin. destruct (sv_entries _ !! id0); [|by auto]. destruct grace; auto.
  - unfold restart_plugin. destruct (sv_entries _ !! id0); by auto.
  - assert (sv_events (reap_child ch orphan (y_sup y)) = sv_events (y_sup y)) as He
      by (unfold reap_child; by destruct (cd_shim_pid ch), orphan).
    unfold reported, exits. simpl. rewrite He. intros Hrep. left.
    destruct Hrep as [(c & [_ Hc]%lookup_delete_Some & ? & ?)|(ev & Hev & ? & ? & ?)]; [by eauto 10|].
    rewrite (assoc (++)), elem_of_app, list_elem_of_singleton in Hev.
    destruct Hev as [?| ->]; [by eauto 10|]. simpl in *. left. by simplify_eq; eauto.
  - unfold reported, exits. simpl. intros [?|(ev' & Hev & ?)]; left; [by auto|].
    right. exists ev'. split; [|done]. apply list_elem_of_lookup_2 in Hi as Hin.
    rewrite !elem_of_app, list_elem_of_singleton in *.
    destruct Hev as [[?|?]|?%elem_of_remove_nth]; naive_solver.
  - apply monitor_recv_cases in Hmr as (-> & _). unfold reported, exits. simpl. rewrite Hq.
    left. set_solver.
  - apply monitor_published_cases in Hmp
      as [(? & ? & ? & -> & -> & ->)|(? & -> & -> & ->)]; auto.
  - apply monitor_awake_cases in Hma
      as [(_ & -> & ->)|(Hep & [(? & _ & -> & ->)|(_ & -> & ->)])]; auto.
  - intros [?|[-> Hent]]%finish_reported; [by auto|]. right. split; [|done]. set_solver.
Qed.

Lemma entries_step a y y' id ent :
  sys_step o a y = Some y' -> sv_entries (y_sup y') !! id = Some ent ->
  sv_entries (y_sup y) !! id = Some ent
  \/ (exists c, y_children y' !! se_epoch ent = Some c /\ cd_plugin_id c = id
        /\ cd_pid c = se_pid ent).
Proof.
  intros Hs. open_step a Hs; try by auto.
  - apply spawn_begin_Ok in Hsb as (-> & _). auto.
  - apply spawn_begin_cases in Hsb as [(-> & _)|(_ & [(? & _ & -> & _)|(_ & _ & ?)])]; auto; done.
  - apply finish_entry.
  - unfold stop_plugin. destruct (sv_entries _ !! id0); [|by auto].
    destruct grace; simpl; intros [_ ?]%lookup_delete_Some; auto.
  - unfold restart_plugin. destruct (sv_entries _ !! id0); by auto.
  - unfold reap_child. destruct (cd_shim_pid ch), orphan; auto.
  - apply monitor_recv_cases in Hmr as (-> & _). auto.
  - apply monitor_published_cases in Hmp
      as [(? & ? & ? & -> & -> & ->)|(? & -> & -> & ->)]; [by auto|].
    simpl. intros [_ ?]%lookup_delete_Some; auto.
  - apply monitor_awake_cases in Hma
      as [(_ & -> & ->)|(Hep & [(? & _ & -> & ->)|(_ & -> & ->)])]; auto.
  - apply finish_entry.
Qed.

Lemma spawning_step a y y' e :
  sys_step o a y = Some y' -> e ∈ spawning_epochs y' ->
  e ∈ spawning_epochs y \/ e = u64_succ (sv_next_epoch (y_sup y)).
Proof.
  intros Hs. unfold spawning_epochs. open_step a Hs; simpl; try by auto.
  - apply spawn_begin_Ok in Hsb as (-> & -> & _). rewrite map_app. set_solver.
  - intros [Hin|?]%elem_of_app; [|by rewrite elem_of_app; auto].
    apply list_elem_of_fmap in Hin as (sg' & -> & Hin%elem_of_remove_nth). left. set_solver.
  - apply monitor_recv_cases in Hmr as (_ & [->|(? & _ & _ & _ & ->)]); auto.
  - apply monitor_published_cases in Hmp
      as [(? & ? & ? & -> & -> & ->)|(? & -> & -> & ->)]; auto.
  - apply monitor_awake_cases in Hma
      as [(_ & -> & ->)|(Hep & [(? & _ & -> & ->)|(_ & -> & ->)])]; set_solver.
  - set_solver.
Qed.

Record epochs_ok (n : N) (y : Sys) : Prop := {
  eo_bound : (sv_next_epoch (y_sup y) <= n)%N;
  eo_nodup : NoDup (life y);
  eo_life : Forall (fun e => (e <= sv_next_epoch (y_sup y))%N) (life y);
  eo_entry : forall id ent, sv_entries (y_sup y) !! id = Some ent ->
    (se_epoch ent <= sv_next_epoch (y_sup y))%N /\ se_epoch ent ∉ spawning_epochs y;
  eo_owner : forall id ent nm p, sv_entries (y_sup y) !! id = Some ent ->
    reported y (se_epoch ent) nm p -> nm = id /\ p = se_pid ent
}.

Lemma spawning_life y e :
  e ∈ spawning_epochs y -> e ∈ map sg_epoch (y_starting y) ++ mon_life (y_mon y).
Proof. unfold spawning_epochs, mon_life. destruct (y_mon y); set_solver. Qed.

Lemma life_disjoint y e c :
  NoDup (life y) -> y_children y !! e = Some c ->
  e ∉ spawning_epochs y /\ e ∉ mon_life (y_mon y) /\ forall ev, ev ∈ exits y -> xe_epoch ev <> e.
Proof.
  intros Hnd Hc.
  assert (Hs : e ∉ map sg_epoch (y_starting y) ++ mon_life (y_mon y)).
  { intros He. apply (life_spawns_fresh y e Hnd) in He. congruence. }
  split_and!; [by intros ?%spawning_life|set_solver|].
  unfold life in Hnd. rewrite (assoc (++)) in Hnd.
  apply NoDup_app in Hnd as (_ & _ & (_ & Hd & _)%NoDup_app).
  intros ev Hev <-. apply (Hd (xe_epoch ev)); [by apply elem_of_children|].
  by apply (list_elem_of_fmap_2 xe_epoch).
Qed.

Lemma u64_succ_below n m : (n <= m)%N -> (m + 1 < 2 ^ 64)%N -> u64_succ n = (n + 1)%N.
Proof. intros. apply u64_succ_small. lia. Qed.

Lemma epochs_step n a y y' :
  (n + 1 < 2 ^ 64)%N -> epochs_ok n y -> sys_step o a y = Some y' -> epochs_ok (n + 1) y'.
Proof.
  intros Hn [Hb Hnd Hl He Ho] Hs. pose proof (u64_succ_below _ _ Hb Hn) as Hu.
  assert (Hnew : Forall (fun e => e <= sv_next_epoch (y_sup y'))%N (life y')
    /\ NoDup (life y') /\ (sv_next_epoch (y_sup y) <= sv_next_epoch (y_sup y') <= n + 1)%N).
  { destruct (life_step a y y' Hnd Hs) as [[Hne Hsub]|[Hne Hsub]]; rewrite Hne.
    - split_and!; [|by eapply submseteq_NoDup|lia..]. by eapply submseteq_Forall.
    - rewrite Hu in *. split_and!; [| |lia..].
      + eapply submseteq_Forall; [exact Hsub|]. constructor; [lia|].
        eapply Forall_impl; [exact Hl|]. simpl. lia.
      + eapply submseteq_NoDup; [exact Hsub|]. constructor; [|done].
        intros Hin. rewrite Forall_forall in Hl. apply Hl in Hin. lia. }
  destruct Hnew as (Hl' & Hnd' & Hb').
  assert (Hent : forall id ent, sv_entries (y_sup y') !! id = Some ent ->
    (se_epoch ent <= sv_next_epoch (y_sup y'))%N /\ se_epoch ent ∉ spawning_epochs y').
  { intros id ent Hid. destruct (entries_step a y y' id ent Hs Hid) as [Hold|(c & Hc & _)].
    - destruct (He id ent Hold) as [Hle Hns]. split; [lia|].
      intros [?|Heq]%(spawning_step a y y' _ Hs); [done|]. lia.
    - destruct (life_disjoint y' _ _ Hnd' Hc) as (? & _ & _). split; [|done].
      rewrite Forall_forall in Hl'. apply Hl'. unfold life. rewrite !elem_of_app.
      right. right. left. by apply elem_of_children. }
  split; [lia|done..|]. intros id ent nm p Hid Hrep.
  destruct (entries_step a y y' id ent Hs Hid) as [Hold|(c & Hc & Hci & Hcp)].
  - destruct (reported_step a y y' _ _ _ Hs Hrep) as [Hr|[Hsp _]]; [by eapply Ho|].
    by apply He in Hold as [_ ?].
  - destruct Hrep as [(c' & Hc' & <- & <-)|(ev & Hev & Hee & _)].
    + rewrite Hc in Hc'. by simplify_eq.
    + destruct (life_disjoint y' _ _ Hnd' Hc) as (_ & _ & Hd). by apply Hd in Hev.
Qed.

Lemma epochs_run n acts y y' :
  epochs_ok n y -> sys_run o acts y = Some y' ->
  (n + N.of_nat (length acts) < 2 ^ 64)%N -> epochs_ok (n + N.of_nat (length acts)) y'.
Proof.
  revert n y. induction acts as [|a acts IH]; intros n y Hy Hr Hn.
  - simpl in *. simplify_eq. by rewrite N.add_0_r.
  - simpl in Hr. destruct (sys_step o a y) as [y1|] eqn:Hs; [|done]. simpl in Hr.
    replace (n + N.of_nat (length (a :: acts)))%N
      with (n + 1 + N.of_nat (length acts))%N by (simpl; lia).
    apply (IH (n + 1)%N y1); [|done|simpl in Hn; lia]. eapply epochs_step; [|done..].
    simpl in Hn. lia.
Qed.

Lemma epochs_init w : epochs_ok 0 (sys_init w).
Proof.
  split; simpl; try done; unfold life; simpl; rewrite ?map_to_list_empty; simpl; try constructor.
Qed.

Lemma epochs_reachable w acts y :
  sys_run o acts (sys_init w) = Some y -> (N.of_nat (length acts) < 2 ^ 64)%N ->
  epochs_ok (N.of_nat (length acts)) y.
Proof.
  intros Hr Hn. rewrite <- (N.add_0_l (N.of_nat _)). by eapply epochs_run; [apply epochs_init|..].
Qed.

(** The exit being handled is of no live child and is reported only once. *)
Lemma mon_life_gone y e :
  NoDup (life y) -> e ∈ mon_life (y_mon y) ->
  y_children y !! e = None /\ forall ev, ev ∈ exits y -> xe_epoch ev <> e.
Proof.
  intros Hnd He. split; [by apply life_spawns_fresh; [|apply elem_of_app; right]|].
  unfold life in Hnd. apply NoDup_app in Hnd as (_ & _ & (_ & Hd & _)%NoDup_app).
  intros ev Hev <-. apply (Hd (xe_epoch ev) He). apply elem_of_app. right.
  by apply (list_elem_of_fmap_2 xe_epoch).
Qed.

(** Exits are attributed to the right process: in every run of fewer than
    2^64 steps, when the monitor takes an exit event whose epoch is that of the
    registered entry, the entry records the very process that exited, that
    process is no longer running, and no other queued exit carries its epoch.
    A stale exit of an older instance is never taken for the current one. *)
Theorem exit_attributed w acts y ev q :
  sys_run o acts (sys_init w) = Some y -> (N.of_nat (length acts) < 2 ^ 64)%N ->
  sv_events (y_sup y) = ev :: q -> is_current ev (y_sup y) = true ->
  exists ent, sv_entries (y_sup y) !! xe_plugin_id ev = Some ent /\
    se_pid ent = xe_pid ev /\ y_children y !! se_epoch ent = None /\
    forall ev', ev' ∈ q ++ y_reaped y -> xe_epoch ev' <> se_epoch ent.
Proof.
  intros Hr Hn Hq Hcur. destruct (epochs_reachable w acts y Hr Hn) as [_ Hnd _ _ Ho].
  unfold is_current in Hcur. destruct (sv_entries (y_sup y) !! xe_plugin_id ev) as [ent|] eqn:He;
    [|done]. apply N.eqb_eq in Hcur. exists ent. split; [done|].
  assert (Hin : ev ∈ exits y) by (unfold exits; rewrite Hq; left).
  split_and!.
  - destruct (Ho (xe_plugin_id ev) ent (xe_plugin_id ev) (xe_pid ev) He); [|done].
    right. exists ev. by rewrite Hcur.
  - destruct (y_children y !! se_epoch ent) as [c|] eqn:Hc; [|done].
    destruct (life_disjoint y _ _ Hnd Hc) as (_ & _ & Hd). by apply Hd in Hin.
  - unfold life, exits in Hnd. rewrite Hq, !(assoc (++)) in Hnd.
    apply NoDup_app in Hnd as (_ & _ & Hx). simpl in Hx. apply NoDup_cons in Hx as [Hx _].
    intros ev' Hev' Heq. apply Hx. rewrite <- Hcur, <- Heq. 
    by apply (list_elem_of_fmap_2 xe_epoch).
Qed.

(** ** A respawn that fails *)
Definition mon_off (id : string) (m : MonPhase) : Prop :=
  match m with
  | MonIdle => True
  | MonPublishing ev dec _ => xe_plugin_id ev <> id /\
      forall cfg n, dec = Some (cfg, n) -> pc_plugin_id cfg <> id
  | MonBackoff cfg _ _ _ => pc_plugin_id cfg <> id
  | MonSpawning sg => pc_plugin_id (sg_config sg) <> id
  end.

Definition not_stop_of (id : string) (a : Action) : Prop :=
  match a with AStop id' _ => id' <> id | _ => True end.

(** An entry with no process behind it, and nothing under way to change that. *)
Definition stuck (id : string) (ent : SupEntry) (y : Sys) : Prop :=
  keyed y /\ sv_entries (y_sup y) !! id = Some ent /\
  y_children y !! se_epoch ent = None /\
  (forall ev, ev ∈ exits y -> xe_epoch ev <> se_epoch ent) /\
  Forall (fun sg => pc_plugin_id (sg_config sg) <> id) (y_starting y) /\
  mon_off id (y_mon y).

(** What a step leaves of the children and exits of an epoch that no spawn has. *)
Lemma gone_step n a y y' e :
  epochs_ok n y -> sys_step o a y = Some y' -> e ∉ spawning_epochs y ->
  y_children y !! e = None -> (forall ev, ev ∈ exits y -> xe_epoch ev <> e) ->
  y_children y' !! e = None /\ (forall ev, ev ∈ exits y' -> xe_epoch ev <> e).
Proof.
  intros Hy Hs Hsp Hc Hx.
  assert (Hr : forall nm p, ~ reported y' e nm p).
  { intros nm p [Hr|[Hin _]]%(reported_step a y y' _ _ _ Hs); [|done].
    destruct Hr as [(c & Hc' & _)|(ev & Hev & He & _)]; [congruence|]. by eapply Hx. }
  split.
  - destruct (y_children y' !! e) as [c|] eqn:Hc'; [|done]. exfalso.
    apply (Hr (cd_plugin_id c) (cd_pid c)). left. eauto.
  - intros ev Hev He. apply (Hr (xe_plugin_id ev) (xe_pid ev)). right. eauto.
Qed.

Lemma stuck_step n id ent a y y' :
  epochs_ok n y -> stuck id ent y -> not_stop_of id a -> sys_step o a y = Some y' ->
  stuck id ent y'.
Proof.
  intros Hy (Hk & He & Hc & Hx & Hst & Hm0) Hns Hs.
  destruct (gone_step n a y y' (se_epoch ent) Hy Hs) as [Hc' Hx']; [|done..|].
  { by eapply eo_entry in He as [_ ?]. }
  split; [by eapply keyed_step|].
  enough (Hmain : sv_entries (y_sup y') !! id = Some ent /\
    Forall (fun sg => pc_plugin_id (sg_config sg) <> id) (y_starting y') /\
    mon_off id (y_mon y')) by naive_solver.
  clear Hc Hc' Hx'. open_step a Hs; simpl; simpl in Hns; try done.
  - apply spawn_begin_Ok in Hsb as (-> & -> & Hno). split_and!; try done.
    apply Forall_app. split; [done|]. apply Forall_singleton. simpl. intros <-.
    rewrite (Hno eq_refl) in He. done.
  - apply spawn_begin_cases in Hsb as [(-> & _)|(_ & [(? & _ & -> & _)|(_ & _ & ?)])]; done.
  - assert (Hne : pc_plugin_id (sg_config sg) <> id) by (by eapply Forall_lookup in Hst).
    destruct (finish_other sg st (y_sup y) id Hne) as [-> _].
    split_and!; try done. by apply Forall_remove_nth.
  - unfold stop_plugin. destruct (sv_entries (y_sup y) !! id0); [|done].
    destruct grace; simpl; by rewrite lookup_delete_ne.
  - unfold restart_plugin. by destruct (sv_entries _ !! id0).
  - unfold reap_child. by destruct (cd_shim_pid ch), orphan.
  - apply monitor_recv_cases in Hmr as (-> & Hmr). split_and!; try done.
    destruct Hmr as [->|(ent' & Hent & Hep & _ & ->)]; [done|]. simpl in Hent.
    assert (Hne : xe_plugin_id ev <> id).
    { intros Heq. rewrite Heq, He in Hent. simplify_eq. apply (Hx ev); [|done].
      unfold exits. rewrite Hq. left. }
    split; [done|]. intros cfg n' Hd. apply Hk in Hent.
    destruct (should_restart _ ev ent'); simplify_eq. congruence.
  - destruct Hm0 as [Hne Hd]. apply monitor_published_cases in Hmp
      as [(cfg & n' & d & -> & -> & ->)|(c & -> & -> & ->)]; simpl; split_and!; try done.
    + by eapply Hd.
    + by rewrite lookup_delete_ne.
  - apply monitor_awake_cases in Hma
      as [(_ & -> & ->)|(Hep & [(? & _ & -> & ->)|(_ & -> & ->)])]; done.
  - destruct (finish_other sg st (y_sup y) id Hm0) as [-> _]. done.
Qed.

Lemma stuck_run n id ent acts y y' :
  epochs_ok n y -> stuck id ent y -> Forall (not_stop_of id) acts ->
  sys_run o acts y = Some y' -> (n + N.of_nat (length acts) < 2 ^ 64)%N -> stuck id ent y'.
Proof.
  intros Hy Hk Hns. revert n y Hy Hk.
  induction Hns as [|a acts Ha Hns IH]; intros n z Hz Hk Hr Hb.
  - simpl in Hr. by simplify_eq.
  - simpl in Hr, Hb. destruct (sys_step o a z) as [z1|] eqn:Hs; [|done]. simpl in Hr.
    apply (IH (n + 1)%N z1); [eapply epochs_step; [|done..]; lia| |done|lia].
    by eapply stuck_step.
Qed.

(** A failed respawn wedges the plugin: when the restart after a backoff
    cannot be spawned, the dead entry stays registered. From then on, in every
    continuation without an explicit stop of that plugin, it is reported as
    running with the pid of the dead process, no process runs under it, and
    every explicit start is refused as already running. *)
Theorem failed_respawn_wedges w acts0 y cfg count ep delay err ent acts y' config forked :
  sys_run o acts0 (sys_init w) = Some y ->
  y_mon y = MonBackoff cfg count ep delay ->
  sv_entries (y_sup y) !! pc_plugin_id cfg = Some ent -> se_epoch ent = ep ->
  epoch_is (sv_stopped_epochs (y_sup y)) (pc_plugin_id cfg) ep = false ->
  Forall (fun sg => pc_plugin_id (sg_config sg) <> pc_plugin_id cfg) (y_starting y) ->
  Forall (not_stop_of (pc_plugin_id cfg)) acts ->
  (N.of_nat (length acts0 + S (length acts)) < 2 ^ 64)%N ->
  sys_run o (AMonAwake (Err err) :: acts) y = Some y' ->
  pc_plugin_id config = pc_plugin_id cfg ->
  is_running (pc_plugin_id cfg) (y_sup y') = true /\
  sv_entries (y_sup y') !! pc_plugin_id cfg = Some ent /\
  y_children y' !! se_epoch ent = None /\
  spawn_begin config 0 None forked (y_sup y')
  = (y_sup y', Err (EPluginAlreadyRunning (pc_plugin_id cfg))).
Proof.
  intros Hr0 Hm He Hep Hst Hsg Hns Hlen Hr Hcfg. set (id := pc_plugin_id cfg) in *.
  assert (Hy : epochs_ok (N.of_nat (length acts0)) y) by (apply (epochs_reachable w); [done|lia]).
  set (y1 := mkSys (y_world y) (set_next_epoch (u64_succ (sv_next_epoch (y_sup y))) (y_sup y))
               (y_children y) (y_reaped y) (y_starting y) MonIdle).
  assert (Hs : sys_step o (AMonAwake (Err err)) y = Some y1).
  { cbn [sys_step]. rewrite Hm. unfold monitor_awake. fold id. by rewrite Hst. }
  cbn [sys_run] in Hr. rewrite Hs in Hr. simpl in Hr.
  assert (Hy1 : epochs_ok (N.of_nat (length acts0) + 1) y1) by (eapply epochs_step; [|done..]; lia).
  assert (Hk1 : stuck id ent y1).
  { destruct (mon_life_gone y ep) as [Hc Hx]; [by eapply eo_nodup|by rewrite Hm; left|].
    rewrite <- Hep in Hc, Hx. split_and!; try done. exact (keyed_run _ _ _ Hr0). }
  assert (Hfin : stuck id ent y') by (eapply stuck_run; [exact Hy1|done..|lia]).
  destruct Hfin as (_ & He' & Hc' & _). split_and!; try done.
  - unfold is_running. by rewrite He'.
  - unfold spawn_begin. rewrite Hcfg. fold id. by rewrite He'.
Qed.
End runs.
