(* ===== verification/SupervisorRuns.v ===== *)
(** * Concrete runs of the supervisor

    Runs in which the supervisor's tasks meet at an awkward moment, and the
    inputs on which the hypotheses of its theorems hold. *)

From S2P Require Import Prelude Errors Wire Validate Registry Events Auth Kernel.
From S2P Require Import AuthProps Sandbox SandboxProps Supervisor SupervisorProps SupervisorSafety.

(** ** Demo plugins and options *)
Definition demo_plugin (policy : RestartPolicy) : PluginConfig :=
  mkPluginConfig "p" "/opt/p/bin" [] ["VYN_JWT_SECRET=master"; "X=1"] policy 3 false 0 None None
    FsFull [] [].

Definition demo_boxed : PluginConfig :=
  mkPluginConfig "p" "/opt/p/bin" [] ["X=1"] OnFailure 3 true 7 None None
    FsReadOnly ["/srv/ro"; "/etc/p"] ["/var/p"].

Definition demo_opts : SupOpts :=
  mkSupOpts "/run/vyn.sock" (Some "/var/lib/vyn") (Some [Byte.x01]) false 2 false 100 30000 "vyn".

Definition up (pid : Z) : Started := mkStarted (Some pid) (ShimSaid None).

(** The plugin is started, crashes, and the monitor sleeps before the restart. *)
Definition backoff_run (policy : RestartPolicy) : list Action :=
  [AStart (demo_plugin policy) (Ok tt); AStarted 0 (up 100); AExit 1 false false; ASend 0;
   AMonRecv; AMonPublished 0].

(** ** Runs that contradict the comments *)

(** A stop can be undone by an older restart: the record of stops keeps one
    epoch per plugin, so stop, start, stop during one backoff overwrites the
    epoch the sleeping restart checks; the stopped plugin is spawned again
    although nothing was in flight when it was stopped. *)
Theorem stop_start_stop_resurrects `{Wire} w :
  exists y y',
    sys_run demo_opts (backoff_run Always
      ++ [AStop "p" true; AStart (demo_plugin Always) (Ok tt); AStarted 0 (up 101);
          AStop "p" true]) (sys_init w) = Some y /\
    is_running "p" (y_sup y) = false /\ y_starting y = [] /\
    sys_run demo_opts [AMonAwake (Ok tt); AMonSpawned (up 102)] y = Some y' /\
    is_running "p" (y_sup y') = true.
Proof. eexists _, _. repeat (split; [vm_compute; reflexivity|]). vm_compute. reflexivity. Qed.

(** A manual restart can be swallowed by a stale exit: the mark for the forced
    restart is taken by whatever exit of that plugin comes next, before the check
    that the exit is of the current instance. After stop and start, the late
    exit of the first process removes the mark of a restart requested for the
    second, which then dies and is not respawned. *)
Theorem stale_exit_eats_restart `{Wire} w :
  exists y y',
    sys_run demo_opts [AStart (demo_plugin Never) (Ok tt); AStarted 0 (up 100);
      AStop "p" true; AStart (demo_plugin Never) (Ok tt); AStarted 0 (up 101);
      AExit 1 true false; ASend 0; ARestart "p"] (sys_init w) = Some y /\
    (restart_plugin "p" (y_sup y)).2 = Ok tt /\ bool_decide ("p" ∈ sv_forced_restarts (y_sup y)) = true /\
    sys_run demo_opts [AMonRecv; AExit 2 true false; ASend 0; AMonRecv; AMonPublished 0] y
      = Some y' /\
    is_running "p" (y_sup y') = false /\ y_mon y' = MonIdle /\
    sv_events (y_sup y') = [] /\ size (y_children y') = 0.
Proof. eexists _, _. repeat (split; [vm_compute; reflexivity|]). vm_compute. reflexivity. Qed.

(** Two starts at once both succeed: the guard against a running plugin is
    checked before the spawn and not again when the entry is inserted, so the
    second insertion overwrites the first; both processes run, one of them
    unsupervised, and a stop signals only the other. *)
Theorem concurrent_starts_clobber `{Wire} w :
  exists y y',
    sys_run demo_opts [AStart (demo_plugin Never) (Ok tt); AStart (demo_plugin Never) (Ok tt);
      AStarted 0 (up 100); AStarted 0 (up 101)] (sys_init w) = Some y /\
    size (y_children y) = 2 /\ size (sv_entries (y_sup y)) = 1 /\
    sys_run demo_opts [AStop "p" true] y = Some y' /\
    sv_signals (y_sup y') = [(101%Z, SIGTERM)] /\ is_running "p" (y_sup y') = false.
Proof. eexists _, _. repeat (split; [vm_compute; reflexivity|]). vm_compute. reflexivity. Qed.

(** A death is announced under an id made of the plugin and its restart count:
    the first crash after every explicit start has the same event id, and the
    store keeps only the first row of an id. *)
Lemma died_ids_repeat id pid1 pid2 e1 e2 succ1 succ2 count r1 r2 :
  ev_event_id (died_event (mkExit id e1 pid1 succ1) count r1)
  = ev_event_id (died_event (mkExit id e2 pid2 succ2) count r2).
Proof. done. Qed.

(** ** Witnesses *)
#[local] Instance run_wire : Wire := {|
  encode _ := Some [Byte.x00];
  decode _ := None;
  crc32 _ := 0%Z;
  target_as_str _ := None;
  parse_frag_header _ := None;
  serialize_header _ := [];
  compute_tag _ _ _ := [];
  verify_tag _ _ _ _ := true;
  derive_session_key ikm _ _ := ikm;
  perm_str_name _ := "";
  perm_from_str_name _ := None;
  action_status_i32 _ := 0%Z;
  device_os_try_from _ := None;
  PROTOCOL_VERSION := "1.7"
|}.

#[local] Existing Instance demo_crypto.

Definition run_manifest : PluginManifest := mkManifest [] [] [] [] [] [].
Definition run_registry : Registry :=
  (register (mkClock 0 0) "p" 1 run_manifest 7 "" "" registry_new).1.

(** Plugin [p] is registered on channel 7, a clock reading of ten seconds. *)
Definition run_world : World :=
  mkWorld run_registry (<[7%N := mkChan 4 [] false]> ∅) bus_new None 0 0 0 None None
    (mkClock (from_secs 10) 10000) true.

Definition run_state (acts : list Action) : Sys :=
  default (sys_init run_world) (sys_run demo_opts acts (sys_init run_world)).

Definition demo_entry (policy : RestartPolicy) : SupEntry :=
  mkSupEntry (demo_plugin policy) 0 100 None 1.

Lemma backoff_bounds_witness :
  (3200 - 3200 / 5 <= backoff_delay demo_opts 5 77 <= 3200 + 3200 / 5)%Z.
Proof. apply (backoff_bounds demo_opts 5 77); vm_compute; intuition discriminate. Defined.

Lemma spawned_key_is_derived_witness :
  cmd_var (build_command demo_opts (demo_plugin Never) true) JWT_ENV
  = Some (plugin_mac_secret [Byte.x01] "p").
Proof.
  apply (spawned_key_is_derived demo_opts (demo_plugin Never) true [Byte.x01]); reflexivity.
Defined.

Lemma fs_restriction_roundtrip_witness :
  from_env (child_env (fun _ => None) (build_command demo_opts demo_boxed true))
  = Some (mkFsRestriction FsReadOnly ["/srv/ro"; "/etc/p"] ["/var/p"; "/var/lib/vyn/plugins/p"]).
Proof.
  apply (fs_restriction_roundtrip demo_opts demo_boxed true (fun _ => None)); try done.
  - repeat constructor; done.
  - repeat constructor; done.
  - intros kv Hkv. cbn in Hkv. apply list_elem_of_singleton in Hkv as ->.
    apply str_mem_false. reflexivity.
Defined.

Lemma logs_are_last_lines_witness :
  get_logs "p" 5 (foldl (fun s w => drain_line demo_opts w.1 w.2 s)
    (forked_state (demo_plugin Never) sup_new) [(1%N, "a"); (1%N, "b"); (9%N, "x"); (1%N, "c")])
  = ["b"; "c"].
Proof.
  apply (logs_are_last_lines demo_opts (demo_plugin Never) 0 None (Ok tt) sup_new
    (forked_state (demo_plugin Never) sup_new) (mkSpawning (demo_plugin Never) 0 1)). reflexivity.
Defined.

Lemma watchdog_exact_witness :
  sv_signals (watchdog_round (from_secs 2) (from_secs 3) run_world
    (y_sup (run_state [AStart (demo_plugin Never) (Ok tt); AStarted 0 (up 100)]))).2
  = [(100%Z, SIGKILL)].
Proof.
  destruct (watchdog_round (from_secs 2) (from_secs 3) run_world
    (y_sup (run_state [AStart (demo_plugin Never) (Ok tt); AStarted 0 (up 100)])))
    as [w' s'] eqn:Hr.
  destruct (watchdog_exact _ _ _ _ _ _ Hr) as (Hs & _). cbn [snd]. rewrite Hs.
  vm_compute. reflexivity.
Defined.

Lemma stop_terminal_witness :
  is_running "p" (y_sup (run_state (backoff_run Always
    ++ [AStop "p" true; AMonAwake (Ok tt)]))) = false.
Proof.
  apply (stop_terminal demo_opts run_world (backoff_run Always) (run_state (backoff_run Always))
    "p" (demo_entry Always) true [AMonAwake (Ok tt)]).
  - vm_compute. reflexivity.
  - vm_compute. reflexivity.
  - split; vm_compute; [constructor|intros; reflexivity].
  - repeat constructor.
  - vm_compute. reflexivity.
Defined.

Lemma restart_budget_witness :
  (0 <= 1 <= budget (demo_plugin Always)
     + restarts_of "p" (backoff_run Always ++ [AMonAwake (Ok tt); AMonSpawned (up 101)]))%Z.
Proof.
  apply (restart_budget demo_opts run_world
    (backoff_run Always ++ [AMonAwake (Ok tt); AMonSpawned (up 101)])
    (run_state (backoff_run Always ++ [AMonAwake (Ok tt); AMonSpawned (up 101)])) "p"
    (mkSupEntry (demo_plugin Always) 1 101 None 2)); vm_compute; reflexivity.
Defined.

Definition exit_run : list Action :=
  [AStart (demo_plugin Always) (Ok tt); AStarted 0 (up 100); AExit 1 false false; ASend 0].

Lemma exit_attributed_witness :
  exists ent, sv_entries (y_sup (run_state exit_run)) !! "p" = Some ent /\ se_pid ent = 100%Z /\
    y_children (run_state exit_run) !! se_epoch ent = None.
Proof.
  destruct (exit_attributed demo_opts run_world exit_run (run_state exit_run)
    (mkExit "p" 1 100 false) []) as (ent & He & Hp & Hc & _).
  - vm_compute. reflexivity.
  - vm_compute. reflexivity.
  - vm_compute. reflexivity.
  - vm_compute. reflexivity.
  - exists ent. split_and!; assumption.
Defined.

Lemma failed_respawn_wedges_witness :
  is_running "p" (y_sup (run_state (backoff_run Always
    ++ [AMonAwake (Err "fork"); ARestart "p"]))) = true.
Proof.
  apply (failed_respawn_wedges demo_opts run_world (backoff_run Always)
    (run_state (backoff_run Always)) (demo_plugin Always) 1 1 160 "fork" (demo_entry Always)
    [ARestart "p"] (run_state (backoff_run Always ++ [AMonAwake (Err "fork"); ARestart "p"]))
    (demo_plugin Always) (Ok tt)); try (vm_compute; reflexivity); repeat constructor.
Defined.
