(* ===== verification/Config.v ===== *)
(** * Configuration (src/utils/config.rs)

    The configuration record with its defaults, and everything [load_config] does
    after decoding: the plugin drop-in directory is resolved and merged, invalid
    zeroes are clamped. Decoding YAML is the class [Yaml]; the environment
    answers through [ConfEnv] and the file system through [ConfFs]. *)

From S2P Require Import Prelude Validate Kernel Sandbox.

(** ** Data *)
Record PluginDef := mkPluginDef {
  pd_id : string;
  pd_binary : string;
  pd_restart : string;
  pd_max_restarts : Z;
  pd_args : list string;
  pd_env : list string;
  pd_sandbox : bool;
  pd_grace_seconds : Z;
  pd_max_procs : option Z;
  pd_max_vmem_mb : option Z;
  pd_lazy : bool;
  pd_idle_stop_secs : option Z;
  pd_permissions : list string;
  pd_max_fs_access : option string;
  pd_readonly_paths : list string;
  pd_writable_paths : list string
}.

Inductive Role := RoleHost | RoleClient.

Inductive TransportConfig :=
| TDirect (url : string) (ca_cert_path : option string)
| TRelay (url : string) (key : option string).

Record BridgeConfig := mkBridgeConfig {
  bc_host_url : string;
  bc_transports : list TransportConfig;
  bc_token : option string;
  bc_secret : option string;
  bc_mirror : list string;
  bc_ca_cert_path : option string;
  bc_keepalive_secs : Z
}.

Definition effective_transports (b : BridgeConfig) : list TransportConfig :=
  match bc_transports b with
  | [] => [TDirect (bc_host_url b) (bc_ca_cert_path b)]
  | ts => ts
  end.

Record Config := mkConfig {
  cf_port : Z;
  cf_log_level : string;
  cf_pid_file : string;
  cf_log_file : string;
  cf_data_dir : string;
  cf_socket_path : string;
  cf_jwt_secret : option string;
  cf_allow_no_auth : bool;
  cf_legacy_plugin_mac : bool;
  cf_role : Role;
  cf_bridge : option BridgeConfig;
  cf_device_callers : option (gmap string (list string));
  cf_device_id : option string;
  cf_plugins : list PluginDef;
  cf_plugins_dir : option string;
  cf_watchdog_interval_secs : Z;
  cf_watchdog_timeout_secs : Z;
  cf_log_buffer_lines : Z;
  cf_max_connections : Z;
  cf_api_rate_limit_rps : option Z;
  cf_api_rate_limit_burst : option Z;
  cf_ipc_rate_limit_rps : option Z;
  cf_action_caller_rate_limit_rps : option Z;
  cf_action_caller_max_concurrent : option Z;
  cf_session_idle_timeout_secs : option Z;
  cf_prune_interval_secs : Z;
  cf_tls : bool;
  cf_tls_cert_path : option string;
  cf_tls_key_path : option string;
  cf_jwt_audience : option string;
  cf_bind : option string;
  cf_ws_register_timeout_secs : Z;
  cf_ws_device_recheck_secs : Z;
  cf_tmp_dir : string;
  cf_action_timeout_ms : Z;
  cf_restart_backoff_base_ms : Z;
  cf_restart_backoff_max_ms : Z;
  cf_default_grace_seconds : Z;
  cf_event_max_retries : Z;
  cf_event_retention_secs : Z;
  cf_router_channel_capacity : Z;
  cf_fragment_timeout_secs : Z;
  cf_max_reassembly_streams : Z;
  cf_max_conn_errors : Z;
  cf_max_tracked_error_conns : Z;
  cf_ws_handshake_timeout_secs : Z;
  cf_max_ws_connections : Z;
  cf_max_archive_bytes : Z;
  cf_max_extracted_bytes : Z;
  cf_max_archive_entries : Z;
  cf_lazy_idle_stop_secs : Z;
  cf_lazy_start_timeout_ms : Z;
  cf_config_file : option string
}.

(** ** Defaults *)
Definition default_restart_policy : string := "on-failure".
Definition default_log_level : string := "info".
Definition default_tls : bool := true.
Definition default_max_restarts : Z := 5.
Definition default_bridge_keepalive : Z := 15.
Definition default_port : Z := 8000.
Definition default_watchdog_interval : Z := 30.
Definition default_watchdog_timeout : Z := 10.
Definition default_log_buffer_lines : Z := 1000.
Definition default_max_connections : Z := 1024.
Definition default_prune_interval_secs : Z := 60.
Definition default_action_timeout_ms : Z := 30000.
Definition default_restart_backoff_base_ms : Z := 100.
Definition default_restart_backoff_max_ms : Z := 30000.
Definition default_grace : Z := 5.
Definition default_event_max_retries : Z := 5.
Definition default_event_retention_secs : Z := 3600.
Definition default_router_channel_capacity : Z := 1024.
Definition default_fragment_timeout_secs : Z := 30.
Definition default_max_reassembly_streams : Z := 64.
Definition default_max_conn_errors : Z := 16.
Definition default_max_tracked_error_conns : Z := 8192.
Definition default_ws_handshake_timeout_secs : Z := 5.
Definition default_ws_register_timeout_secs : Z := 10.
Definition default_ws_device_recheck_secs : Z := 10.
Definition default_max_ws_connections : Z := 1024.
Definition default_max_archive_bytes : Z := 268435456.
Definition default_max_extracted_bytes : Z := 1073741824.
Definition default_lazy_idle_stop_secs : Z := 600.
Definition default_lazy_start_timeout_ms : Z := 10000.
Definition default_max_archive_entries : Z := 10000.

(** [vynkor_wire::socket::{default_private_dir, default_socket_path}], the
    system's scratch directory and [$HOSTNAME]. *)
Record ConfEnv := mkConfEnv {
  ce_private_dir : option string;
  ce_socket_path : string;
  ce_temp_dir : string;
  ce_hostname : option string
}.

Definition in_private_dir (e : ConfEnv) (name : string) : string :=
  match ce_private_dir e with Some dir => path_join dir name | None => name end.

Definition default_pid_path (e : ConfEnv) : string := in_private_dir e "vyn.pid".
Definition default_log_path (e : ConfEnv) : string := in_private_dir e "vyn.log".
Definition default_data_dir (e : ConfEnv) : string := in_private_dir e "vyn-data".
Definition default_tmp_dir (e : ConfEnv) : string := default (ce_temp_dir e) (ce_private_dir e).

Definition bridge_default : BridgeConfig :=
  mkBridgeConfig EmptyString [] None None [] None default_bridge_keepalive.

Definition config_default (e : ConfEnv) : Config :=
  mkConfig
    default_port default_log_level (default_pid_path e) (default_log_path e)
    (default_data_dir e) (ce_socket_path e) None false false RoleHost None None None []
    None default_watchdog_interval default_watchdog_timeout default_log_buffer_lines
    default_max_connections None None None None None None default_prune_interval_secs
    default_tls None None None None default_ws_register_timeout_secs
    default_ws_device_recheck_secs (default_tmp_dir e) default_action_timeout_ms
    default_restart_backoff_base_ms default_restart_backoff_max_ms default_grace
    default_event_max_retries default_event_retention_secs
    default_router_channel_capacity default_fragment_timeout_secs
    default_max_reassembly_streams default_max_conn_errors
    default_max_tracked_error_conns default_ws_handshake_timeout_secs
    default_max_ws_connections default_max_archive_bytes default_max_extracted_bytes
    default_max_archive_entries default_lazy_idle_stop_secs
    default_lazy_start_timeout_ms None.

(** ** Field updates *)
Definition set_plugins (ps : list PluginDef) (c : Config) : Config :=
  mkConfig
    (cf_port c) (cf_log_level c) (cf_pid_file c) (cf_log_file c) (cf_data_dir c)
    (cf_socket_path c) (cf_jwt_secret c) (cf_allow_no_auth c) (cf_legacy_plugin_mac c)
    (cf_role c) (cf_bridge c) (cf_device_callers c) (cf_device_id c) ps
    (cf_plugins_dir c) (cf_watchdog_interval_secs c) (cf_watchdog_timeout_secs c)
    (cf_log_buffer_lines c) (cf_max_connections c) (cf_api_rate_limit_rps c)
    (cf_api_rate_limit_burst c) (cf_ipc_rate_limit_rps c)
    (cf_action_caller_rate_limit_rps c) (cf_action_caller_max_concurrent c)
    (cf_session_idle_timeout_secs c) (cf_prune_interval_secs c) (cf_tls c)
    (cf_tls_cert_path c) (cf_tls_key_path c) (cf_jwt_audience c) (cf_bind c)
    (cf_ws_register_timeout_secs c) (cf_ws_device_recheck_secs c) (cf_tmp_dir c)
    (cf_action_timeout_ms c) (cf_restart_backoff_base_ms c)
    (cf_restart_backoff_max_ms c) (cf_default_grace_seconds c) (cf_event_max_retries c)
    (cf_event_retention_secs c) (cf_router_channel_capacity c)
    (cf_fragment_timeout_secs c) (cf_max_reassembly_streams c) (cf_max_conn_errors c)
    (cf_max_tracked_error_conns c) (cf_ws_handshake_timeout_secs c)
    (cf_max_ws_connections c) (cf_max_archive_bytes c) (cf_max_extracted_bytes c)
    (cf_max_archive_entries c) (cf_lazy_idle_stop_secs c) (cf_lazy_start_timeout_ms c)
    (cf_config_file c).

Definition set_source (file dir : string) (c : Config) : Config :=
  mkConfig
    (cf_port c) (cf_log_level c) (cf_pid_file c) (cf_log_file c) (cf_data_dir c)
    (cf_socket_path c) (cf_jwt_secret c) (cf_allow_no_auth c) (cf_legacy_plugin_mac c)
    (cf_role c) (cf_bridge c) (cf_device_callers c) (cf_device_id c) (cf_plugins c)
    (Some dir) (cf_watchdog_interval_secs c) (cf_watchdog_timeout_secs c)
    (cf_log_buffer_lines c) (cf_max_connections c) (cf_api_rate_limit_rps c)
    (cf_api_rate_limit_burst c) (cf_ipc_rate_limit_rps c)
    (cf_action_caller_rate_limit_rps c) (cf_action_caller_max_concurrent c)
    (cf_session_idle_timeout_secs c) (cf_prune_interval_secs c) (cf_tls c)
    (cf_tls_cert_path c) (cf_tls_key_path c) (cf_jwt_audience c) (cf_bind c)
    (cf_ws_register_timeout_secs c) (cf_ws_device_recheck_secs c) (cf_tmp_dir c)
    (cf_action_timeout_ms c) (cf_restart_backoff_base_ms c)
    (cf_restart_backoff_max_ms c) (cf_default_grace_seconds c) (cf_event_max_retries c)
    (cf_event_retention_secs c) (cf_router_channel_capacity c)
    (cf_fragment_timeout_secs c) (cf_max_reassembly_streams c) (cf_max_conn_errors c)
    (cf_max_tracked_error_conns c) (cf_ws_handshake_timeout_secs c)
    (cf_max_ws_connections c) (cf_max_archive_bytes c) (cf_max_extracted_bytes c)
    (cf_max_archive_entries c) (cf_lazy_idle_stop_secs c) (cf_lazy_start_timeout_ms c)
    (Some file).

(** ** Loading *)

(** [serde_yaml::from_str] at the two types. *)
Class Yaml := {
  yaml_config : string -> Result Config string;
  yaml_plugin : string -> Result PluginDef string
}.

Record ConfFs := mkConfFs {
  cfs_read : string -> Result string string;
  cfs_is_dir : string -> bool;
  cfs_read_dir : string -> Result (list string) string
}.

Definition resolve_plugins_dir (config_path : string) (explicit : option string) : string :=
  match explicit with
  | Some dir => dir
  | None => match parent config_path with
            | Some p => path_join p "plugins.d"
            | None => "plugins.d"
            end
  end.

(** [Path::extension] of the last component: what follows its last dot, unless
    the dot is its first character. *)
Definition path_extension (p : string) : option string :=
  match last (components p) with
  | Some (Normal name) =>
      match reverse (split "." name) with
      | ext :: _ :: _ as parts =>
          if (length parts =? 2)%nat && str_is_empty (List.nth 1 parts EmptyString) then None
          else Some ext
      | _ => None
      end
  | _ => None
  end.

Definition is_dropin (p : string) : bool :=
  match path_extension p with
  | Some e => (e =s "yaml") || (e =s "yml")
  | None => false
  end.

Definition duplicate_error (id file : string) : string :=
  "duplicate plugin id '" +:+ id +:+ "': defined both in " +:+ file
  +:+ " and in an inline `plugins:` entry or another drop-in file".

Section loading.
Context `{Yaml} (fs : ConfFs).

(** The loop over the sorted files. *)
Fixpoint merge_files (files : list string) (plugins : list PluginDef)
    : Result (list PluginDef) string :=
  match files with
  | [] => Ok plugins
  | file :: rest =>
      let? content := cfs_read fs file in
      match yaml_plugin content with
      | Err e => Err (file +:+ ": " +:+ e)
      | Ok plugin =>
          if existsb (fun p => pd_id p =s pd_id plugin) plugins
          then Err (duplicate_error (pd_id plugin) file)
          else merge_files rest (plugins ++ [plugin])
      end
  end.

Definition merge_plugin_dropins (dir : string) (c : Config) : Result Config string :=
  if negb (cfs_is_dir fs dir) then Ok c
  else
    let? entries := cfs_read_dir fs dir in
    let? ps := merge_files (str_sort (List.filter is_dropin entries)) (cf_plugins c) in
    Ok (set_plugins ps c).

(** [0] is replaced by the default. *)
Definition clamp (v d : Z) : Z := if (v =? 0)%Z then d else v.

Definition clamp_bridge (b : BridgeConfig) : BridgeConfig :=
  mkBridgeConfig (bc_host_url b) (bc_transports b) (bc_token b) (bc_secret b) (bc_mirror b)
    (bc_ca_cert_path b) (clamp (bc_keepalive_secs b) default_bridge_keepalive).

Definition clamp_invalid_numerics (c : Config) : Config :=
  mkConfig
    (cf_port c) (cf_log_level c) (cf_pid_file c) (cf_log_file c) (cf_data_dir c)
    (cf_socket_path c) (cf_jwt_secret c) (cf_allow_no_auth c) (cf_legacy_plugin_mac c)
    (cf_role c) (clamp_bridge <$> cf_bridge c) (cf_device_callers c) (cf_device_id c)
    (cf_plugins c) (cf_plugins_dir c)
    (clamp (cf_watchdog_interval_secs c) default_watchdog_interval)
    (clamp (cf_watchdog_timeout_secs c) default_watchdog_timeout)
    (cf_log_buffer_lines c) (clamp (cf_max_connections c) default_max_connections)
    (cf_api_rate_limit_rps c) (cf_api_rate_limit_burst c) (cf_ipc_rate_limit_rps c)
    (cf_action_caller_rate_limit_rps c) (cf_action_caller_max_concurrent c)
    (cf_session_idle_timeout_secs c) (cf_prune_interval_secs c) (cf_tls c)
    (cf_tls_cert_path c) (cf_tls_key_path c) (cf_jwt_audience c) (cf_bind c)
    (cf_ws_register_timeout_secs c) (cf_ws_device_recheck_secs c) (cf_tmp_dir c)
    (cf_action_timeout_ms c) (cf_restart_backoff_base_ms c)
    (cf_restart_backoff_max_ms c) (cf_default_grace_seconds c) (cf_event_max_retries c)
    (cf_event_retention_secs c)
    (clamp (cf_router_channel_capacity c) default_router_channel_capacity)
    (cf_fragment_timeout_secs c) (cf_max_reassembly_streams c) (cf_max_conn_errors c)
    (cf_max_tracked_error_conns c) (cf_ws_handshake_timeout_secs c)
    (clamp (cf_max_ws_connections c) default_max_ws_connections)
    (clamp (cf_max_archive_bytes c) default_max_archive_bytes)
    (cf_max_extracted_bytes c) (cf_max_archive_entries c) (cf_lazy_idle_stop_secs c)
    (cf_lazy_start_timeout_ms c) (cf_config_file c).

Definition load_config (path : string) : Result Config string :=
  let? content := cfs_read fs path in
  let? c := yaml_config content in
  let dir := resolve_plugins_dir path (cf_plugins_dir c) in
  let? c := merge_plugin_dropins dir (set_source path dir c) in
  Ok (clamp_invalid_numerics c).
End loading.

(** ** What is read from it *)
Definition resolve_device_id (e : ConfEnv) (c : Config) : string :=
  match cf_device_id c with
  | Some id => id
  | None => default "unknown" (ce_hostname e)
  end.

Definition default_tls_dir (e : ConfEnv) : option string :=
  (fun d => path_join d "vyn-tls") <$> ce_private_dir e.

Definition effective_tls_cert_path (e : ConfEnv) (c : Config) : option string :=
  if negb (cf_tls c) then None
  else match cf_tls_cert_path c with
       | Some cert => Some cert
       | None => (fun d => path_join d "cert.pem") <$> default_tls_dir e
       end.
