(* ===== verification/ConfigProps.v ===== *)
(** * Theorems on configuration loading *)

From Stdlib Require Import Sorted.
From S2P Require Import Prelude Validate Kernel Sandbox Config.

(** ** Sorting file names *)
Lemma str_insert_Permutation x l : str_insert x l ≡ₚ x :: l.
Proof.
  induction l as [|y l IH]; [done|]. simpl. destruct (str_leb x y); [done|].
  rewrite IH. apply Permutation_swap.
Qed.

Lemma str_sort_Permutation l : str_sort l ≡ₚ l.
Proof.
  induction l as [|x l IH]; [done|]. change (str_sort (x :: l)) with (str_insert x (str_sort l)).
  rewrite str_insert_Permutation. by f_equiv.
Qed.

Lemma str_leb_total a b : str_leb a b = false -> str_leb b a = true.
Proof.
  revert b. induction a as [|x a IH]; intros [|y b]; try done. simpl.
  destruct (ascii_n x <? ascii_n y)%N eqn:E1; [done|].
  destruct (ascii_n y <? ascii_n x)%N eqn:E2; [done|]. apply IH.
Qed.

Definition str_le (a b : string) : Prop := str_leb a b = true.

Lemma str_insert_Sorted x l : Sorted str_le l -> Sorted str_le (str_insert x l).
Proof.
  induction 1 as [|y l Hl IH Hy]; [by repeat constructor|]. simpl.
  destruct (str_leb x y) eqn:E; [by repeat constructor|].
  constructor; [done|]. apply str_leb_total in E.
  destruct l as [|z l]; simpl; [by constructor|].
  destruct (str_leb x z); [by constructor|]. inversion Hy; subst. by constructor.
Qed.

Lemma str_sort_Sorted l : Sorted str_le (str_sort l).
Proof.
  induction l as [|x l IH]; [constructor|].
  change (str_sort (x :: l)) with (str_insert x (str_sort l)). by apply str_insert_Sorted.
Qed.

(** ** Merging *)
Section props.
Context `{Yaml} (fs : ConfFs).

(** The file is readable and holds the definition. *)
Definition holds_def (file : string) (def : PluginDef) : Prop :=
  exists content, cfs_read fs file = Ok content /\ yaml_plugin content = Ok def.

Lemma merge_files_spec files ps ps' :
  merge_files fs files ps = Ok ps' <->
  exists defs, ps' = ps ++ defs /\ Forall2 holds_def files defs /\
    NoDup (map pd_id defs) /\ (forall d, d ∈ defs -> pd_id d ∉ map pd_id ps).
Proof.
  revert ps. induction files as [|file files IH]; intros ps; simpl.
  - split.
    + intros [= <-]. exists []. rewrite app_nil_r. split_and!; [done|done|constructor|set_solver].
    + intros (defs & -> & Hf & _). inversion Hf; subst. by rewrite app_nil_r.
  - destruct (cfs_read fs file) as [content|e] eqn:Hr.
    2: { split; [done|]. intros (defs & _ & Hf & _). inversion Hf as [|? ? ? ? (c & Hc & _)]; congruence. }
    destruct (yaml_plugin content) as [plugin|e] eqn:Hy.
    2: { split; [done|]. intros (defs & _ & Hf & _).
         inversion Hf as [|? ? ? ? (c & Hc & Hd)]; congruence. }
    assert (Hex : existsb (fun p => pd_id p =s pd_id plugin) ps = true <-> pd_id plugin ∈ map pd_id ps).
    { rewrite existsb_exists, list_elem_of_fmap. setoid_rewrite list_elem_of_In.
      setoid_rewrite str_eqb_eq. naive_solver. }
    destruct (existsb _ ps) eqn:E.
    + split; [done|]. intros (defs & _ & Hf & _ & Hdj).
      inversion Hf as [|? d ? ? (c & Hc & Hd) Hrest]; subst.
      assert (d = plugin) as -> by congruence. exfalso. apply (Hdj plugin); [left|by apply Hex].
    + assert (Hni : pd_id plugin ∉ map pd_id ps) by (intros Hin; apply Hex in Hin; done).
      rewrite IH. split.
      * intros (defs & -> & Hf & Hnd & Hdj). exists (plugin :: defs).
        rewrite <- (assoc (++)). split_and!; [done| | |].
        -- constructor; [by exists content|done].
        -- simpl. constructor; [|done]. intros (d & Heq & Hd)%list_elem_of_fmap.
           apply (Hdj d Hd). rewrite map_app. set_solver.
        -- intros d [->|Hd]%elem_of_cons; [done|]. apply Hdj in Hd. rewrite map_app in Hd. set_solver.
      * intros (defs & -> & Hf & Hnd & Hdj).
        inversion Hf as [|? d ? defs' (c & Hc & Hd) Hrest]; subst.
        assert (d = plugin) as -> by congruence. simpl in Hnd. apply NoDup_cons in Hnd as [Hn Hnd].
        exists defs'. rewrite <- (assoc (++)). split_and!; try done.
        intros d Hd'. rewrite map_app, not_elem_of_app. split; [by apply Hdj; right|].
        simpl. rewrite list_elem_of_singleton. intros Heq. apply Hn. rewrite <- Heq.
        by apply (list_elem_of_fmap_2 pd_id).
Qed.

(** ** Well-formed configurations *)

(** The fields for which zero is never valid. *)
Definition config_ok (c : Config) : Prop :=
  cf_router_channel_capacity c <> 0%Z /\ cf_max_connections c <> 0%Z /\
  cf_watchdog_interval_secs c <> 0%Z /\ cf_watchdog_timeout_secs c <> 0%Z /\
  cf_max_ws_connections c <> 0%Z /\ cf_max_archive_bytes c <> 0%Z /\
  (forall b, cf_bridge c = Some b -> bc_keepalive_secs b <> 0%Z).

Lemma clamp_nonzero v d : d <> 0%Z -> clamp v d <> 0%Z.
Proof. unfold clamp. destruct (Z.eqb_spec v 0); done. Qed.

Lemma clamp_id v d : v <> 0%Z -> clamp v d = v.
Proof. unfold clamp. by destruct (Z.eqb_spec v 0). Qed.

Lemma clamp_config_ok c : config_ok (clamp_invalid_numerics c).
Proof.
  unfold config_ok. simpl. split_and!; try by apply clamp_nonzero.
  intros b. destruct (cf_bridge c); [|done]. intros [= <-]. by apply clamp_nonzero.
Qed.

Lemma clamp_fixpoint c : config_ok c -> clamp_invalid_numerics c = c.
Proof.
  intros (H1 & H2 & H3 & H4 & H5 & H6 & H7). destruct c; simpl in *.
  unfold clamp_invalid_numerics. simpl. rewrite !clamp_id by done. f_equal.
  match goal with |- clamp_bridge <$> ?b = _ => destruct b as [[]|] end; [|done].
  simpl. f_equal. unfold clamp_bridge. simpl.
  rewrite clamp_id; [done|]. by apply (H7 _ eq_refl).
Qed.


(** ** Errors of loading *)

(** Duplicate definitions never load: if a drop-in file of the plugin
    directory defines an id that an inline entry or another drop-in file also
    defines, loading fails, whatever else the files hold. *)
Theorem duplicate_dropin_refused path content c0 entries f1 d1 :
  cfs_read fs path = Ok content -> yaml_config content = Ok c0 ->
  let dir := resolve_plugins_dir path (cf_plugins_dir c0) in
  cfs_is_dir fs dir = true -> cfs_read_dir fs dir = Ok entries -> NoDup entries ->
  f1 ∈ entries -> is_dropin f1 = true -> holds_def f1 d1 ->
  (pd_id d1 ∈ map pd_id (cf_plugins c0) \/
   exists f2 d2, f2 ∈ entries /\ is_dropin f2 = true /\ f1 <> f2 /\ holds_def f2 d2 /\
     pd_id d2 = pd_id d1) ->
  exists e, load_config fs path = Err e.
Proof.
  intros Hr Hy dir Hd Hrd Hne Hf1 Hx1 H1 Hdup.
  unfold load_config, merge_plugin_dropins. rewrite Hr, Hy. fold dir. rewrite Hd, Hrd. simpl.
  set (files := str_sort (List.filter is_dropin entries)).
  destruct (merge_files fs files _) as [ps|e] eqn:Hm; [|by eauto]. exfalso.
  apply merge_files_spec in Hm as (defs & _ & Hf & Hnd & Hdj). simpl in Hdj.
  assert (Hin : forall f, f ∈ entries -> is_dropin f = true -> f ∈ files).
  { intros f Hfe Hx. unfold files. rewrite str_sort_Permutation. apply list_elem_of_In, filter_In.
    by rewrite <- list_elem_of_In. }
  assert (Hdef : forall f d, f ∈ files -> holds_def f d -> exists i, files !! i = Some f /\ defs !! i = Some d).
  { intros f d [i Hi]%list_elem_of_lookup (c & Hc & Hcd).
    destruct (Forall2_lookup_l _ _ _ _ _ Hf Hi) as (d' & Hd' & (c' & Hc' & Hcd')).
    exists i. split; [done|]. congruence. }
  destruct (Hdef f1 d1 (Hin _ Hf1 Hx1) H1) as (i & Hi & Hdi).
  destruct Hdup as [Hinl|(f2 & d2 & Hf2 & Hx2 & Hneq & H2 & Hid)].
  - apply (Hdj d1); [by eapply list_elem_of_lookup_2|done].
  - destruct (Hdef f2 d2 (Hin _ Hf2 Hx2) H2) as (j & Hj & Hdj').
    assert (i = j) as ->; [|congruence].
    eapply (NoDup_lookup _ _ _ (pd_id d1) Hnd); rewrite list_lookup_fmap;
      [by rewrite Hdi|by rewrite Hdj'; simpl; rewrite Hid].
Qed.
End props.

(** The scratch directory is the system's shared one when there is no private
    directory. *)
Lemma tmp_dir_falls_back_to_shared sock temp host :
  cf_tmp_dir (config_default (mkConfEnv None sock temp host)) = temp.
Proof. done. Qed.

(** ** Concrete files *)
Definition demo_env : ConfEnv := mkConfEnv (Some "/run/user/1000") "/run/user/1000/vyn.sock" "/tmp" None.
Definition demo_def (id : string) : PluginDef :=
  mkPluginDef id ("/opt/" +:+ id +:+ "/bin") "always" 3 [] [] false 0 None None false None []
    None [] [].

#[local] Instance demo_yaml : Yaml := {|
  yaml_config _ := Ok (set_plugins [demo_def "inline"] (config_default demo_env));
  yaml_plugin s := Ok (demo_def s)
|}.

Definition demo_files (bad : bool) : ConfFs :=
  mkConfFs (fun p => Ok (if p =s "/etc/vyn/plugins.d/b.yml" then "bb"
                         else if bad then "inline" else "aa"))
    (fun _ => true)
    (fun _ => Ok ["/etc/vyn/plugins.d/b.yml"; "/etc/vyn/plugins.d/README";
                  "/etc/vyn/plugins.d/a.yaml"]).


Lemma duplicate_dropin_refused_witness :
  exists e, load_config (demo_files true) "/etc/vyn/config.yaml" = Err e.
Proof.
  apply (duplicate_dropin_refused (demo_files true) "/etc/vyn/config.yaml" "inline"
    (set_plugins [demo_def "inline"] (config_default demo_env))
    ["/etc/vyn/plugins.d/b.yml"; "/etc/vyn/plugins.d/README"; "/etc/vyn/plugins.d/a.yaml"]
    "/etc/vyn/plugins.d/a.yaml" (demo_def "inline")); try reflexivity.
  - apply (bool_decide_unpack _). reflexivity.
  - apply str_mem_elem. reflexivity.
  - exists "inline". split; reflexivity.
  - left. apply str_mem_elem. reflexivity.
Defined.
