(* ===== verification/Loader.v ===== *)
(** * Plugin loading (src/plugins/loader.rs, src/plugins/lazy_manifest.rs)

    From the configured definitions to the started plugins: manifests are
    validated, dependencies resolved and sorted, then each plugin is started or
    registered dormant. Reading and parsing a manifest file is the class
    [Manifests] (vynkor-wire's [validate_manifest], [serde_json] and the file
    system). Hash maps are finite maps. *)

From S2P Require Import Prelude Errors Wire Validate Registry Events Auth Kernel.
From S2P Require Import Sandbox Supervisor Config.

(** ** src/plugins/lazy_manifest.rs *)
Definition json_get (k : string) (j : Json) : option Json :=
  match j with
  | JObj fields => snd <$> List.find (fun kv => kv.1 =s k) fields
  | _ => None
  end.

Definition risk_from_str (s : string) : ActionRisk :=
  if s =s "low" then Low
  else if s =s "medium" then Medium
  else if s =s "high" then High
  else if s =s "critical" then Critical
  else RiskUnknown.

Section lazy_manifest.
Context `{Serde}.

Definition spec_from_entry (entry : Json) : option ActionSpec :=
  match entry with
  | JStr name => Some (mkActionSpec name EmptyString EmptyString RiskUnknown false)
  | _ =>
      name ← json_get_str "name" entry;
      let text := fun key => default EmptyString (json_get_str key entry) in
      Some (mkActionSpec name (text "description")
              (match json_get "input" entry with
               | Some v => json_to_string v
               | None => EmptyString
               end)
              (risk_from_str (text "risk"))
              (match json_get "requires_confirmation" entry with
               | Some (JBool b) => b
               | _ => false
               end))
  end.

Definition action_specs_from_manifest_json (raw : Json) : list ActionSpec :=
  match json_get "actions" raw with
  | Some (JArr actions) => omap spec_from_entry actions
  | _ => []
  end.
End lazy_manifest.

(** ** src/plugins/loader.rs *)

(** What the loader reads of vynkor-wire's [InstallManifest]. *)
Record InstallManifest := mkInstallManifest {
  im_permissions : list string;
  im_requires : list string;
  im_events : option (list string);
  im_actions : option (list (string * option string))
}.

(** [validate_manifest] on a path, whether the path exists, and the raw JSON. *)
Class Manifests := {
  mf_exists : string -> bool;
  mf_validate : string -> Result InstallManifest VynkorError;
  mf_raw : string -> option Json
}.

Definition policy_from_str (s : string) : RestartPolicy :=
  if s =s "always" then Always
  else if s =s "on-failure" then OnFailure
  else if s =s "never" then Never
  else OnFailure.

Definition config_from_def (def : PluginDef) : PluginConfig :=
  mkPluginConfig (pd_id def) (pd_binary def) (pd_args def) (pd_env def)
    (policy_from_str (pd_restart def)) (pd_max_restarts def) (pd_sandbox def)
    (pd_grace_seconds def) (pd_max_procs def) (pd_max_vmem_mb def)
    (default FsFull (pd_max_fs_access def ≫= fs_parse))
    (pd_readonly_paths def) (pd_writable_paths def).

(** The directory of the binary, unless it is empty. *)
Definition manifest_path (def : PluginDef) : option string :=
  match parent (pd_binary def) with
  | Some p => if str_is_empty p then None else Some (path_join p "plugin.json")
  | None => None
  end.

Definition granted (def : PluginDef) (perm : string) : bool :=
  existsb (fun g => normalize_permission g =s normalize_permission perm) (pd_permissions def).

(** The requirements of each plugin. *)
Abbreviation Deps := (gmap string (list string)).

Section loader.
Context `{Wire, Serde, Manifests}.

Definition validate_plugin_def (def : PluginDef)
    : Result (option InstallManifest) VynkorError :=
  match manifest_path def with
  | None => Ok None
  | Some path =>
      if negb (mf_exists path) then Ok None
      else
        let? manifest := mf_validate path in
        match pd_permissions def with
        | [] => Ok (Some manifest)
        | _ =>
            match List.find (fun p => negb (granted def p)) (im_permissions manifest) with
            | Some perm =>
                Err (EPermissionDenied ("Plugin '" +:+ pd_id def +:+ "' requests permission '"
                       +:+ perm +:+ "' which is not granted in config"))
            | None => Ok (Some manifest)
            end
        end
  end.

(** [PathBuf::parent] without the emptiness test of [validate_plugin_def]. *)
Definition read_raw_manifest (def : PluginDef) : option Json :=
  match parent (pd_binary def) with
  | Some p => mf_raw (path_join p "plugin.json")
  | None => None
  end.

(** ** Topological sort *)
Definition active_ids (defs : list PluginDef) (refused : gset string) : list string :=
  base.filter (fun id => id ∉ refused) (map pd_id defs).

(** The edges of a node that count: its dependencies that are not refused. *)
Definition count_edge (refused : gset string) (id : string) (m : gmap string nat)
    (dep : string) : gmap string nat :=
  if decide (dep ∈ refused) then m else <[id := S (default 0 (m !! id))]> m.

Definition count_edges (deps : Deps) (refused : gset string) (m : gmap string nat)
    (id : string) : gmap string nat :=
  foldl (count_edge refused id) m (default [] (deps !! id)).

Definition in_degrees (active : list string) (deps : Deps) (refused : gset string)
    : gmap string nat :=
  foldl (count_edges deps refused) (list_to_map (map (fun id => (id, 0)) active)) active.

Definition rev_edge (refused : gset string) (id : string) (m : gmap string (list string))
    (dep : string) : gmap string (list string) :=
  if decide (dep ∈ refused) then m else <[dep := default [] (m !! dep) ++ [id]]> m.

Definition rev_edges (deps : Deps) (refused : gset string) (m : gmap string (list string))
    (id : string) : gmap string (list string) :=
  foldl (rev_edge refused id) m (default [] (deps !! id)).

Definition reverse_adjacency (active : list string) (deps : Deps) (refused : gset string)
    : gmap string (list string) :=
  foldl (rev_edges deps refused) ∅ active.

(** One dependant of a node that was output. *)
Definition relax (st : gmap string nat * list string) (dep : string)
    : gmap string nat * list string :=
  let cnt := pred (default 0 (st.1 !! dep)) in
  (<[dep := cnt]> st.1, if (cnt =? 0)%nat then st.2 ++ [dep] else st.2).

(** The [while let] loop; [None] is a run that needs more fuel. *)
Fixpoint topo_loop (fuel : nat) (rev : gmap string (list string)) (deg : gmap string nat)
    (queue order : list string) : option (list string) :=
  match queue with
  | [] => Some order
  | id :: queue' =>
      match fuel with
      | O => None
      | S fuel' =>
          let '(deg, queue'') := foldl relax (deg, queue') (default [] (rev !! id)) in
          topo_loop fuel' rev deg queue'' (order ++ [id])
      end
  end.

(** [Err] lists the nodes that are not in the order. *)
Definition topo_sort_fuel (fuel : nat) (defs : list PluginDef) (deps : Deps)
    (refused : gset string) : option (Result (list string) (list string)) :=
  let active := active_ids defs refused in
  let deg := in_degrees active deps refused in
  let rev := reverse_adjacency active deps refused in
  let queue := base.filter (fun id => default 0 (deg !! id) = 0) active in
  order ← topo_loop fuel rev deg queue [];
  Some (if (length order <? length active)%nat
        then Err (base.filter (fun id => id ∉ order) active)
        else Ok order).

Definition topo_sort (defs : list PluginDef) (deps : Deps) (refused : gset string)
    : option (Result (list string) (list string)) :=
  topo_sort_fuel (length defs) defs deps refused.

(** ** Loading everything *)

(** The requirements a manifest puts on its actions. *)
Definition requirements_of (m : InstallManifest) : gmap string PermissionType :=
  foldl (fun acc spec =>
           match spec.2 ≫= resolve_permission with
           | Some pt => <[spec.1 := pt]> acc
           | None => acc
           end) ∅ (default [] (im_actions m)).

Record Validated := mkValidated {
  va_manager : PluginManager;
  va_manifests : gmap string (option InstallManifest);
  va_refused : gset string;
  va_lazy_specs : gmap string (list ActionSpec)
}.

Definition upd_manager_reg (f : Registry -> Registry) (m : PluginManager) : PluginManager :=
  mkManager (pm_supervisor m) (upd_reg f (pm_world m)).

Definition validate_step (v : Validated) (def : PluginDef) : Validated :=
  match validate_plugin_def def with
  | Err _ => mkValidated (va_manager v) (va_manifests v) ({[pd_id def]} ∪ va_refused v)
               (va_lazy_specs v)
  | Ok m =>
      let reqs := match m with Some m => requirements_of m | None => ∅ end in
      let mgr := if decide (reqs = ∅) then va_manager v
                 else upd_manager_reg (set_action_requirements (pd_id def) reqs)
                        (va_manager v) in
      mkValidated mgr (<[pd_id def := m]> (va_manifests v)) (va_refused v)
        (if pd_lazy def
         then <[pd_id def := match read_raw_manifest def with
                             | Some raw => action_specs_from_manifest_json raw
                             | None => []
                             end]> (va_lazy_specs v)
         else va_lazy_specs v)
  end.

Definition requires_of (manifests : gmap string (option InstallManifest)) (id : string)
    : list string :=
  match manifests !! id with Some (Some m) => im_requires m | _ => [] end.

Definition resolve_step (ids : list string) (manifests : gmap string (option InstallManifest))
    (st : Deps * gset string) (def : PluginDef) : Deps * gset string :=
  let id := pd_id def in
  if decide (id ∈ st.2) then st
  else
    let req := requires_of manifests id in
    if forallb (fun dep => str_mem dep ids) req then (<[id := req]> st.1, st.2)
    else (st.1, {[id]} ∪ st.2).

(** Everything before the spawns: the validated state, the resolved
    dependencies, the ids refused and the order to spawn in. *)
Record Plan := mkPlan {
  pl_validated : Validated;
  pl_deps : Deps;
  pl_refused : gset string;
  pl_order : list string
}.

Definition load_plan (defs : list PluginDef) (manager : PluginManager) : option Plan :=
  let v := foldl validate_step (mkValidated manager ∅ ∅ ∅) defs in
  let ids := map pd_id defs in
  let '(deps, refused) := foldl (resolve_step ids (va_manifests v)) (∅, va_refused v) defs in
  r ← topo_sort defs deps refused;
  Some (match r with
        | Ok order => mkPlan v deps refused order
        | Err cycle =>
            let refused := list_to_set cycle ∪ refused in
            mkPlan v deps refused (base.filter (fun id => id ∉ refused) ids)
        end).

Definition register_lazy (def : PluginDef) (specs : list ActionSpec) (default_idle : Z)
    (m : PluginManager) : PluginManager :=
  upd_manager_reg (register_dormant (mkDormant (pd_id def) specs
    (from_secs (default default_idle (pd_idle_stop_secs def))))) m.

(** Why a plugin marked lazy is started at once, or not. *)
Definition stays_dormant (def : PluginDef) (manifest : option InstallManifest)
    (specs : list ActionSpec) : bool :=
  pd_lazy def
  && negb (match manifest with
           | Some m => match im_events m with Some (_ :: _) => true | _ => false end
           | None => false
           end)
  && match specs with [] => false | _ => true end.

(** How the operating system answers the spawn of each plugin. *)
Definition SpawnOracle : Type := string -> SpawnAnswer * Started.

Record Loaded := mkLoaded {
  ld_manager : PluginManager;
  ld_lazy_configs : gmap string PluginConfig;
  ld_lazy_specs : gmap string (list ActionSpec);
  ld_started : list string
}.

Definition subscribe_declared (has_bus : bool) (id : string)
    (manifest : option InstallManifest) (m : PluginManager) : PluginManager :=
  match manifest with
  | Some mf =>
      match has_bus, default [] (im_events mf) with
      | true, (_ :: _) as events =>
          mkManager (pm_supervisor m)
            (set_bus (subscribe id events (w_bus (pm_world m))) (pm_world m))
      | _, _ => m
      end
  | None => m
  end.

(** One id of the order. *)
Definition load_one (defs : list PluginDef) (refused : gset string)
    (manifests : gmap string (option InstallManifest)) (has_bus : bool) (idle : Z)
    (os : SpawnOracle) (l : Loaded) (id : string) : Loaded :=
  match List.find (fun d => pd_id d =s id) defs with
  | None => l
  | Some def =>
      if decide (id ∈ refused) then l
      else
        let config := config_from_def def in
        let manifest := match manifests !! pd_id def with Some m => m | None => None end in
        let specs := default [] (ld_lazy_specs l !! pd_id def) in
        let rest := if pd_lazy def then delete (pd_id def) (ld_lazy_specs l)
                    else ld_lazy_specs l in
        if stays_dormant def manifest specs then
          mkLoaded (register_lazy def specs idle (ld_manager l))
            (<[pd_id def := config]> (ld_lazy_configs l)) rest (ld_started l)
        else
          match mgr_start config (os id).1 (os id).2 (ld_manager l) with
          | (m, Ok _) => mkLoaded (subscribe_declared has_bus (pd_id def) manifest m)
                           (ld_lazy_configs l) rest (ld_started l ++ [id])
          | (m, Err _) => mkLoaded m (ld_lazy_configs l) rest (ld_started l)
          end
  end.

Definition load_all (defs : list PluginDef) (manager : PluginManager) (has_bus : bool)
    (idle : Z) (os : SpawnOracle) : option Loaded :=
  match defs with
  | [] => Some (mkLoaded manager ∅ ∅ [])
  | _ =>
      p ← load_plan defs manager;
      let v := pl_validated p in
      Some (foldl (load_one defs (pl_refused p) (va_manifests v) has_bus idle os)
              (mkLoaded (va_manager v) ∅ (va_lazy_specs v) []) (pl_order p))
  end.

(** ** Action collisions *)
Definition pair_leb (a b : string * string) : bool :=
  if a.1 =s b.1 then str_leb a.2 b.2 else str_leb a.1 b.1.

Fixpoint pair_insert (x : string * string) (l : list (string * string))
    : list (string * string) :=
  match l with
  | [] => [x]
  | y :: l' => if pair_leb x y then x :: l else y :: pair_insert x l'
  end.

Definition action_collisions (lazy_id : string) (lazy_actions : list string)
    (declared : gmap string (list string)) : list (string * string) :=
  foldr pair_insert []
    (concat (map (fun on => if on.1 =s lazy_id then []
                            else map (fun a => (a, on.1))
                                   (List.filter (fun a => str_mem a on.2) lazy_actions))
               (map_to_list declared))).
End loader.
