(* ===== verification/LoaderProps.v ===== *)
(** * Theorems on plugin loading

    The dependency sort terminates and is a correct topological sort; the
    loading order that follows from it; who is never loaded. *)

From S2P Require Import Prelude Errors Wire Validate Registry Events Auth Kernel.
From S2P Require Import Sandbox Supervisor Config Loader.

(** ** Counting occurrences *)
Definition occ (x : string) (l : list string) : nat := length (base.filter (fun y => y = x) l).

Lemma occ_app x l k : occ x (l ++ k) = occ x l + occ x k.
Proof. unfold occ. by rewrite filter_app, length_app. Qed.

Lemma occ_cons x y l : occ x (y :: l) = (if decide (y = x) then 1 else 0) + occ x l.
Proof. unfold occ. rewrite filter_cons. by destruct (decide (y = x)). Qed.

Lemma occ_singleton x y : occ x [y] = if decide (y = x) then 1 else 0.
Proof. rewrite occ_cons. unfold occ. simpl. lia. Qed.

Lemma occ_zero x l : occ x l = 0 <-> x ∉ l.
Proof.
  induction l as [|y l IH]; [by unfold occ; simpl; set_solver|].
  rewrite occ_cons, not_elem_of_cons, <- IH. destruct (decide (y = x)); naive_solver lia.
Qed.

Lemma occ_pos x l : 0 < occ x l <-> x ∈ l.
Proof.
  destruct (decide (x ∈ l)) as [Hin|Hin].
  - split; [done|]. intros _. destruct (occ x l) eqn:E; [|lia]. by apply occ_zero in E.
  - rewrite (proj2 (occ_zero x l) Hin). split; [lia|done].
Qed.

(** ** The tables of the sort *)
Section sort.
Context (deps : Deps) (refused : gset string).

(** The dependencies of a node that count as edges. *)
Definition live_deps (id : string) : list string :=
  base.filter (fun d => d ∉ refused) (default [] (deps !! id)).

Lemma count_edges_lookup m id x :
  default 0 (count_edges deps refused m id !! x)
  = default 0 (m !! x) + (if decide (x = id) then length (live_deps id) else 0).
Proof.
  unfold count_edges, live_deps. generalize (default [] (deps !! id)) as l.
  intros l. revert m. induction l as [|d l IH]; intros m; simpl.
  - destruct (decide (x = id)); simpl; lia.
  - rewrite IH. unfold count_edge. rewrite filter_cons.
    destruct (decide (d ∈ refused)) as [Hr|Hr].
    + rewrite (decide_False (P := d ∉ refused)) by (by intros ?). done.
    + rewrite (decide_True (P := d ∉ refused)) by done. destruct (decide (x = id)) as [->|Hne]; simpl.
      * rewrite lookup_insert_eq. simpl. lia.
      * by rewrite lookup_insert_ne.
Qed.

Lemma in_degrees_lookup active x :
  NoDup active -> x ∈ active ->
  default 0 (in_degrees active deps refused !! x) = length (live_deps x).
Proof.
  unfold in_degrees. intros Hnd Hx.
  assert (H0 : default 0 ((list_to_map (map (fun id => (id, 0)) active) : gmap string nat) !! x) = 0).
  { destruct (_ !! x) as [n|] eqn:E; [|done].
    apply elem_of_list_to_map_2 in E. apply list_elem_of_fmap in E as (? & [= _ <-] & _). done. }
  revert H0 Hx. generalize (list_to_map (map (fun id => (id, 0)) active) : gmap string nat) as m.
  induction Hnd as [|y l Hy Hnd IH]; intros m H0 Hx; [by apply elem_of_nil in Hx|].
  simpl. apply elem_of_cons in Hx as [->|Hx].
  - clear IH. assert (Hrest : forall l m, y ∉ l ->
      default 0 (foldl (count_edges deps refused) m l !! y) = default 0 (m !! y)).
    { clear. induction l as [|z l IH]; intros m Hy; [done|]. simpl.
      apply not_elem_of_cons in Hy as [Hne Hy]. rewrite IH by done.
      rewrite count_edges_lookup, decide_False by done. lia. }
    rewrite Hrest by done. rewrite count_edges_lookup, H0, decide_True by done. lia.
  - apply IH; [|done]. rewrite count_edges_lookup, H0, decide_False; [done|]. by intros ->.
Qed.

Lemma rev_edges_occ m id d x :
  occ x (default [] (rev_edges deps refused m id !! d))
  = occ x (default [] (m !! d)) + (if decide (x = id) then occ d (live_deps id) else 0).
Proof.
  unfold rev_edges, live_deps. generalize (default [] (deps !! id)) as l.
  intros l. revert m. induction l as [|e l IH]; intros m; simpl.
  - rewrite filter_nil. change (occ d []) with 0. destruct (decide (x = id)); lia.
  - rewrite IH. unfold rev_edge. rewrite filter_cons.
    destruct (decide (e ∈ refused)) as [Hr|Hr].
    + rewrite (decide_False (P := e ∉ refused)) by (by intros ?). done.
    + rewrite (decide_True (P := e ∉ refused)) by done. rewrite occ_cons.
      destruct (decide (e = d)) as [->|Hne].
      * rewrite lookup_insert_eq. simpl. rewrite occ_app, occ_singleton.
        destruct (decide (id = x)) as [->|Hne].
        -- rewrite !decide_True by done. lia.
        -- rewrite !decide_False by congruence. lia.
      * rewrite lookup_insert_ne by done. destruct (decide (x = id)); lia.
Qed.

Lemma reverse_adjacency_occ active d x :
  NoDup active ->
  occ x (default [] (reverse_adjacency active deps refused !! d))
  = if decide (x ∈ active) then occ d (live_deps x) else 0.
Proof.
  unfold reverse_adjacency. intros Hnd.
  enough (Hm : forall l m, NoDup l ->
    occ x (default [] (foldl (rev_edges deps refused) m l !! d))
    = occ x (default [] (m !! d)) + (if decide (x ∈ l) then occ d (live_deps x) else 0)).
  { rewrite Hm by done. rewrite lookup_empty. done. }
  induction l as [|y l IH]; intros m Hl; cbn [foldl].
  - rewrite decide_False by set_solver. lia.
  - apply NoDup_cons in Hl as [Hy Hl]. rewrite IH, rev_edges_occ by done.
    destruct (decide (x = y)) as [->|Hne].
    + rewrite (decide_False (P := y ∈ l)), (decide_True (P := y ∈ y :: l)) by set_solver. lia.
    + destruct (decide (x ∈ l)) as [Hin|Hin].
      * rewrite (decide_True (P := x ∈ y :: l)) by set_solver. lia.
      * rewrite (decide_False (P := x ∈ y :: l)) by set_solver. lia.
Qed.

(** ** The loop *)
Lemma relax_fold ds deg q :
  (forall x, x ∈ ds -> occ x ds <= default 0 (deg !! x)) ->
  exists deg' new,
    foldl relax (deg, q) ds = (deg', q ++ new) /\
    (forall x, default 0 (deg' !! x) = default 0 (deg !! x) - occ x ds) /\
    NoDup new /\ (forall x, x ∈ new <-> x ∈ ds /\ default 0 (deg !! x) = occ x ds).
Proof.
  induction ds as [|d ds IH] using rev_ind; intros Hle.
  - exists deg, []. rewrite app_nil_r. split_and!; [done| |constructor|set_solver].
    intros x. change (occ x []) with 0. lia.
  - destruct IH as (deg' & new & Hf & Hdeg & Hnd & Hnew).
    { intros x Hx. etrans; [|apply Hle; set_solver]. rewrite occ_app. lia. }
    assert (Hd : occ d ds + 1 <= default 0 (deg !! d)).
    { specialize (Hle d ltac:(set_solver)). rewrite occ_app, occ_singleton, decide_True in Hle; done. }
    assert (Hocc : forall x, occ x (ds ++ [d]) = occ x ds + if decide (d = x) then 1 else 0)
      by (intros; by rewrite occ_app, occ_singleton).
    rewrite foldl_app, Hf. simpl. unfold relax. simpl. rewrite Hdeg.
    set (cnt := Nat.pred (default 0 (deg !! d) - occ d ds)).
    exists (<[d := cnt]> deg'), (if (cnt =? 0)%nat then new ++ [d] else new).
    assert (Hdn : d ∉ new) by (intros [_ ?]%Hnew; lia).
    split_and!.
    + destruct (cnt =? 0)%nat; by rewrite ?(assoc (++)).
    + intros x. rewrite Hocc. destruct (decide (d = x)) as [<-|Hne].
      * rewrite lookup_insert_eq. simpl. unfold cnt. lia.
      * rewrite lookup_insert_ne by done. rewrite Hdeg. lia.
    + destruct (cnt =? 0)%nat; [|done]. apply NoDup_app. split_and!; [done|set_solver|].
      apply NoDup_singleton.
    + intros x. rewrite Hocc. destruct (decide (d = x)) as [<-|Hne].
      * destruct (Nat.eqb_spec cnt 0); unfold cnt in *; set_unfold; naive_solver lia.
      * rewrite Nat.add_0_r. destruct (cnt =? 0)%nat; set_unfold; naive_solver.
Qed.

(** What holds before each turn of the loop. *)
Record topo_inv (active : list string) (deg : gmap string nat) (queue order : list string)
    : Prop := {
  ti_nodup : NoDup (order ++ queue);
  ti_sub : forall x, x ∈ order ++ queue -> x ∈ active;
  ti_deg : forall x, x ∈ active ->
    default 0 (deg !! x) = length (base.filter (fun d => d ∉ order) (live_deps x));
  ti_zero : forall x, x ∈ active -> (default 0 (deg !! x) = 0 <-> x ∈ order ++ queue);
  ti_before : forall l1 x l2, order = l1 ++ x :: l2 -> forall d, d ∈ live_deps x -> d ∈ l1
}.

Lemma filter_length_zero {A} (P : A -> Prop) `{!∀ x, Decision (P x)} (l : list A) :
  length (base.filter P l) = 0 <-> forall x, x ∈ l -> ~ P x.
Proof.
  rewrite length_zero_iff_nil. split.
  - intros Hnil x Hx HP. assert (Hin : x ∈ base.filter P l) by (by apply list_elem_of_filter).
    rewrite Hnil in Hin. by apply elem_of_nil in Hin.
  - intros Hno. destruct (base.filter P l) as [|x k] eqn:E; [done|]. exfalso.
    assert (Hin : x ∈ base.filter P l) by (rewrite E; left).
    apply list_elem_of_filter in Hin as [HP Hx]. by apply (Hno x).
Qed.

(** Outputting a node removes its occurrences from the open dependencies. *)
Lemma open_deps_snoc order id l :
  id ∉ order ->
  length (base.filter (fun d => d ∉ order ++ [id]) l)
  = length (base.filter (fun d => d ∉ order) l) - occ id l
  /\ occ id l <= length (base.filter (fun d => d ∉ order) l).
Proof.
  intros Hid. induction l as [|d l [IH1 IH2]]; [done|].
  rewrite occ_cons, !filter_cons. destruct (decide (d = id)) as [->|Hne].
  - rewrite (decide_False (P := id ∉ order ++ [id])) by set_solver.
    rewrite (decide_True (P := id ∉ order)) by done. simpl. lia.
  - destruct (decide (d ∈ order)) as [Hin|Hin].
    + rewrite (decide_False (P := d ∉ order ++ [id])) by set_solver.
      rewrite (decide_False (P := d ∉ order)) by (by intros ?). lia.
    + rewrite (decide_True (P := d ∉ order ++ [id])) by set_solver.
      rewrite (decide_True (P := d ∉ order)) by done. simpl. lia.
Qed.

Lemma before_snoc order id :
  (forall l1 x l2, order = l1 ++ x :: l2 -> forall d, d ∈ live_deps x -> d ∈ l1) ->
  (forall d, d ∈ live_deps id -> d ∈ order) ->
  forall l1 x l2, order ++ [id] = l1 ++ x :: l2 -> forall d, d ∈ live_deps x -> d ∈ l1.
Proof.
  intros Hb Hid l1 x l2 Heq d Hd. destruct l2 as [|z l2 _] using rev_ind.
  - apply app_inj_tail in Heq as [-> ->]. by apply Hid.
  - rewrite app_comm_cons, (assoc (++)) in Heq. apply app_inj_tail in Heq as [Heq _].
    by eapply Hb.
Qed.

Lemma topo_step active deg id queue order deg' queue' :
  NoDup active -> topo_inv active deg (id :: queue) order ->
  foldl relax (deg, queue) (default [] (reverse_adjacency active deps refused !! id))
  = (deg', queue') ->
  topo_inv active deg' queue' (order ++ [id]).
Proof.
  intros Hact [Hnd Hsub Hdeg Hzero Hbef] Hf.
  set (ds := default [] (reverse_adjacency active deps refused !! id)) in *.
  assert (Hocc : forall x, occ x ds = if decide (x ∈ active) then occ id (live_deps x) else 0)
    by (intros; unfold ds; rewrite reverse_adjacency_occ; done).
  assert (Hds : forall x, x ∈ ds -> x ∈ active).
  { intros x Hx%occ_pos. rewrite Hocc in Hx. destruct (decide (x ∈ active)); [done|lia]. }
  assert (Hido : id ∉ order) by (apply NoDup_app in Hnd as (_ & Hd & _); intros ?; by eapply Hd; [|left]).
  assert (Hopen : forall x, x ∈ active ->
    length (base.filter (fun d => d ∉ order ++ [id]) (live_deps x)) = default 0 (deg !! x) - occ x ds
    /\ occ x ds <= default 0 (deg !! x)).
  { intros x Hx. rewrite Hdeg, Hocc, decide_True by done. by apply open_deps_snoc. }
  destruct (relax_fold ds deg queue) as (deg1 & new & Hf' & Hd1 & Hnn & Hnew).
  { intros x Hx. by apply Hopen, Hds. }
  rewrite Hf' in Hf. injection Hf as <- <-.
  assert (Hfresh : forall x, x ∈ new -> x ∈ active /\ x ∉ order ++ id :: queue).
  { intros x [Hx Heq]%Hnew. split; [by apply Hds|]. intros Hin.
    apply Hzero in Hin; [|by apply Hds]. apply occ_pos in Hx. lia. }
  split.
  - replace ((order ++ [id]) ++ queue ++ new) with ((order ++ id :: queue) ++ new)
      by (by rewrite <- !(assoc (++))).
    apply NoDup_app. split_and!; [done| |done]. intros x Hx Hn. by apply Hfresh in Hn as [_ ?].
  - intros x Hx. destruct (decide (x ∈ new)) as [Hn|Hn]; [by apply Hfresh|].
    apply Hsub. set_solver.
  - intros x Hx. rewrite Hd1. symmetry. by apply Hopen.
  - intros x Hx. rewrite Hd1. pose proof (Hzero x Hx) as Hz. destruct (Hopen x Hx) as [_ Hle].
    assert (Hin : x ∈ (order ++ [id]) ++ queue ++ new <-> x ∈ order ++ id :: queue \/ x ∈ new) by set_solver.
    rewrite Hin, <- Hz, Hnew, <- occ_pos. lia.
  - apply before_snoc; [done|]. intros d Hd.
    assert (H0 : default 0 (deg !! id) = 0) by (apply Hzero; set_solver).
    rewrite Hdeg in H0 by set_solver. rewrite filter_length_zero in H0.
    destruct (decide (d ∈ order)); [done|]. by apply H0 in Hd.
Qed.

Lemma topo_loop_ok active fuel deg queue order :
  NoDup active -> topo_inv active deg queue order -> length active <= length order + fuel ->
  exists order' deg',
    topo_loop fuel (reverse_adjacency active deps refused) deg queue order = Some order'
    /\ topo_inv active deg' [] order'.
Proof.
  intros Hact. revert deg queue order. induction fuel as [|fuel IH]; intros deg queue order Hi Hl.
  - destruct queue as [|id queue]; [simpl; eauto|]. exfalso. destruct Hi as [Hnd Hsub _ _ _].
    pose proof (NoDup_submseteq _ _ Hnd Hsub) as Hlen%submseteq_length.
    rewrite length_app in Hlen. simpl in Hlen. lia.
  - destruct queue as [|id queue]; [simpl; eauto|]. simpl.
    destruct (foldl relax _ _) as [deg' queue'] eqn:Hf.
    apply IH; [by eapply topo_step|]. rewrite length_app. simpl. lia.
Qed.

Lemma topo_start active :
  NoDup active ->
  topo_inv active (in_degrees active deps refused)
    (base.filter (fun id => default 0 (in_degrees active deps refused !! id) = 0) active) [].
Proof.
  intros Hact. split; simpl.
  - by apply NoDup_filter.
  - intros x [_ ?]%list_elem_of_filter. done.
  - intros x Hx. rewrite in_degrees_lookup by done. f_equal. symmetry.
    induction (live_deps x) as [|d l IHl]; [done|]. rewrite filter_cons_True by set_solver. by f_equal.
  - intros x Hx. rewrite list_elem_of_filter. naive_solver.
  - intros l1 x l2 Heq. by destruct l1.
Qed.

(** The outcome of the sort on the active nodes. *)
Lemma topo_sort_outcome defs :
  let active := active_ids defs refused in
  NoDup (map pd_id defs) ->
  (forall id d, id ∈ active -> d ∈ live_deps id -> d ∈ active) ->
  (exists order, topo_sort defs deps refused = Some (Ok order) /\ order ≡ₚ active /\
     forall l1 x l2, order = l1 ++ x :: l2 -> forall d, d ∈ live_deps x -> d ∈ l1)
  \/ (exists cycle, topo_sort defs deps refused = Some (Err cycle) /\ cycle <> [] /\
     forall x, x ∈ cycle -> x ∈ active /\ exists d, d ∈ live_deps x /\ d ∈ cycle).
Proof.
  intros active Hnd Hcl.
  assert (Hact : NoDup active) by (by apply NoDup_filter).
  destruct (topo_loop_ok active (length defs) _ _ [] Hact (topo_start active Hact))
    as (order & deg & Hloop & [Ho Hsub Hdeg Hzero Hbef]).
  { unfold active, active_ids. rewrite <- (length_map pd_id defs). simpl. apply length_filter. }
  rewrite app_nil_r in Ho. unfold topo_sort, topo_sort_fuel. fold active.
  rewrite Hloop. simpl. destruct (Nat.ltb_spec (length order) (length active)) as [Hlt|Hge].
  - right. eexists. split; [done|].
    assert (Hout : forall x, x ∈ active -> x ∉ order -> exists d, d ∈ live_deps x /\ d ∉ order).
    { intros x Hx Hno. destruct (decide (Exists (fun d => d ∉ order) (live_deps x))) as [He|Hn];
        [by apply Exists_exists in He as (d & ? & ?); eauto|]. exfalso. apply Hno.
      rewrite <- (app_nil_r order). apply Hzero; [done|]. rewrite Hdeg by done.
      apply filter_length_zero. intros d Hd Hd'. apply Hn. apply Exists_exists. eauto. }
    split.
    + intros Hnil. apply (Nat.lt_irrefl (length active)). eapply Nat.le_lt_trans; [|exact Hlt].
      apply submseteq_length, NoDup_submseteq; [done|]. intros x Hx.
      destruct (decide (x ∈ order)); [done|].
      assert (Hin : x ∈ base.filter (fun id => id ∉ order) active) by (by apply list_elem_of_filter).
      rewrite Hnil in Hin. by apply elem_of_nil in Hin.
    + intros x [Hno Hx]%list_elem_of_filter. split; [done|].
      destruct (Hout x Hx Hno) as (d & Hd & Hdo). exists d. split; [done|].
      apply list_elem_of_filter. split; [done|]. by eapply Hcl.
  - left. exists order. split_and!; [done| |done].
    apply submseteq_length_Permutation; [|lia].
    apply NoDup_submseteq; [done|]. intros x Hx. apply Hsub. by rewrite app_nil_r.
Qed.

(** A set in which every member has a dependency inside has no ranking. *)
Lemma ranked_no_cycle (rank : string -> nat) cycle :
  cycle <> [] ->
  (forall x, x ∈ cycle -> exists d, d ∈ live_deps x /\ d ∈ cycle) ->
  ~ (forall x d, x ∈ cycle -> d ∈ live_deps x -> rank d < rank x).
Proof.
  intros Hne Hin Hr.
  assert (Hno : forall n x, rank x < n -> x ∈ cycle -> False).
  { induction n as [|n IH]; intros x Hn Hx; [lia|].
    destruct (Hin x Hx) as (d & Hd & Hdc). apply (IH d); [|done].
    specialize (Hr x d Hx Hd). lia. }
  destruct cycle as [|x l]; [done|]. apply (Hno (S (rank x)) x); [lia|left].
Qed.

Lemma before_ranked order :
  NoDup order ->
  (forall l1 x l2, order = l1 ++ x :: l2 -> forall d, d ∈ live_deps x -> d ∈ l1) ->
  exists rank : string -> nat, forall x d, x ∈ order -> d ∈ live_deps x -> rank d < rank x.
Proof.
  intros Hnd Hb. exists (fun x => default 0 (fst <$> list_find (fun y => y = x) order)).
  assert (Hidx : forall i x, order !! i = Some x -> list_find (fun y => y = x) order = Some (i, x)).
  { intros i x Hi. apply list_find_Some. split_and!; [done..|]. intros j y Hj Hji ->.
    assert (j = i) by (by eapply NoDup_lookup). lia. }
  intros x d Hx Hd. apply list_elem_of_split in Hx as (l1 & l2 & Heq).
  pose proof (Hb _ _ _ Heq _ Hd) as [i Hi]%list_elem_of_lookup.
  assert (order !! i = Some d).
  { rewrite Heq. apply lookup_app_l_Some. done. }
  assert (order !! length l1 = Some x) by (rewrite Heq; by apply list_lookup_middle).
  rewrite (Hidx i d), (Hidx (length l1) x) by done. simpl. by apply lookup_lt_Some in Hi.
Qed.
End sort.

(** The edges of the dependency graph: requirements that are not refused. *)
Definition needs (deps : Deps) (refused : gset string) (x d : string) : Prop :=
  d ∈ default [] (deps !! x) /\ d ∉ refused.

Lemma live_deps_needs deps refused x d : d ∈ live_deps deps refused x <-> needs deps refused x d.
Proof. unfold live_deps, needs. rewrite list_elem_of_filter. naive_solver. Qed.

(** C13 The dependency sort is a topological sort: with distinct ids and
    requirements within the configuration it always ends; either it outputs
    every plugin that is not refused exactly once, each after all of its
    requirements, or it reports a non-empty set of plugins in which each one
    requires another of the set. *)
Theorem topo_sort_correct defs deps refused :
  let active := active_ids defs refused in
  NoDup (map pd_id defs) ->
  (forall x d, x ∈ active -> needs deps refused x d -> d ∈ active) ->
  (exists order, topo_sort defs deps refused = Some (Ok order) /\ order ≡ₚ active /\
     forall l1 x l2, order = l1 ++ x :: l2 -> forall d, needs deps refused x d -> d ∈ l1)
  \/ (exists cycle, topo_sort defs deps refused = Some (Err cycle) /\ cycle <> [] /\
     forall x, x ∈ cycle -> x ∈ active /\ exists d, needs deps refused x d /\ d ∈ cycle).
Proof.
  intros active Hnd Hcl. setoid_rewrite <- live_deps_needs.
  apply topo_sort_outcome; [done|]. intros x d Hx Hd. eapply Hcl; [done|]. by apply live_deps_needs.
Qed.

(** The sort ends within one turn per configured plugin and decides
    acyclicity: it succeeds exactly when the plugins can be ranked so that each
    one ranks above everything it requires. *)
Theorem topo_sort_decides defs deps refused :
  let active := active_ids defs refused in
  NoDup (map pd_id defs) ->
  (forall x d, x ∈ active -> needs deps refused x d -> d ∈ active) ->
  exists r, topo_sort defs deps refused = Some r /\
    (is_ok r = true <-> exists rank : string -> nat,
       forall x d, x ∈ active -> needs deps refused x d -> rank d < rank x).
Proof.
  intros active Hnd Hcl.
  destruct (topo_sort_outcome deps refused defs Hnd) as [(order & Hs & Hp & Hb)|(cyc & Hs & Hne & Hc)].
  { intros x d Hx Hd. eapply Hcl; [done|]. by apply live_deps_needs. }
  - exists (Ok order). split; [done|]. split; [|done]. intros _.
    destruct (before_ranked deps refused order) as [rank Hr]; [|done|].
    { rewrite Hp. by apply NoDup_filter. }
    exists rank. intros x d Hx Hd. apply Hr; [by rewrite Hp|by apply live_deps_needs].
  - exists (Err cyc). split; [done|]. split; [done|]. intros [rank Hr]. exfalso.
    apply (ranked_no_cycle deps refused rank cyc Hne); [naive_solver|].
    intros x d Hx Hd. apply Hr; [by apply Hc|by apply live_deps_needs].
Qed.

(** ** The plan *)
Section plan.
Context `{Wire, Serde, Manifests}.

(** What resolving the requirements leaves, over any prefix of the definitions. *)
Lemma resolve_fold ids manifests defs deps0 refused0 deps refused :
  foldl (resolve_step ids manifests) (deps0, refused0) defs = (deps, refused) ->
  (forall x l, deps0 !! x = Some l -> l = requires_of manifests x /\ forall d, d ∈ l -> d ∈ ids) ->
  refused0 ⊆ refused /\
  (forall x l, deps !! x = Some l -> l = requires_of manifests x /\ forall d, d ∈ l -> d ∈ ids) /\
  (forall def, def ∈ defs -> pd_id def ∉ refused -> is_Some (deps !! pd_id def)) /\
  (forall x, is_Some (deps0 !! x) -> is_Some (deps !! x)).
Proof.
  revert deps0 refused0. induction defs as [|def defs IH]; intros deps0 refused0 Hf Hd0; simpl in Hf.
  { simplify_eq. split_and!; [done..|set_solver|done]. }
  unfold resolve_step at 2 in Hf. simpl in Hf. destruct (decide (pd_id def ∈ refused0)) as [Hr|Hr].
  - destruct (IH _ _ Hf Hd0) as (Hs & Hd & Hn & Hk). split_and!; try done.
    intros def' [->|Hin]%elem_of_cons Hnr; [set_solver|by apply Hn].
  - destruct (forallb _ _) eqn:Hall.
    + destruct (IH _ _ Hf) as (Hs & Hd & Hn & Hk).
      { intros x l [[<- <-]|[_ Hl]]%lookup_insert_Some; [|by apply Hd0]. split; [done|].
        intros d Hd. rewrite forallb_forall in Hall. apply str_mem_elem, Hall.
        by apply list_elem_of_In. }
      split_and!; try done.
      * intros def' [->|Hin]%elem_of_cons Hnr; [|by apply Hn].
        apply Hk. rewrite lookup_insert_eq. by eexists.
      * intros x Hx. apply Hk. destruct (decide (x = pd_id def)) as [->|];
          [rewrite lookup_insert_eq; by eexists|by rewrite lookup_insert_ne].
    + destruct (IH _ _ Hf Hd0) as (Hs & Hd & Hn & Hk). split_and!; [set_solver|done| |done].
      intros def' [->|Hin]%elem_of_cons Hnr; [set_solver|by apply Hn].
Qed.

(** Validation refuses what it cannot accept and keeps the supervisor as it is. *)
Lemma validate_fold defs v :
  let v' := foldl validate_step v defs in
  va_refused v ⊆ va_refused v' /\
  pm_supervisor (va_manager v') = pm_supervisor (va_manager v) /\
  (forall def e, def ∈ defs -> validate_plugin_def def = Err e -> pd_id def ∈ va_refused v').
Proof.
  revert v. induction defs as [|def defs IH]; intros v; simpl; [split_and!; [done..|set_solver]|].
  destruct (IH (validate_step v def)) as (Hs & Hm & Hr).
  assert (Hstep : va_refused v ⊆ va_refused (validate_step v def)
    /\ pm_supervisor (va_manager (validate_step v def)) = pm_supervisor (va_manager v)
    /\ forall e, validate_plugin_def def = Err e -> pd_id def ∈ va_refused (validate_step v def)).
  { unfold validate_step. destruct (validate_plugin_def def) as [m|e]; simpl.
    - split_and!; [done| |done]. by destruct (decide _).
    - split_and!; [set_solver|done|set_solver]. }
  destruct Hstep as (Hs1 & Hm1 & Hr1). split_and!; [set_solver|congruence|].
  intros def' e [->|Hin]%elem_of_cons He; [|by eapply Hr]. apply Hs. by eapply Hr1.
Qed.

(** The loading order: with distinct ids a plan is always made; a plugin in it
    passed validation and all it requires is configured; and either every plugin
    that was not refused is in it, once, after everything it requires that was
    not refused itself, or there is a cycle, whose members are all refused. *)
Theorem load_order_correct defs manager :
  NoDup (map pd_id defs) ->
  exists p, load_plan defs manager = Some p /\
    NoDup (pl_order p) /\
    (forall x, x ∈ pl_order p <-> x ∈ map pd_id defs /\ x ∉ pl_refused p) /\
    (forall def e, def ∈ defs -> validate_plugin_def def = Err e -> pd_id def ∉ pl_order p) /\
    (forall x, x ∈ pl_order p -> forall d, d ∈ requires_of (va_manifests (pl_validated p)) x ->
       d ∈ map pd_id defs) /\
    ((forall l1 x l2, pl_order p = l1 ++ x :: l2 ->
        forall d, d ∈ requires_of (va_manifests (pl_validated p)) x -> d ∉ pl_refused p -> d ∈ l1)
     \/ exists cycle, cycle <> [] /\ forall x, x ∈ cycle -> x ∈ pl_refused p /\
          exists d, d ∈ requires_of (va_manifests (pl_validated p)) x /\ d ∈ cycle).
Proof.
  intros Hnd. unfold load_plan. set (v := foldl validate_step _ defs).
  destruct (foldl (resolve_step _ _) _ defs) as [deps refused] eqn:Hres.
  destruct (resolve_fold _ _ _ _ _ _ _ Hres) as (Hsub & Hdeps & Hall & _); [done|].
  destruct (validate_fold defs (mkValidated manager ∅ ∅ ∅)) as (_ & _ & Href). fold v in Href.
  assert (Hreq : forall x, x ∈ map pd_id defs -> x ∉ refused ->
    deps !! x = Some (requires_of (va_manifests v) x)
    /\ forall d, d ∈ requires_of (va_manifests v) x -> d ∈ map pd_id defs).
  { intros x (def & -> & Hin)%list_elem_of_fmap Hnr.
    destruct (Hall def Hin Hnr) as [l Hl]. by destruct (Hdeps _ _ Hl) as [-> ?]. }
  assert (Hact : forall x, x ∈ active_ids defs refused <-> x ∈ map pd_id defs /\ x ∉ refused).
  { intros x. unfold active_ids. rewrite list_elem_of_filter. naive_solver. }
  assert (Hneeds : forall x d, x ∈ map pd_id defs -> x ∉ refused ->
    needs deps refused x d <-> d ∈ requires_of (va_manifests v) x /\ d ∉ refused).
  { intros x d Hx Hnr. unfold needs. by rewrite (proj1 (Hreq x Hx Hnr)). }
  destruct (topo_sort_outcome deps refused defs Hnd) as [(order & Hs & Hp & Hb)|(cyc & Hs & Hne & Hc)].
  { intros x d [Hx Hnr]%Hact Hd%live_deps_needs. apply Hneeds in Hd as [Hd Hdr]; [|done..].
    apply Hact. split; [|done]. by apply (Hreq x Hx Hnr). }
  - rewrite Hs. simpl. eexists; split; [done|]. simpl.
    assert (Hio : forall x, x ∈ order <-> x ∈ map pd_id defs /\ x ∉ refused)
      by (intros; by rewrite Hp, Hact).
    split_and!; [by rewrite Hp; apply NoDup_filter|done| | |left].
    + intros def e Hin He [_ Hnr]%Hio. apply Hnr, Hsub. by eapply Href.
    + intros x [Hx Hnr]%Hio. by apply Hreq.
    + intros l1 x l2 Heq d Hd Hdr. eapply Hb; [done|]. apply live_deps_needs.
      assert (Hx : x ∈ order) by (rewrite Heq; set_solver). apply Hio in Hx as [? ?].
      by apply Hneeds.
  - rewrite Hs. simpl. eexists; split; [done|]. simpl.
    assert (Hio : forall x, x ∈ base.filter (fun id => id ∉ list_to_set cyc ∪ refused) (map pd_id defs)
      <-> x ∈ map pd_id defs /\ x ∉ list_to_set cyc ∪ refused)
      by (intros; rewrite list_elem_of_filter; naive_solver).
    split_and!; [by apply NoDup_filter|done| | |right].
    + intros def e Hin He [_ Hnr]%Hio. apply Hnr. apply elem_of_union_r, Hsub. by eapply Href.
    + intros x [Hx Hnr]%Hio. apply Hreq; set_solver.
    + exists cyc. split; [done|]. intros x Hx. split; [set_solver|].
      destruct (Hc x Hx) as ([? ?]%Hact & d & Hd & Hdc). exists d. split; [|done].
      apply live_deps_needs, Hneeds in Hd as [? _]; done.
Qed.

(** ** Who is never loaded *)

(** Starting one plugin leaves the entry of every other one alone. *)
Lemma mgr_start_other config forked st m m' r id :
  mgr_start config forked st m = (m', r) -> pc_plugin_id config <> id ->
  sv_entries (pm_supervisor m') !! id = sv_entries (pm_supervisor m) !! id.
Proof.
  unfold mgr_start, spawn_plugin, spawn_begin, spawn_finish. intros Hm Hne.
  destruct (sv_entries (pm_supervisor m) !! pc_plugin_id config); simplify_eq/=; [done|].
  destruct forked; simplify_eq/=; [|done].
  destruct (spawned_pids (pc_sandbox config) st) as [[pid shim]|]; simplify_eq/=; [|done].
  by rewrite lookup_insert_ne.
Qed.

Definition untouched (id : string) (m0 : PluginManager) (l : Loaded) : Prop :=
  id ∉ ld_started l /\ ld_lazy_configs l !! id = None /\
  sv_entries (pm_supervisor (ld_manager l)) !! id = sv_entries (pm_supervisor m0) !! id.

Lemma subscribe_declared_sup b id mf m :
  pm_supervisor (subscribe_declared b id mf m) = pm_supervisor m.
Proof. unfold subscribe_declared. by repeat case_match. Qed.

Lemma load_one_untouched defs refused manifests b idle os id m0 l x :
  id ∈ refused -> untouched id m0 l ->
  untouched id m0 (load_one defs refused manifests b idle os l x).
Proof.
  intros Hr (Hs & Hl & He). unfold load_one.
  destruct (List.find _ defs) as [def|] eqn:Hf; [|done].
  apply find_some in Hf as [_ Hx%str_eqb_eq].
  destruct (decide (x ∈ refused)) as [|Hnr]; [done|].
  assert (Hne : pd_id def <> id) by (intros <-; congruence).
  destruct (stays_dormant _ _ _).
  - split_and!; simpl; [done| |done]. by rewrite lookup_insert_ne.
  - destruct (mgr_start _ _ _ _) as [m r] eqn:Hm.
    pose proof (mgr_start_other _ _ _ _ _ _ id Hm Hne) as Hent.
    destruct r; (split_and!; simpl; [set_solver|done|]);
      rewrite ?subscribe_declared_sup; congruence.
Qed.

Lemma plan_refused defs manager p def e :
  load_plan defs manager = Some p -> def ∈ defs -> validate_plugin_def def = Err e ->
  pd_id def ∈ pl_refused p /\
  pm_supervisor (va_manager (pl_validated p)) = pm_supervisor manager.
Proof.
  unfold load_plan. set (v := foldl validate_step _ defs). intros Hp Hin He.
  destruct (validate_fold defs (mkValidated manager ∅ ∅ ∅)) as (_ & Hm & Href). fold v in Hm, Href.
  destruct (foldl (resolve_step _ _) _ defs) as [deps refused] eqn:Hres.
  destruct (resolve_fold _ _ _ _ _ _ _ Hres) as (Hsub & _); [done|].
  apply Href in He; [|done]. destruct (topo_sort defs deps refused) as [[order|cyc]|]; [..|done];
    simpl in Hp; simplify_eq; simpl; set_solver.
Qed.

End plan.

(** ** Concrete configurations *)
#[local] Instance load_wire : Wire := {|
  encode _ := None;
  decode _ := None;
  crc32 _ := 0%Z;
  target_as_str _ := None;
  parse_frag_header _ := None;
  serialize_header _ := [];
  compute_tag _ _ _ := [];
  verify_tag _ _ _ _ := true;
  derive_session_key ikm _ _ := ikm;
  perm_str_name _ := "";
  perm_from_str_name _ := None;
  action_status_i32 _ := 0%Z;
  device_os_try_from _ := None;
  PROTOCOL_VERSION := "1.7"
|}.

#[local] Instance load_serde : Serde := {| json_to_string _ := ""; json_from_slice _ := None |}.

Definition load_def (id : string) (perms : list string) : PluginDef :=
  mkPluginDef id ("/opt/" +:+ id +:+ "/bin") "always" 3 [] [] false 0 None None false None perms
    None [] [].

(** [a] requires [b]; [x] and [y] require each other. *)
#[local] Instance load_manifests : Manifests := {|
  mf_exists _ := true;
  mf_validate p := Ok (mkInstallManifest ["network"]
    (if p =s "/opt/a/plugin.json" then ["b"]
     else if p =s "/opt/x/plugin.json" then ["y"]
     else if p =s "/opt/y/plugin.json" then ["x"] else []) None None);
  mf_raw _ := None
|}.

Definition load_world : World :=
  mkWorld registry_new ∅ bus_new None 0 0 0 None None (mkClock 0 0) true.
Definition load_manager : PluginManager := mkManager sup_new load_world.
Definition all_up : SpawnOracle := fun _ => (Ok tt, mkStarted (Some 7%Z) (ShimSaid None)).

Definition started_of (defs : list PluginDef) : option (list string) :=
  ld_started <$> load_all defs load_manager false 600 all_up.

(** A cycle anywhere gives up the order everywhere: with [a] requiring [b],
    the two are started in dependency order, but when two unrelated plugins
    require each other the rest is started in the order of the configuration,
    [a] before the [b] it requires. *)
Theorem cycle_drops_order :
  started_of [load_def "a" []; load_def "b" []] = Some ["b"; "a"] /\
  started_of [load_def "a" []; load_def "b" []; load_def "x" []; load_def "y" []]
  = Some ["a"; "b"].
Proof. split; vm_compute; reflexivity. Qed.

Lemma topo_sort_correct_witness :
  exists order, topo_sort [load_def "a" []; load_def "b" []] {[ "a" := ["b"] ]} ∅ = Some (Ok order)
    /\ order ≡ₚ ["a"; "b"].
Proof.
  destruct (topo_sort_correct [load_def "a" []; load_def "b" []] {[ "a" := ["b"] ]} ∅)
    as [(order & Hs & Hp & _)|(c & Hs & _)].
  - apply (bool_decide_unpack _). reflexivity.
  - intros x d Hx [Hd _]. destruct (decide (x = "a")) as [->|Hne].
    + vm_compute in Hd. vm_compute. set_solver.
    + rewrite lookup_singleton_ne in Hd by done. by apply elem_of_nil in Hd.
  - exists order. split; [exact Hs|exact Hp].
  - vm_compute in Hs. discriminate Hs.
Defined.

Lemma topo_sort_decides_witness :
  exists r, topo_sort [load_def "b" []] ∅ ∅ = Some r /\ is_ok r = true.
Proof.
  destruct (topo_sort_decides [load_def "b" []] ∅ ∅) as (r & Hr & _).
  - apply (bool_decide_unpack _). reflexivity.
  - intros x d _ [Hd _]. rewrite lookup_empty in Hd. by apply elem_of_nil in Hd.
  - exists r. split; [exact Hr|]. vm_compute in Hr. injection Hr as <-. reflexivity.
Defined.

Lemma load_order_correct_witness :
  exists p, load_plan [load_def "a" []; load_def "b" []] load_manager = Some p
    /\ NoDup (pl_order p).
Proof.
  destruct (load_order_correct [load_def "a" []; load_def "b" []] load_manager)
    as (p & Hp & Hnd & _).
  - apply (bool_decide_unpack _). reflexivity.
  - exists p. split; assumption.
Defined.

