(* ===== verification/Websocket.v ===== *)
(** * The WebSocket gateway (src/api/websocket.rs)

    Admission of an upgrade request ([ws_handler]), the select loop of one
    socket ([handle_socket]) as a step per ready branch, and the gateway as the
    interleaving of requests, upgrade tasks and socket loops. The upgrade itself
    runs in a background task of axum, which calls back only when it succeeds. *)

From S2P Require Import Prelude Errors Wire Validate Auth Connection.

(** ** Frames on the socket *)
Definition FRAME_HEADER_SIZE : nat := 44.
Definition MAX_WS_PARSE_ERRORS : Z := 16.
Definition WS_CONN_ID_BASE : N := 1000000000.
Definition CLOSE_MAC_INVALID : Z := 4401.

(** [z as u8] *)
Definition byte_of_Z (z : Z) : Byte.byte :=
  default Byte.x00 (Byte.of_N (Z.to_N (z mod 256))).

(** [to_be_bytes] of an [n]-byte unsigned integer *)
Fixpoint to_be_bytes (n : nat) (z : Z) : bytes :=
  match n with
  | O => []
  | S n' => byte_of_Z (z / 256 ^ Z.of_nat n') :: to_be_bytes n' z
  end.

Definition frame_to_bytes (frame : Frame) : bytes :=
  to_be_bytes 2 (f_magic frame) ++ to_be_bytes 2 (f_flags frame)
  ++ to_be_bytes 4 (f_length frame) ++ f_target frame ++ to_be_bytes 4 (f_crc32 frame)
  ++ f_payload frame ++ match f_mac frame with Some tag => tag | None => [] end.

(** ** Admission *)

(** [extract_ws_token]; the header is its value where it is visible ASCII. *)
Definition extract_ws_token (header : option string) : string :=
  match header with
  | None => EmptyString
  | Some s => default EmptyString
                (List.find (fun p => negb (p =s "vynkor")) (str_trim <$> split "," s))
  end.

Record DeviceWatch := mkWatch { dw_device_id : string; dw_every : Z }.

Record GwCfg := mkGwCfg {
  gc_jwt_validator : option JwtValidator;
  gc_has_store : bool;
  gc_max_connections : N;
  gc_register_timeout_secs : Z;
  gc_device_recheck_secs : Z
}.

(** What [ws_handler] hands to the upgrade callback. *)
Record Upgrade := mkUpgrade {
  up_register_timeout : Z;
  up_watch : option DeviceWatch
}.

Section websocket.
Context `{Wire, Jwt, Crypto, RowCodec DeviceRecord}.
Context (read_frame : bytes -> Result Frame WireError).

Definition still_active (now_secs : Z) (store : DeviceStore) (w : DeviceWatch) : bool :=
  match active_secret now_secs (dw_device_id w) store with
  | Ok (Some _) => true
  | _ => false
  end.

(** The credential gate of [ws_handler]: [None] is the 401 response. *)
Definition ws_authorize (cfg : GwCfg) (now_secs : Z) (store : DeviceStore)
    (header : option string) : option (option DeviceWatch) :=
  match gc_jwt_validator cfg with
  | None => Some None
  | Some validator =>
      match jwt_validate validator now_secs (extract_ws_token header) with
      | Err _ => None
      | Ok claims =>
          if gc_has_store cfg then
            match active_secret now_secs (cl_sub claims) store with
            | Ok (Some _) =>
                Some (if (0 <? gc_device_recheck_secs cfg)%Z
                      then Some (mkWatch (cl_sub claims) (gc_device_recheck_secs cfg))
                      else None)
            | Ok None => Some None
            | Err _ => None
            end
          else Some None
      end
  end.

Definition register_timeout (cfg : GwCfg) : Z :=
  match gc_jwt_validator cfg with
  | Some _ => gc_register_timeout_secs cfg
  | None => 0
  end.

(** ** One socket *)

(** The locals of [handle_socket]; the deadline is a clock reading. *)
Record WsConn := mkWsConn {
  wk_conn_id : N;
  wk_write_tx : N;
  wk_cell : N;
  wk_parse_errors : Z;
  wk_outbound_key : option bytes;
  wk_registered : bool;
  wk_deadline : option Z;
  wk_watch : option DeviceWatch
}.

(** The state at the top of the loop, the socket just upgraded. *)
Definition ws_open (now : Z) (conn_id write_tx cell : N) (u : Upgrade) : WsConn :=
  mkWsConn conn_id write_tx cell 0 None false
    (if (0 <? up_register_timeout u)%Z
     then Some (now + up_register_timeout u * 1000000000)%Z else None)
    (up_watch u).

Inductive WsMessage :=
| MBinary (data : bytes)
| MClose (frame : option (Z * string))
| MPing
| MOther.

(** A ready branch of the select loop. *)
Inductive WsEvent :=
| EvRecv (msg : option (Result WsMessage string)) (addr : N) (router_up : bool)
| EvWrite (item : option Outbound) (sent : bool)
| EvDeadline
| EvRecheck (now_secs : Z) (store : DeviceStore).

(** Session key cells, shared with the router's clones of them. *)
Abbreviation Cells := (gmap N bytes).

(** What a branch did: the connection that goes on, or [None] for [break]. *)
Record WsStep := mkWsStep {
  wt_conn : option WsConn;
  wt_cells : Cells;
  wt_msg : option IncomingMessage;
  wt_out : list WsMessage
}.

Definition set_parse_errors (n : Z) (c : WsConn) : WsConn :=
  mkWsConn (wk_conn_id c) (wk_write_tx c) (wk_cell c) n (wk_outbound_key c)
    (wk_registered c) (wk_deadline c) (wk_watch c).
Definition set_armed (k : bytes) (c : WsConn) : WsConn :=
  mkWsConn (wk_conn_id c) (wk_write_tx c) (wk_cell c) (wk_parse_errors c) (Some k) true
    (wk_deadline c) (wk_watch c).

(** The inbound MAC check of the [Binary] arm *)
Definition ws_mac_valid (key : option bytes) (frame : Frame) : bool :=
  match key with
  | None => true
  | Some k =>
      flag_set (f_flags frame) FLAG_MAC_PRESENT
      && match f_mac frame with
         | Some tag => verify_tag k (serialize_header frame) (f_payload frame) tag
         | None => false
         end
  end.

(** Tagging of an outbound frame once the key is armed *)
Definition tag_frame (key : option bytes) (frame : Frame) : Frame :=
  match key with
  | None => frame
  | Some k =>
      let flagged := mkFrame (f_magic frame) (Z.lor (f_flags frame) FLAG_MAC_PRESENT)
                       (f_length frame) (f_target frame) (f_crc32 frame) (f_payload frame)
                       (f_mac frame) in
      mkFrame (f_magic flagged) (f_flags flagged) (f_length flagged) (f_target flagged)
        (f_crc32 flagged) (f_payload flagged)
        (Some (compute_tag k (serialize_header flagged) (f_payload flagged)))
  end.

(** The [Message::Binary] arm *)
Definition ws_recv_binary (data : bytes) (addr : N) (router_up : bool) (cells : Cells)
    (c : WsConn) : WsStep :=
  match parse_frame read_frame data with
  | Ok frame =>
      if ws_mac_valid (cells !! wk_cell c) frame then
        if router_up
        then mkWsStep (Some c) cells
               (Some (mkMsg (wk_conn_id c) frame (wk_write_tx c) (wk_cell c) addr)) []
        else mkWsStep None cells None []
      else mkWsStep None cells None
             [MClose (Some (CLOSE_MAC_INVALID, "frame MAC invalid"))]
  | Err _ =>
      let errors := (wk_parse_errors c + 1)%Z in
      if (MAX_WS_PARSE_ERRORS <=? errors)%Z then mkWsStep None cells None []
      else mkWsStep (Some (set_parse_errors errors c)) cells None []
  end.

(** One turn of the select loop *)
Definition ws_step (now : Z) (cells : Cells) (e : WsEvent) (c : WsConn) : WsStep :=
  match e with
  | EvRecv (Some (Ok (MBinary data))) addr router_up =>
      ws_recv_binary data addr router_up cells c
  | EvRecv (Some (Ok (MClose _))) _ _ | EvRecv None _ _ | EvRecv (Some (Err _)) _ _ =>
      mkWsStep None cells None []
  | EvRecv (Some (Ok _)) _ _ => mkWsStep (Some c) cells None []
  | EvWrite (Some (OFrame f)) sent =>
      let frame := tag_frame (wk_outbound_key c) f in
      if sent then mkWsStep (Some c) cells None [MBinary (frame_to_bytes frame)]
      else mkWsStep None cells None []
  | EvWrite (Some (OEnableMac k cell)) _ =>
      mkWsStep (Some (set_armed k c)) (<[cell := k]> cells) None []
  | EvWrite None _ => mkWsStep None cells None []
  | EvDeadline =>
      match wk_deadline c with
      | Some d => if negb (wk_registered c) && (d <=? now)%Z
                  then mkWsStep None cells None [] else mkWsStep (Some c) cells None []
      | None => mkWsStep (Some c) cells None []
      end
  | EvRecheck now_secs store =>
      match wk_watch c with
      | Some w => if still_active now_secs store w then mkWsStep (Some c) cells None []
                  else mkWsStep None cells None [MClose None]
      | None => mkWsStep (Some c) cells None []
      end
  end.

(** A socket over a sequence of clock readings and ready branches: what is left
    of it, and every message it handed to the router. *)
Fixpoint ws_run (es : list (Z * WsEvent)) (cells : Cells) (c : WsConn)
    : option WsConn * Cells * list IncomingMessage :=
  match es with
  | [] => (Some c, cells, [])
  | (now, e) :: es' =>
      let s := ws_step now cells e c in
      let out := match wt_msg s with Some m => [m] | None => [] end in
      match wt_conn s with
      | None => (None, wt_cells s, out)
      | Some c' =>
          let '(c'', cells', out') := ws_run es' (wt_cells s) c' in
          (c'', cells', out ++ out')
      end
  end.

(** ** The gateway *)
Inductive Response := Unauthorized | TooMany | Switching (conn_id : N).

(** [gw_open] is [open_conns]; [gw_backing] counts requests that have added to
    it and not yet backed out; [gw_upgrading] are the upgrade tasks that have
    not finished. *)
Record Gateway := mkGateway {
  gw_open : N;
  gw_counter : N;
  gw_backing : nat;
  gw_upgrading : gmap N Upgrade;
  gw_live : gmap N WsConn;
  gw_cells : Cells;
  gw_disconnects : list N
}.

Definition gateway_new : Gateway := mkGateway 0 0 0 ∅ ∅ ∅ [].

(** [fetch_sub(1)] on [AtomicU64] *)
Definition u64_pred (n : N) : N := ((n + 18446744073709551615) mod 18446744073709551616)%N.

(** [ws_handler] up to the slot reservation, and past it when a slot was free *)
Definition ws_handler (cfg : GwCfg) (now_secs : Z) (store : DeviceStore)
    (header : option string) (g : Gateway) : Gateway * option Response :=
  match ws_authorize cfg now_secs store header with
  | None => (g, Some Unauthorized)
  | Some watch =>
      let opened := u64_succ (gw_open g) in
      if (gc_max_connections cfg <=? gw_open g)%N then
        (mkGateway opened (gw_counter g) (S (gw_backing g)) (gw_upgrading g) (gw_live g)
           (gw_cells g) (gw_disconnects g), None)
      else
        let conn_id := ((gw_counter g + WS_CONN_ID_BASE) mod 18446744073709551616)%N in
        (mkGateway opened (u64_succ (gw_counter g)) (gw_backing g)
           (<[conn_id := mkUpgrade (register_timeout cfg) watch]> (gw_upgrading g))
           (gw_live g) (gw_cells g) (gw_disconnects g), Some (Switching conn_id))
  end.

Inductive GwEvent :=
| GwRequest (now_secs : Z) (store : DeviceStore) (header : option string)
| GwBackOut
| GwUpgraded (now : Z) (conn_id write_tx cell : N)
| GwUpgradeFailed (conn_id : N)
| GwSocket (now : Z) (conn_id : N) (e : WsEvent).

(** The end of [handle_socket] and of the upgrade callback *)
Definition gw_close (conn_id : N) (cells : Cells) (g : Gateway) : Gateway :=
  mkGateway (u64_pred (gw_open g)) (gw_counter g) (gw_backing g) (gw_upgrading g)
    (delete conn_id (gw_live g)) cells (gw_disconnects g ++ [conn_id]).

Definition gw_step (cfg : GwCfg) (e : GwEvent) (g : Gateway) : Gateway :=
  match e with
  | GwRequest now_secs store header => (ws_handler cfg now_secs store header g).1
  | GwBackOut =>
      match gw_backing g with
      | O => g
      | S n => mkGateway (u64_pred (gw_open g)) (gw_counter g) n (gw_upgrading g) (gw_live g)
                 (gw_cells g) (gw_disconnects g)
      end
  | GwUpgraded now conn_id write_tx cell =>
      match gw_upgrading g !! conn_id with
      | None => g
      | Some u =>
          mkGateway (gw_open g) (gw_counter g) (gw_backing g) (delete conn_id (gw_upgrading g))
            (<[conn_id := ws_open now conn_id write_tx cell u]> (gw_live g))
            (delete cell (gw_cells g)) (gw_disconnects g)
      end
  | GwUpgradeFailed conn_id =>
      mkGateway (gw_open g) (gw_counter g) (gw_backing g) (delete conn_id (gw_upgrading g))
        (gw_live g) (gw_cells g) (gw_disconnects g)
  | GwSocket now conn_id e =>
      match gw_live g !! conn_id with
      | None => g
      | Some c =>
          let s := ws_step now (gw_cells g) e c in
          match wt_conn s with
          | None => gw_close conn_id (wt_cells s) g
          | Some c' => mkGateway (gw_open g) (gw_counter g) (gw_backing g) (gw_upgrading g)
                         (<[conn_id := c']> (gw_live g)) (wt_cells s) (gw_disconnects g)
          end
      end
  end.

Definition gw_run (cfg : GwCfg) (es : list GwEvent) (g : Gateway) : Gateway :=
  foldl (fun g e => gw_step cfg e g) g es.
End websocket.
