(* ===== verification/WebsocketProps.v ===== *)
(** * Theorems about the WebSocket gateway

    The byte encoding of frames, the two deadlines and the authentication of a
    socket, and the accounting of connection slots. *)

From S2P Require Import Prelude Errors Wire Validate Auth Connection ConnectionProps Websocket.

(** ** Frames as bytes *)
Definition byte_Z (b : Byte.byte) : Z := Z.of_N (Byte.to_N b).

Fixpoint from_be_bytes (acc : Z) (l : bytes) : Z :=
  match l with
  | [] => acc
  | b :: l' => from_be_bytes (acc * 256 + byte_Z b) l'
  end.

Lemma byte_of_Z_spec z : byte_Z (byte_of_Z z) = (z mod 256)%Z.
Proof.
  unfold byte_of_Z, byte_Z. pose proof (Z.mod_pos_bound z 256 eq_refl) as Hb.
  destruct (Byte.of_N (Z.to_N (z mod 256))) as [b|] eqn:Hz; simpl.
  - apply Byte.to_of_N in Hz. rewrite Hz. lia.
  - apply Byte.of_N_None_iff in Hz. lia.
Qed.

Lemma to_be_bytes_length n z : length (to_be_bytes n z) = n.
Proof. induction n; simpl; congruence. Qed.

Lemma from_to_be_bytes n z acc :
  (0 <= z)%Z ->
  from_be_bytes acc (to_be_bytes n z) = (acc * 256 ^ Z.of_nat n + z mod 256 ^ Z.of_nat n)%Z.
Proof.
  intros Hz. revert acc. induction n as [|n IH]; intros acc.
  { simpl. rewrite Z.mod_1_r. lia. }
  cbn [to_be_bytes from_be_bytes]. rewrite IH, byte_of_Z_spec, Nat2Z.inj_succ, Z.pow_succ_r by lia.
  rewrite (Z.mul_comm 256), Z.rem_mul_r by lia. lia.
Qed.

Lemma to_be_bytes_inj n a b :
  (0 <= a < 256 ^ Z.of_nat n)%Z -> (0 <= b < 256 ^ Z.of_nat n)%Z ->
  to_be_bytes n a = to_be_bytes n b -> a = b.
Proof.
  intros Ha Hb Heq. pose proof (from_to_be_bytes n a 0 (proj1 Ha)) as H1.
  rewrite Heq, from_to_be_bytes, !Z.mod_small in H1 by lia. lia.
Qed.

(** A frame as the wire reader and [build_frame] produce it: fields within
    their widths, a 32-byte target and tag, a tag exactly when the flag says so. *)
Record frame_wf (f : Frame) : Prop := {
  fw_magic : (0 <= f_magic f < 65536)%Z;
  fw_flags : (0 <= f_flags f < 65536)%Z;
  fw_length : f_length f = Z.of_nat (length (f_payload f));
  fw_length_u32 : (f_length f <= u32_max)%Z;
  fw_target : length (f_target f) = 32%nat;
  fw_crc : (0 <= f_crc32 f <= u32_max)%Z;
  fw_mac : match f_mac f with
           | Some tag => length tag = 32%nat /\ flag_set (f_flags f) FLAG_MAC_PRESENT = true
           | None => flag_set (f_flags f) FLAG_MAC_PRESENT = false
           end
}.

(** The encoding of a frame on the socket loses nothing: two well-formed
    frames with the same bytes are the same frame, so the bytes determine the
    header, where the payload ends and whether a tag follows it. *)
Theorem frame_to_bytes_inj f g :
  frame_wf f -> frame_wf g -> frame_to_bytes f = frame_to_bytes g -> f = g.
Proof.
  intros [Fm Ff Fl Flu Ft Fc Fmac] [Gm Gf Gl Glu Gt Gc Gmac]. unfold frame_to_bytes, u32_max in *.
  intros [Hm Heq]%app_inj_1; [|by rewrite !to_be_bytes_length].
  apply app_inj_1 in Heq as [Hf Heq]; [|by rewrite !to_be_bytes_length].
  apply app_inj_1 in Heq as [Hl Heq]; [|by rewrite !to_be_bytes_length].
  apply app_inj_1 in Heq as [Ht Heq]; [|congruence].
  apply app_inj_1 in Heq as [Hc Heq]; [|by rewrite !to_be_bytes_length].
  apply to_be_bytes_inj in Hm; [|simpl; lia..]. apply to_be_bytes_inj in Hf; [|simpl; lia..].
  apply to_be_bytes_inj in Hl; [|simpl; lia..]. apply to_be_bytes_inj in Hc; [|simpl; lia..].
  apply app_inj_1 in Heq as [Hp Hmac]; [|lia].
  destruct f as [fm ff fl ft fc fp fmac], g as [gm gf gl gt gc gp gmac]; simpl in *; subst.
  destruct fmac, gmac; destruct_and?; try congruence.
Qed.

Section socket.
Context `{Wire, Jwt, Crypto, RowCodec DeviceRecord}.
Context (read_frame : bytes -> Result Frame WireError).

#[local] Notation step := (ws_step read_frame).
#[local] Notation run := (ws_run read_frame).

(** ** One socket *)

(** The key in force after some events: the last one the socket was armed with. *)
Definition arm_key (cell : N) (k : bytes) (te : Z * WsEvent) : bytes :=
  match te.2 with
  | EvWrite (Some (OEnableMac k' c)) _ => if decide (c = cell) then k' else k
  | _ => k
  end.
Definition key_after (cell : N) (k : bytes) (es : list (Z * WsEvent)) : bytes :=
  foldl (arm_key cell) k es.

(** The frame says that it is tagged, and its tag verifies under [k]. *)
Definition tag_verifies (k : bytes) (f : Frame) : Prop :=
  flag_set (f_flags f) FLAG_MAC_PRESENT = true
  /\ exists tag, f_mac f = Some tag
     /\ verify_tag k (serialize_header f) (f_payload f) tag = true.

Lemma ws_mac_valid_verifies k f : ws_mac_valid (Some k) f = true -> tag_verifies k f.
Proof.
  simpl. intros [Hf Ht]%andb_prop. split; [done|]. destruct (f_mac f) as [tag|]; [|done]. eauto.
Qed.

(** Binary messages of a run that do not parse *)
Definition is_bad (te : Z * WsEvent) : bool :=
  match te.2 with
  | EvRecv (Some (Ok (MBinary data))) _ _ => is_err (parse_frame read_frame data)
  | _ => false
  end.
Definition bad_frames (es : list (Z * WsEvent)) : Z := Z.of_nat (length (List.filter is_bad es)).

Lemma ws_step_cell now cells e c c' :
  wt_conn (step now cells e c) = Some c' ->
  wk_cell c' = wk_cell c /\ wk_conn_id c' = wk_conn_id c.
Proof.
  unfold ws_step, ws_recv_binary. intros Hs. by repeat (case_match; simplify_eq/=).
Qed.

(** What a step hands to the router was just read and passed the gate. *)
Lemma ws_step_msg now cells e c m :
  wt_msg (step now cells e c) = Some m ->
  m_conn_id m = wk_conn_id c /\ ws_mac_valid (cells !! wk_cell c) (m_frame m) = true
  /\ exists data addr up, e = EvRecv (Some (Ok (MBinary data))) addr up
     /\ parse_frame read_frame data = Ok (m_frame m).
Proof.
  unfold ws_step, ws_recv_binary. intros Hs. repeat (case_match; simplify_eq/=). eauto 10.
Qed.

(** A step keeps the key of a cell, or arms the one it was told. *)
Lemma ws_step_key now cells e c k :
  cells !! wk_cell c = Some k ->
  wt_cells (step now cells e c) !! wk_cell c = Some (arm_key (wk_cell c) k (now, e)).
Proof.
  intros Hk. unfold ws_step, ws_recv_binary, arm_key.
  repeat (case_match; simplify_eq/=); rewrite ?lookup_insert_eq, ?lookup_insert_ne by done; done.
Qed.

Lemma ws_step_bad now cells e c c' :
  wt_conn (step now cells e c) = Some c' ->
  wk_parse_errors c' = (wk_parse_errors c + if is_bad (now, e) then 1 else 0)%Z
  /\ (is_bad (now, e) = true -> wk_parse_errors c' < MAX_WS_PARSE_ERRORS)%Z.
Proof.
  unfold ws_step, ws_recv_binary, is_bad. intros Hs.
  repeat (case_match; simplify_eq/=); (split; [lia|]); try done. intros _. lia.
Qed.

Lemma bad_frames_cons te es :
  bad_frames (te :: es) = ((if is_bad te then 1 else 0) + bad_frames es)%Z.
Proof. unfold bad_frames. simpl. destruct (is_bad te); simpl; lia. Qed.

(** The fixed part of a connection, and what registration sets. *)
Lemma ws_step_fixed now cells e c c' :
  wt_conn (step now cells e c) = Some c' ->
  wk_deadline c' = wk_deadline c /\ wk_watch c' = wk_watch c
  /\ (wk_registered c = true -> wk_registered c' = true)
  /\ (wk_registered c' = true -> wk_registered c = true \/ wk_outbound_key c' <> None)
  /\ (wk_outbound_key c <> None -> wk_outbound_key c' <> None).
Proof.
  unfold ws_step, ws_recv_binary. intros Hs. repeat (case_match; simplify_eq/=); auto 10.
Qed.

(** A message of the connection [id] out of a run over a socket armed with
    [k]: it is the frame of a binary message received in that run, and it
    verified under the key in force then. *)
Definition authenticated (id cell : N) (k : bytes) (es : list (Z * WsEvent))
    (m : IncomingMessage) : Prop :=
  m_conn_id m = id /\ exists es1 now data addr up es2,
    es = es1 ++ (now, EvRecv (Some (Ok (MBinary data))) addr up) :: es2
    /\ parse_frame read_frame data = Ok (m_frame m)
    /\ tag_verifies (key_after cell k es1) (m_frame m).

Lemma authenticated_cons id cell k te es m :
  authenticated id cell (arm_key cell k te) es m -> authenticated id cell k (te :: es) m.
Proof.
  intros (Hid & es1 & now & data & addr & up & es2 & -> & Hp & Hv). split; [done|].
  by exists (te :: es1), now, data, addr, up, es2.
Qed.

Lemma run_authenticated es cells c k o cells' ms :
  cells !! wk_cell c = Some k -> run es cells c = (o, cells', ms) ->
  forall m, m ∈ ms -> authenticated (wk_conn_id c) (wk_cell c) k es m.
Proof.
  revert cells c k o cells' ms.
  induction es as [|[now e] es IH]; intros cells c k o cells' ms Hk; cbn [ws_run].
  { intros [= _ _ <-]. set_solver. }
  pose proof (ws_step_msg now cells e c) as Hm. rewrite Hk in Hm.
  pose proof (ws_step_key now cells e c k Hk) as Hk'.
  set (s := step now cells e c) in *.
  assert (forall m, m ∈ match wt_msg s with Some m => [m] | None => [] end ->
    authenticated (wk_conn_id c) (wk_cell c) k ((now, e) :: es) m) as Hhead.
  { intros m. destruct (wt_msg s) as [m0|]; [|set_solver]. intros ->%list_elem_of_singleton.
    destruct (Hm m0 eq_refl) as (Hid & Hv & data & addr & up & -> & Hp). split; [done|].
    exists [], now, data, addr, up, es. auto using ws_mac_valid_verifies. }
  destruct (wt_conn s) as [c1|] eqn:Hc; [|intros [= _ _ <-]; exact Hhead].
  destruct (run es (wt_cells s) c1) as [[o1 cells1] ms1] eqn:Hr. intros [= _ _ <-] m.
  rewrite elem_of_app. intros [Hin|Hin]; [by apply Hhead|].
  pose proof (ws_step_cell _ _ _ _ _ Hc) as [Hcell Hid].
  rewrite <- Hcell in Hk'. pose proof (IH _ _ _ _ _ _ Hk' Hr m Hin) as Hm1.
  rewrite Hcell, Hid in Hm1. by apply authenticated_cons.
Qed.

Lemma run_bad es cells c c' cells' ms :
  run es cells c = (Some c', cells', ms) ->
  wk_parse_errors c' = (wk_parse_errors c + bad_frames es)%Z
  /\ (wk_parse_errors c < MAX_WS_PARSE_ERRORS -> wk_parse_errors c' < MAX_WS_PARSE_ERRORS)%Z.
Proof.
  revert cells c ms. induction es as [|[now e] es IH]; intros cells c ms; cbn [ws_run].
  { intros [= <- _ _]. unfold bad_frames. simpl. lia. }
  destruct (wt_conn (step now cells e c)) as [c1|] eqn:Hc; [|done].
  destruct (run es _ c1) as [[o1 cells1] ms1] eqn:Hr. intros [= -> -> <-].
  apply IH in Hr as [H3 H4]. apply ws_step_bad in Hc as [H5 H6]. rewrite bad_frames_cons.
  split; [lia|]. intros Hlt. apply H4. destruct (is_bad (now, e)); [by apply H6|lia].
Qed.

(** C15 A socket whose session key is armed passes on authenticated frames only:
    over any sequence of events, every message it hands to the router carries
    its connection id and is the frame of a binary message it received, with a
    tag that verifies under the key in force when it arrived (the last key the
    socket was armed with). A socket that is still open has let at most 15
    unreadable frames through its budget; the 16th closes it. *)
Theorem armed_socket_authenticated es cells c k o cells' ms :
  cells !! wk_cell c = Some k -> wk_parse_errors c = 0%Z -> run es cells c = (o, cells', ms) ->
  (forall m, m ∈ ms -> authenticated (wk_conn_id c) (wk_cell c) k es m)
  /\ (is_Some o -> (bad_frames es < MAX_WS_PARSE_ERRORS)%Z).
Proof.
  intros Hk H0' Hr. split; [by eapply run_authenticated|].
  intros [c' ->]. apply run_bad in Hr as [H3 H4]. unfold MAX_WS_PARSE_ERRORS in *. lia.
Qed.

(** The state a deadline event finds, and what an open socket went through. *)
Lemma run_fixed es cells c c' cells' ms :
  run es cells c = (Some c', cells', ms) ->
  wk_deadline c' = wk_deadline c /\ wk_watch c' = wk_watch c
  /\ (wk_registered c = true -> wk_registered c' = true)
  /\ (wk_registered c' = true -> wk_registered c = true \/ wk_outbound_key c' <> None)
  /\ (wk_outbound_key c <> None -> wk_outbound_key c' <> None).
Proof.
  revert cells c ms. induction es as [|[now e] es IH]; intros cells c ms; cbn [ws_run].
  { intros [= <- _ _]. auto 10. }
  destruct (wt_conn (step now cells e c)) as [c1|] eqn:Hc; [|done].
  destruct (run es _ c1) as [[o1 cells1] ms1] eqn:Hr. intros [= -> -> <-].
  apply IH in Hr as (H3 & H4 & H5 & H6 & H7). apply ws_step_fixed in Hc as (G3 & G4 & G5 & G6 & G7).
  split; [congruence|]. split; [congruence|]. split; [auto|]. split; [|auto].
  intros Hreg. destruct (H6 Hreg) as [Hc1|]; [|auto]. destruct (G6 Hc1); auto.
Qed.

Lemma run_split es1 es2 cells c c' cells' ms :
  run (es1 ++ es2) cells c = (Some c', cells', ms) ->
  exists c1 cells1 ms1 ms2, run es1 cells c = (Some c1, cells1, ms1)
    /\ run es2 cells1 c1 = (Some c', cells', ms2) /\ ms = ms1 ++ ms2.
Proof.
  revert cells c ms. induction es1 as [|[now e] es1 IH]; intros cells c ms; cbn [app ws_run].
  { intros Hr. eauto 10. }
  destruct (wt_conn (step now cells e c)) as [c1|]; [|done].
  destruct (run (es1 ++ es2) _ c1) as [[o1 cells1] ms1] eqn:Hr. intros [= -> -> <-].
  apply IH in Hr as (c2 & cells2 & m1 & m2 & -> & Hr & ->).
  eexists c2, cells2, _, m2. split; [done|]. by rewrite app_assoc.
Qed.

(** The two deadlines of a socket hold over any sequence of events. A socket
    with a registration deadline that is still open after its timer fired has
    completed registration and tags its frames; a socket of a paired device
    does not survive a re-check that finds the device's row revoked, expired or
    gone. *)
Theorem socket_deadlines_hold now0 id tx cell u es1 es2 t e cells c' cells' ms :
  run (es1 ++ (t, e) :: es2) cells (ws_open now0 id tx cell u) = (Some c', cells', ms) ->
  (e = EvDeadline -> (0 < up_register_timeout u)%Z ->
     (now0 + up_register_timeout u * 1000000000 <= t)%Z ->
     wk_registered c' = true /\ wk_outbound_key c' <> None)
  /\ (forall secs store w, e = EvRecheck secs store -> up_watch u = Some w ->
        exists secret, active_secret secs (dw_device_id w) store = Ok (Some secret)).
Proof.
  intros (c1 & cells1 & m1 & m2 & Hr1 & Hr2 & ->)%run_split. cbn [ws_run] in Hr2.
  apply run_fixed in Hr1 as (Hd & Hw & _ & Hreg & _).
  destruct (wt_conn (step t cells1 e c1)) as [c2|] eqn:Hc; [|done].
  destruct (run es2 _ c2) as [[o cells2] ms2] eqn:Hr. injection Hr2 as -> -> _.
  apply run_fixed in Hr as (_ & _ & Hk1 & _ & Hk2). split.
  - intros -> Hpos Ht. unfold ws_step in Hc. rewrite Hd in Hc. unfold ws_open in Hc. simpl in Hc.
    rewrite (proj2 (Z.ltb_lt _ _) Hpos), (proj2 (Z.leb_le _ _) Ht), andb_true_r in Hc.
    destruct (wk_registered c1) eqn:Hr1; [|done]. simpl in Hc. injection Hc as <-.
    split; [by apply Hk1|]. destruct (Hreg eq_refl) as [|Hk]; [done|by apply Hk2].
  - intros secs store w -> Hu. unfold ws_step in Hc. rewrite Hw in Hc. simpl in Hc.
    rewrite Hu in Hc. unfold still_active in Hc.
    destruct (active_secret _ _ _) as [[sec|]|]; [by exists sec|done..].
Qed.
End socket.

(** ** Connection slots *)
Section slots.
Context `{Wire, Jwt, Crypto, RowCodec DeviceRecord}.
Context (read_frame : bytes -> Result Frame WireError) (cfg : GwCfg).

#[local] Notation gstep := (gw_step read_frame cfg).
#[local] Notation grun := (gw_run read_frame cfg).

(** Upgrades that failed after their slot was reserved. *)
Definition leak_step (e : GwEvent) (g : Gateway) : N :=
  match e with
  | GwUpgradeFailed id => if gw_upgrading g !! id then 1 else 0
  | _ => 0
  end.

Fixpoint leaked (es : list GwEvent) (g : Gateway) : N :=
  match es with
  | [] => 0
  | e :: es' => leak_step e g + leaked es' (gstep e g)
  end.

Definition occupied (g : Gateway) : N :=
  N.of_nat (size (gw_live g)) + N.of_nat (size (gw_upgrading g)).

(** The accounting after [n] events of which [lost] were failed upgrades. *)
Record gw_ok (n lost : N) (g : Gateway) : Prop := {
  go_counter : (gw_counter g <= n)%N;
  go_backing : (N.of_nat (gw_backing g) <= n)%N;
  go_open : gw_open g = (occupied g + N.of_nat (gw_backing g) + lost)%N;
  go_cap : (occupied g + lost <= gc_max_connections cfg)%N;
  go_fresh id : (gw_counter g + WS_CONN_ID_BASE <= id)%N ->
    gw_live g !! id = None /\ gw_upgrading g !! id = None;
  go_disjoint id : is_Some (gw_upgrading g !! id) -> gw_live g !! id = None
}.

Definition small_run (n : N) : Prop := (gc_max_connections cfg + n < 9223372036854775808)%N.

Lemma u64_pred_small n : (0 < n <= 18446744073709551615)%N -> u64_pred n = (n - 1)%N.
Proof.
  intros. unfold u64_pred. replace (n + 18446744073709551615)%N
    with (n - 1 + 1 * 18446744073709551616)%N by lia.
  rewrite N.Div0.mod_add, N.mod_small; lia.
Qed.

Lemma size_delete_Some {A} (m : gmap N A) i : is_Some (m !! i) -> size m = S (size (delete i m)).
Proof.
  intros [x Hx]. rewrite <- (insert_delete_id m i x Hx) at 1.
  by rewrite map_size_insert_None by apply lookup_delete_eq.
Qed.

Lemma request_ok n lost secs store header g :
  small_run n -> gw_ok n lost g ->
  gw_ok (n + 1) lost (ws_handler cfg secs store header g).1.
Proof.
  intros Hn [Hc Hb Ho Hcap Hf Hd]. unfold ws_handler, small_run in *.
  destruct (ws_authorize _ _ _ _) as [watch|]; [|split; simpl; auto; lia].
  destruct (gc_max_connections cfg <=? gw_open g)%N eqn:Hfull; simpl.
  - split; simpl; auto; try lia. unfold occupied in *. simpl in *. rewrite u64_succ_small; lia.
  - apply N.leb_gt in Hfull. unfold WS_CONN_ID_BASE in *.
    rewrite N.mod_small by lia. destruct (Hf (gw_counter g + 1000000000)%N) as [Hl Hu]; [lia|].
    assert (occupied (mkGateway (u64_succ (gw_open g)) (u64_succ (gw_counter g)) (gw_backing g)
      (<[(gw_counter g + 1000000000)%N := mkUpgrade (register_timeout cfg) watch]> (gw_upgrading g))
      (gw_live g) (gw_cells g) (gw_disconnects g)) = occupied g + 1)%N as Hocc.
    { unfold occupied. simpl. rewrite map_size_insert_None by done. lia. }
    split; rewrite ?Hocc; cbn [gw_counter gw_backing gw_open gw_live gw_upgrading].
    + rewrite u64_succ_small; lia.
    + lia.
    + rewrite u64_succ_small; lia.
    + lia.
    + intros id. unfold WS_CONN_ID_BASE. rewrite u64_succ_small by lia. intros Hid. rewrite lookup_insert_ne by lia.
      apply Hf. lia.
    + intros id. destruct (decide (gw_counter g + 1000000000 = id)%N) as [<-|Hne]; [done|].
      rewrite lookup_insert_ne by done. apply Hd.
Qed.

Lemma upgraded_ok n lost now id tx cell g :
  gw_ok n lost g -> gw_ok (n + 1) lost (gstep (GwUpgraded now id tx cell) g).
Proof.
  intros [Hc Hb Ho Hcap Hf Hd]. simpl.
  destruct (gw_upgrading g !! id) as [u|] eqn:Hu; [|split; auto; lia].
  assert (gw_live g !! id = None) as Hl by (apply Hd; by rewrite Hu).
  assert (size (gw_upgrading g) = S (size (delete id (gw_upgrading g)))) as Hsz
    by (apply size_delete_Some; by rewrite Hu).
  split; unfold occupied in *; simpl; rewrite ?map_size_insert_None by done; try lia.
  - intros id' Hid. destruct (Hf id' Hid) as [Hl' Hu'].
    assert (id <> id') by (intros ->; congruence).
    by rewrite lookup_insert_ne, lookup_delete_ne.
  - intros id' [x Hx]. destruct (decide (id = id')) as [->|Hne].
    { by rewrite lookup_delete_eq in Hx. }
    rewrite lookup_delete_ne in Hx by done. rewrite lookup_insert_ne by done. apply Hd. by rewrite Hx.
Qed.

Lemma upgrade_failed_ok n lost id g :
  gw_ok n lost g ->
  gw_ok (n + 1) (leak_step (GwUpgradeFailed id) g + lost) (gstep (GwUpgradeFailed id) g).
Proof.
  intros [Hc Hb Ho Hcap Hf Hd]. cbn [leak_step gw_step].
  assert (N.of_nat (size (gw_upgrading g)) = N.of_nat (size (delete id (gw_upgrading g)))
    + (if gw_upgrading g !! id then 1 else 0))%N as Hsz.
  { destruct (gw_upgrading g !! id) eqn:Hu.
    - rewrite (size_delete_Some (gw_upgrading g) id) by (by rewrite Hu). lia.
    - rewrite delete_id by done. lia. }
  split; unfold occupied in *; simpl; try lia.
  - intros id' Hid. destruct (Hf id' Hid) as [Hl' Hu']. split; [done|].
    destruct (decide (id = id')) as [->|]; [apply lookup_delete_eq|by rewrite lookup_delete_ne].
  - intros id' [x Hx]. apply lookup_delete_Some in Hx as [_ Hx]. apply Hd. by rewrite Hx.
Qed.

Lemma socket_ok n lost now id e g :
  small_run n -> gw_ok n lost g -> gw_ok (n + 1) lost (gstep (GwSocket now id e) g).
Proof.
  intros Hn [Hc Hb Ho Hcap Hf Hd]. unfold small_run in Hn. simpl.
  destruct (gw_live g !! id) as [c|] eqn:Hl; [|split; auto; lia].
  assert (size (gw_live g) = S (size (delete id (gw_live g)))) as Hsz
    by (apply size_delete_Some; by rewrite Hl).
  assert (gw_upgrading g !! id = None) as Hu.
  { destruct (gw_upgrading g !! id) eqn:Hu; [|done].
    rewrite Hd in Hl by (by rewrite Hu). done. }
  destruct (wt_conn _) as [c'|].
  - assert (size (<[id := c']> (gw_live g)) = size (gw_live g)) as Hsame
      by (by rewrite map_size_insert_Some by (by rewrite Hl)).
    split; unfold occupied in *; simpl; rewrite ?Hsame; try lia.
    + intros id' Hid. destruct (Hf id' Hid). rewrite lookup_insert_ne by congruence. done.
    + intros id' Hid. rewrite lookup_insert_ne; [by apply Hd|]. intros ->. rewrite Hu in Hid.
      by destruct Hid.
  - unfold gw_close. split; unfold occupied in *; simpl; try lia.
    + rewrite u64_pred_small; lia.
    + intros id' Hid. destruct (Hf id' Hid). rewrite lookup_delete_ne by congruence. done.
    + intros id' Hid. rewrite lookup_delete_None. right. by apply Hd.
Qed.

Lemma gw_step_ok n lost e g :
  small_run n -> gw_ok n lost g -> gw_ok (n + 1) (leak_step e g + lost) (gstep e g).
Proof.
  intros Hn Hok. destruct e as [secs store header| |now id tx cell|id|now id e].
  - by apply request_ok.
  - destruct Hok as [Hc Hb Ho Hcap Hf Hd]. unfold small_run in *. simpl.
    destruct (gw_backing g) eqn:Hk; split; simpl; unfold occupied in *; simpl; auto;
      rewrite ?Hk; try lia. rewrite u64_pred_small; lia.
  - by apply upgraded_ok.
  - by apply upgrade_failed_ok.
  - by apply socket_ok.
Qed.

Lemma gw_run_ok n lost es g :
  small_run (n + N.of_nat (length es)) -> gw_ok n lost g ->
  gw_ok (n + N.of_nat (length es)) (leaked es g + lost) (grun es g).
Proof.
  revert n lost g. induction es as [|e es IH]; intros n lost g Hn Hok; simpl in *.
  { by rewrite N.add_0_r. }
  assert (small_run n) as Hn' by (unfold small_run in *; lia).
  pose proof (gw_step_ok n lost e g Hn' Hok) as Hstep.
  replace (n + N.of_nat (S (length es)))%N
    with (n + 1 + N.of_nat (length es))%N in * by lia.
  replace (leak_step e g + leaked es (gstep e g) + lost)%N
    with (leaked es (gstep e g) + (leak_step e g + lost))%N by lia.
  by apply IH.
Qed.

Lemma gateway_new_ok : gw_ok 0 0 gateway_new.
Proof. split; unfold occupied; simpl; rewrite ?map_size_empty; try done; try lia. Qed.

(** C33 Slots are accounted for under any interleaving of requests, upgrade tasks
    and sockets: the open-connection counter is exactly the live sockets, the
    upgrades under way, the refused requests that have not backed out yet and
    the upgrades that failed, and live sockets, upgrades and failures together
    never exceed [max_connections]. (The bound on the run keeps the 64-bit
    counters from wrapping.) *)
Theorem slots_accounted es :
  small_run (N.of_nat (length es)) ->
  let g := grun es gateway_new in
  gw_open g = (occupied g + N.of_nat (gw_backing g) + leaked es gateway_new)%N
  /\ (occupied g + leaked es gateway_new <= gc_max_connections cfg)%N.
Proof.
  intros Hn g. destruct (gw_run_ok 0 0 es gateway_new Hn gateway_new_ok) as [_ _ Ho Hc _ _].
  rewrite !N.add_0_r in *. done.
Qed.

Lemma leaked_app es1 es2 g : leaked (es1 ++ es2) g = (leaked es1 g + leaked es2 (grun es1 g))%N.
Proof.
  revert g. induction es1 as [|e es1 IH]; intros g; [done|]. simpl. rewrite IH. simpl. lia.
Qed.

(** A slot whose upgrade fails never comes back: axum runs the callback that
    gives it back only when the upgrade succeeds. Once as many upgrades have
    failed as there are slots, the gateway admits nobody ever again, whatever
    happens after. *)
Theorem failed_upgrades_exhaust es es' secs store header :
  small_run (N.of_nat (length (es ++ es'))) ->
  (gc_max_connections cfg <= leaked es gateway_new)%N ->
  forall id, (ws_handler cfg secs store header (grun (es ++ es') gateway_new)).2 <> Some (Switching id).
Proof.
  intros Hn Hl id.
  destruct (gw_run_ok 0 0 (es ++ es') gateway_new Hn gateway_new_ok) as [_ _ Ho _ _ _].
  rewrite leaked_app in Ho. unfold ws_handler. destruct (ws_authorize _ _ _ _); [|done].
  replace (gc_max_connections cfg <=? _)%N with true; [done|]. symmetry. apply N.leb_le. lia.
Qed.
End slots.

(** ** Concrete runs *)
#[local] Instance gw_wire : Wire := {|
  encode _ := Some [Byte.x00];
  decode _ := None;
  crc32 _ := 0%Z;
  target_as_str _ := None;
  parse_frag_header _ := None;
  serialize_header _ := [];
  compute_tag k _ _ := k;
  verify_tag k _ _ t := String.eqb (string_of_bytes t) (string_of_bytes k);
  derive_session_key ikm _ _ := ikm;
  perm_str_name _ := "";
  perm_from_str_name _ := None;
  action_status_i32 _ := 0%Z;
  device_os_try_from _ := None;
  PROTOCOL_VERSION := "1.7"
|}.

#[local] Instance gw_crypto : Crypto := {|
  hkdf_sha256 _ ikm info := ikm ++ info;
  sha256 b := b;
  aes_encrypt _ _ _ m := Some m;
  aes_decrypt _ _ _ c := Some c;
  base64url b := string_of_bytes b
|}.

#[local] Instance gw_jwt : Jwt := {|
  jwt_decode _ _ _ _ := Err "no token";
  jwt_encode _ _ := Err "no token"
|}.

#[local] Instance gw_rows : RowCodec DeviceRecord := {|
  rows_print _ := "[]";
  rows_parse _ := Ok []
|}.

(** [07] is a frame tagged with the key [07]; anything else does not parse. *)
Definition gw_read (data : bytes) : Result Frame WireError :=
  match data with
  | [Byte.x07] => Ok (mkFrame FRAME_MAGIC 1 0 (replicate 32 Byte.x00) 0 [] (Some [Byte.x07]))
  | _ => Err WFrameCrcMismatch
  end.

Definition gw_frame : Frame := mkFrame FRAME_MAGIC 0 1 (target_bytes "kernel") 7 [Byte.x01] None.

Lemma gw_frame_wf : frame_wf gw_frame.
Proof. split; simpl; unfold FRAME_MAGIC, u32_max; try lia; reflexivity. Qed.

Lemma frame_to_bytes_inj_witness : gw_frame = gw_frame.
Proof. apply (frame_to_bytes_inj gw_frame gw_frame gw_frame_wf gw_frame_wf). reflexivity. Defined.

Definition gw_upgrade : Upgrade := mkUpgrade 10 None.
Definition gw_conn : WsConn := ws_open 0 1000000000 3 4 gw_upgrade.

(** A bad frame, then a tagged one. *)
Definition gw_traffic : list (Z * WsEvent) :=
  [(1%Z, EvRecv (Some (Ok (MBinary [Byte.x01]))) 0 true);
   (2%Z, EvRecv (Some (Ok (MBinary [Byte.x07]))) 0 true)].

Lemma armed_socket_authenticated_witness :
  (bad_frames gw_read gw_traffic < MAX_WS_PARSE_ERRORS)%Z.
Proof.
  destruct (ws_run gw_read gw_traffic {[4%N := [Byte.x07]]} gw_conn) as [[o cells'] ms] eqn:Hr.
  apply (armed_socket_authenticated gw_read gw_traffic {[4%N := [Byte.x07]]} gw_conn [Byte.x07]
           o cells' ms); [reflexivity|reflexivity|exact Hr|].
  vm_compute in Hr. injection Hr as <- _ _. by eexists.
Defined.

Lemma socket_deadlines_hold_witness :
  exists c' cells' ms,
    ws_run gw_read ([(1%Z, EvWrite (Some (OEnableMac [Byte.x07] 4)) true)]
      ++ [(20000000000%Z, EvDeadline)]) ∅ gw_conn = (Some c', cells', ms)
    /\ wk_registered c' = true /\ wk_outbound_key c' <> None.
Proof.
  do 3 eexists. split; [reflexivity|].
  eapply (socket_deadlines_hold gw_read 0 1000000000 3 4 gw_upgrade
    [(1%Z, EvWrite (Some (OEnableMac [Byte.x07] 4)) true)] [] 20000000000 EvDeadline ∅);
    [reflexivity|reflexivity|reflexivity|vm_compute; discriminate].
Defined.

Definition gw_cfg : GwCfg := mkGwCfg None false 1 10 0.
Definition gw_store : DeviceStore := mkDeviceStore FMissing [].

(** One request whose upgrade fails, with room for one connection. *)
Definition gw_failure : list GwEvent :=
  [GwRequest 0 gw_store None; GwUpgradeFailed 1000000000].

Lemma slots_accounted_witness :
  gw_open (gw_run gw_read gw_cfg gw_failure gateway_new) = 1%N.
Proof.
  destruct (slots_accounted gw_read gw_cfg gw_failure) as [Ho _]; [vm_compute; reflexivity|].
  rewrite Ho. vm_compute. reflexivity.
Defined.

Lemma failed_upgrades_exhaust_witness :
  (ws_handler gw_cfg 0 gw_store None
     (gw_run gw_read gw_cfg (gw_failure ++ []) gateway_new)).2 <> Some (Switching 1000000001).
Proof.
  apply (failed_upgrades_exhaust gw_read gw_cfg gw_failure [] 0 gw_store None);
    vm_compute; [reflexivity|discriminate].
Defined.
