(* ===== verification/Bridge.v ===== *)
(** * The bridge to a host kernel (src/bridge/mod.rs, transport.rs, tls.rs)

    A client kernel dials its host over WebSocket, registers as one device and
    relays frames both ways. [Bridge::run] never ends on its own: the machine
    below is its loop, the transport walk of [one_cycle] and the session of
    [run_conn], suspended at each await; an event is what the await returned.
    The handle's channel list is the [w_bridge] field of the shared kernel
    state, whose other fields the other tasks may change between two events. *)

From S2P Require Import Prelude Errors Wire Validate Registry Events Kernel Websocket.
From S2P Require Import Config.

(** ** Errors and status *)
Inductive TransportKind := Direct | Relay.

Inductive BridgeFailure :=
| Unreachable | NoRoute | FTimeout | FTls | FAuth | FProtocol | FUnsupported.

Inductive BridgeStatus :=
| Disabled
| Connecting (transport : TransportKind)
| Connected (transport : TransportKind)
| Failed (kind : BridgeFailure) (detail : string) (retry_in : Z).

(** The [std::io::ErrorKind]s that [classify] names, and the others. *)
Inductive IoKind := HostUnreachable | NetworkUnreachable | TimedOut | IoOther (name : string).

Inductive BridgeError :=
| BConnect (e : string)
| BIo (kind : IoKind) (e : string)
| BTls (e : string)
| BHttp (code : Z)
| BTimeout
| BUnsupported (e : string)
| BRegister (e : string)
| BRejected (e : string)
| BWire (e : VynkorError)
| BMac
| BDisconnected
| BShutdown.

Definition bridge_display (e : BridgeError) : string :=
  match e with
  | BConnect e => "connect: " +:+ e
  | BIo _ e => "connect: " +:+ e
  | BTls e => "tls: " +:+ e
  | BHttp code => "connect: http status " +:+ fmt_Z code
  | BTimeout => "timed out"
  | BUnsupported e => e
  | BRegister e => "registration rejected: " +:+ e
  | BRejected e => "host rejected the session: " +:+ e
  | BWire e => "wire: " +:+ display e
  | BMac => "frame MAC verification failed"
  | BDisconnected => "disconnected"
  | BShutdown => "shutdown"
  end.

(** [tungstenite::Error]; [rustls] says whether the io error wraps a
    [rustls::Error]. *)
Inductive WsError :=
| WsIo (rustls : bool) (kind : IoKind) (text : string)
| WsTls (text : string)
| WsHttp (status : Z)
| WsOther (text : string).

Definition from_ws (e : WsError) : BridgeError :=
  match e with
  | WsIo true _ text => BTls text
  | WsIo false kind text => BIo kind text
  | WsTls text => BTls text
  | WsHttp status => BHttp status
  | WsOther text => BConnect text
  end.

Definition classify (e : BridgeError) : BridgeFailure :=
  match e with
  | BIo HostUnreachable _ | BIo NetworkUnreachable _ => NoRoute
  | BIo TimedOut _ | BTimeout => FTimeout
  | BIo _ _ | BConnect _ => Unreachable
  | BTls _ => FTls
  | BHttp code => if (code =? 401)%Z || (code =? 403)%Z then FAuth else FProtocol
  | BRegister _ | BRejected _ | BMac => FAuth
  | BWire _ | BDisconnected | BShutdown => FProtocol
  | BUnsupported _ => FUnsupported
  end.

(** ** The handle *)
Definition set_bridge (conns : option (list N)) (w : World) : World :=
  mkWorld (w_reg w) (w_chans w) (w_bus w) (w_store w) (w_msg_seq w) (w_action_seq w)
    (w_event_seq w) (w_lazy w) conns (w_clk w) (w_db_ok w).

Definition bridge_conns (w : World) : list N := default [] (w_bridge w).

Definition handle_register_conn (tx : N) (w : World) : World :=
  set_bridge (Some (bridge_conns w ++ [tx])) w.
Definition handle_unregister_conn (tx : N) (w : World) : World :=
  set_bridge (Some (base.filter (fun c => c <> tx) (bridge_conns w))) w.
Definition handle_is_connected (w : World) : bool := bool_decide (bridge_conns w <> []).

(** ** Dialling (src/bridge/transport.rs, src/bridge/tls.rs) *)
Definition kind (t : TransportConfig) : TransportKind :=
  match t with TDirect _ _ => Direct | TRelay _ _ => Relay end.

(** [s.split_once(sep)] for a string separator *)
Fixpoint split_once_str (sep s : string) : option (string * string) :=
  match strip_prefix sep s with
  | Some rest => Some (EmptyString, rest)
  | None =>
      match s with
      | EmptyString => None
      | String c s' =>
          match split_once_str sep s' with
          | Some (a, b) => Some (String c a, b)
          | None => None
          end
      end
  end.

(** src/utils/url.rs *)
Definition DEFAULT_WS_PATH : string := "/ws".
Definition ws_scheme_for (scheme : string) : option string :=
  if scheme =s "http" then Some "ws"
  else if scheme =s "https" then Some "wss"
  else None.

Definition resolve_ws_url (host_url : string) : Result string BridgeError :=
  let bad := BWire (EInternal
    "host_url must start with ws://, wss://, http://, or https://") in
  if starts_with "ws://" host_url || starts_with "wss://" host_url then Ok host_url
  else
    match split_once_str "://" host_url with
    | None => Err bad
    | Some (scheme, rest) =>
        match ws_scheme_for scheme with
        | None => Err bad
        | Some ws_scheme =>
            let '(host, path) := match split_once "/" rest with
                                 | Some (h, p) => (h, "/" +:+ p)
                                 | None => (rest, DEFAULT_WS_PATH)
                                 end in
            Ok (ws_scheme +:+ "://" +:+ host +:+ path)
        end
    end.

#[export] Instance byte_eq_decision : EqDecision Byte.byte := Byte.byte_eq_dec.

(** [pinned_client_config] on the parsed PEM: the pinned certificates;
    [versions] is the provider's answer to the protocol versions. *)
Fixpoint pinned_certs (parsed : list (Result bytes string)) : Result (list bytes) BridgeError :=
  match parsed with
  | [] => Ok []
  | Err e :: _ => Err (BTls ("bad cert pem: " +:+ e))
  | Ok c :: rest =>
      match pinned_certs rest with
      | Ok cs => Ok (c :: cs)
      | Err e => Err e
      end
  end.

Definition pinned_client_config (versions : Result unit string)
    (parsed : list (Result bytes string)) : Result (list bytes) BridgeError :=
  match pinned_certs parsed with
  | Err e => Err e
  | Ok [] => Err (BTls "ca_cert_path contained no certificates")
  | Ok pinned =>
      match versions with
      | Err e => Err (BTls ("tls config: " +:+ e))
      | Ok _ => Ok pinned
      end
  end.

Definition verify_server_cert (pinned : list bytes) (end_entity : bytes) : bool :=
  existsb (fun c => bool_decide (c = end_entity)) pinned.

(** What the network and the file system answer to one dial: reading the pinned
    file, parsing its PEM, the TLS versions of the provider, building the request, the two dialling functions of
    tungstenite ([None] is the timeout). *)
Record Dial := mkDial {
  dl_read_pem : string -> Result string string;
  dl_parse_pem : string -> list (Result bytes string);
  dl_versions : Result unit string;
  dl_request : string -> Result unit string;
  dl_header : string -> Result unit string;
  dl_tls : string -> string -> option (list bytes) -> option (Result unit WsError);
  dl_plain : string -> string -> option (Result unit WsError)
}.

Definition load_pinned_config (d : Dial) (path : string) : Result (list bytes) BridgeError :=
  match dl_read_pem d path with
  | Err e => Err (BTls ("bridge ca_cert_path " +:+ path +:+ ": " +:+ e))
  | Ok pem => pinned_client_config (dl_versions d) (dl_parse_pem d pem)
  end.

Definition dialled (r : option (Result unit WsError)) : Result unit BridgeError :=
  match r with
  | None => Err BTimeout
  | Some (Err e) => Err (from_ws e)
  | Some (Ok _) => Ok tt
  end.

Definition connect_direct (d : Dial) (url : string) (ca_cert_path : option string)
    (token : string) : Result unit BridgeError :=
  match resolve_ws_url url with
  | Err e => Err e
  | Ok url =>
  match dl_request d url with
  | Err e => Err (BConnect e)
  | Ok _ =>
      let protocol := if str_is_empty token then "vynkor" else "vynkor, " +:+ token in
      match dl_header d protocol with
      | Err e => Err (BConnect e)
      | Ok _ =>
          if starts_with "wss://" url then
            match ca_cert_path with
            | Some path =>
                match load_pinned_config d path with
                | Err e => Err e
                | Ok pinned => dialled (dl_tls d url protocol (Some pinned))
                end
            | None => dialled (dl_tls d url protocol None)
            end
          else dialled (dl_plain d url protocol)
      end
  end end.

Definition connect (d : Dial) (t : TransportConfig) (token : string) : Result unit BridgeError :=
  match t with
  | TDirect url ca_cert_path => connect_direct d url ca_cert_path token
  | TRelay _ _ => Err (BUnsupported "relay transport is not implemented yet")
  end.

(** ** Frames in and out *)

(** A read of the socket under the silence limit: the message, the stream's
    error, its end, or the timeout. *)
Inductive WsRecv :=
| RMsg (m : WsMessage)
| RErr (e : WsError)
| REnd
| RSilence.

Definition keepalive (cfg : BridgeConfig) : Z :=
  if (bc_keepalive_secs cfg =? 0)%Z then 15 else bc_keepalive_secs cfg.
Definition silence_limit (cfg : BridgeConfig) : Z := (keepalive cfg * 3)%Z.

Definition closed (frame : option (Z * string)) : BridgeError :=
  match frame with
  | Some (code, reason) =>
      if (code =? CLOSE_MAC_INVALID)%Z then BRejected reason else BDisconnected
  | None => BDisconnected
  end.

(** One turn of [next_binary], and of the match that opens [read_loop]'s body:
    [None] reads on. *)
Definition next_binary (r : WsRecv) : option (Result bytes BridgeError) :=
  match r with
  | RSilence => Some (Err BTimeout)
  | RMsg (MBinary b) => Some (Ok b)
  | RMsg (MClose f) => Some (Err (closed f))
  | REnd => Some (Err BDisconnected)
  | RMsg _ => None
  | RErr e => Some (Err (from_ws e))
  end.

Section bridge.
Context `{Wire}.
Context (read_frame : bytes -> Result Frame WireError).

Definition strip_device_prefix (frame : Frame) (device_id : string) : string :=
  default "kernel" (target_as_str frame ≫= strip_prefix (device_id +:+ ".")).

Definition is_kernel_routed (frame : Frame) : bool :=
  match decode (f_payload frame) with
  | None => false
  | Some env =>
      match env_payload env with
      | Some (PActionRequest _) | Some (PActionRequestChunk _ _ _ _)
      | Some (PActionResponse _) | Some (PActionResponseChunk _ _ _)
      | Some (PSessionClose _ _) | Some (PActionStreamAbort _ _)
      | Some (PPing _) | Some (PPong _ _) | Some (PError _ _ _)
      | Some (PEventPublishAck _ _ _) | Some (PKernelCommandAck _ _ _ _)
      | Some (PEventAck _) | Some (PPluginRegisterAck _) => true
      | _ => false
      end
  end.

Definition set_target (target : bytes) (f : Frame) : Frame :=
  mkFrame (f_magic f) (f_flags f) (f_length f) target (f_crc32 f) (f_payload f) (f_mac f).

(** [encode_to_vec] does not fail *)
Definition probe_frame (now_ms : Z) : Frame :=
  build_frame "kernel" 0 (default [] (encode (envelope_of (PPing (now_ms mod (u64_max + 1)))))).

(** ** The write loop *)
Inductive BridgeOut := OutPing | OutFrame (f : Frame).

(** A ready branch of its select: an item, the closed channel, the idle timer. *)
Inductive WriteEvent := WItem (item : Outbound) | WClosed | WIdle.

Definition bridge_write (key : option bytes) (e : WriteEvent) : option (option BridgeOut) :=
  match e with
  | WClosed => None
  | WIdle => Some (Some OutPing)
  | WItem (OEnableMac _ _) => Some None
  | WItem (OFrame f) =>
      let f := if bool_decide (target_as_str f = Some "client")
               then set_target (target_bytes "kernel") f else f in
      Some (Some (OutFrame (tag_frame key f)))
  end.

(** [send] says which writes the socket takes; the loop ends at the first it
    does not, and at the closed channel. *)
Fixpoint bridge_write_loop (send : BridgeOut -> bool) (key : option bytes)
    (es : list WriteEvent) : list BridgeOut :=
  match es with
  | [] => []
  | e :: es' =>
      match bridge_write key e with
      | None => []
      | Some None => bridge_write_loop send key es'
      | Some (Some out) => if send out then out :: bridge_write_loop send key es' else []
      end
  end.

(** ** Registration on the host *)
Definition register_message (cfg : BridgeConfig) (device_id : string) : PluginRegister :=
  mkPluginRegister device_id
    (Some (mkManifest ["PERMISSION_IPC_SEND"; "PERMISSION_EVENT_PUBLISH"] [] [] [] [] []))
    "" (default EmptyString (bc_token cfg)) device_id "" 0 "" "" (bc_mirror cfg).

Definition register_frame (cfg : BridgeConfig) (device_id : string) : Result Frame BridgeError :=
  match encode (envelope_of (PPluginRegister (register_message cfg device_id))) with
  | None => Err (BWire (EInternal "encode register"))
  | Some payload => Ok (build_frame "kernel" 0 payload)
  end.

(** One turn of the loop that waits for the acknowledgement: [None] waits on. *)
Definition await_ack (cfg : BridgeConfig) (device_id : string) (r : WsRecv)
    : option (Result (option bytes) BridgeError) :=
  match next_binary r with
  | None => None
  | Some (Err e) => Some (Err e)
  | Some (Ok data) =>
      match parse_frame read_frame data with
      | Err e => Some (Err (BWire e))
      | Ok frame =>
          match decode (f_payload frame) with
          | None => Some (Err (BWire (EInternal "decode register ack")))
          | Some env =>
              match env_payload env with
              | Some (PPluginRegisterAck ack) =>
                  if negb (ack_accepted ack) then Some (Err (BRegister (ack_reject_reason ack)))
                  else
                    match bc_secret cfg with
                    | Some secret =>
                        if bool_decide (ack_session_nonce ack = []) then Some (Ok None)
                        else Some (Ok (Some (derive_session_key (str_bytes secret)
                                               (ack_session_nonce ack) device_id)))
                    | None => Some (Ok None)
                    end
              | Some (PError _ message details) =>
                  Some (Err (BRegister (message +:+ ": " +:+ details)))
              | _ => None
              end
          end
      end
  end.

(** ** The machine *)

(** The locals of a running [read_loop]; [bs_pending] is its [pending]. *)
Record Session := mkSession {
  bs_host_tx : N;
  bs_cell : N;
  bs_key : option bytes;
  bs_transport : TransportKind;
  bs_pending : bool
}.

Inductive Phase :=
| PhDial (rest : list TransportConfig) (last_err : option BridgeError)
| PhAck (t : TransportKind)
| PhRead (s : Session)
| PhSleep
| PhReturned.

Record Bridge := mkBridge {
  br_phase : Phase;
  br_backoff : Z;
  br_status : BridgeStatus;
  br_world : World
}.

Definition BRIDGE_MAX_BACKOFF : Z := 30.

Definition set_status (s : BridgeStatus) (b : Bridge) : Bridge :=
  mkBridge (br_phase b) (br_backoff b) s (br_world b).
Definition set_phase (p : Phase) (b : Bridge) : Bridge :=
  mkBridge p (br_backoff b) (br_status b) (br_world b).
Definition set_backoff (d : Z) (b : Bridge) : Bridge :=
  mkBridge (br_phase b) d (br_status b) (br_world b).
Definition set_world (w : World) (b : Bridge) : Bridge :=
  mkBridge (br_phase b) (br_backoff b) (br_status b) w.

Definition is_connected_status (s : BridgeStatus) : bool :=
  match s with Connected _ => true | _ => false end.

(** [run] between the end of a cycle and the sleep *)
Definition cycle_done (result : Result unit BridgeError) (b : Bridge) : Bridge :=
  let b := if is_connected_status (br_status b) then set_backoff 1 b else b in
  match result with
  | Err BShutdown => set_phase PhReturned b
  | Ok _ => set_phase PhSleep
              (set_status (Failed FProtocol "host closed the connection" (br_backoff b)) b)
  | Err e => set_phase PhSleep
               (set_status (Failed (classify e) (bridge_display e) (br_backoff b)) b)
  end.

(** The head of [one_cycle]'s loop *)
Definition next_transport (rest : list TransportConfig) (last_err : option BridgeError)
    (b : Bridge) : Bridge :=
  match rest with
  | [] => cycle_done (Err (default (BConnect "no transports configured") last_err)) b
  | t :: _ => set_phase (PhDial rest last_err) (set_status (Connecting (kind t)) b)
  end.

Definition one_cycle (cfg : BridgeConfig) (b : Bridge) : Bridge :=
  next_transport (effective_transports cfg) None b.

(** The head of [run]: back off one second first *)
Definition run_init (cfg : BridgeConfig) (w : World) : Bridge :=
  one_cycle cfg (mkBridge PhSleep 1 Disabled (set_bridge (Some []) w)).

(** [run_conn] up to the wait for the acknowledgement; [sent] is the outcome of
    writing the register frame. *)
Definition start_conn (cfg : BridgeConfig) (device_id : string) (sent : option WsError)
    (t : TransportKind) (b : Bridge) : Bridge :=
  match register_frame cfg device_id with
  | Err e => cycle_done (Err e) b
  | Ok _ =>
      match sent with
      | Some e => cycle_done (Err (from_ws e)) b
      | None => set_phase (PhAck t) b
      end
  end.

(** [run_conn] from the acknowledgement to the first read: the local entry, the
    handle, the probe. *)
Definition open_session (cfg : BridgeConfig) (device_id : string) (host_tx cell : N)
    (key : option bytes) (t : TransportKind) (b : Bridge) : Bridge :=
  let w := br_world b in
  let w := set_chans (<[host_tx := mkChan 64 [] false]> (w_chans w)) w in
  let local_manifest := mkManifest ["PERMISSION_IPC_SEND"] [] [] (bc_mirror cfg) [] [] in
  let meta := mkDeviceMeta device_id "default" Unspecified "" "" (bc_mirror cfg) in
  match register_with_device (w_clk w) device_id BRIDGE_CONN_ID_BASE local_manifest host_tx meta
          (w_reg w) with
  | (_, Err e) => cycle_done (Err (BRegister (display e))) b
  | (r, Ok _) =>
      let w := handle_register_conn host_tx (set_reg r w) in
      let w := set_chans (send_await host_tx (out_frame (probe_frame (now_ms w)))
                            (w_chans w)) w in
      set_phase (PhRead (mkSession host_tx cell key t true)) (set_world w b)
  end.

(** The end of [run_conn]; the aborted write task drops the receiver. *)
Definition close_session (device_id : string) (s : Session) (w : World) : World :=
  let w := unregister device_id w in
  let w := handle_unregister_conn (bs_host_tx s) w in
  set_chans (delete (bs_host_tx s) (w_chans w)) w.

Definition end_session (device_id : string) (s : Session) (e : BridgeError) (b : Bridge)
    : Bridge :=
  cycle_done (Err e) (set_world (close_session device_id s (br_world b)) b).

(** The frame [read_loop] hands to the router *)
Definition localize (device_id : string) (frame : Frame) : Frame :=
  let frame := strip_mac frame in
  let local_target := if is_kernel_routed frame then "kernel"
                      else strip_device_prefix frame device_id in
  set_target (target_bytes local_target) frame.

(** One turn of [read_loop] *)
Definition read_loop_step (device_id : string) (s : Session) (r : WsRecv) (addr : N)
    (router_up : bool) (b : Bridge) : Bridge * option IncomingMessage :=
  match next_binary r with
  | None => (b, None)
  | Some (Err e) => (end_session device_id s e b, None)
  | Some (Ok data) =>
      match parse_frame read_frame data with
      | Err e => (end_session device_id s (BWire e) b, None)
      | Ok frame =>
          if negb (ws_mac_valid (bs_key s) frame)
          then (end_session device_id s BMac b, None)
          else
            let b := if bs_pending s then set_status (Connected (bs_transport s)) b else b in
            let s := mkSession (bs_host_tx s) (bs_cell s) (bs_key s) (bs_transport s) false in
            let b := set_phase (PhRead s) b in
            let msg := mkMsg BRIDGE_CONN_ID_BASE (localize device_id frame) (bs_host_tx s)
                         (bs_cell s) addr in
            if router_up then (b, Some msg)
            else (end_session device_id s BShutdown b, None)
      end
  end.

(** What an await returned: a dial with the outcome of the register write, a
    read, the end of the sleep; or the other tasks changed the shared state. *)
Inductive BridgeEvent :=
| BDialled (d : Dial) (sent : option WsError)
| BReceived (r : WsRecv) (host_tx cell addr : N) (router_up : bool)
| BSlept
| BOthers (w : World).

Definition bridge_step (cfg : BridgeConfig) (device_id : string) (e : BridgeEvent) (b : Bridge)
    : Bridge * option IncomingMessage :=
  match e, br_phase b with
  | BDialled d sent, PhDial (t :: rest) _ =>
      match connect d t (default EmptyString (bc_token cfg)) with
      | Ok _ => (start_conn cfg device_id sent (kind t) b, None)
      | Err err => (next_transport rest (Some err) b, None)
      end
  | BReceived r host_tx cell _ _, PhAck t =>
      match await_ack cfg device_id r with
      | None => (b, None)
      | Some (Err err) => (cycle_done (Err err) b, None)
      | Some (Ok key) => (open_session cfg device_id host_tx cell key t b, None)
      end
  | BReceived r _ _ addr router_up, PhRead s => read_loop_step device_id s r addr router_up b
  | BSlept, PhSleep =>
      (one_cycle cfg (set_backoff (Z.min (br_backoff b * 2) BRIDGE_MAX_BACKOFF) b), None)
  | BOthers w, _ => (set_world (set_bridge (w_bridge (br_world b)) w) b, None)
  | _, _ => (b, None)
  end.

Fixpoint bridge_run (cfg : BridgeConfig) (device_id : string) (es : list BridgeEvent)
    (b : Bridge) : Bridge * list IncomingMessage :=
  match es with
  | [] => (b, [])
  | e :: es' =>
      let '(b1, m) := bridge_step cfg device_id e b in
      let '(b2, ms) := bridge_run cfg device_id es' b1 in
      (b2, match m with Some m => m :: ms | None => ms end)
  end.
End bridge.
