(* ===== verification/BridgeProps.v ===== *)
(** * Theorems about the bridge

    The invariant of the bridge machine under any interleaving with the other
    tasks, what reaches the router from the host, the retry schedule, and what
    the dialler and the write loop put on the wire. *)

From S2P Require Import Prelude Errors Wire Validate Registry RegistryInv Events Kernel.
From S2P Require Import Websocket WebsocketProps Config Bridge KernelInv ConnectionProps.

Section bridge_props.
Context `{Wire}.
Context (read_frame : bytes -> Result Frame WireError).
Context (cfg : BridgeConfig) (device_id : string).

#[local] Notation step := (bridge_step read_frame cfg device_id).
#[local] Notation run := (bridge_run read_frame cfg device_id).

(** ** The invariant *)

(** What the status and the handle say in each phase: a channel is published
    exactly while a session runs, and [Connected] exactly once the session has
    passed on a frame. *)
Definition phase_ok (b : Bridge) : Prop :=
  match br_phase b with
  | PhDial [] _ => False
  | PhDial (t :: _) _ => br_status b = Connecting (kind t) /\ bridge_conns (br_world b) = []
  | PhAck t => br_status b = Connecting t /\ bridge_conns (br_world b) = []
  | PhRead s =>
      br_status b = (if bs_pending s then Connecting else Connected) (bs_transport s)
      /\ bridge_conns (br_world b) = [bs_host_tx s]
  | PhSleep =>
      (exists k d, br_status b = Failed k d (br_backoff b)) /\ bridge_conns (br_world b) = []
  | PhReturned => bridge_conns (br_world b) = []
  end.

Record bridge_ok (b : Bridge) : Prop := {
  bo_backoff : (1 <= br_backoff b <= BRIDGE_MAX_BACKOFF)%Z;
  bo_phase : phase_ok b;
  bo_kernel : kernel_ok (br_world b)
}.

Definition env_ok (e : BridgeEvent) : Prop :=
  match e with BOthers w => kernel_ok w | _ => True end.

Lemma cycle_done_ok r b :
  (1 <= br_backoff b <= BRIDGE_MAX_BACKOFF)%Z -> bridge_conns (br_world b) = [] ->
  kernel_ok (br_world b) -> bridge_ok (cycle_done r b).
Proof.
  intros Hb Hc Hk. unfold cycle_done, BRIDGE_MAX_BACKOFF in *.
  destruct (is_connected_status _), r as [[]|[]]; split; unfold phase_ok; simpl;
    rewrite ?Hc; eauto; unfold BRIDGE_MAX_BACKOFF; lia.
Qed.

Lemma next_transport_ok rest err b :
  (1 <= br_backoff b <= BRIDGE_MAX_BACKOFF)%Z -> bridge_conns (br_world b) = [] ->
  kernel_ok (br_world b) -> bridge_ok (next_transport rest err b).
Proof.
  intros Hb Hc Hk. destruct rest as [|t rest]; [by apply cycle_done_ok|].
  split; [done|by split|done].
Qed.

Lemma unregister_bridge p w : w_bridge (unregister p w) = w_bridge w.
Proof.
  unfold unregister, unregister_if. destruct (unregister_core _ _ _) as [r []]; [|done].
  unfold fail_pending_for_provider. destruct (take_pending_actions_for_provider _ _) as [r' l].
  match goal with |- w_bridge (foldl ?f ?w0 ?l, _).1 = _ =>
    assert (only_sends any_chan w0 (foldl f w0 l)) as Hs
      by (apply only_sends_foldl; intros; eapply to_any, send_envelope_sends) end.
  apply only_sends_fields in Hs. apply Hs.
Qed.

Lemma close_session_conns s w :
  bridge_conns w = [bs_host_tx s] -> bridge_conns (close_session device_id s w) = [].
Proof.
  unfold close_session, handle_unregister_conn. simpl. unfold bridge_conns. simpl.
  rewrite unregister_bridge. intros ->. rewrite filter_cons_False by auto. done.
Qed.

Lemma close_session_ok s w : kernel_ok w -> kernel_ok (close_session device_id s w).
Proof. intros Hk. apply (unregister_if_ok device_id (fun _ => true) w Hk). Qed.

Lemma end_session_ok s e b :
  (1 <= br_backoff b <= BRIDGE_MAX_BACKOFF)%Z ->
  bridge_conns (br_world b) = [bs_host_tx s] -> kernel_ok (br_world b) ->
  bridge_ok (end_session device_id s e b).
Proof.
  intros Hb Hc Hk. apply cycle_done_ok; [done|by apply close_session_conns|].
  by apply close_session_ok.
Qed.

Lemma open_session_ok tx cell key t b :
  bridge_ok b -> br_phase b = PhAck t ->
  bridge_ok (open_session cfg device_id tx cell key t b).
Proof.
  intros [Hb Hp Hk] Hph. unfold phase_ok in Hp. rewrite Hph in Hp. destruct Hp as [Hst Hc].
  unfold open_session.
  pose proof (register_with_device_core (w_clk (br_world b)) device_id BRIDGE_CONN_ID_BASE
    (mkManifest ["PERMISSION_IPC_SEND"] [] [] (bc_mirror cfg) [] []) tx
    (mkDeviceMeta device_id "default" Unspecified "" "" (bc_mirror cfg)) _ _ Hk) as Hr.
  cbn [set_chans w_clk w_reg]. destruct (register_with_device _ _ _ _ _ _ _) as [r [[]|e]];
    [|by apply cycle_done_ok].
  split; [done| |apply Hr]. split; [done|]. simpl.
  change (bridge_conns (br_world b) ++ [tx] = [tx]). by rewrite Hc.
Qed.

Lemma bridge_read_ok s r addr up b :
  bridge_ok b -> br_phase b = PhRead s ->
  bridge_ok (read_loop_step read_frame device_id s r addr up b).1.
Proof.
  intros [Hb Hp Hk] Hph. pose proof Hp as Hp'. unfold phase_ok in Hp. rewrite Hph in Hp.
  destruct Hp as [Hst Hc].
  unfold read_loop_step. destruct (next_binary r) as [[data|e]|]; [| |by split].
  2: by apply end_session_ok.
  destruct (parse_frame read_frame data) as [frame|e]; [|by apply end_session_ok].
  destruct (negb _); [by apply end_session_ok|].
  destruct up; simpl; [|apply end_session_ok; by destruct (bs_pending s)].
  destruct (bs_pending s); (split; [done| |done]); split; simpl; auto.
Qed.

Lemma bridge_step_ok e b : bridge_ok b -> env_ok e -> bridge_ok (step e b).1.
Proof.
  intros Hok He. pose proof Hok as [Hb Hp Hk]. unfold bridge_step.
  destruct e as [d sent|r tx cell addr up| |w].
  - destruct (br_phase b) as [[|t rest] err| | | |] eqn:Hph; try done.
    unfold phase_ok in Hp. rewrite Hph in Hp. destruct Hp as [Hst Hc].
    destruct (connect _ _ _) as [[]|e]; [|by apply next_transport_ok].
    unfold start_conn. destruct (register_frame cfg device_id); [|by apply cycle_done_ok].
    destruct sent; [by apply cycle_done_ok|]. simpl. by split; [..|].
  - destruct (br_phase b) as [|t|s| |] eqn:Hph; try done; [|by apply bridge_read_ok].
    pose proof Hp as Hp'. unfold phase_ok in Hp'. rewrite Hph in Hp'. destruct Hp' as [_ Hc].
    destruct (await_ack _ _ _ _) as [[key|e]|]; [|by apply cycle_done_ok|done].
    by apply open_session_ok.
  - destruct (br_phase b) eqn:Hph; try done.
    unfold phase_ok in Hp. rewrite Hph in Hp. destruct Hp as [_ Hc].
    apply next_transport_ok; [|done|done]. simpl. unfold BRIDGE_MAX_BACKOFF in *. lia.
  - simpl. split; [done| |apply He]. unfold phase_ok in *. simpl. unfold bridge_conns in *.
    simpl. destruct (br_phase b) as [[]| | | |]; done.
Qed.

Lemma run_init_ok w : kernel_ok w -> bridge_ok (run_init cfg w).
Proof. intros Hk. apply next_transport_ok; simpl; [unfold BRIDGE_MAX_BACKOFF; lia|done|apply Hk]. Qed.

Lemma bridge_run_ok es b :
  bridge_ok b -> Forall env_ok es -> bridge_ok (run es b).1.
Proof.
  revert b. induction es as [|e es IH]; intros b Hok Hes; simpl; [done|].
  apply Forall_cons in Hes as [He Hes]. pose proof (bridge_step_ok e b Hok He) as H1.
  destruct (step e b) as [b1 m]. specialize (IH b1 H1 Hes).
  by destruct (run es b1).
Qed.


(** ** What reaches the router *)

Lemma cycle_done_phase r b : br_phase (cycle_done r b) = PhSleep \/ br_phase (cycle_done r b) = PhReturned.
Proof. unfold cycle_done. destruct r as [|[]]; auto. Qed.

Lemma cycle_done_no_session r b s : br_phase (cycle_done r b) <> PhRead s.
Proof. by destruct (cycle_done_phase r b) as [-> | ->]. Qed.

Lemma next_transport_no_session rest err b s : br_phase (next_transport rest err b) <> PhRead s.
Proof. destruct rest; [apply cycle_done_no_session|done]. Qed.

Lemma read_keeps_key s r addr up b s' :
  br_phase b = PhRead s ->
  br_phase (read_loop_step read_frame device_id s r addr up b).1 = PhRead s' ->
  bs_key s' = bs_key s.
Proof.
  unfold read_loop_step, end_session. intros Hph.
  destruct (next_binary r) as [[data|e]|]; cbn [fst];
    [|by intros ?%cycle_done_no_session|rewrite Hph; congruence].
  destruct (parse_frame _ _) as [frame|e]; cbn [fst]; [|by intros ?%cycle_done_no_session].
  destruct (negb _); cbn [fst]; [by intros ?%cycle_done_no_session|].
  destruct up; cbn [fst]; [|by intros ?%cycle_done_no_session].
  destruct (bs_pending s); simpl; [|rewrite ?Hph]; by intros [= <-].
Qed.

(** A session goes on with its key, or an acknowledgement opens it. *)
Lemma step_session e b s' :
  br_phase (step e b).1 = PhRead s' ->
  (exists s, br_phase b = PhRead s /\ bs_key s' = bs_key s)
  \/ (exists t r tx cell addr up, br_phase b = PhAck t /\ e = BReceived r tx cell addr up
        /\ await_ack read_frame cfg device_id r = Some (Ok (bs_key s'))).
Proof.
  unfold bridge_step. destruct e as [d sent|r tx cell addr up| |w].
  - destruct (br_phase b) as [[|t rest] err| | | |] eqn:Hph; cbn [fst]; rewrite ?Hph; try done; eauto.
    destruct (connect _ _ _); cbn [fst]; [|by intros ?%next_transport_no_session].
    unfold start_conn. destruct (register_frame _ _), sent; cbn [fst];
      by try (intros ?%cycle_done_no_session).
  - destruct (br_phase b) as [|t|s| |] eqn:Hph; cbn [fst]; rewrite ?Hph; try done.
    + destruct (await_ack _ _ _ r) as [[key|e]|] eqn:Ha; cbn [fst];
        [|by intros ?%cycle_done_no_session|by rewrite Hph].
      unfold open_session. destruct (register_with_device _ _ _ _ _ _ _) as [? []];
        [|by intros ?%cycle_done_no_session].
      intros [= <-]. right. by exists t, r, tx, cell, addr, up.
    + intros Hr. left. exists s. split; [done|]. exact (read_keeps_key _ _ _ _ _ _ Hph Hr).
  - destruct (br_phase b) eqn:Hph; cbn [fst]; rewrite ?Hph; try done; eauto.
    by intros ?%next_transport_no_session.
  - simpl. intros Hr. eauto.
Qed.

Lemma run_snoc es e b :
  run (es ++ [e]) b
  = let r := run es b in
    ((step e r.1).1, r.2 ++ match (step e r.1).2 with Some m => [m] | None => [] end).
Proof.
  revert b. induction es as [|e0 es IH]; intros b; simpl.
  - by destruct (step e b) as [b1 []].
  - destruct (step e0 b) as [b1 o]. rewrite IH. by destruct (run es b1), o.
Qed.

Definition in_session (key : option bytes) (b : Bridge) : Prop :=
  exists s, br_phase b = PhRead s /\ bs_key s = key.

(** The events so far end with a session under way: the acknowledgement [ack],
    taken while one was awaited, established [key], and the session has gone on
    since. *)
Definition opened_with (w : World) (es : list BridgeEvent) (key : option bytes) : Prop :=
  exists es1 ack tx cell addr up es2 t,
    es = es1 ++ BReceived ack tx cell addr up :: es2
    /\ br_phase (run es1 (run_init cfg w)).1 = PhAck t
    /\ await_ack read_frame cfg device_id ack = Some (Ok key)
    /\ forall l, l `prefix_of` es2 ->
         in_session key (run (es1 ++ BReceived ack tx cell addr up :: l) (run_init cfg w)).1.

Lemma prefix_snoc_cases {A} (l l0 : list A) x :
  l `prefix_of` l0 ++ [x] -> l = l0 ++ [x] \/ l `prefix_of` l0.
Proof.
  intros [k Hk]. destruct k as [|y k _] using rev_ind.
  - left. by rewrite app_nil_r in Hk.
  - right. rewrite app_assoc in Hk. apply app_inj_tail in Hk as [-> _]. by exists k.
Qed.

Lemma session_opened w es s :
  br_phase (run es (run_init cfg w)).1 = PhRead s -> opened_with w es (bs_key s).
Proof.
  revert s. induction es as [|e es IH] using rev_ind; intros s Hs.
  { by apply next_transport_no_session in Hs. }
  pose proof Hs as Hs0. rewrite run_snoc in Hs.
  apply step_session in Hs as [(s0 & Hs1 & Hk) | (t & r & tx & cell & addr & up & Hp & -> & Ha)].
  - rewrite Hk. destruct (IH _ Hs1) as (es1 & ack & tx & cell & addr & up & es2 & t & -> & Hp & Ha & Hl).
    exists es1, ack, tx, cell, addr, up, (es2 ++ [e]), t. rewrite <- app_assoc in Hs0 |- *.
    split; [done|]. split; [done|]. split; [done|].
    intros l [->|Hpre]%prefix_snoc_cases; [by exists s|by apply Hl].
  - exists es, r, tx, cell, addr, up, [], t. split; [done|]. split; [done|]. split; [done|].
    intros l ->%prefix_nil_inv. by exists s.
Qed.

Lemma run_emits es b m :
  m ∈ (run es b).2 ->
  exists es1 e es2, es = es1 ++ e :: es2 /\ (step e (run es1 b).1).2 = Some m.
Proof.
  induction es as [|e es IH] using rev_ind; [by intros ?%elem_of_nil|].
  rewrite run_snoc. simpl. intros [Hm|Hm]%elem_of_app.
  - destruct (IH Hm) as (es1 & e1 & es2 & -> & Hs). exists es1, e1, (es2 ++ [e]).
    by rewrite <- app_assoc.
  - exists es, e, []. split; [done|]. destruct (step e _) as [b' [m'|]]; set_solver.
Qed.

(** How a message for the router came about: the bytes it was read from, the
    key of the session, the frame on the wire. *)
Definition relayed (m : IncomingMessage) (data : bytes) (key : option bytes) (frame : Frame)
    : Prop :=
  parse_frame read_frame data = Ok frame
  /\ (forall k, key = Some k -> tag_verifies k frame)
  /\ m_conn_id m = BRIDGE_CONN_ID_BASE
  /\ f_payload (m_frame m) = f_payload frame
  /\ flag_set (f_flags (m_frame m)) FLAG_MAC_PRESENT = false /\ f_mac (m_frame m) = None
  /\ (f_target (m_frame m) = target_bytes "kernel"
      \/ exists cap, target_as_str (strip_mac frame) = Some (device_id +:+ "." +:+ cap)
           /\ f_target (m_frame m) = target_bytes cap).

Lemma localize_relayed frame :
  f_payload (localize device_id frame) = f_payload frame
  /\ flag_set (f_flags (localize device_id frame)) FLAG_MAC_PRESENT = false
  /\ f_mac (localize device_id frame) = None
  /\ (f_target (localize device_id frame) = target_bytes "kernel"
      \/ exists cap, target_as_str (strip_mac frame) = Some (device_id +:+ "." +:+ cap)
           /\ f_target (localize device_id frame) = target_bytes cap).
Proof.
  unfold localize. simpl. split; [done|]. split.
  { unfold flag_set, flag_clear. rewrite <- Z.land_assoc. by rewrite Z.land_0_r. }
  split; [done|]. destruct (is_kernel_routed _); [by left|].
  unfold strip_device_prefix. destruct (target_as_str (strip_mac frame)) as [t|]; [|by left]. simpl.
  destruct (strip_prefix _ t) as [cap|] eqn:Ht; [|by left]. right. exists cap.
  apply strip_prefix_Some in Ht as ->. split; [|done]. f_equal.
  symmetry. apply str_app_assoc.
Qed.

Lemma step_relays e b m :
  (step e b).2 = Some m ->
  exists data tx cell addr up s frame,
    e = BReceived (RMsg (MBinary data)) tx cell addr up
    /\ br_phase b = PhRead s /\ relayed m data (bs_key s) frame.
Proof.
  unfold bridge_step.
  destruct e as [d sent|r tx cell addr up| |w]; destruct (br_phase b) as [[]| |s| |] eqn:Hph;
    try done; try by repeat case_match.
  unfold read_loop_step. destruct r as [[data|f| |]|ws| |]; simpl; try done.
  destruct (parse_frame read_frame data) as [frame|] eqn:Hp; [|done].
  destruct (ws_mac_valid (bs_key s) frame) eqn:Hv; simpl; [|done].
  destruct up; [|done]. intros [= <-].
  exists data, tx, cell, addr, true, s, frame.
  split; [done|]. split; [done|]. unfold relayed. simpl. split; [done|].
  split; [intros k Hk; rewrite Hk in Hv; by apply ws_mac_valid_verifies|].
  split; [done|]. apply (localize_relayed frame).
Qed.

(** C7 Only verified frames of the host reach the local router. Every message
    the bridge hands over in any run was read from a binary message the socket
    delivered during a session; its tag is valid under the key which the
    acknowledgement that opened that session established, if it established
    one; it keeps its payload, has lost the host's tag, and is addressed to the
    local kernel or to the capability [cap] of a frame the host addressed to
    [<device_id>.<cap>]. *)
Theorem bridge_relays_verified w es m :
  m ∈ (run es (run_init cfg w)).2 ->
  exists es1 data tx cell addr up es2 key frame,
    es = es1 ++ BReceived (RMsg (MBinary data)) tx cell addr up :: es2
    /\ opened_with w es1 key /\ relayed m data key frame.
Proof.
  intros (es1 & e & es2 & -> & Hs)%run_emits.
  apply step_relays in Hs as (data & tx & cell & addr & up & s & frame & -> & Hp & Hr).
  exists es1, data, tx, cell, addr, up, es2, (bs_key s), frame.
  split; [done|]. split; [by apply session_opened|done].
Qed.

(** ** The retry schedule *)

(** Cycles that ended without reaching [Connected], since the last that did. *)
Definition misses_step (b b' : Bridge) (n : nat) : nat :=
  match br_phase b, br_phase b' with
  | PhSleep, PhDial _ _ => S n
  | PhSleep, _ => n
  | _, PhSleep => if is_connected_status (br_status b) then 0 else n
  | _, _ => n
  end.

Fixpoint misses (es : list BridgeEvent) (b : Bridge) (n : nat) : nat :=
  match es with
  | [] => n
  | e :: es' => let b' := (step e b).1 in misses es' b' (misses_step b b' n)
  end.

Definition delay (n : nat) : Z := Z.min (2 ^ Z.of_nat n) BRIDGE_MAX_BACKOFF.

Definition on_schedule (b : Bridge) (n : nat) : Prop :=
  br_phase b = PhReturned \/ br_backoff b = delay n.

Lemma delay_S n : Z.min (delay n * 2) BRIDGE_MAX_BACKOFF = delay (S n).
Proof.
  unfold delay, BRIDGE_MAX_BACKOFF. rewrite Nat2Z.inj_succ, Z.pow_succ_r by lia. lia.
Qed.

(** A cycle that ends in a non-sleeping phase: the delay is kept or reset. *)
Lemma cycle_done_schedule r b b0 n :
  br_phase b0 <> PhSleep -> br_backoff b = br_backoff b0 -> br_status b = br_status b0 ->
  on_schedule b0 n -> br_phase b0 <> PhReturned ->
  on_schedule (cycle_done r b) (misses_step b0 (cycle_done r b) n).
Proof.
  intros Hs Hb Hst [|Hd] Hr; [done|]. destruct (cycle_done_phase r b) as [Hp|Hp]; [|by left].
  right. unfold misses_step. rewrite Hp. rewrite <- Hst.
  replace (match br_phase b0 with PhSleep => n | _ => if is_connected_status (br_status b)
    then 0%nat else n end) with (if is_connected_status (br_status b) then 0%nat else n)
    by (by destruct (br_phase b0)).
  unfold cycle_done in *. destruct (is_connected_status (br_status b));
    destruct r as [|[]]; simpl in *; try reflexivity; congruence.
Qed.

(** A step inside a cycle: the delay is kept. *)
Lemma kept_schedule b b0 n :
  br_phase b0 <> PhSleep -> br_phase b <> PhSleep -> br_backoff b = br_backoff b0 ->
  br_phase b0 <> PhReturned -> on_schedule b0 n -> on_schedule b (misses_step b0 b n).
Proof.
  intros Hs Hs' Hb Hr [|Hd]; [done|]. right. unfold misses_step. rewrite Hb, Hd.
  by destruct (br_phase b0), (br_phase b).
Qed.

Lemma read_schedule s r addr up b n :
  br_phase b = PhRead s -> on_schedule b n ->
  on_schedule (read_loop_step read_frame device_id s r addr up b).1
    (misses_step b (read_loop_step read_frame device_id s r addr up b).1 n).
Proof.
  intros Hph Hn. unfold read_loop_step.
  destruct (next_binary r) as [[data|e]|]; cbn [fst].
  2: apply cycle_done_schedule; rewrite ?Hph; done.
  2: apply kept_schedule; rewrite ?Hph; done.
  destruct (parse_frame _ _) as [frame|e]; cbn [fst].
  2: apply cycle_done_schedule; rewrite ?Hph; done.
  destruct (negb _); cbn [fst]; [apply cycle_done_schedule; rewrite ?Hph; done|].
  destruct up; cbn [fst]; [|by left].
  apply kept_schedule; rewrite ?Hph; try done. by destruct (bs_pending s).
Qed.

Lemma dial_schedule rest err b b0 n :
  br_phase b0 <> PhSleep -> br_backoff b = br_backoff b0 -> br_status b = br_status b0 ->
  on_schedule b0 n -> br_phase b0 <> PhReturned ->
  on_schedule (next_transport rest err b) (misses_step b0 (next_transport rest err b) n).
Proof.
  intros. destruct rest as [|t rest]; [by apply cycle_done_schedule|by apply kept_schedule].
Qed.

Lemma others_schedule w b n :
  on_schedule b n -> on_schedule (set_world w b) (misses_step b (set_world w b) n).
Proof.
  intros [|Hd]; [by left|]. right. unfold misses_step. simpl.
  by destruct (br_phase b) eqn:Hph.
Qed.

Lemma idle_schedule b n :
  on_schedule b n -> on_schedule b (misses_step b b n).
Proof. intros [|Hd]; [by left|]. right. unfold misses_step. by destruct (br_phase b) eqn:Hph. Qed.

Lemma step_schedule e b n :
  on_schedule b n -> on_schedule (step e b).1 (misses_step b (step e b).1 n).
Proof.
  intros Hn. unfold bridge_step. destruct e as [d sent|r tx cell addr up| |w].
  - destruct (br_phase b) as [[|t rest] err| | | |] eqn:Hph; try by apply idle_schedule.
    destruct (connect _ _ _) as [[]|e]; cbn [fst]; [|apply dial_schedule; by rewrite ?Hph].
    unfold start_conn. destruct (register_frame cfg device_id), sent;
      try (apply cycle_done_schedule; by rewrite ?Hph). apply kept_schedule; by rewrite ?Hph.
  - destruct (br_phase b) as [|t|s| |] eqn:Hph; [by apply idle_schedule| |by apply read_schedule|by apply idle_schedule..].
    destruct (await_ack _ _ _ _) as [[key|e]|]; cbn [fst].
    2: apply cycle_done_schedule; by rewrite ?Hph.
    2: by apply idle_schedule.
    unfold open_session. destruct (register_with_device _ _ _ _ _ _ _) as [? []].
    + apply kept_schedule; by rewrite ?Hph.
    + apply cycle_done_schedule; by rewrite ?Hph.
  - destruct (br_phase b) eqn:Hph; try by apply idle_schedule.
    destruct Hn as [Hn|Hn]; [congruence|].
    cbn [fst]. unfold one_cycle, effective_transports, misses_step.
    destruct (bc_transports cfg) as [|t ts]; right; simpl; rewrite Hph, Hn; apply delay_S.
  - cbn [fst]. by apply others_schedule.
Qed.

(** The bridge waits 1, 2, 4, 8, 16 and then 30 seconds between attempts, and
    starts over after a session that reached [Connected]: after any run of
    events, unless the kernel has shut down, the delay in force is
    [min (2^n) 30] seconds for [n] the attempts that failed since then, and a
    sleeping bridge publishes exactly that delay. *)
Theorem retry_schedule w es :
  kernel_ok w -> Forall env_ok es ->
  let b := (run es (run_init cfg w)).1 in
  br_phase b <> PhReturned ->
  br_backoff b = delay (misses es (run_init cfg w) 0)
  /\ (br_phase b = PhSleep -> exists k d,
        br_status b = Failed k d (delay (misses es (run_init cfg w) 0))).
Proof.
  intros Hw Hes b Hr.
  assert (on_schedule b (misses es (run_init cfg w) 0)) as [|Hd]; [|done|].
  { assert (on_schedule (run_init cfg w) 0) as H0.
    { right. unfold run_init, one_cycle, effective_transports. by destruct (bc_transports cfg). }
    subst b. clear Hr Hes. revert H0. generalize (run_init cfg w) 0%nat.
    induction es as [|e es IH]; intros b n Hn; [done|]. simpl.
    pose proof (step_schedule e b n Hn) as H1. destruct (step e b) as [b1 m]. simpl in *.
    specialize (IH b1 _ H1). by destruct (run es b1). }
  split; [done|]. intros Hs. rewrite <- Hd.
  destruct (bridge_run_ok es _ (run_init_ok w Hw) Hes) as [_ Hp _]. fold b in Hp.
  unfold phase_ok in Hp. rewrite Hs in Hp. apply Hp.
Qed.
End bridge_props.

(** ** What the bridge puts on the wire *)
Section wire_out.
Context {WI : Wire} {ML : MacLaws}.

Lemma tag_frame_valid k f : ws_mac_valid (Some k) (tag_frame (Some k) f) = true.
Proof.
  unfold ws_mac_valid, tag_frame. simpl. rewrite flag_set_lor. simpl.
  erewrite header_without_mac. apply verify_compute.
Qed.

(** Every frame the bridge sends after its session key is established passes
    the gate of a host that holds the same key: for any queue of items, each
    frame written has a payload of a queued frame and a valid tag, keeps the
    target except that a kernel-generated frame (target [client]) is
    readdressed to the host's kernel, and nothing else but keepalive pings is
    written. *)
Theorem bridge_writes_accepted send k es out :
  out ∈ bridge_write_loop send (Some k) es ->
  out = OutPing \/ exists f g, out = OutFrame g /\ WItem (OFrame f) ∈ es
    /\ f_payload g = f_payload f /\ ws_mac_valid (Some k) g = true
    /\ f_target g = (if decide (target_as_str f = Some "client")
                     then target_bytes "kernel" else f_target f).
Proof.
  induction es as [|e es IH]; simpl; [set_solver|]. intros Hin.
  assert (out ∈ bridge_write_loop send (Some k) es -> out = OutPing \/ exists f g,
    out = OutFrame g /\ WItem (OFrame f) ∈ e :: es /\ f_payload g = f_payload f
    /\ ws_mac_valid (Some k) g = true
    /\ f_target g = (if decide (target_as_str f = Some "client")
                     then target_bytes "kernel" else f_target f)) as Htail.
  { intros [|(f & g & ? & ? & ?)]%IH; [by left|right]. exists f, g. split; [done|]. split; [by right|done]. }
  destruct e as [[f|? ?]| |]; simpl in Hin; [|by auto|by apply elem_of_nil in Hin|].
  - destruct (send _) eqn:Hsend in Hin; [|by apply elem_of_nil in Hin].
    apply elem_of_cons in Hin as [->|Hin]; [|by auto]. right. eexists f, _. split; [done|].
    split; [left|]. split; [by case_bool_decide|]. split; [apply tag_frame_valid|].
    case_bool_decide; by case_decide.
  - destruct (send OutPing); [|by apply elem_of_nil in Hin].
    apply elem_of_cons in Hin as [->|Hin]; auto.
Qed.
End wire_out.

(** ** Dialling *)

(** The dialled URL is always a WebSocket URL, and [https] never degrades. *)
Lemma resolve_ws_url_scheme url u :
  resolve_ws_url url = Ok u -> starts_with "ws://" u = true \/ starts_with "wss://" u = true.
Proof.
  unfold resolve_ws_url. destruct (starts_with "ws://" url || _) eqn:Hs.
  { intros [= ->]. by apply orb_true_iff. }
  destruct (split_once_str _ _) as [[scheme rest]|]; [|done].
  unfold ws_scheme_for. destruct (scheme =s "http"); [|destruct (scheme =s "https"); [|done]];
    destruct (split_once "/" rest) as [[h q]|]; intros [= <-]; simpl; auto.
Qed.

Lemma resolve_https rest u : resolve_ws_url ("https://" +:+ rest) = Ok u -> starts_with "wss://" u = true.
Proof.
  unfold resolve_ws_url. simpl. change ("" +:+ rest) with rest.
  by destruct (split_once "/" rest) as [[h q]|]; intros [= <-].
Qed.

(** A base URL written with a final slash does not get the gateway path. *)
Lemma final_slash_keeps_root :
  resolve_ws_url "http://host:8000" = Ok "ws://host:8000/ws"
  /\ resolve_ws_url "http://host:8000/" = Ok "ws://host:8000/".
Proof. done. Qed.

(** A pinned host is dialled with its pins or not at all: when [ca_cert_path]
    is set and the URL is [https] or [wss], a successful [connect] went through
    the TLS dialler with a non-empty list of certificates, each parsed from that
    file, and the verifier built from them accepts only one of these
    certificates. *)
Theorem pinned_host_dialled d url u path token :
  resolve_ws_url url = Ok u -> starts_with "wss://" u = true ->
  connect d (TDirect url (Some path)) token = Ok tt ->
  exists pem pinned protocol,
    dl_read_pem d path = Ok pem /\ pinned <> []
    /\ dl_tls d u protocol (Some pinned) = Some (Ok tt)
    /\ (forall c, c ∈ pinned -> Ok c ∈ dl_parse_pem d pem)
    /\ (forall c, verify_server_cert pinned c = true <-> c ∈ pinned).
Proof.
  intros Hu Hw. simpl. unfold connect_direct. rewrite Hu, Hw.
  destruct (dl_request d u); [|done]. destruct (dl_header d _); [|done].
  unfold load_pinned_config. destruct (dl_read_pem d path) as [pem|]; [|done].
  unfold pinned_client_config.
  destruct (pinned_certs (dl_parse_pem d pem)) as [[|p ps]|] eqn:Hp; try done.
  destruct (dl_versions d); [|done].
  destruct (dl_tls d u _ (Some (p :: ps))) as [[[]|]|] eqn:Ht; try done.
  intros _. eexists pem, (p :: ps), _. split; [done|]. split; [done|]. split; [exact Ht|]. split.
  - generalize dependent (p :: ps). intros cs Hp _. revert cs Hp.
    induction (dl_parse_pem d pem) as [|[c|e] l IH]; simpl; intros cs Hp; simplify_eq.
    + set_solver.
    + destruct (pinned_certs l); simplify_eq. intros c' [->|Hin]%elem_of_cons; [left|].
      right. by eapply IH.
  - intros c. unfold verify_server_cert. rewrite existsb_exists. split.
    + intros (x & Hx & <-%bool_decide_eq_true). by apply list_elem_of_In.
    + intros Hc. exists c. split; [by apply list_elem_of_In|by apply bool_decide_eq_true].
Qed.
