(* ===== verification/BridgeRuns.v ===== *)
(** * Concrete runs of the bridge

    A concrete wire codec and host on which the hypotheses of the bridge's
    theorems hold, and the session a host opens without a nonce. *)

From S2P Require Import Prelude Errors Wire Validate Registry RegistryProps Events Kernel.
From S2P Require Import Websocket Config Bridge KernelInv ConnectionProps RouterProps BridgeProps.

Definition host_ack (nonce : bytes) : Payload :=
  PPluginRegisterAck (mkAck true "" [] nonce).

(** [01] and [02] acknowledge with and without a nonce, [04] is an event. *)
Definition bridge_decode (b : bytes) : option Envelope :=
  match b with
  | [Byte.x01] => Some (envelope_of (host_ack [Byte.x07]))
  | [Byte.x02] => Some (envelope_of (host_ack []))
  | [Byte.x04] => Some (envelope_of (PEvent (mkEvent "e" "t" [] 0)))
  | _ => None
  end.

#[local] Instance bridge_wire : Wire := {|
  encode _ := Some [Byte.x00];
  decode := bridge_decode;
  crc32 _ := 0%Z;
  target_as_str f := Some (string_of_bytes (f_target f));
  parse_frag_header _ := None;
  serialize_header _ := [];
  compute_tag k _ _ := k;
  verify_tag k _ _ t := bool_decide (t = k);
  derive_session_key ikm nonce _ := ikm ++ nonce;
  perm_str_name _ := "";
  perm_from_str_name _ := None;
  action_status_i32 _ := 0%Z;
  device_os_try_from _ := None;
  PROTOCOL_VERSION := "1.7"
|}.

#[local] Instance bridge_mac_laws : MacLaws.
Proof. split; [|done]. intros k h p. by apply bool_decide_eq_true_2. Qed.

Definition host_tag : bytes := str_bytes "s" ++ [Byte.x07].

(** Every frame of the host is for [dev.cam]; the first byte of a two-byte
    message says whether it is tagged. *)
Definition host_frame (data : bytes) : Result Frame WireError :=
  match data with
  | [Byte.xff; x] => Ok (mkFrame FRAME_MAGIC 1 1 (str_bytes "dev.cam") 0 [x] (Some host_tag))
  | [x] => Ok (mkFrame FRAME_MAGIC 0 1 (str_bytes "dev.cam") 0 [x] None)
  | _ => Err WFrameMagicMismatch
  end.

Definition bridge_cfg : BridgeConfig :=
  mkBridgeConfig "https://host" [] (Some "tok") (Some "s") ["cam"] (Some "pin.pem") 15.

Definition open_dial : Dial :=
  mkDial (fun _ => Ok "PEM") (fun _ => [Ok [Byte.x30]]) (Ok tt) (fun _ => Ok tt) (fun _ => Ok tt)
    (fun _ _ _ => Some (Ok tt)) (fun _ _ => Some (Ok tt)).
Definition refused_dial : Dial :=
  mkDial (fun _ => Ok "PEM") (fun _ => [Ok [Byte.x30]]) (Ok tt) (fun _ => Ok tt) (fun _ => Ok tt)
    (fun _ _ _ => Some (Err (WsIo false (IoOther "ConnectionRefused") "refused")))
    (fun _ _ => None).

Definition bridge_world : World :=
  mkWorld registry_new ∅ bus_new None 0 0 0 None None demo_clk true.

Definition received (data : bytes) : BridgeEvent :=
  BReceived (RMsg (MBinary data)) 5 6 9 true.

(** Two refused dials, then a session and one event for the camera. *)
Definition bridge_events : list BridgeEvent :=
  [BDialled refused_dial None; BSlept; BDialled refused_dial None; BSlept;
   BDialled open_dial None; received [Byte.x01]; received [Byte.xff; Byte.x04]].

Definition bridge_at (es : list BridgeEvent) : Bridge * list IncomingMessage :=
  bridge_run host_frame bridge_cfg "dev" es (run_init bridge_cfg bridge_world).

Lemma bridge_world_ok : kernel_ok bridge_world.
Proof. split; [apply registry_new_ok|intros k p Hk; by apply (lookup_empty_Some k p) in Hk|]. by vm_compute. Qed.

Definition camera_message : IncomingMessage :=
  mkMsg BRIDGE_CONN_ID_BASE (mkFrame FRAME_MAGIC 0 1 (target_bytes "cam") 0 [Byte.x04] None) 5 6 9.


Lemma bridge_relays_verified_witness :
  exists es1 data tx cell addr up es2 key frame,
    bridge_events = es1 ++ BReceived (RMsg (MBinary data)) tx cell addr up :: es2
    /\ opened_with host_frame bridge_cfg "dev" bridge_world es1 key
    /\ relayed host_frame "dev" camera_message data key frame.
Proof.
  apply (bridge_relays_verified host_frame bridge_cfg "dev" bridge_world bridge_events
           camera_message).
  assert ((bridge_at bridge_events).2 = [camera_message]) as Hm by (vm_compute; reflexivity).
  unfold bridge_at in Hm. rewrite Hm. left.
Defined.

Lemma retry_schedule_witness :
  br_backoff (bridge_at (take 3 bridge_events)).1 = 2%Z.
Proof.
  apply (retry_schedule host_frame bridge_cfg "dev" bridge_world (take 3 bridge_events)
           bridge_world_ok); [repeat constructor|by vm_compute].
Defined.

Lemma bridge_writes_accepted_witness :
  OutFrame (tag_frame (Some host_tag) (build_frame "cam" 0 [])) = OutPing
  \/ exists f g, OutFrame (tag_frame (Some host_tag) (build_frame "cam" 0 [])) = OutFrame g
     /\ WItem (OFrame f) ∈ [WItem (OFrame (build_frame "cam" 0 []))]
     /\ f_payload g = f_payload f /\ ws_mac_valid (Some host_tag) g = true
     /\ f_target g = (if decide (target_as_str f = Some "client")
                      then target_bytes "kernel" else f_target f).
Proof.
  apply (bridge_writes_accepted (fun _ => true) host_tag
           [WItem (OFrame (build_frame "cam" 0 []))]).
  left.
Defined.

Lemma pinned_host_dialled_witness :
  exists pem pinned protocol,
    dl_read_pem open_dial "pin.pem" = Ok pem /\ pinned <> []
    /\ dl_tls open_dial "wss://host/ws" protocol (Some pinned) = Some (Ok tt)
    /\ (forall c, c ∈ pinned -> Ok c ∈ dl_parse_pem open_dial pem)
    /\ (forall c, verify_server_cert pinned c = true <-> c ∈ pinned).
Proof.
  apply (pinned_host_dialled open_dial "https://host" "wss://host/ws" "pin.pem" "tok");
    reflexivity.
Defined.

(** A host that acknowledges without a nonce gets a session without frame
    authentication although a secret is configured: the bridge publishes
    [Connected] and relays an untagged frame. *)
Lemma empty_nonce_unverified :
  bc_secret bridge_cfg <> None
  /\ br_status (bridge_at [BDialled open_dial None; received [Byte.x02]; received [Byte.x04]]).1
     = Connected Direct
  /\ (bridge_at [BDialled open_dial None; received [Byte.x02]; received [Byte.x04]]).2
     = [camera_message].
Proof. split; [done|]. split; vm_compute; reflexivity. Qed.
