(* ===== verification/Api.v ===== *)
(** * The HTTP API (src/api/server.rs, middleware.rs, rate_limit.rs, routes.rs,
    src/utils/url.rs, the ticket endpoint of src/auth/pairing.rs)

    A request passes the layers of [create_router_full] in the order axum runs
    them (authentication, rate limit, admin gate) and reaches the handler of its
    route; a response is a status code and a body. Path, query and JSON
    extraction are axum's and serde's: a route carries the extracted values. *)

From S2P Require Import Prelude Errors Wire Validate Registry Auth Kernel Router.
From S2P Require Import Config Sandbox Supervisor Loader Bridge.

(** ** Responses *)
Record ApiError := mkApiError { ae_code : Z; ae_message : string; ae_retryable : bool }.

Definition not_found (msg : string) : ApiError := mkApiError 404 msg false.
Definition conflict (msg : string) : ApiError := mkApiError 409 msg false.
Definition unprocessable (msg : string) : ApiError := mkApiError 422 msg false.
Definition forbidden (msg : string) : ApiError := mkApiError 403 msg false.
Definition bad_request (msg : string) : ApiError := mkApiError 400 msg false.
Definition gone (msg : string) : ApiError := mkApiError 410 msg false.
Definition too_many_requests (msg : string) : ApiError := mkApiError 429 msg true.
Definition unavailable (msg : string) : ApiError := mkApiError 503 msg false.
Definition internal (msg : string) : ApiError := mkApiError 500 msg true.

Record PluginInfo := mkPluginInfo {
  pi_plugin_id : string;
  pi_state : string;
  pi_registered_at : Z;
  pi_permissions : list string;
  pi_device_id : string;
  pi_last_seen : Z
}.

Record DeviceInfoView := mkDeviceView {
  dv_device_id : string;
  dv_os : string;
  dv_arch : string;
  dv_os_version : string;
  dv_capabilities : list string;
  dv_last_seen : Z;
  dv_state : string;
  dv_created : Z;
  dv_expires : Z
}.

Record TicketView := mkTicketView {
  tv_ticket : string;
  tv_ws : string;
  tv_ttl_secs : Z;
  tv_expires_at : Z;
  tv_cert_pem : option string;
  tv_cert_sha256 : option string
}.

Inductive Body :=
| BodyNone
| BodyText (s : string)
| BodyError (e : ApiError)
| BodyHealth (uptime_secs : Z) (plugins : nat)
| BodyPlugins (l : list PluginInfo)
| BodyPlugin (p : PluginInfo)
| BodyDevices (l : list DeviceInfoView)
| BodyLogs (l : list string)
| BodyTicket (t : TicketView)
| BodyPaired (p : PairPayload).

Record Http := mkHttp { ht_status : Z; ht_body : Body }.

Definition fail (e : ApiError) : Http := mkHttp (ae_code e) (BodyError e).

(** ** Routes of [create_router_full] *)
Inductive Route :=
| GetHealth
| PostConsume (ticket : option string)
| GetMetrics
| GetPlugins
| GetPlugin (id : string)
| GetLogs (id : string) (lines : option Z)
| GetDevices
| PostStart (id : string)
| PostStop (id : string)
| PostRestart (id : string)
| PostPair (ttl_secs : option Z) (name host : option string).

Definition is_public (r : Route) : bool :=
  match r with GetHealth | PostConsume _ => true | _ => false end.

Definition is_admin (r : Route) : bool :=
  match r with
  | PostStart _ | PostStop _ | PostRestart _ | PostPair _ _ _ => true
  | _ => false
  end.

(** ** Middleware *)

(** [VerifiedSub] and [VerifiedPermissions] in the request's extensions *)
Record Verified := mkVerified { vf_sub : string; vf_permissions : list string }.

(** governor's keyed limiter with a rate and a burst *)
Class RateGovernor := {
  rate_bucket : Type;
  rate_check : Z * Z -> Z -> option rate_bucket -> rate_bucket * bool;
  rate_recent : Z * Z -> Z -> rate_bucket -> bool
}.

(** [build_rate_limiter]: zero is raised to one *)
Definition build_rate_limiter (rps burst : Z) : Z * Z := (Z.max rps 1, Z.max burst 1).

Section middleware.
Context `{Wire, Jwt, RateGovernor}.

Definition auth_middleware (validator : option JwtValidator) (now_secs : Z)
    (authorization : option string) : Result (option Verified) Z :=
  match validator with
  | None => Ok None
  | Some v =>
      match authorization ≫= strip_prefix "Bearer " with
      | None => Err 401%Z
      | Some token =>
          match jwt_validate v now_secs token with
          | Err _ => Err 401%Z
          | Ok claims => Ok (Some (mkVerified (cl_sub claims) (cl_permissions claims)))
          end
      end
  end.

Definition require_kernel_admin (ext : option Verified) : Result unit Z :=
  match ext with
  | Some v => if str_mem (perm_str_name PermissionKernelAdmin) (vf_permissions v)
              then Ok tt else Err 403%Z
  | None => Ok tt
  end.

(** The keys of the limiter; it exists when a validator does. *)
Abbreviation Buckets := (gmap string rate_bucket).

Definition rate_limit_middleware (quota : option (Z * Z)) (now : Z) (ext : option Verified)
    (bs : Buckets) : Buckets * Result unit Z :=
  match quota, ext with
  | Some q, Some v =>
      let '(b, ok) := rate_check q now (bs !! vf_sub v) in
      (<[vf_sub v := b]> bs, if ok then Ok tt else Err 429%Z)
  | _, _ => (bs, Ok tt)
  end.

(** [limiter.retain_recent()], once a minute *)
Definition rate_limiter_prune (quota : Z * Z) (now : Z) (bs : Buckets) : Buckets :=
  base.filter (fun kb => rate_recent quota now kb.2 = true) bs.

(** The layers around a route's handler *)
Definition gate (validator : option JwtValidator) (quota : option (Z * Z)) (now now_secs : Z)
    (authorization : option string) (r : Route) (bs : Buckets)
    : Buckets * Result unit Z :=
  if is_public r then (bs, Ok tt)
  else
    match auth_middleware validator now_secs authorization with
    | Err code => (bs, Err code)
    | Ok ext =>
        match rate_limit_middleware quota now ext bs with
        | (bs, Err code) => (bs, Err code)
        | (bs, Ok _) => (bs, if is_admin r then require_kernel_admin ext else Ok tt)
        end
    end.
End middleware.

(** ** The advertise URL (src/utils/url.rs) *)

(** The [url] crate; [setters] that fail return [None]. *)
Class Urls := {
  url : Type;
  url_parse : string -> Result url string;
  url_to_string : url -> string;
  url_port : url -> option Z;
  url_path : url -> string;
  url_scheme : url -> string;
  url_set_port : Z -> url -> url;
  url_set_path : string -> url -> url;
  url_set_scheme : string -> url -> option url
}.

Definition str_contains_str (needle s : string) : bool :=
  bool_decide (is_Some (split_once_str needle s)).

(** [lan] is [detect_lan_ip]: the address and whether it is loopback. *)
Definition advertised_host (port : Z) (host_override : option string)
    (lan : option (string * bool)) : Result string VynkorError :=
  match str_trim <$> host_override with
  | Some (String c h) => Ok (String c h)
  | _ =>
      match lan with
      | None => Err (ENetworkError ("could not auto-detect a LAN address — pass a host (e.g. "
                       +:+ "100.64.0.2 or myhost.tailnet)"))
      | Some (ip, true) =>
          Err (ENetworkError ("detected loopback " +:+ ip
                 +:+ " — a phone scanning this QR would reach itself; "
                 +:+ "pass a LAN IP or Tailscale name"))
      | Some (ip, false) => Ok (ip +:+ ":" +:+ fmt_Z port)
      end
  end.

Definition resolve_advertise_url `{Urls} (port : Z) (tls : bool) (host_override : option string)
    (lan : option (string * bool)) : Result string VynkorError :=
  let scheme := if tls then "wss" else "ws" in
  let? host := advertised_host port host_override lan in
  let bare := negb (str_contains_str "://" host) in
  match url_parse (if bare then scheme +:+ "://" +:+ host else host) with
  | Err e => Err (EInvalidInput ("bad host '" +:+ host +:+ "': " +:+ e))
  | Ok u =>
      let u := if bare && bool_decide (url_port u = None) then url_set_port port u else u in
      let u := if str_is_empty (url_path u) || (url_path u =s "/")
               then url_set_path DEFAULT_WS_PATH u else u in
      let finish target :=
        match url_set_scheme target u with
        | Some u => Ok (url_to_string u)
        | None => Err (EInvalidInput ("bad host '" +:+ host +:+ "'"))
        end in
      if bare then finish scheme
      else if (url_scheme u =s "ws") || (url_scheme u =s "wss") then Ok (url_to_string u)
      else match ws_scheme_for (url_scheme u) with
           | Some target => finish target
           | None => Err (EInvalidInput ("bad host '" +:+ host
                            +:+ "': scheme must be ws, wss, http or https"))
           end
  end.

(** ** Handlers *)

(** What the outside answers while a request is served: the clock, the fork and
    shim of a start, the wait of a stop, file accesses, random draws, the LAN
    probe, the certificate and its fingerprint, the rendered metrics. *)
Record ApiOs := mkApiOs {
  ao_now_secs : Z;
  ao_forked : SpawnAnswer;
  ao_started : Started;
  ao_in_grace : bool;
  ao_ticket_random : bytes;
  ao_pair : PairEnv;
  ao_lan : option (string * bool);
  ao_cert_pem : Result (option string) VynkorError;
  ao_fingerprint : string -> option string;
  ao_metrics : string
}.

Record Pairing := mkPairing {
  pg_cfg : PairingConfig;
  pg_port : Z;
  pg_tls : bool
}.

(** The fixed part of [AppState]; [as_started_at] is a clock reading. *)
Record AppState := mkAppState {
  as_validator : option JwtValidator;
  as_started_at : Z;
  as_plugin_defs : list PluginDef;
  as_pairing : option Pairing
}.

(** What requests share and change. *)
Record ApiWorld := mkApiWorld {
  aw_manager : PluginManager;
  aw_tickets : DiskFile;
  aw_devices : DeviceStore
}.

Definition set_manager (m : PluginManager) (w : ApiWorld) : ApiWorld :=
  mkApiWorld m (aw_tickets w) (aw_devices w).

Definition MAX_LOG_LINES : Z := 10000.

Definition plugin_info (m : PluginManager) (e : PluginEntry) : PluginInfo :=
  mkPluginInfo (pe_plugin_id e) (plugin_state_str (pe_state e)) (pe_registered_at e)
    (mf_permissions (pe_manifest e)) (pe_device_id e)
    (match get_device (pe_device_id e) (w_reg (pm_world m)) with
     | Some d => di_last_seen d
     | None => 0%Z
     end).

Definition device_view (d : DeviceInfo) : DeviceInfoView :=
  mkDeviceView (di_device_id d) (device_os_str (di_os d)) (di_arch d) (di_os_version d)
    (di_capabilities d) (di_last_seen d) (device_state_str (di_state d)) (di_created d)
    (di_expires d).

Section handlers.
Context `{Wire, Serde, Manifests, Jwt, Crypto, !RowCodec DeviceRecord, !RowCodec TicketRecord, Urls}.

Definition start_plugin (st : AppState) (os : ApiOs) (id : string) (w : ApiWorld)
    : ApiWorld * Http :=
  if is_supervised id (aw_manager w)
  then (w, fail (conflict ("plugin '" +:+ id +:+ "' is already running")))
  else
    match List.find (fun d => pd_id d =s id) (as_plugin_defs st) with
    | None => (w, fail (not_found ("plugin '" +:+ id +:+ "' is not declared in config")))
    | Some def =>
        match validate_plugin_def def with
        | Err (EPermissionDenied _) =>
            (w, fail (forbidden "plugin requests a permission not granted by config"))
        | Err _ => (w, fail (unprocessable "plugin definition failed validation"))
        | Ok _ =>
            match mgr_start (config_from_def def) (ao_forked os) (ao_started os)
                    (aw_manager w) with
            | (m, Ok _) => (set_manager m w, mkHttp 200 BodyNone)
            | (m, Err _) =>
                (set_manager m w, fail (unprocessable ("failed to start plugin '" +:+ id +:+ "'")))
            end
        end
    end.

Definition stop_plugin (os : ApiOs) (id : string) (w : ApiWorld) : ApiWorld * Http :=
  match mgr_get id (aw_manager w) with
  | None => (w, fail (not_found ("plugin '" +:+ id +:+ "' is not registered")))
  | Some _ =>
      match mgr_stop id (ao_in_grace os) (aw_manager w) with
      | (m, Ok _) => (set_manager m w, mkHttp 200 BodyNone)
      | (m, Err (EPluginNotFound _)) =>
          (set_manager m w,
           fail (not_found ("plugin '" +:+ id +:+ "' exited before stop completed")))
      | (m, Err _) =>
          (set_manager m w, fail (unprocessable ("failed to stop plugin '" +:+ id +:+ "'")))
      end
  end.

Definition restart_plugin (id : string) (w : ApiWorld) : ApiWorld * Http :=
  match mgr_get id (aw_manager w) with
  | None => (w, fail (not_found ("plugin '" +:+ id +:+ "' is not registered")))
  | Some _ =>
      match mgr_restart id (aw_manager w) with
      | (m, Ok _) => (set_manager m w, mkHttp 202 BodyNone)
      | (m, Err _) =>
          (set_manager m w, fail (unprocessable ("failed to restart plugin '" +:+ id +:+ "'")))
      end
  end.

Definition get_plugin_logs (id : string) (lines : option Z) (w : ApiWorld) : Http :=
  if bool_decide (mgr_get id (aw_manager w) = None) && negb (is_supervised id (aw_manager w))
  then fail (not_found ("plugin '" +:+ id +:+ "' is not registered"))
  else
    let n := Z.min (default 100%Z lines) MAX_LOG_LINES in
    mkHttp 200 (BodyLogs (mgr_logs id (Z.to_nat n) (aw_manager w))).

Definition pairing_error (e : VynkorError) : Http :=
  match e with
  | ETicket TUnknown => fail (not_found "unknown ticket")
  | ETicket TAlreadyUsed => fail (conflict "ticket already used")
  | ETicket TExpired => fail (gone "ticket expired")
  | EInvalidInput msg | ENetworkError msg => fail (unprocessable msg)
  | _ => fail (internal "pairing failed")
  end.

(** [PairingService::create_ticket] *)
Definition create_ticket (p : Pairing) (os : ApiOs) (ttl_secs : option Z)
    (name host : option string) (tickets : DiskFile)
    : DiskFile * Result TicketView VynkorError :=
  let ttl_secs := ticket_ttl ttl_secs in
  let name := match str_trim <$> name with
              | Some EmptyString => None
              | n => n
              end in
  let too_long := match name with
                  | Some n => (MAX_NAME_LEN <? length (char_heads n))%nat
                  | None => false
                  end in
  if too_long
  then (tickets, Err (EInvalidInput ("name longer than " +:+ fmt_N (N.of_nat MAX_NAME_LEN)
                        +:+ " chars")))
  else
    match resolve_advertise_url (pg_port p) (pg_tls p) host (ao_lan os) with
    | Err e => (tickets, Err e)
    | Ok ws =>
        match issue_at (ao_ticket_random os) (pe_ticket_io (ao_pair os)) (ao_now_secs os)
                ttl_secs name ws tickets with
        | (f, Err e) => (f, Err e)
        | (f, Ok (ticket, record)) =>
            match ao_cert_pem os with
            | Err e => (f, Err e)
            | Ok cert_pem =>
                (f, Ok (mkTicketView ticket ws ttl_secs (tk_expires_at record) cert_pem
                          (cert_pem ≫= ao_fingerprint os)))
            end
        end
    end.

Definition pairing_of (st : AppState) : Result Pairing Http :=
  match as_pairing st with
  | Some p => Ok p
  | None => Err (fail (unavailable "pairing requires jwt_secret in config"))
  end.

Definition pair_device (st : AppState) (os : ApiOs) (ttl_secs : option Z)
    (name host : option string) (w : ApiWorld) : ApiWorld * Http :=
  match pairing_of st with
  | Err h => (w, h)
  | Ok p =>
      match create_ticket p os ttl_secs name host (aw_tickets w) with
      | (f, Ok view) =>
          (mkApiWorld (aw_manager w) f (aw_devices w), mkHttp 200 (BodyTicket view))
      | (f, Err e) => (mkApiWorld (aw_manager w) f (aw_devices w), pairing_error e)
      end
  end.

(** [allowed] is the answer of the global consume limiter; the device id draws
    of [ao_pair] are enough when [pairing_consume] answers. *)
Definition consume_ticket (st : AppState) (os : ApiOs) (allowed : bool)
    (ticket : option string) (w : ApiWorld) : option (ApiWorld * Http) :=
  match pairing_of st with
  | Err h => Some (w, h)
  | Ok p =>
      if negb allowed then Some (w, fail (too_many_requests "too many pairing attempts"))
      else
        match ticket with
        | None => Some (w, fail (bad_request ("body must be {" +:+ quoted "ticket" +:+ ": "
                                               +:+ quoted "..." +:+ "}")))
        | Some t =>
            match pairing_consume (pg_cfg p) (ao_pair os) t (aw_tickets w) (aw_devices w) with
            | None => None
            | Some (f, ds, Ok payload) =>
                Some (mkApiWorld (aw_manager w) f ds, mkHttp 200 (BodyPaired payload))
            | Some (f, ds, Err e) => Some (mkApiWorld (aw_manager w) f ds, pairing_error e)
            end
        end
  end.

(** The handler of a route; [None] only while [fresh_device_id] still draws. *)
Definition handle (st : AppState) (os : ApiOs) (now : Z) (allowed : bool) (r : Route)
    (w : ApiWorld) : option (ApiWorld * Http) :=
  let m := aw_manager w in
  match r with
  | GetHealth => Some (w, mkHttp 200 (BodyHealth (duration_since now (as_started_at st) / 1000000000)
                                        (length (mgr_list m))))
  | PostConsume t => consume_ticket st os allowed t w
  | GetMetrics => Some (w, mkHttp 200 (BodyText (ao_metrics os)))
  | GetPlugins => Some (w, mkHttp 200 (BodyPlugins (plugin_info m <$> mgr_list m)))
  | GetPlugin id =>
      Some (w, match mgr_get id m with
               | Some e => mkHttp 200 (BodyPlugin (plugin_info m e))
               | None => mkHttp 404 BodyNone
               end)
  | GetLogs id lines => Some (w, get_plugin_logs id lines w)
  | GetDevices =>
      Some (w, mkHttp 200 (BodyDevices (device_view <$> list_devices (w_reg (pm_world m)))))
  | PostStart id => Some (start_plugin st os id w)
  | PostStop id => Some (stop_plugin os id w)
  | PostRestart id => Some (restart_plugin id w)
  | PostPair ttl name host => Some (pair_device st os ttl name host w)
  end.

(** One request through the whole stack *)
Definition serve `{RateGovernor} (st : AppState) (quota : option (Z * Z)) (os : ApiOs)
    (now : Z) (allowed : bool) (authorization : option string) (r : Route)
    (bs : gmap string rate_bucket) (w : ApiWorld)
    : option (gmap string rate_bucket * ApiWorld * Http) :=
  match gate (as_validator st) quota now (ao_now_secs os) authorization r bs with
  | (bs, Err code) => Some (bs, w, mkHttp code BodyNone)
  | (bs, Ok _) =>
      match handle st os now allowed r w with
      | Some (w, h) => Some (bs, w, h)
      | None => None
      end
  end.
End handlers.
