(* ===== verification/ApiProps.v ===== *)
(** * Theorems about the HTTP API

    Who gets past the layers, what a start may run, and where the routes differ
    from what their comments promise. *)

From S2P Require Import Prelude Errors Wire Validate Registry Auth Kernel Router.
From S2P Require Import Config Sandbox Supervisor Loader Bridge BridgeProps Api.

Section api_props.
Context `{Wire, Serde, Manifests, Jwt, Crypto, !RowCodec DeviceRecord, !RowCodec TicketRecord}.
Context `{Urls, RateGovernor}.

(** ** Authorization *)

(** The bearer of a valid token *)
Definition bears (v : JwtValidator) (now_secs : Z) (authorization : option string)
    (claims : PluginClaims) : Prop :=
  exists token, authorization = Some ("Bearer " +:+ token)
    /\ jwt_validate v now_secs token = Ok claims.

Lemma auth_middleware_Ok v secs a ext :
  auth_middleware (Some v) secs a = Ok ext ->
  exists claims, bears v secs a claims
    /\ ext = Some (mkVerified (cl_sub claims) (cl_permissions claims)).
Proof.
  unfold auth_middleware. destruct a as [h|]; [|done]. unfold mbind, option_bind.
  destruct (strip_prefix "Bearer " h) as [token|] eqn:Ht; [|done].
  destruct (jwt_validate v secs token) as [claims|] eqn:Hv; [|done]. intros [= <-].
  exists claims. split; [|done]. exists token. by apply strip_prefix_Some in Ht as ->.
Qed.

Lemma gate_Ok v quota now secs a r bs bs' :
  is_public r = false -> gate (Some v) quota now secs a r bs = (bs', Ok tt) ->
  exists claims, bears v secs a claims
    /\ (is_admin r = true -> perm_str_name PermissionKernelAdmin ∈ cl_permissions claims).
Proof.
  unfold gate. intros ->. destruct (auth_middleware _ _ _) as [ext|] eqn:Ha; [|done].
  apply auth_middleware_Ok in Ha as (claims & Hb & ->).
  destruct (rate_limit_middleware _ _ _ _) as [bs1 [[]|]]; [|done]. intros [= _ Hg].
  exists claims. split; [done|]. intros Hadm. rewrite Hadm in Hg. simpl in Hg.
  destruct (str_mem _ _) eqn:Hm; [|done]. by apply str_mem_elem.
Qed.

(** The limiter is charged to the verified subject, or to nobody. *)
Lemma gate_charges v quota now secs a r bs bs' res :
  gate (Some v) quota now secs a r bs = (bs', res) ->
  bs' = bs \/ exists claims, bears v secs a claims
    /\ forall k, k <> cl_sub claims -> bs' !! k = bs !! k.
Proof.
  unfold gate. destruct (is_public r); [intros [= <- _]; by left|].
  destruct (auth_middleware _ _ _) as [ext|] eqn:Ha; [|intros [= <- _]; by left].
  apply auth_middleware_Ok in Ha as (claims & Hb & ->).
  unfold rate_limit_middleware. destruct quota as [q|]; [|intros [= <- _]; by left]. simpl.
  destruct (rate_check _ _ _) as [b []]; simpl; intros [= <- _]; right; exists claims;
    (split; [done|]); intros k Hk; by rewrite lookup_insert_ne.
Qed.


(** The two permission checks disagree on names: a token that names the
    permission the short way passes the router's check and not this one. *)
Lemma short_admin_name_refused sub p :
  p <> perm_str_name PermissionKernelAdmin ->
  normalize_permission p = normalize_permission (perm_str_name PermissionKernelAdmin) ->
  require_kernel_admin (Some (mkVerified sub [p])) = Err 403%Z
  /\ forall r e, by_plugin_id r !! sub = Some e -> mf_permissions (pe_manifest e) = [p] ->
       check_permission r sub PermissionKernelAdmin = Ok tt.
Proof.
  intros Hne Hn. split.
  - unfold require_kernel_admin. simpl. rewrite orb_false_r.
    destruct (str_eqb_spec (perm_str_name PermissionKernelAdmin) p); congruence.
  - intros r e He Hm. unfold check_permission, get. rewrite He, Hm. simpl.
    by rewrite Hn, str_eqb_refl.
Qed.

(** ** Handlers *)

(** A start over the API runs only what the configuration declares: it
    answers 200 only for a plugin that was not supervised, whose definition is
    in the configuration and passes validation (so every permission its manifest
    requests is granted there), and the process it leaves supervised was spawned
    from exactly that definition. In every other case the answer is an error
    with the JSON envelope. *)
Theorem start_runs_only_declared st os id w w' h :
  start_plugin st os id w = (w', h) ->
  (ht_status h = 200%Z /\ is_supervised id (aw_manager w) = false
   /\ exists def manifest, def ∈ as_plugin_defs st /\ pd_id def = id
        /\ validate_plugin_def def = Ok manifest
        /\ exists p, mgr_start (config_from_def def) (ao_forked os) (ao_started os) (aw_manager w)
             = (aw_manager w', Ok p))
  \/ (exists e, h = fail e /\ ae_code e ∈ [403; 404; 409; 422]%Z).
Proof.
  unfold start_plugin. destruct (is_supervised id _) eqn:Hs.
  { intros [= _ <-]. right. eexists. split; [done|set_solver]. }
  destruct (List.find _ _) as [def|] eqn:Hf;
    [|intros [= _ <-]; right; eexists; split; [done|set_solver]].
  apply List.find_some in Hf as [Hin Hid%str_eqb_eq].
  destruct (validate_plugin_def def) as [m|e] eqn:Hv.
  - destruct (mgr_start _ _ _ _) as [m1 [p|e]] eqn:Hm; intros [= <- <-].
    + left. split; [done|]. split; [done|]. exists def, m.
      split; [by apply list_elem_of_In|]. eauto.
    + right. eexists. split; [done|set_solver].
  - intros Hr. right. destruct e; injection Hr as _ <-; eexists; (split; [done|set_solver]).
Qed.

(** A plugin that was started and has not registered yet cannot be stopped over
    the API: the route looks at the registry only. *)
Lemma stop_misses_unregistered os id w :
  mgr_get id (aw_manager w) = None -> is_supervised id (aw_manager w) = true ->
  stop_plugin os id w = (w, fail (not_found ("plugin '" +:+ id +:+ "' is not registered"))).
Proof. intros Hg _. unfold stop_plugin. by rewrite Hg. Qed.

(** Stopping a registered plugin always removes its registration. *)
Lemma stop_unregisters os id w w' h e :
  mgr_get id (aw_manager w) = Some e -> stop_plugin os id w = (w', h) ->
  pm_world (aw_manager w') = unregister id (pm_world (aw_manager w)).
Proof.
  intros Hg. unfold stop_plugin. rewrite Hg. unfold mgr_stop.
  destruct (Supervisor.stop_plugin _ _ _) as [s [?|[]]]; by intros [= <- _].
Qed.

(** ** Tickets *)

(** A ticket minted over the API can be redeemed for exactly as long as the
    response says: the lifetime is the requested one clamped to 1..3600 seconds
    (300 by default), the response carries the expiry that is stored, the stored
    row is unused, is keyed by the hash of the ticket and holds the advertised
    URL, and no older live row is lost. *)
Theorem minted_ticket_stored p os ttl name host f rows f' view :
  read_rows f = Ok rows ->
  create_ticket p os ttl name host f = (f', Ok view) ->
  (1 <= tv_ttl_secs view <= 3600)%Z
  /\ tv_expires_at view = u64_saturating_add (ao_now_secs os) (tv_ttl_secs view)
  /\ exists row, tk_write_all (pe_ticket_io (ao_pair os))
         (base.filter (fun r => is_stale (ao_now_secs os) r = false) rows ++ [row]) f = (f', Ok tt)
     /\ tk_ticket_sha256 row = hash_ticket (tv_ticket view) /\ tk_used_at row = None
     /\ tk_expires_at row = tv_expires_at view /\ tk_ws row = tv_ws view
     /\ (forall n, tk_name row = Some n -> n <> EmptyString
           /\ (length (char_heads n) <= MAX_NAME_LEN)%nat).
Proof.
  intros Hrows. unfold create_ticket.
  set (nm := match str_trim <$> name with Some EmptyString => None | n => n end).
  assert (forall n, nm = Some n -> n <> EmptyString) as Hnm.
  { intros n. subst nm. destruct (str_trim <$> name) as [[|]|]; by intros [= <-]. }
  destruct (match nm with Some n => _ | None => false end) eqn:Hlong; [done|].
  destruct (resolve_advertise_url _ _ _ _) as [ws|]; [|done].
  unfold issue_at. rewrite Hrows.
  set (row := mkTicket _ _ _ _ _ _).
  destruct (tk_write_all _ _ f) as [f1 [[]|]] eqn:Hw; [|done].
  destruct (ao_cert_pem os); [|done]. intros [= <- <-]. simpl.
  split; [unfold ticket_ttl, MAX_TICKET_TTL_SECS; lia|]. split; [done|].
  exists row. split; [done|]. do 4 (split; [done|]). intros n Hn. split; [by apply Hnm|].
  subst row. simpl in Hn. rewrite Hn in Hlong. by apply Nat.ltb_ge.
Qed.
End api_props.

(** ** Concrete requests *)
#[local] Instance api_wire : Wire := {|
  encode _ := Some [Byte.x00];
  decode _ := None;
  crc32 _ := 0%Z;
  target_as_str _ := None;
  parse_frag_header _ := None;
  serialize_header _ := [];
  compute_tag k _ _ := k;
  verify_tag _ _ _ _ := true;
  derive_session_key ikm _ _ := ikm;
  perm_str_name p := match p with
                     | PermissionKernelAdmin => "PERMISSION_KERNEL_ADMIN"
                     | _ => "PERMISSION_OTHER"
                     end;
  perm_from_str_name _ := None;
  action_status_i32 _ := 0%Z;
  device_os_try_from _ := None;
  PROTOCOL_VERSION := "1.7"
|}.

#[local] Instance api_serde : Serde := {|
  json_to_string _ := "{}";
  json_from_slice _ := None
|}.

#[local] Instance api_manifests : Manifests := {|
  mf_exists _ := true;
  mf_validate _ := Ok (mkInstallManifest ["network"] [] None None);
  mf_raw _ := None
|}.

(** The token [t] is an administrator's. *)
#[local] Instance api_jwt : Jwt := {|
  jwt_decode _ _ _ t := if t =s "t" then Ok (mkClaims "ops" ["PERMISSION_KERNEL_ADMIN"] [] 100 0 None None)
                        else Err "bad token";
  jwt_encode _ _ := Err "unused"
|}.

#[local] Instance api_crypto : Crypto := {|
  hkdf_sha256 _ ikm info := ikm ++ info;
  sha256 b := b;
  aes_encrypt _ _ _ m := Some m;
  aes_decrypt _ _ _ c := Some c;
  base64url b := string_of_bytes b
|}.

#[local] Instance api_devices : RowCodec DeviceRecord := {|
  rows_print _ := "[]";
  rows_parse _ := Ok []
|}.
#[local] Instance api_tickets : RowCodec TicketRecord := {|
  rows_print _ := "[]";
  rows_parse _ := Ok []
|}.

#[local] Instance api_urls : Urls := {|
  url := string;
  url_parse s := Ok s;
  url_to_string u := u;
  url_port _ := Some 1%Z;
  url_path _ := "/ws";
  url_scheme _ := "ws";
  url_set_port _ u := u;
  url_set_path _ u := u;
  url_set_scheme _ u := Some u
|}.

#[local] Instance api_governor : RateGovernor := {|
  rate_bucket := unit;
  rate_check _ _ _ := (tt, true);
  rate_recent _ _ _ := true
|}.

Definition api_def : PluginDef :=
  mkPluginDef "p" "/opt/p/bin" "never" 0 [] [] false 0 None None false None ["network"] None [] [].

Definition api_state : AppState :=
  mkAppState (Some (mkValidator [Byte.x01] (mkValidation true false None false))) 0 [api_def] None.

Definition api_os : ApiOs :=
  mkApiOs 50 (Ok tt) (mkStarted (Some 42%Z) (ShimSaid None)) true [Byte.x61]
    (mkPairEnv 50 [] [] [] [] None None (Ok None)) None (Ok None) (fun _ => None) "".

Definition api_world : ApiWorld :=
  mkApiWorld (mkManager sup_new
    (mkWorld registry_new ∅ Events.bus_new None 0 0 0 None None (mkClock 0 0) true))
    FMissing (mkDeviceStore FMissing []).

Definition api_pairing : Pairing := mkPairing (mkPairingConfig "s" "vynkor" 60) 8000 false.


Lemma start_runs_only_declared_witness :
  exists w' h, start_plugin api_state api_os "p" api_world = (w', h) /\
  ((ht_status h = 200%Z /\ is_supervised "p" (aw_manager api_world) = false
   /\ exists def manifest, def ∈ as_plugin_defs api_state /\ pd_id def = "p"
        /\ validate_plugin_def def = Ok manifest
        /\ exists p, mgr_start (config_from_def def) (ao_forked api_os) (ao_started api_os)
             (aw_manager api_world) = (aw_manager w', Ok p))
  \/ (exists e, h = fail e /\ ae_code e ∈ [403; 404; 409; 422]%Z)).
Proof.
  do 2 eexists. split; [reflexivity|].
  apply (start_runs_only_declared api_state api_os "p" api_world). reflexivity.
Defined.

Lemma minted_ticket_stored_witness :
  exists f' view, create_ticket api_pairing api_os (Some 9999)%Z (Some "phone") (Some "ws://h:1/ws")
    FMissing = (f', Ok view) /\ (1 <= tv_ttl_secs view <= 3600)%Z.
Proof.
  do 2 eexists. split; [reflexivity|].
  eapply (minted_ticket_stored api_pairing api_os (Some 9999)%Z (Some "phone")
    (Some "ws://h:1/ws") FMissing); [reflexivity|reflexivity].
Defined.
