(* ===== verification/Boot.v ===== *)
(** * Booting and stopping the kernel (src/kernel/orchestrator/, src/utils/tls.rs,
    src/utils/logging.rs, src/ipc/server.rs)

    The decisions [run_with_options] takes before anything listens (who must
    authenticate, which certificate is served, which address is bound, which
    secrets each component is handed), the generation of the self-signed pair,
    the accept loop of the Unix socket and the notice of a shutdown. *)

From S2P Require Import Prelude Errors Wire Validate Registry Auth Kernel Router.
From S2P Require Import Config Sandbox Supervisor Bridge Websocket Api.

(** ** src/utils/logging.rs *)
Definition is_log_level_token (tok : string) : bool :=
  str_mem (to_ascii_lowercase tok) ["trace"; "debug"; "info"; "warn"; "error"; "off"]
  || str_mem tok ["1"; "2"; "3"; "4"; "5"]
  || str_contains "=" tok.

Definition sanitize_log_level (level : string) : string :=
  let trimmed := str_trim level in
  if negb (str_is_empty trimmed) && forallb is_log_level_token (split "," trimmed)
  then trimmed else "info".

(** ** src/utils/tls.rs *)

(** The generated pair on disk. *)
Record TlsFiles := mkTlsFiles { tf_cert : option bytes; tf_key : option bytes }.

(** What the file system and the crates answer: making the directory and taking
    its lock, generating a pair, writing the key, writing the certificate. *)
Record TlsOs := mkTlsOs {
  to_prepare : Result unit string;
  to_generate : Result (bytes * bytes) string;
  to_write_key : Result unit string;
  to_write_cert : Result unit string
}.

(** [consistent] is rustls' check that the key belongs to the certificate. *)
Definition pair_is_consistent (consistent : bytes -> bytes -> bool) (f : TlsFiles) : bool :=
  match tf_cert f, tf_key f with
  | Some c, Some k => consistent c k
  | _, _ => false
  end.

Definition ensure_self_signed (consistent : bytes -> bytes -> bool) (os : TlsOs) (f : TlsFiles)
    : TlsFiles * Result unit string :=
  match to_prepare os with
  | Err e => (f, Err e)
  | Ok _ =>
      if pair_is_consistent consistent f then (f, Ok tt)
      else
        match to_generate os with
        | Err e => (f, Err ("self-signed cert generation failed: " +:+ e))
        | Ok (cert, key) =>
            match to_write_key os with
            | Err e => (f, Err e)
            | Ok _ =>
                let f := mkTlsFiles (tf_cert f) (Some key) in
                match to_write_cert os with
                | Err e => (f, Err e)
                | Ok _ => (mkTlsFiles (Some cert) (tf_key f), Ok tt)
                end
            end
        end
  end.

Definition resolve_tls_paths (consistent : bytes -> bytes -> bool) (e : ConfEnv) (c : Config)
    (os : TlsOs) (f : TlsFiles) : TlsFiles * Result (option (string * string)) string :=
  if negb (cf_tls c) then (f, Ok None)
  else
    match cf_tls_cert_path c, cf_tls_key_path c with
    | Some cert, Some key => (f, Ok (Some (cert, key)))
    | None, None =>
        match default_tls_dir e with
        | None => (f, Err "cannot resolve a private dir for auto-generated TLS material")
        | Some dir =>
            match ensure_self_signed consistent os f with
            | (f, Err err) => (f, Err err)
            | (f, Ok _) => (f, Ok (Some (path_join dir "cert.pem", path_join dir "key.pem")))
            end
        end
    | _, _ => (f, Err ("tls is on but only one of tls_cert_path/tls_key_path is set "
                        +:+ "— provide both or neither"))
    end.

(** ** The boot decisions of [run_with_options] *)
Inductive BindIp := Loopback | Unspecified4 | Explicit (ip : string).

(** What the components are started with. *)
Record Boot := mkBoot {
  bt_validator : option JwtValidator;
  bt_tls : option (string * string);
  bt_bind : BindIp;
  bt_mac_secret : option bytes;
  bt_device_store : option string;
  bt_config_permissions : gmap string (list string);
  bt_bridge : option (BridgeConfig * string);
  bt_pairing : option PairingConfig
}.

Definition short_secret (secret : string) : string :=
  "jwt_secret is " +:+ fmt_N (N.of_nat (String.length secret)) +:+ " bytes, must be at least "
  +:+ fmt_N (N.of_nat MIN_JWT_SECRET_BYTES) +:+ " bytes (HS256 secrets shorter than this are "
  +:+ "brute-forceable)".

Definition boot_auth (c : Config) : Result (option JwtValidator) string :=
  match cf_jwt_secret c with
  | Some secret =>
      if (String.length secret <? MIN_JWT_SECRET_BYTES)%nat then Err (short_secret secret)
      else Ok (Some (with_audience (str_bytes secret) (cf_jwt_audience c)))
  | None =>
      if negb (cf_allow_no_auth c)
      then Err ("refusing to start without authentication: set `jwt_secret`, or set "
                +:+ "`allow_no_auth: true` in config to run without auth (insecure)")
      else Ok None
  end.

(** [parse_ip] is [str::parse::<IpAddr>]. *)
Definition boot_bind (parse_ip : string -> option string) (c : Config) : Result BindIp string :=
  match cf_bind c with
  | Some bind =>
      match parse_ip bind with
      | Some ip => Ok (Explicit ip)
      | None => Err ("invalid bind address '" +:+ bind +:+ "'")
      end
  | None =>
      match cf_role c, cf_jwt_secret c with
      | RoleHost, Some _ => Ok Unspecified4
      | _, _ => Ok Loopback
      end
  end.

(** The map of [HashMap::collect]: a later definition of an id replaces an earlier. *)
Definition permissions_map (defs : list PluginDef) : gmap string (list string) :=
  foldl (fun m d => <[pd_id d := pd_permissions d]> m) ∅ defs.

Definition boot (consistent : bytes -> bytes -> bool) (parse_ip : string -> option string)
    (e : ConfEnv) (c : Config) (os : TlsOs) (f : TlsFiles) : TlsFiles * Result Boot string :=
  match boot_auth c with
  | Err err => (f, Err err)
  | Ok validator =>
      match resolve_tls_paths consistent e c os f with
      | (f, Err err) => (f, Err err)
      | (f, Ok tls) =>
          match boot_bind parse_ip c with
          | Err err => (f, Err err)
          | Ok bind =>
              (f, Ok (mkBoot validator tls bind (str_bytes <$> cf_jwt_secret c)
                 (cf_jwt_secret c) (permissions_map (cf_plugins c))
                 (match cf_role c, cf_bridge c with
                  | RoleClient, Some b => Some (b, resolve_device_id e c)
                  | _, _ => None
                  end)
                 (match cf_jwt_secret c with
                  | Some secret => Some (mkPairingConfig secret
                                     (default "vynkor" (cf_jwt_audience c)) 86400)
                  | None => None
                  end)))
          end
      end
  end.

(** The router's and the supervisor's parameters *)
Definition boot_router_cfg `{Crypto} (b : Boot) (c : Config) (start_time : Z) (store : DeviceStore)
    (load : string -> Result (string * Z) VynkorError) (set_level : string -> bool)
    : RouterCfg :=
  mkRouterCfg (bt_validator b) start_time (cf_config_file c) (bt_mac_secret b)
    (cf_legacy_plugin_mac c) (Some (bt_config_permissions b)) (cf_ipc_rate_limit_rps c)
    (cf_action_caller_rate_limit_rps c) (cf_action_caller_max_concurrent c)
    (cf_action_timeout_ms c) (cf_max_conn_errors c)
    (Z.to_nat (cf_max_tracked_error_conns c)) (cf_session_idle_timeout_secs c)
    (match bt_device_store b with Some _ => Some store | None => None end)
    (cf_device_callers c) load set_level.

Definition boot_sup_opts (c : Config) (shim_bin : string) : SupOpts :=
  mkSupOpts (cf_socket_path c) (Some (cf_data_dir c)) (str_bytes <$> cf_jwt_secret c)
    (cf_legacy_plugin_mac c) (Z.to_nat (cf_log_buffer_lines c)) true
    (cf_restart_backoff_base_ms c) (cf_restart_backoff_max_ms c) shim_bin.

Definition boot_gw_cfg (b : Boot) (c : Config) : GwCfg :=
  mkGwCfg (bt_validator b) (bool_decide (is_Some (bt_device_store b)))
    (Z.to_N (cf_max_ws_connections c)) (cf_ws_register_timeout_secs c)
    (cf_ws_device_recheck_secs c).

Definition boot_quota (b : Boot) (c : Config) : option (Z * Z) :=
  match bt_validator b with
  | Some _ => Some (build_rate_limiter (default 100%Z (cf_api_rate_limit_rps c))
                      (default 20%Z (cf_api_rate_limit_burst c)))
  | None => None
  end.

(** ** The accept loop of the Unix socket (src/ipc/server.rs) *)

(** What sits at the socket path; a stale socket is removed, anything else
    refused. *)
Inductive PathEntry := PeNothing | PeSocket | PeOther.

Definition uds_bind (path : string) (at_path : PathEntry) (bound : Result unit string)
    : Result unit VynkorError :=
  match at_path with
  | PeOther => Err (EInternal ("refusing to bind UDS socket: " +:+ path
                      +:+ " exists and is not a socket"))
  | _ => match bound with Ok _ => Ok tt | Err e => Err (EIo e) end
  end.

Record Uds := mkUds { ud_counter : N; ud_open : N; ud_live : gset N }.

Definition uds_new : Uds := mkUds 1 0 ∅.

Inductive UdsEvent := UdsAccept | UdsAcceptError | UdsDone (conn_id : N).

Definition uds_step (max_connections : N) (e : UdsEvent) (u : Uds) : Uds :=
  match e with
  | UdsAccept =>
      if (max_connections <=? ud_open u)%N then u
      else mkUds (u64_succ (ud_counter u)) (u64_succ (ud_open u))
             ({[ud_counter u]} ∪ ud_live u)
  | UdsAcceptError => u
  | UdsDone conn_id =>
      if decide (conn_id ∈ ud_live u)
      then mkUds (ud_counter u) (u64_pred (ud_open u)) (ud_live u ∖ {[conn_id]})
      else u
  end.

(** ** The notice of a shutdown (src/kernel/orchestrator/shutdown.rs) *)
Section shutdown.
Context `{Wire}.

(** [message reason grace] is the encoded [PluginShutdown]. *)
Context (message : string -> Z -> bytes).

(** One iteration of the notification loop *)
Definition notify_shutdown (s : Sup) (default_grace_seconds : Z) (cs : Chans)
    (entry : PluginEntry) : Chans :=
  let grace := default default_grace_seconds (grace_seconds_for (pe_plugin_id entry) s) in
  match encode (envelope_of (PPluginShutdown (message "kernel shutdown" grace))) with
  | None => cs
  | Some payload =>
      send_await (pe_write_tx entry) (out_frame (build_frame "self" 0 payload)) cs
  end.

Definition notify_all (s : Sup) (default_grace_seconds : Z) (w : World) : World :=
  set_chans (foldl (notify_shutdown s default_grace_seconds) (w_chans w)
               (list_plugins (w_reg w))) w.
End shutdown.

(** [reload_config_on_sighup]: the level the reload hands to [set_log_level] *)
Definition reload_config_on_sighup (load : string -> Result Config string)
    (config_file : option string) : Result (Config * string) string :=
  match config_file with
  | None => Err "no config file to reload from"
  | Some path =>
      match load path with
      | Err e => Err e
      | Ok cfg => Ok (cfg, sanitize_log_level (cf_log_level cfg))
      end
  end.
