(* ===== verification/BootProps.v ===== *)
(** * Theorems about booting and stopping

    What a kernel that came up exposes and to whom, that its components were
    handed matching secrets, the lifetime of the generated certificate, the
    slots of the Unix socket, and the grace a shutdown announces. *)

From S2P Require Import Prelude Errors Wire Validate Registry Auth Kernel Router.
From S2P Require Import Config Sandbox Supervisor SupervisorProps Bridge Websocket WebsocketProps.
From S2P Require Import Api Boot.

(** ** Exposure *)

Lemma resolve_tls_iff consistent e c os f f' tls :
  resolve_tls_paths consistent e c os f = (f', Ok tls) -> is_Some tls <-> cf_tls c = true.
Proof.
  unfold resolve_tls_paths. intros Ht. destruct (cf_tls c); simpl in Ht; simplify_eq.
  - split; [done|]. intros _. repeat (case_match; simplify_eq/=); eauto.
  - by split; [intros []|].
Qed.

Lemma boot_tls_iff consistent parse_ip e c os f f' b :
  boot consistent parse_ip e c os f = (f', Ok b) -> is_Some (bt_tls b) <-> cf_tls c = true.
Proof.
  unfold boot. destruct (boot_auth c) as [v|]; [|done].
  destruct (resolve_tls_paths _ _ _ _ _) as [f1 [tls|]] eqn:Ht; [|done].
  destruct (boot_bind parse_ip c) as [bind|]; [|done]. intros [= <- <-]. by eapply resolve_tls_iff.
Qed.

(** C17 A kernel that comes up is not open by accident: it validates tokens under
    a secret of at least 32 bytes, or the configuration said [allow_no_auth]; it
    listens beyond loopback only when [bind] says so or as a host that validates
    tokens; it serves TLS exactly when [tls] is on, with both files of a pair;
    and the frame-MAC secret, the device store, pairing and the API's rate limit
    are there exactly when tokens are validated. *)
Theorem boot_not_exposed consistent parse_ip e c os f f' b :
  boot consistent parse_ip e c os f = (f', Ok b) ->
  ((exists secret, cf_jwt_secret c = Some secret /\ (32 <= String.length secret)%nat
      /\ bt_validator b = Some (with_audience (str_bytes secret) (cf_jwt_audience c)))
   \/ (cf_jwt_secret c = None /\ bt_validator b = None /\ cf_allow_no_auth c = true))
  /\ (bt_bind b <> Loopback -> cf_bind c <> None
      \/ (bt_bind b = Unspecified4 /\ cf_role c = RoleHost /\ bt_validator b <> None))
  /\ (is_Some (bt_tls b) <-> cf_tls c = true)
  /\ (is_Some (bt_validator b) <-> is_Some (bt_mac_secret b))
  /\ (is_Some (bt_validator b) <-> is_Some (bt_device_store b))
  /\ (is_Some (bt_validator b) <-> is_Some (bt_pairing b))
  /\ (is_Some (bt_validator b) <-> is_Some (boot_quota b c)).
Proof.
  unfold boot. destruct (boot_auth c) as [v|] eqn:Ha; [|done].
  destruct (resolve_tls_paths _ _ _ _ _) as [f1 [tls|]] eqn:Ht; [|done].
  destruct (boot_bind parse_ip c) as [bind|] eqn:Hb; [|done]. intros [= <- <-].
  unfold boot_quota. cbn [bt_validator bt_bind bt_tls bt_mac_secret bt_device_store bt_pairing].
  split; [|split; [|split]].
  - unfold boot_auth in Ha. destruct (cf_jwt_secret c) as [secret|].
    + left. exists secret. destruct (Nat.ltb_spec (String.length secret) MIN_JWT_SECRET_BYTES);
        simplify_eq. by split_and!.
    + right. by destruct (cf_allow_no_auth c); simplify_eq/=.
  - intros Hne. unfold boot_bind in Hb. destruct (cf_bind c); [by left|right].
    unfold boot_auth in Ha. destruct (cf_role c), (cf_jwt_secret c); simplify_eq.
    by destruct (_ <? _)%nat; simplify_eq.
  - by eapply resolve_tls_iff.
  - unfold boot_auth in Ha. destruct (cf_jwt_secret c) as [secret|].
    + destruct (_ <? _)%nat; simplify_eq. simpl. by split_and!; split; intros _; eexists.
    + destruct (cf_allow_no_auth c); simplify_eq/=. by split_and!; split; intros [].
Qed.

(** ** Secrets *)

(** The secret a spawned plugin is given is the one the router expects of it:
    for any configuration with a [jwt_secret], the [VYN_JWT_SECRET] in the
    environment of a plugin the supervisor spawns is the keying material from
    which the router derives that plugin's session key. *)
Theorem spawned_plugin_can_authenticate `{Crypto} consistent parse_ip e c os f f' b secret
    start store load set_level shim config made :
  boot consistent parse_ip e c os f = (f', Ok b) ->
  cf_jwt_secret c = Some secret -> cf_legacy_plugin_mac c = false ->
  let rcfg := boot_router_cfg b c start store load set_level in
  rc_mac_secret rcfg = Some (str_bytes secret)
  /\ exists key, cmd_var (build_command (boot_sup_opts c shim) config made) JWT_ENV = Some key
     /\ mac_ikm rcfg (str_bytes secret) None (pc_plugin_id config) = str_bytes key
     /\ key = plugin_mac_secret (str_bytes secret) (pc_plugin_id config).
Proof.
  intros Hboot Hs Hl rcfg.
  assert (bt_mac_secret b = Some (str_bytes secret)) as Hm.
  { revert Hboot. unfold boot. destruct (boot_auth c); [|done].
    destruct (resolve_tls_paths _ _ _ _ _) as [? []]; [|done].
    destruct (boot_bind parse_ip c); [|done]. intros [= _ <-]. simpl. by rewrite Hs. }
  split; [done|]. exists (plugin_mac_secret (str_bytes secret) (pc_plugin_id config)).
  split; [|split; [|done]].
  - apply spawned_env; simpl; [by rewrite Hs|done].
  - unfold mac_ikm. simpl. by rewrite Hl.
Qed.

(** ** The generated certificate *)
Section tls.
Context (consistent : bytes -> bytes -> bool).

(** Starts of the kernel, successful or not, one after the other. *)
Definition tls_starts (oss : list TlsOs) (f : TlsFiles) : TlsFiles :=
  foldl (fun f os => (ensure_self_signed consistent os f).1) f oss.

(** The generator makes pairs that rustls accepts. *)
Definition generates_pairs (os : TlsOs) : Prop :=
  forall c k, to_generate os = Ok (c, k) -> consistent c k = true.

Lemma ensure_stable os f :
  pair_is_consistent consistent f = true -> (ensure_self_signed consistent os f).1 = f.
Proof. intros Hc. unfold ensure_self_signed. destruct (to_prepare os); [|done]. by rewrite Hc. Qed.

(** The certificate that devices pin is stable and never served with a key
    that is not its own: once a consistent pair is on disk no later start changes
    it; and whatever earlier starts left behind, including a crash or a failed
    write between the key and the certificate, a start that succeeds ends with a
    consistent pair. *)
Theorem tls_pair_stable oss os f f' :
  Forall generates_pairs (os :: oss) ->
  (pair_is_consistent consistent f = true -> tls_starts oss f = f)
  /\ (ensure_self_signed consistent os (tls_starts oss f) = (f', Ok tt) ->
      pair_is_consistent consistent f' = true).
Proof.
  intros [Hg _]%Forall_cons. split.
  - intros Hc. induction oss as [|o oss IH]; [done|]. simpl. by rewrite ensure_stable.
  - generalize (tls_starts oss f). clear f. intros f. unfold ensure_self_signed.
    destruct (to_prepare os); [|done].
    destruct (pair_is_consistent consistent f) eqn:Hc; [by intros [= <-]|].
    destruct (to_generate os) as [[c k]|] eqn:Hgen; [|done].
    destruct (to_write_key os), (to_write_cert os); try done. intros [= <-]. simpl. by apply Hg.
Qed.
End tls.

(** ** The Unix socket *)

(** Slots of the Unix socket: over any sequence of accepts, accept errors and
    ends of connections, the open counter is the number of live connections and
    never exceeds [max_connections], and every live connection has its own id,
    none of them 0. (The bound on the run keeps the 64-bit counters from
    wrapping.) *)
Theorem uds_slots_accounted max es :
  (max + N.of_nat (length es) < 9223372036854775808)%N ->
  let u := foldl (fun u e => uds_step max e u) uds_new es in
  ud_open u = N.of_nat (size (ud_live u)) /\ (ud_open u <= max)%N
  /\ (forall id, id ∈ ud_live u -> (0 < id < ud_counter u)%N).
Proof.
  intros Hn u.
  cut (ud_open u = N.of_nat (size (ud_live u)) /\ (ud_open u <= max)%N
       /\ (forall id, id ∈ ud_live u -> (0 < id < ud_counter u)%N)
       /\ (0 < ud_counter u <= 1 + N.of_nat (length es))%N); [tauto|].
  subst u. revert Hn. induction es as [|e es IH] using rev_ind; intros Hn.
  { split_and!; try done; simpl; lia. }
  rewrite length_app in *. simpl in Hn. rewrite foldl_snoc.
  destruct IH as (Ho & Hm & Hid & Hc); [lia|].
  set (u := foldl _ _ es) in *. destruct e as [| |id]; simpl.
  - destruct (max <=? ud_open u)%N eqn:Hfull; [split_and!; auto; lia|]. apply N.leb_gt in Hfull.
    assert (ud_counter u ∉ ud_live u) as Hf by (intros ?%Hid; lia). simpl.
    rewrite size_union by set_solver. rewrite size_singleton, !u64_succ_small by lia.
    split_and!; try lia. intros id [->%elem_of_singleton|?%Hid]%elem_of_union; lia.
  - split_and!; auto; lia.
  - destruct (decide (id ∈ ud_live u)) as [Hin|]; [|split_and!; auto; lia]. simpl.
    assert (size (ud_live u) = S (size (ud_live u ∖ {[id]}))) as Hsz.
    { rewrite (union_difference_L {[id]} (ud_live u)) at 1 by set_solver.
      rewrite size_union by set_solver. by rewrite size_singleton. }
    rewrite u64_pred_small by lia. split_and!; try lia. intros id' [? _]%elem_of_difference. auto.
Qed.

(** ** The announced grace *)
Section shutdown_props.
Context `{Wire} (message : string -> Z -> bytes).

Lemma notify_shutdown_queue s g cs e tx c :
  cs !! tx = Some c -> ch_closed c = false ->
  exists l, notify_shutdown message s g cs e !! tx = Some (mkChan (ch_capacity c) (ch_queue c ++ l) false)
    /\ (pe_write_tx e = tx -> forall payload,
          encode (envelope_of (PPluginShutdown (message "kernel shutdown"
            (default g (grace_seconds_for (pe_plugin_id e) s))))) = Some payload ->
          OFrame (build_frame "self" 0 payload) ∈ l).
Proof.
  intros Hc Ho. unfold notify_shutdown.
  destruct (encode _) as [p|].
  2: { exists []. rewrite app_nil_r, Hc. destruct c; simpl in *; subst. split; [done|]. done. }
  unfold send_await. destruct (decide (pe_write_tx e = tx)) as [->|Hne].
  - rewrite Hc, Ho. exists [OFrame (build_frame "self" 0 p)]. rewrite lookup_insert_eq.
    unfold push_out. rewrite Ho. split; [done|]. intros _ q [= <-]. left.
  - exists []. rewrite app_nil_r. destruct c as [cap q cl]; simpl in *; subst.
    split; [|done]. destruct (cs !! pe_write_tx e) as [c'|]; [|done].
    destruct (ch_closed c'); [done|]. by rewrite lookup_insert_ne.
Qed.

Lemma notify_fold_queue s g es cs e tx c :
  cs !! tx = Some c -> ch_closed c = false -> e ∈ es -> pe_write_tx e = tx ->
  forall payload, encode (envelope_of (PPluginShutdown (message "kernel shutdown"
    (default g (grace_seconds_for (pe_plugin_id e) s))))) = Some payload ->
  exists c', foldl (notify_shutdown message s g) cs es !! tx = Some c'
    /\ OFrame (build_frame "self" 0 payload) ∈ ch_queue c'.
Proof.
  intros Hc Ho Hin Htx payload Hp.
  cut (forall es cs c, cs !! tx = Some c -> ch_closed c = false ->
    (OFrame (build_frame "self" 0 payload) ∈ ch_queue c \/ e ∈ es) ->
    exists c', foldl (notify_shutdown message s g) cs es !! tx = Some c'
      /\ OFrame (build_frame "self" 0 payload) ∈ ch_queue c'); [by eauto|].
  clear Hin Hc Ho cs c es. induction es as [|e' es IH]; intros cs c Hc Ho Hin; simpl.
  { exists c. split; [done|]. destruct Hin as [|Hin]; [done|]. by apply elem_of_nil in Hin. }
  destruct (notify_shutdown_queue s g cs e' tx c Hc Ho) as (l & Hl & Hadd).
  eapply IH; [exact Hl|done|]. simpl. destruct Hin as [?|[->|?]%elem_of_cons]; [left|left|by right].
  - apply elem_of_app. by left.
  - apply elem_of_app. right. by apply Hadd.
Qed.

(** The grace period a shutdown announces is the one it enforces: every
    registered plugin with an open connection and a supervised process is sent a
    [PluginShutdown] that carries exactly the seconds after which its process
    group is killed. *)
Theorem announced_grace_enforced s g w e sup c :
  e ∈ list_plugins (w_reg w) -> w_chans w !! pe_write_tx e = Some c -> ch_closed c = false ->
  sv_entries s !! pe_plugin_id e = Some sup -> (0 <= pc_grace_seconds (se_config sup))%Z ->
  (forall env, is_Some (encode env)) ->
  exists grace payload c',
    (grace, (signal_target sup, SIGKILL)) ∈ shutdown_signals g s
    /\ encode (envelope_of (PPluginShutdown (message "kernel shutdown" grace))) = Some payload
    /\ w_chans (notify_all message s g w) !! pe_write_tx e = Some c'
    /\ OFrame (build_frame "self" 0 payload) ∈ ch_queue c'.
Proof.
  intros Hin Hc Ho Hs Hg0 Henc.
  set (grace := default g (grace_seconds_for (pe_plugin_id e) s)).
  destruct (Henc (envelope_of (PPluginShutdown (message "kernel shutdown" grace)))) as [p Hp].
  destruct (notify_fold_queue s g _ _ e _ c Hc Ho Hin eq_refl p Hp) as (c' & Hc' & Hq).
  exists grace, p, c'. split; [|done].
  unfold shutdown_signals. apply elem_of_app. right.
  apply list_elem_of_fmap. exists sup. split.
  - subst grace. unfold grace_seconds_for. rewrite Hs. by destruct (0 <? _)%Z.
  - apply list_elem_of_fmap. exists (pe_plugin_id e, sup). split; [done|].
    by apply elem_of_map_to_list.
Qed.
End shutdown_props.

(** ** Log levels *)

(** What reaches the filter is made of recognised directives only. *)
Lemma sanitized_level_recognised level :
  forallb is_log_level_token (split "," (sanitize_log_level level)) = true
  /\ sanitize_log_level level <> EmptyString.
Proof.
  unfold sanitize_log_level. destruct (str_is_empty (str_trim level)) eqn:He; simpl; [done|].
  destruct (forallb is_log_level_token (split "," (str_trim level))) eqn:Hf; [|done].
  split; [done|]. by destruct (str_trim level).
Qed.

(** ** A concrete boot *)
#[local] Instance boot_wire : Wire := {|
  encode _ := Some [Byte.x00];
  decode _ := None;
  crc32 _ := 0%Z;
  target_as_str _ := None;
  parse_frag_header _ := None;
  serialize_header _ := [];
  compute_tag k _ _ := k;
  verify_tag _ _ _ _ := true;
  derive_session_key ikm _ _ := ikm;
  perm_str_name _ := "";
  perm_from_str_name _ := None;
  action_status_i32 _ := 0%Z;
  device_os_try_from _ := None;
  PROTOCOL_VERSION := "1.7"
|}.

#[local] Instance boot_crypto : Crypto := {|
  hkdf_sha256 _ ikm info := ikm ++ info;
  sha256 b := b;
  aes_encrypt _ _ _ m := Some m;
  aes_decrypt _ _ _ c := Some c;
  base64url b := string_of_bytes b
|}.

Definition boot_env : ConfEnv := mkConfEnv (Some "/run/user/1000") "/run/user/1000/vyn.sock" "/tmp" None.
Definition boot_secret : string := "0123456789abcdef0123456789abcdef".

(** The defaults with a secret of 32 bytes. *)
Definition boot_config : Config :=
  mkConfig
    default_port default_log_level "" "" "/data" "/run/vyn.sock" (Some boot_secret) false false
    RoleHost None None None [] None default_watchdog_interval default_watchdog_timeout
    default_log_buffer_lines default_max_connections None None None None None None
    default_prune_interval_secs default_tls None None None None
    default_ws_register_timeout_secs default_ws_device_recheck_secs "/tmp"
    default_action_timeout_ms default_restart_backoff_base_ms default_restart_backoff_max_ms
    default_grace default_event_max_retries default_event_retention_secs
    default_router_channel_capacity default_fragment_timeout_secs
    default_max_reassembly_streams default_max_conn_errors default_max_tracked_error_conns
    default_ws_handshake_timeout_secs default_max_ws_connections default_max_archive_bytes
    default_max_extracted_bytes default_max_archive_entries default_lazy_idle_stop_secs
    default_lazy_start_timeout_ms None.

Definition boot_files : TlsFiles := mkTlsFiles None None.
Definition boot_tls_os : TlsOs := mkTlsOs (Ok tt) (Ok ([Byte.x01], [Byte.x01])) (Ok tt) (Ok tt).
Definition same_bytes (a b : bytes) : bool := bool_decide (a = b).

Definition boot_result : TlsFiles * Result Boot string :=
  boot same_bytes (fun _ => None) boot_env boot_config boot_tls_os boot_files.

Definition booted : Boot :=
  mkBoot (Some (with_audience (str_bytes boot_secret) None))
    (Some ("/run/user/1000/vyn-tls/cert.pem", "/run/user/1000/vyn-tls/key.pem")) Unspecified4
    (Some (str_bytes boot_secret)) (Some boot_secret) ∅ None
    (Some (mkPairingConfig boot_secret "vynkor" 86400)).

Lemma boot_result_eq : boot_result = (mkTlsFiles (Some [Byte.x01]) (Some [Byte.x01]), Ok booted).
Proof. reflexivity. Qed.

Lemma boot_not_exposed_witness : is_Some (bt_tls booted) <-> cf_tls boot_config = true.
Proof. apply (boot_not_exposed _ _ _ _ _ _ _ _ boot_result_eq). Defined.

Definition boot_plugin : PluginConfig :=
  mkPluginConfig "p" "/opt/p/bin" [] ["VYN_JWT_SECRET=x"] Never 3 false 0 None None FsFull [] [].

Lemma spawned_plugin_can_authenticate_witness :
  exists key, cmd_var (build_command (boot_sup_opts boot_config "vyn") boot_plugin true) JWT_ENV
    = Some key
  /\ mac_ikm (boot_router_cfg booted boot_config 0 (mkDeviceStore FMissing []) (fun _ => Err ETimeout)
       (fun _ => false)) (str_bytes boot_secret) None "p" = str_bytes key
  /\ key = plugin_mac_secret (str_bytes boot_secret) "p".
Proof.
  apply (spawned_plugin_can_authenticate _ _ _ _ _ _ _ booted boot_secret 0
    (mkDeviceStore FMissing []) (fun _ => Err ETimeout) (fun _ => false) "vyn" boot_plugin true
    boot_result_eq); reflexivity.
Defined.

(** A start that fails between the two writes, then one that succeeds. *)
Definition torn_os : TlsOs := mkTlsOs (Ok tt) (Ok ([Byte.x02], [Byte.x02])) (Ok tt) (Err "disk full").

Lemma tls_pair_stable_witness :
  pair_is_consistent same_bytes (mkTlsFiles (Some [Byte.x01]) (Some [Byte.x01])) = true.
Proof.
  apply (tls_pair_stable same_bytes [torn_os] boot_tls_os (mkTlsFiles (Some [Byte.x03]) None)
    (mkTlsFiles (Some [Byte.x01]) (Some [Byte.x01]))); [|reflexivity].
  repeat constructor; intros c k [= <- <-]; reflexivity.
Defined.

Lemma uds_slots_accounted_witness :
  ud_open (foldl (fun u e => uds_step 1 e u) uds_new [UdsAccept; UdsAccept; UdsDone 1; UdsAccept])
  = N.of_nat (size (ud_live (foldl (fun u e => uds_step 1 e u) uds_new
                               [UdsAccept; UdsAccept; UdsDone 1; UdsAccept]))).
Proof.
  apply (uds_slots_accounted 1 [UdsAccept; UdsAccept; UdsDone 1; UdsAccept]). reflexivity.
Defined.

Definition boot_message (reason : string) (grace : Z) : bytes := str_bytes (fmt_Z grace).

Definition boot_sup : Sup := (spawn_plugin boot_plugin (Ok tt) (mkStarted (Some 42%Z) (ShimSaid None)) sup_new).1.
Definition boot_sup_entry : SupEntry := mkSupEntry boot_plugin 0 42 None 1.
Definition boot_entry : PluginEntry :=
  mkEntry "p" 1 (mkManifest [] [] [] [] [] []) 7 0 Registered "local" "default".
Definition boot_world : World :=
  mkWorld (register (mkClock 0 0) "p" 1 (mkManifest [] [] [] [] [] []) 7 "" "" registry_new).1
    {[7%N := mkChan 4 [] false]} Events.bus_new None 0 0 0 None None (mkClock 0 0) true.

Lemma announced_grace_enforced_witness :
  exists grace payload c',
    (grace, (signal_target boot_sup_entry, SIGKILL)) ∈ shutdown_signals 5 boot_sup
    /\ encode (envelope_of (PPluginShutdown (boot_message "kernel shutdown" grace))) = Some payload
    /\ w_chans (notify_all boot_message boot_sup 5 boot_world) !! 7%N = Some c'
    /\ OFrame (build_frame "self" 0 payload) ∈ ch_queue c'.
Proof.
  apply (announced_grace_enforced boot_message boot_sup 5 boot_world boot_entry boot_sup_entry
    (mkChan 4 [] false)).
  - assert (list_plugins (w_reg boot_world) = [boot_entry]) as -> by reflexivity. left.
  - reflexivity.
  - reflexivity.
  - reflexivity.
  - vm_compute. discriminate.
  - intros env. by eexists.
Defined.
