(* ===== verification/Calendar.v ===== *)
(** * Timestamps of the command line

    The two copies of [format_ts] (src/cli/device.rs and src/cli/devices.rs),
    which print seconds since the epoch as a UTC date, and the proof that both
    print the date of the proleptic Gregorian calendar. The reference is a
    calendar that counts day by day from 1970-01-01.

    Signed division is [Z.quot], [div_euclid] and [rem_euclid] by a positive
    number are [Z.div] and [Z.modulo]. Every intermediate value stays far inside
    64 bits: [epoch_secs / 86400] is below 2^48. *)

From S2P Require Import Prelude.
#[local] Open Scope Z_scope.

(** [{n:02}] and [{n:04}] of a number that is not negative *)
Definition pad_left (width : nat) (s : string) : string :=
  String.string_of_list_ascii (replicate (width - String.length s) "0"%char) +:+ s.

Definition fmt_02 (n : Z) : string := pad_left 2 (fmt_Z n).
Definition fmt_04 (n : Z) : string := pad_left 4 (fmt_Z n).

Record Date := mkDate { dt_y : Z; dt_m : Z; dt_d : Z }.

(** ** The two copies *)

(** [yoe] of the day [doe] of an era; the same in both copies *)
Definition year_of_era (doe : Z) : Z :=
  Z.quot (doe - Z.quot doe 1460 + Z.quot doe 36524 - Z.quot doe 146096) 365.

(** [mp], [d], [m] and the second [y] from the day [doy] of a March-based year *)
Definition month_day (y doy : Z) : Date :=
  let mp := Z.quot (5 * doy + 2) 153 in
  let d := doy - Z.quot (153 * mp + 2) 5 + 1 in
  let m := if mp <? 10 then mp + 3 else mp - 9 in
  mkDate (if m <=? 2 then y + 1 else y) m d.

(** src/cli/device.rs *)
Definition device_date (days : Z) : Date :=
  let z := days + 719468 in
  let era := z / 146097 in
  let doe := z mod 146097 in
  let yoe := year_of_era doe in
  let doy := doe - (365 * yoe + Z.quot yoe 4 - Z.quot yoe 100 + Z.quot yoe 146096) in
  month_day (yoe + era * 400) doy.

Definition device_format_ts (epoch_secs : Z) : string :=
  let date := device_date (Z.quot epoch_secs 86400) in
  let secs_of_day := Z.rem epoch_secs 86400 in
  fmt_04 (dt_y date) +:+ "-" +:+ fmt_02 (dt_m date) +:+ "-" +:+ fmt_02 (dt_d date) +:+ " "
  +:+ fmt_02 (Z.quot secs_of_day 3600) +:+ ":" +:+ fmt_02 (Z.quot (Z.rem secs_of_day 3600) 60)
  +:+ ":" +:+ fmt_02 (Z.rem (Z.rem secs_of_day 3600) 60).

(** src/cli/devices.rs *)
Definition devices_date (days : Z) : Date :=
  let z := days + 719468 in
  let era := z / 146097 in
  let doe := z mod 146097 in
  let yoe := year_of_era doe in
  let doy := doe - (365 * yoe + Z.quot yoe 4 - Z.quot yoe 100) in
  month_day (yoe + era * 400) doy.

Definition devices_format_ts (epoch_secs : Z) : string :=
  let date := devices_date (Z.quot epoch_secs 86400) in
  let secs_of_day := Z.rem epoch_secs 86400 in
  fmt_04 (dt_y date) +:+ "-" +:+ fmt_02 (dt_m date) +:+ "-" +:+ fmt_02 (dt_d date) +:+ " "
  +:+ fmt_02 (Z.quot secs_of_day 3600) +:+ ":" +:+ fmt_02 (Z.quot (Z.rem secs_of_day 3600) 60)
  +:+ ":" +:+ fmt_02 (Z.rem secs_of_day 60).

(** ** The reference calendar *)
Definition is_leap (y : Z) : bool :=
  (y mod 4 =? 0) && (negb (y mod 100 =? 0) || (y mod 400 =? 0)).

Definition days_in_month (y m : Z) : Z :=
  if m =? 2 then (if is_leap y then 29 else 28)
  else if (m =? 4) || (m =? 6) || (m =? 9) || (m =? 11) then 30 else 31.

Definition next_day (t : Date) : Date :=
  if dt_d t <? days_in_month (dt_y t) (dt_m t) then mkDate (dt_y t) (dt_m t) (dt_d t + 1)
  else if dt_m t <? 12 then mkDate (dt_y t) (dt_m t + 1) 1
  else mkDate (dt_y t + 1) 1 1.

(** The date [n] days after 1970-01-01 *)
Definition date_after (n : nat) : Date := Nat.iter n next_day (mkDate 1970 1 1).

(** A date with a time of day, printed *)
Definition print_ts (t : Date) (h mi s : Z) : string :=
  fmt_04 (dt_y t) +:+ "-" +:+ fmt_02 (dt_m t) +:+ "-" +:+ fmt_02 (dt_d t) +:+ " "
  +:+ fmt_02 h +:+ ":" +:+ fmt_02 mi +:+ ":" +:+ fmt_02 s.

(** ** Proof *)

(** A boolean test over a range of integers, by computation. *)
Definition all_below (n : nat) (p : Z -> bool) : bool := forallb (fun k => p (Z.of_nat k)) (seq 0 n).

Lemma all_below_spec n p z : all_below n p = true -> 0 <= z < Z.of_nat n -> p z = true.
Proof.
  unfold all_below. rewrite forallb_forall. intros Hp Hz.
  rewrite <- (Z2Nat.id z) by lia. apply Hp, in_seq. lia.
Qed.

(** The first day of the March-based year [y] of an era. *)
Definition year_start (y : Z) : Z := 365 * y + Z.quot y 4 - Z.quot y 100.
Definition year_length (y : Z) : Z :=
  if y =? 399 then 366 else year_start (y + 1) - year_start y.

Lemma year_of_era_mono a b :
  0 <= a <= b -> b < 146097 -> year_of_era a <= year_of_era b.
Proof.
  intros Ha Hb. destruct (Z.eq_dec a b) as [->|]; [lia|]. unfold year_of_era.
  apply Z.quot_le_mono; [lia|]. rewrite !Z.quot_div_nonneg by lia.
  assert (b / 1460 - a / 1460 <= b - a) by (Z.div_mod_to_equations; lia).
  assert (a / 36524 <= b / 36524) by (apply Z.div_le_mono; lia).
  rewrite (Z.div_small a 146096) by lia.
  destruct (Z.eq_dec b 146096) as [->|]; [|rewrite (Z.div_small b 146096) by lia; lia].
  change (146096 / 146096) with 1. change (146096 / 36524) with 4 in *.
  assert (a / 36524 <= 3) by (Z.div_mod_to_equations; lia). lia.
Qed.

Lemma year_bounds :
  all_below 400 (fun y => (year_of_era (year_start y) =? y)
    && (year_of_era (year_start y + year_length y - 1) =? y)
    && (0 <? year_length y)) = true.
Proof. vm_compute. reflexivity. Qed.

(** The year of a day of an era is the one whose days it falls among. *)
Lemma year_of_era_unique doe y :
  0 <= y < 400 -> year_start y <= doe < year_start y + year_length y -> 0 <= doe < 146097 ->
  year_of_era doe = y.
Proof.
  intros Hy Hd Hr. pose proof (all_below_spec _ _ y year_bounds Hy) as Hb.
  rewrite !andb_true_iff in Hb. destruct Hb as [[H1 H2] H3].
  assert (0 <= year_start y) by (unfold year_start; Z.to_euclidean_division_equations; lia).
  assert (year_start y + year_length y - 1 < 146097) as Hl.
  { unfold year_length, year_start. case_match; Z.to_euclidean_division_equations; lia. }
  pose proof (year_of_era_mono (year_start y) doe).
  pose proof (year_of_era_mono doe (year_start y + year_length y - 1)). lia.
Qed.

Lemma year_start_next y :
  0 <= y < 400 ->
  year_start y + year_length y = if y =? 399 then 146097 else year_start (y + 1).
Proof. intros Hy. unfold year_length. destruct (Z.eqb_spec y 399) as [->|]; [done|lia]. Qed.

Lemma year_exists n doe :
  (n < 400)%nat -> 0 <= doe < year_start (Z.of_nat n) + year_length (Z.of_nat n) ->
  exists y, 0 <= y < 400 /\ year_start y <= doe < year_start y + year_length y.
Proof.
  induction n as [|n IH]; intros Hn Hd.
  { exists 0. split; [lia|]. change (Z.of_nat 0) with 0 in Hd. change (year_start 0) with 0 in *. lia. }
  destruct (Z.lt_ge_cases doe (year_start (Z.of_nat (S n)))) as [Hlt|]; [|exists (Z.of_nat (S n)); lia].
  apply IH; [lia|]. rewrite year_start_next by lia.
  replace (Z.of_nat n =? 399) with false by (symmetry; apply Z.eqb_neq; lia).
  replace (Z.of_nat n + 1) with (Z.of_nat (S n)) by lia. lia.
Qed.

Lemma year_of_era_spec doe :
  0 <= doe < 146097 ->
  let y := year_of_era doe in
  0 <= y < 400 /\ year_start y <= doe < year_start y + year_length y.
Proof.
  intros Hd. destruct (year_exists 399 doe) as (y & Hy & Hs); [lia|exact Hd|].
  by rewrite (year_of_era_unique doe y).
Qed.

Lemma device_devices_date days : device_date days = devices_date days.
Proof.
  unfold device_date, devices_date. set (z := days + 719468).
  destruct (year_of_era_spec (z mod 146097)) as [Hy _]; [apply Z.mod_pos_bound; lia|].
  rewrite (Z.quot_small (year_of_era _) 146096) by lia. by rewrite Z.add_0_r.
Qed.

(** A day as its era, March-based year and day of that year. *)
Lemma devices_date_eq era y doy :
  0 <= y < 400 -> 0 <= doy < year_length y ->
  devices_date (era * 146097 + (year_start y + doy) - 719468) = month_day (y + era * 400) doy.
Proof.
  intros Hy Hd. unfold devices_date.
  assert (0 <= year_start y) by (unfold year_start; Z.to_euclidean_division_equations; lia).
  assert (year_start y + doy < 146097) as Hl.
  { pose proof (year_start_next y Hy) as Hn. unfold year_length, year_start in *.
    case_match; Z.to_euclidean_division_equations; lia. }
  replace (era * 146097 + (year_start y + doy) - 719468 + 719468)
    with (year_start y + doy + era * 146097) by lia.
  rewrite Z.div_add, Z.mod_add, Z.div_small, Z.mod_small by lia.
  rewrite (year_of_era_unique _ y) by lia.
  f_equal. unfold year_start. lia.
Qed.

Lemma days_split days :
  exists era y doy, 0 <= y < 400 /\ 0 <= doy < year_length y
    /\ days = era * 146097 + (year_start y + doy) - 719468.
Proof.
  set (z := days + 719468).
  destruct (year_of_era_spec (z mod 146097)) as [Hy Hs]; [apply Z.mod_pos_bound; lia|].
  exists (z / 146097), (year_of_era (z mod 146097)), (z mod 146097 - year_start (year_of_era (z mod 146097))).
  split; [done|]. split; [lia|]. pose proof (Z.div_mod z 146097). lia.
Qed.

Lemma year_length_leap era y :
  0 <= y < 400 -> year_length y = if is_leap (y + era * 400 + 1) then 366 else 365.
Proof.
  intros Hy.
  assert (is_leap (y + era * 400 + 1) = is_leap (y + 1)) as ->.
  { unfold is_leap. replace (y + era * 400 + 1) with (y + 1 + era * 400) by lia.
    rewrite Z.mod_add by lia.
    replace (era * 400) with (era * 100 * 4) at 1 by lia. rewrite Z.mod_add by lia.
    replace (era * 400) with (era * 4 * 100) by lia. by rewrite Z.mod_add by lia. }
  assert (all_below 400 (fun y => year_length y =? if is_leap (y + 1) then 366 else 365) = true)
    as Hall by (vm_compute; reflexivity).
  by apply Z.eqb_eq, (all_below_spec _ _ y Hall).
Qed.

(** ** One day later *)
Lemma month_day_shift y doy :
  month_day y doy
  = mkDate (y + dt_y (month_day 0 doy)) (dt_m (month_day 0 doy)) (dt_d (month_day 0 doy)).
Proof. unfold month_day. case_match; simpl; f_equal; case_match; lia. Qed.

(** Away from the end of February the successor does not look at the year. *)
Definition plain_next (doy : Z) : bool :=
  let t := month_day 0 doy in
  let u := month_day 0 (doy + 1) in
  (negb (dt_m t =? 2) || (dt_d t <? 28))
  && let v := next_day t in
     (dt_y u =? dt_y v) && (dt_m u =? dt_m v) && (dt_d u =? dt_d v).

Lemma plain_next_all : all_below 364 plain_next = true.
Proof. vm_compute. reflexivity. Qed.

Lemma next_day_shift y t :
  (negb (dt_m t =? 2) || (dt_d t <? 28)) = true ->
  next_day (mkDate (y + dt_y t) (dt_m t) (dt_d t))
  = mkDate (y + dt_y (next_day t)) (dt_m (next_day t)) (dt_d (next_day t)).
Proof.
  intros Hp. unfold next_day, days_in_month. simpl. destruct (Z.eqb_spec (dt_m t) 2) as [->|].
  - simpl in Hp. apply Z.ltb_lt in Hp. repeat (case_match; simpl in *); try lia; f_equal; lia.
  - repeat (case_match; simpl in *); f_equal; lia.
Qed.

Lemma month_day_next y doy :
  0 <= doy < 364 -> month_day y (doy + 1) = next_day (month_day y doy).
Proof.
  intros Hd. pose proof (all_below_spec _ _ doy plain_next_all Hd) as Hp.
  unfold plain_next in Hp. apply andb_prop in Hp as [Hp Hq].
  rewrite !andb_true_iff, !Z.eqb_eq in Hq. destruct Hq as [[Hy Hm] Hday].
  rewrite (month_day_shift y doy), next_day_shift by exact Hp.
  by rewrite (month_day_shift y (doy + 1)), Hy, Hm, Hday.
Qed.

Lemma devices_date_next days : devices_date (days + 1) = next_day (devices_date days).
Proof.
  destruct (days_split days) as (era & y & doy & Hy & Hd & ->).
  pose proof (year_length_leap era y Hy) as Hlen. rewrite (devices_date_eq era y doy) by done.
  destruct (Z.eq_dec (doy + 1) (year_length y)) as [Hlast|Hmore].
  - assert (devices_date (era * 146097 + (year_start y + doy) - 719468 + 1)
            = mkDate (y + era * 400 + 1) 3 1) as ->.
    { pose proof (year_start_next y Hy) as Hn. destruct (Z.eqb_spec y 399) as [->|].
      - replace (era * 146097 + (year_start 399 + doy) - 719468 + 1)
          with ((era + 1) * 146097 + (year_start 0 + 0) - 719468)
          by (change (year_start 0) with 0; lia).
        rewrite devices_date_eq by (first [lia|done]). unfold month_day; simpl. f_equal; lia.
      - replace (era * 146097 + (year_start y + doy) - 719468 + 1)
          with (era * 146097 + (year_start (y + 1) + 0) - 719468) by lia.
        rewrite devices_date_eq; [|lia|split; [lia|]].
        + unfold month_day; simpl. f_equal; lia.
        + rewrite (year_length_leap 0 (y + 1)) by lia. destruct (is_leap (y + 1 + _ + 1)); lia. }
    rewrite Hlen in Hlast. unfold next_day.
    destruct (is_leap (y + era * 400 + 1)) eqn:Hleap;
      [replace doy with 365 by lia|replace doy with 364 by lia];
      unfold month_day; simpl; unfold days_in_month; simpl; by rewrite Hleap.
  - replace (era * 146097 + (year_start y + doy) - 719468 + 1)
      with (era * 146097 + (year_start y + (doy + 1)) - 719468) by lia.
    assert (doy + 1 < year_length y) as Hin by lia. rewrite devices_date_eq by lia.
    destruct (Z.lt_ge_cases doy 364); [apply month_day_next; lia|].
    rewrite Hlen in Hin. destruct (is_leap (y + era * 400 + 1)) eqn:Hleap; [|lia].
    replace doy with 364 by lia. unfold month_day; simpl. unfold next_day, days_in_month; simpl.
    by rewrite Hleap.
Qed.

(** The count of days in step with the reference. *)
Lemma devices_date_after n : devices_date (Z.of_nat n) = date_after n.
Proof.
  induction n as [|n IH]; [reflexivity|].
  replace (Z.of_nat (S n)) with (Z.of_nat n + 1) by lia. rewrite devices_date_next, IH. reflexivity.
Qed.

Lemma time_of_day h mi s :
  0 <= h -> 0 <= mi < 60 -> 0 <= s < 60 ->
  let t := h * 3600 + mi * 60 + s in
  Z.quot t 3600 = h /\ Z.quot (Z.rem t 3600) 60 = mi
  /\ Z.rem (Z.rem t 3600) 60 = s /\ Z.rem t 60 = s.
Proof. intros Hh Hm Hs t. subst t. Z.to_euclidean_division_equations. nia. Qed.

(** C40 Timestamps are printed as the calendar says, by both copies of
    [format_ts]: [n] whole days, [h] hours, [mi] minutes and [s] seconds after
    the epoch come out as the date that counting [n] days forward from 1970-01-01
    in the Gregorian calendar gives, with that time of day. *)
Theorem format_ts_correct n h mi s :
  0 <= h < 24 -> 0 <= mi < 60 -> 0 <= s < 60 ->
  let secs := Z.of_nat n * 86400 + h * 3600 + mi * 60 + s in
  device_format_ts secs = print_ts (date_after n) h mi s
  /\ devices_format_ts secs = print_ts (date_after n) h mi s.
Proof.
  intros Hh Hm Hs secs.
  assert (Z.quot secs 86400 = Z.of_nat n) as Hq
    by (subst secs; Z.to_euclidean_division_equations; lia).
  assert (Z.rem secs 86400 = h * 3600 + mi * 60 + s) as Hr
    by (subst secs; Z.to_euclidean_division_equations; lia).
  destruct (time_of_day h mi s) as (H1 & H2 & H3 & H4); [lia..|].
  unfold device_format_ts, devices_format_ts, print_ts.
  by rewrite device_devices_date, Hq, Hr, devices_date_after, H1, H2, H3, H4.
Qed.

Lemma format_ts_correct_witness :
  device_format_ts 1709210096 = "2024-02-29 12:34:56".
Proof.
  destruct (format_ts_correct 19782 12 34 56) as [H _]; [lia..|].
  transitivity (print_ts (devices_date (Z.of_nat 19782)) 12 34 56);
    [rewrite devices_date_after; exact H|vm_compute; reflexivity].
Defined.
