(* ===== verification/Decimal.v ===== *)
(** * Decimal numbers in text

    [str::parse] of a signed integer, and the facts that join printing and
    parsing: what [fmt_N] prints parses back, trimming leaves graphic text alone
    and removes the newline of a line. Used for pid files, readiness lines,
    durations and command-line arguments. *)

From S2P Require Import Prelude Sandbox.

(** [str::parse::<i32>]: an optional sign, then digits within the width *)
Definition i32_max : Z := 2147483647.

Definition parse_i32 (s : string) : option Z :=
  match strip_prefix "-" s with
  | Some body =>
      if str_is_empty body then None
      else match parse_digits 0 body with
           | Some n => if (n <=? i32_max + 1)%Z then Some (- n)%Z else None
           | None => None
           end
  | None => parse_uint i32_max s
  end.

(** ** Printing then parsing *)
Lemma pretty_char_digit n :
  (n < 10)%N -> is_ascii_digit (pretty_N_char n) = true
  /\ (Z.of_N (ascii_n (pretty_N_char n)) - 48 = Z.of_N n)%Z.
Proof.
  intros Hn. assert (N.to_nat n < 10)%nat as Hk by lia. rewrite <- (N2Nat.id n). clear Hn. revert Hk.
  generalize (N.to_nat n) as k. intros k Hk. do 10 (destruct k as [|k]; [done|]). lia.
Qed.

Lemma parse_digits_go x s : parse_digits 0 (pretty_N_go x s) = parse_digits (Z.of_N x) s.
Proof.
  revert s. induction (N.lt_wf_0 x) as [x _ IH]; intros s.
  destruct (N.eq_0_gt_0_cases x) as [->|Hx]; [done|].
  rewrite pretty_N_go_step, IH by (try apply N.div_lt; lia). simpl.
  destruct (pretty_char_digit (x mod 10)) as [-> ->]; [by apply N.mod_lt|]. f_equal.
  rewrite N2Z.inj_div, N2Z.inj_mod. pose proof (Z.div_mod (Z.of_N x) 10). lia.
Qed.

Lemma parse_digits_fmt n : parse_digits 0 (fmt_N n) = Some (Z.of_N n).
Proof.
  unfold fmt_N, pretty, pretty_N. case_decide as Hn; [by subst|]. by rewrite parse_digits_go.
Qed.

(** What [fmt_N] prints: digits, at least one *)
Lemma pretty_go_digits x s : str_all is_ascii_digit s = true ->
  str_all is_ascii_digit (pretty_N_go x s) = true.
Proof.
  revert s. induction (N.lt_wf_0 x) as [x _ IH]; intros s Hs.
  destruct (N.eq_0_gt_0_cases x) as [->|Hx]; [done|].
  rewrite pretty_N_go_step by done. apply IH; [by apply N.div_lt|]. simpl.
  destruct (pretty_char_digit (x mod 10)) as [-> _]; [by apply N.mod_lt|done].
Qed.

Lemma fmt_N_digits n : str_all is_ascii_digit (fmt_N n) = true.
Proof. unfold fmt_N, pretty, pretty_N. case_decide; [done|by apply pretty_go_digits]. Qed.

Lemma pretty_go_nonempty x s : s <> EmptyString \/ (0 < x)%N -> pretty_N_go x s <> EmptyString.
Proof.
  revert s. induction (N.lt_wf_0 x) as [x _ IH]; intros s Hs.
  destruct (N.eq_0_gt_0_cases x) as [->|Hx]; [destruct Hs as [|[]%N.nlt_0_r]; done|].
  rewrite pretty_N_go_step by done. apply IH; [by apply N.div_lt|by left].
Qed.

Lemma fmt_N_nonempty n : fmt_N n <> EmptyString.
Proof.
  unfold fmt_N, pretty, pretty_N. case_decide; [done|]. apply pretty_go_nonempty. right. lia.
Qed.

(** A string of digits starts with neither sign. *)
Lemma digits_no_prefix c s :
  is_ascii_digit c = false -> str_all is_ascii_digit s = true ->
  strip_prefix (String c EmptyString) s = None.
Proof.
  destruct s as [|d s]; [done|]. simpl. intros Hc [Hd _]%andb_prop.
  destruct (decide (c = d)) as [->|Hn]; [congruence|].
  destruct (Ascii.eqb_spec c d); [done|]. by rewrite ?decide_False by done.
Qed.

Lemma parse_uint_eq max n :
  parse_uint max (fmt_N n) = if (Z.of_N n <=? max)%Z then Some (Z.of_N n) else None.
Proof.
  unfold parse_uint. rewrite digits_no_prefix by (done || apply fmt_N_digits). simpl.
  destruct (str_is_empty (fmt_N n)) eqn:He.
  { by destruct (fmt_N n) eqn:Hf; [destruct (fmt_N_nonempty n)|]. }
  by rewrite parse_digits_fmt.
Qed.

Lemma parse_uint_fmt max n : (Z.of_N n <= max)%Z -> parse_uint max (fmt_N n) = Some (Z.of_N n).
Proof. intros Hm. rewrite parse_uint_eq. by apply Z.leb_le in Hm as ->. Qed.

Lemma parse_i32_fmt n : (Z.of_N n <= i32_max)%Z -> parse_i32 (fmt_N n) = Some (Z.of_N n).
Proof.
  intros Hm. unfold parse_i32. rewrite digits_no_prefix by (done || apply fmt_N_digits).
  by apply parse_uint_fmt.
Qed.

Lemma fmt_Z_N z : (0 <= z)%Z -> fmt_Z z = fmt_N (Z.to_N z).
Proof. intros Hz. destruct z; [done|done|lia]. Qed.

(** ** Trimming *)

(** Visible ASCII *)
Definition graphic (c : ascii) : bool := (33 <=? ascii_n c)%N && (ascii_n c <=? 126)%N.

Definition graphic_byte (b : Byte.byte) : bool := (33 <=? Byte.to_N b)%N && (Byte.to_N b <=? 126)%N.

(** No code of [cs] starts with a graphic byte. *)
Definition heads_hidden (cs : list (list N)) : bool :=
  forallb (fun c => match c with
                    | n :: _ => (n <? 33)%N || (126 <? n)%N
                    | [] => false
                    end) cs.

Lemma strip_any_graphic cs b l :
  heads_hidden cs = true -> graphic_byte b = true -> strip_any cs (b :: l) = None.
Proof.
  unfold graphic_byte. intros Hc Hb. induction cs as [|[|n c] cs IH]; [done|done|].
  simpl in *. apply andb_prop in Hc as [Hn Hc]. rewrite IH by done.
  destruct (N.eqb_spec n (Byte.to_N b)) as [->|]; [|done].
  rewrite andb_true_iff, !N.leb_le in Hb. rewrite orb_true_iff, !N.ltb_lt in Hn. lia.
Qed.

Lemma drop_ws_graphic fuel cs l :
  heads_hidden cs = true -> match l with [] => False | b :: _ => graphic_byte b = true end ->
  drop_ws fuel cs l = l.
Proof.
  intros Hc Hl. destruct l as [|b l]; [done|]. destruct fuel; [done|]. simpl.
  by rewrite strip_any_graphic.
Qed.

Lemma str_bytes_graphic s : str_all graphic s = true -> Forall (fun b => graphic_byte b = true) (str_bytes s).
Proof.
  induction s as [|c s IH]; [constructor|]. simpl. intros [Hc Hs]%andb_prop.
  constructor; [|by apply IH]. unfold graphic_byte, graphic, ascii_n in *.
  revert Hc. by destruct c as [[] [] [] [] [] [] [] []].
Qed.

(** The last byte of visible text is visible. *)
Lemma reverse_graphic l :
  Forall (fun b => graphic_byte b = true) l -> l <> [] ->
  match reverse l with [] => False | b :: _ => graphic_byte b = true end.
Proof.
  intros Hl Hn. destruct l as [|b l _] using rev_ind; [done|].
  rewrite reverse_snoc. apply Forall_app in Hl as [_ Hb]. by inversion Hb.
Qed.

Lemma string_of_str_bytes s : string_of_bytes (str_bytes s) = s.
Proof. apply String.string_of_list_byte_of_string. Qed.

Lemma ws_heads : heads_hidden ws_codes = true /\ heads_hidden (reverse <$> ws_codes) = true.
Proof. split; vm_compute; reflexivity. Qed.

(** A line of visible text, with or without its newline. *)
Lemma str_trim_graphic s : str_all graphic s = true -> str_trim s = s.
Proof.
  intros Hs. destruct s as [|c s']; [done|]. set (s := String c s') in *.
  pose proof (str_bytes_graphic s Hs) as Hb. assert (str_bytes s <> []) as Hn by done.
  unfold str_trim. destruct ws_heads as [Hw1 Hw2].
  rewrite (drop_ws_graphic _ ws_codes) by (done || by inversion Hb).
  rewrite drop_ws_graphic by (done || by apply reverse_graphic).
  by rewrite reverse_involutive, string_of_str_bytes.
Qed.

Lemma str_trim_line s : str_all graphic s = true -> s <> EmptyString -> str_trim (s +:+ nl) = s.
Proof.
  intros Hs Hne. pose proof (str_bytes_graphic s Hs) as Hb.
  assert (str_bytes s <> []) as Hn by (by destruct s). unfold str_trim. rewrite str_bytes_app.
  destruct ws_heads as [Hw1 Hw2]. change (str_bytes nl) with [Byte.x0a].
  rewrite (drop_ws_graphic _ ws_codes) by (done || by destruct s; inversion Hb).
  rewrite reverse_snoc. set (r := reverse (str_bytes s)).
  change (drop_ws (length (Byte.x0a :: r)) (reverse <$> ws_codes) (Byte.x0a :: r))
    with (drop_ws (length r) (reverse <$> ws_codes) r). subst r.
  rewrite drop_ws_graphic by (done || by apply reverse_graphic).
  by rewrite reverse_involutive, string_of_str_bytes.
Qed.

Lemma digits_graphic s : str_all is_ascii_digit s = true -> str_all graphic s = true.
Proof.
  induction s as [|c s IH]; [done|]. simpl. intros [Hc Hs]%andb_prop. rewrite IH by done.
  rewrite andb_true_r. revert Hc. by destruct c as [[] [] [] [] [] [] [] []].
Qed.

Lemma trim_fmt_N n : str_trim (fmt_N n) = fmt_N n /\ str_trim (fmt_N n +:+ nl) = fmt_N n.
Proof.
  pose proof (digits_graphic _ (fmt_N_digits n)). split; [by apply str_trim_graphic|].
  apply str_trim_line; [done|apply fmt_N_nonempty].
Qed.
