(* ===== verification/Embed.v ===== *)
(** * The embedding entry points (src/embed.rs)

    The checks on a configuration before anything is started, and the
    single-instance lock. The lock is an advisory [flock] on the pid file and
    belongs to an inode, not to a path, so the model keeps the inode linked at
    the path, the contents and lock holder of every inode, and where each process
    is in [InstanceLock::acquire] or in the drop; the processes interleave call
    by call. *)

From S2P Require Import Prelude Errors Validate Kernel Sandbox Config Decimal.

(** ** Configuration checks *)
Definition is_plaintext (url : string) : bool :=
  starts_with "ws://" url || starts_with "http://" url.

Definition url_ok (url : string) : bool :=
  existsb (fun p => starts_with p url) ["ws://"; "wss://"; "http://"; "https://"].

Definition ensure_auth_configured (c : Config) : Result unit string :=
  if negb (bool_decide (is_Some (cf_jwt_secret c))) && negb (cf_allow_no_auth c)
  then Err ("refusing to start without authentication — set `jwt_secret` in config, "
            +:+ "or set `allow_no_auth: true` to run without auth (insecure)")
  else Ok tt.

Definition transport_label (i : nat) : string :=
  "bridge.transports[" +:+ fmt_N (N.of_nat i) +:+ "]".

(** The loop over the transports: the url and the pin of each *)
Definition check_transport (i : nat) (t : TransportConfig) : Result unit string :=
  match t with
  | TDirect url ca_cert_path =>
      if negb (url_ok url)
      then Err ("invalid " +:+ transport_label i +:+ " url '" +:+ url
                +:+ "': expected http(s):// or ws(s)://")
      else if bool_decide (is_Some ca_cert_path) && is_plaintext url
      then Err (transport_label i +:+ ".ca_cert_path is set but url '" +:+ url
                +:+ "' is plaintext: use https:// or wss://")
      else Ok tt
  | TRelay url _ =>
      if negb (starts_with "wss://" url || starts_with "https://" url)
      then Err ("invalid " +:+ transport_label i +:+ " relay url '" +:+ url
                +:+ "': expected wss:// or https://")
      else Ok tt
  end.

Fixpoint check_transports (i : nat) (ts : list TransportConfig) : Result unit string :=
  match ts with
  | [] => Ok tt
  | t :: ts' => let? _ := check_transport i t in check_transports (S i) ts'
  end.

Definition transport_url (t : TransportConfig) : string :=
  match t with TDirect url _ | TRelay url _ => url end.

(** The second loop, run when there is a fallback *)
Fixpoint check_no_downgrade (i : nat) (ts : list TransportConfig) : Result unit string :=
  match ts with
  | [] => Ok tt
  | t :: ts' =>
      if is_plaintext (transport_url t)
      then Err ("bridge.transports: mixing plaintext and TLS transports is not allowed "
                +:+ "(plaintext would leak the token on fallback): transports["
                +:+ fmt_N (N.of_nat i) +:+ "] is '" +:+ transport_url t +:+ "'")
      else check_no_downgrade (S i) ts'
  end.

Fixpoint check_mirror (configured : gset string) (mirror : list string) : Result unit string :=
  match mirror with
  | [] => Ok tt
  | cap :: rest =>
      if decide (cap ∈ configured) then check_mirror configured rest
      else Err ("bridge mirror '" +:+ cap +:+ "' is not a configured plugin (plugins: ["
                +:+ join ", " (elements configured) +:+ "])")
  end.

(** The [host_url] part: required unless transports are listed *)
Definition check_host_url (b : BridgeConfig) : Result unit string :=
  if negb (str_is_empty (bc_host_url b)) then
    if negb (url_ok (bc_host_url b))
    then Err ("invalid bridge host_url '" +:+ bc_host_url b
              +:+ "': expected http(s):// or ws(s)://")
    else if bool_decide (is_Some (bc_ca_cert_path b)) && is_plaintext (bc_host_url b)
    then Err ("bridge.ca_cert_path is set but host_url '" +:+ bc_host_url b
              +:+ "' is plaintext: use https:// or wss://")
    else Ok tt
  else Ok tt.

Definition validate_bridge_config (c : Config) : Result unit string :=
  match cf_role c with
  | RoleHost => Ok tt
  | RoleClient =>
      match cf_bridge c with
      | None => Err "role: client requires a `bridge:` block in config or --bridge-url"
      | Some b =>
          let has_url := negb (str_is_empty (bc_host_url b)) in
          let listed := bool_decide (bc_transports b <> []) in
          if has_url && listed
          then Err "bridge: set either host_url or transports, not both"
          else if negb has_url && negb listed
          then Err "bridge: host_url or transports is required"
          else
            let? _ := check_host_url b in
            let? _ := check_transports 0 (bc_transports b) in
            let? _ := (if (1 <? length (bc_transports b))%nat
                       then check_no_downgrade 0 (bc_transports b) else Ok tt) in
            match bc_mirror b with
            | [] => Err ("role: client requires at least one mirrored plugin "
                         +:+ "(`bridge.mirror` or --bridge-mirror)")
            | mirror => check_mirror (list_to_set (map pd_id (cf_plugins c))) mirror
            end
      end
  end.

Definition validate_config (c : Config) : Result unit string :=
  let? _ := validate_bridge_config c in
  ensure_auth_configured c.

(** ** The single-instance lock *)
Inductive InstanceLockError :=
| AlreadyRunning (pid : option Z)
| LockIo (e : string).

Definition lock_error_display (e : InstanceLockError) : string :=
  match e with
  | AlreadyRunning pid =>
      "kernel already running — another instance holds the PID lock"
      +:+ match pid with
          | Some p => " (pid " +:+ fmt_Z p +:+ ")"
          | None => EmptyString
          end
  | LockIo e => e
  end.

(** Where a process is: it opened the file; it has the lock; it has truncated;
    it has written its pid and holds an [InstanceLock]; its drop has removed the
    path and the descriptor is still open. *)
Inductive LockPhase :=
| LpOpened (inode : N)
| LpLocked (inode : N)
| LpTruncated (inode : N)
| LpHeld (inode : N)
| LpUnlinked (inode : N).

Record PidFs := mkPidFs {
  pf_path : option N;
  pf_data : gmap N string;
  pf_holder : gmap N N;
  pf_procs : gmap N LockPhase;
  pf_refused : list (N * InstanceLockError);
  pf_next : N
}.

Definition pidfs_init : PidFs := mkPidFs None ∅ ∅ ∅ [] 0.

Definition set_phase_of (p : N) (ph : LockPhase) (s : PidFs) : PidFs :=
  mkPidFs (pf_path s) (pf_data s) (pf_holder s) (<[p := ph]> (pf_procs s)) (pf_refused s)
    (pf_next s).

Definition write_inode (i : N) (text : string) (s : PidFs) : PidFs :=
  mkPidFs (pf_path s) (<[i := text]> (pf_data s)) (pf_holder s) (pf_procs s) (pf_refused s)
    (pf_next s).

(** A new empty file at the path *)
Definition create_file (s : PidFs) : PidFs :=
  mkPidFs (Some (pf_next s)) (<[pf_next s := EmptyString]> (pf_data s)) (pf_holder s)
    (pf_procs s) (pf_refused s) (pf_next s + 1)%N.

(** [open] with [O_CREAT] and [O_NOFOLLOW]; it does not truncate *)
Definition lock_open (p : N) (s : PidFs) : PidFs :=
  match pf_path s with
  | Some i => set_phase_of p (LpOpened i) s
  | None => set_phase_of p (LpOpened (pf_next s)) (create_file s)
  end.

(** The process is done with its descriptor: whatever lock it had is gone. *)
Definition close_fd (p i : N) (s : PidFs) : PidFs :=
  mkPidFs (pf_path s) (pf_data s)
    (if decide (pf_holder s !! i = Some p) then delete i (pf_holder s) else pf_holder s)
    (delete p (pf_procs s)) (pf_refused s) (pf_next s).

Definition lock_refuse (p : N) (e : InstanceLockError) (s : PidFs) : PidFs :=
  mkPidFs (pf_path s) (pf_data s) (pf_holder s) (pf_procs s) (pf_refused s ++ [(p, e)])
    (pf_next s).

(** [Flock::lock]: ours, or the loser reads the holder's pid and goes away *)
Definition lock_try (p i : N) (s : PidFs) : PidFs :=
  match pf_holder s !! i with
  | None =>
      set_phase_of p (LpLocked i)
        (mkPidFs (pf_path s) (pf_data s) (<[i := p]> (pf_holder s)) (pf_procs s)
           (pf_refused s) (pf_next s))
  | Some _ =>
      lock_refuse p (AlreadyRunning (parse_i32 (str_trim (default EmptyString (pf_data s !! i)))))
        (close_fd p i s)
  end.

(** [fs::remove_file] on the path, whoever calls it *)
Definition remove_path (s : PidFs) : PidFs :=
  mkPidFs None (pf_data s) (pf_holder s) (pf_procs s) (pf_refused s) (pf_next s).

(** [fs::write] on the path *)
Definition write_path (text : string) (s : PidFs) : PidFs :=
  match pf_path s with
  | Some i => write_inode i text s
  | None => write_inode (pf_next s) text (create_file s)
  end.

Definition phase_inode (ph : LockPhase) : N :=
  match ph with
  | LpOpened i | LpLocked i | LpTruncated i | LpHeld i | LpUnlinked i => i
  end.

(** One call of one process. [LkFail] is an error of the truncation or the write
    (the lock is dropped, the path stays), [LkDie] the death of a process at any
    point, [LkRemove] and [LkWrite] what other commands do to the path. *)
Inductive LockAct :=
| LkOpen (p : N)
| LkTry (p : N)
| LkTruncate (p : N)
| LkStore (p : N)
| LkFail (p : N) (e : string)
| LkUnlink (p : N)
| LkClose (p : N)
| LkDie (p : N)
| LkRemove
| LkWrite (pid : Z).

Definition lock_step (a : LockAct) (s : PidFs) : option PidFs :=
  match a with
  | LkOpen p => match pf_procs s !! p with None => Some (lock_open p s) | _ => None end
  | LkTry p =>
      match pf_procs s !! p with Some (LpOpened i) => Some (lock_try p i s) | _ => None end
  | LkTruncate p =>
      match pf_procs s !! p with
      | Some (LpLocked i) => Some (set_phase_of p (LpTruncated i) (write_inode i EmptyString s))
      | _ => None
      end
  | LkStore p =>
      match pf_procs s !! p with
      | Some (LpTruncated i) => Some (set_phase_of p (LpHeld i) (write_inode i (fmt_N p) s))
      | _ => None
      end
  | LkFail p e =>
      match pf_procs s !! p with
      | Some (LpLocked i) | Some (LpTruncated i) => Some (lock_refuse p (LockIo e) (close_fd p i s))
      | _ => None
      end
  | LkUnlink p =>
      match pf_procs s !! p with
      | Some (LpHeld i) => Some (set_phase_of p (LpUnlinked i) (remove_path s))
      | _ => None
      end
  | LkClose p =>
      match pf_procs s !! p with Some (LpUnlinked i) => Some (close_fd p i s) | _ => None end
  | LkDie p =>
      match pf_procs s !! p with Some ph => Some (close_fd p (phase_inode ph) s) | _ => None end
  | LkRemove => Some (remove_path s)
  | LkWrite pid => Some (write_path (fmt_Z pid) s)
  end.

Fixpoint lock_run (acts : list LockAct) (s : PidFs) : option PidFs :=
  match acts with
  | [] => Some s
  | a :: acts' => s' ← lock_step a s; lock_run acts' s'
  end.

(** [InstanceLock::acquire] and its drop as the calls one process makes *)
Definition acquire (p : N) : list LockAct := [LkOpen p; LkTry p; LkTruncate p; LkStore p].
Definition drop_lock (p : N) : list LockAct := [LkUnlink p; LkClose p].
