(* ===== verification/EmbedProps.v ===== *)
(** * Theorems about the embedding entry points

    A validated client configuration never sends the bridge token in the clear
    where TLS was asked for, and what the single-instance lock guarantees. *)

From S2P Require Import Prelude Errors Validate Kernel Sandbox Config Decimal.
From S2P Require Import Websocket Bridge BridgeProps Embed.

(** ** Configuration checks *)
Lemma check_transports_all i ts :
  check_transports i ts = Ok tt -> forall t, t ∈ ts -> exists j, check_transport j t = Ok tt.
Proof.
  revert i. induction ts as [|t ts IH]; intros i Hc u Hu; [by apply elem_of_nil in Hu|].
  simpl in Hc. destruct (check_transport i t) as [[]|] eqn:Ht; [|done].
  apply elem_of_cons in Hu as [->|Hu]; [by exists i|by apply (IH _ Hc)].
Qed.

Lemma check_no_downgrade_all i ts :
  check_no_downgrade i ts = Ok tt -> forall t, t ∈ ts -> is_plaintext (transport_url t) = false.
Proof.
  revert i. induction ts as [|t ts IH]; intros i Hc u Hu; [by apply elem_of_nil in Hu|].
  simpl in Hc. destruct (is_plaintext (transport_url t)) eqn:Ht; [done|].
  apply elem_of_cons in Hu as [->|Hu]; [done|by apply (IH _ Hc)].
Qed.

Lemma check_mirror_all configured mirror :
  check_mirror configured mirror = Ok tt -> forall cap, cap ∈ mirror -> cap ∈ configured.
Proof.
  induction mirror as [|c mirror IH]; simpl; [set_solver|]. case_decide; [|done].
  intros Hc cap [->|Hin]%elem_of_cons; auto.
Qed.

Lemma starts_with_app p s : starts_with p s = true -> exists r, s = p +:+ r.
Proof.
  unfold starts_with. destruct (strip_prefix p s) as [r|] eqn:Hr; [|done]. intros _. exists r.
  by apply strip_prefix_Some.
Qed.

(** An accepted url resolves, to TLS unless it is plaintext. *)
Lemma url_ok_resolves url :
  url_ok url = true ->
  exists u, resolve_ws_url url = Ok u
    /\ (is_plaintext url = false -> starts_with "wss://" u = true).
Proof.
  unfold url_ok, is_plaintext. simpl. rewrite !orb_true_iff.
  intros [Hu|[Hu|[Hu|[Hu|Hu]]]]; [..|done].
  - exists url. unfold resolve_ws_url. by rewrite Hu.
  - exists url. unfold resolve_ws_url. by rewrite Hu, orb_true_r.
  - rewrite Hu, orb_true_r. apply starts_with_app in Hu as [r ->]. unfold resolve_ws_url. simpl.
    change ("" +:+ r) with r. by destruct (split_once "/" r) as [[h q]|]; eexists.
  - apply starts_with_app in Hu as [r ->].
    destruct (resolve_ws_url ("https://" +:+ r)) as [u|e] eqn:Hr.
    + exists u. split; [done|]. intros _. by apply resolve_https in Hr.
    + revert Hr. unfold resolve_ws_url. simpl. change ("" +:+ r) with r.
      by destruct (split_once "/" r) as [[h q]|].
Qed.

(** The same dialler with another plaintext transport *)
Definition with_plain (plain : string -> string -> option (Result unit WsError)) (d : Dial) : Dial :=
  mkDial (dl_read_pem d) (dl_parse_pem d) (dl_versions d) (dl_request d) (dl_header d) (dl_tls d)
    plain.

Lemma connect_tls_only d plain url ca token u :
  resolve_ws_url url = Ok u -> starts_with "wss://" u = true ->
  connect_direct (with_plain plain d) url ca token = connect_direct d url ca token.
Proof.
  intros Hr Hu. unfold connect_direct. rewrite Hr. simpl. by rewrite Hu.
Qed.

(** C25 A client that passes the checks cannot be made to send its token in the
    clear where TLS was asked for: each url it may dial is a usable WebSocket
    url; one with a pinned certificate, and each one when there is a second to
    fall back to, is dialled over TLS only, so that what the plaintext dialler
    would answer makes no difference. It mirrors something, and only plugins that
    are configured; and it authenticates its own callers unless told not to. *)
Theorem validated_client_never_downgrades c b :
  validate_config c = Ok tt -> cf_role c = RoleClient -> cf_bridge c = Some b ->
  let ts := effective_transports b in
  ts <> []
  /\ (forall url ca, TDirect url ca ∈ ts ->
       exists u, resolve_ws_url url = Ok u
         /\ (is_Some ca \/ 1 < length ts ->
              starts_with "wss://" u = true
              /\ forall d plain token, connect (with_plain plain d) (TDirect url ca) token
                                        = connect d (TDirect url ca) token))
  /\ bc_mirror b <> [] /\ (forall cap, cap ∈ bc_mirror b -> cap ∈ map pd_id (cf_plugins c))
  /\ (is_Some (cf_jwt_secret c) \/ cf_allow_no_auth c = true).
Proof.
  unfold validate_config, validate_bridge_config. intros Hv Hrole Hb. rewrite Hrole, Hb in Hv.
  destruct (negb (str_is_empty (bc_host_url b)) && bool_decide (bc_transports b <> [])) eqn:H1; [done|].
  destruct (negb (negb (str_is_empty (bc_host_url b))) && negb (bool_decide (bc_transports b <> [])))
    eqn:H2; [done|].
  destruct (check_host_url b) as [[]|] eqn:Hurl; [|done].
  destruct (check_transports 0 (bc_transports b)) as [[]|] eqn:Hts; [|done].
  destruct (if (1 <? length (bc_transports b))%nat then check_no_downgrade 0 (bc_transports b)
            else Ok tt) as [[]|] eqn:Hdown; [|done].
  destruct (bc_mirror b) as [|cap rest] eqn:Hmir; [done|].
  destruct (check_mirror _ (cap :: rest)) as [[]|] eqn:Hm; [|done].
  assert (forall url ca, TDirect url ca ∈ effective_transports b ->
    url_ok url = true /\ (is_Some ca \/ 1 < length (effective_transports b) ->
      is_plaintext url = false)) as Hall.
  { intros url ca Hin. unfold effective_transports in *.
    destruct (bc_transports b) as [|t ts] eqn:Ht.
    - apply list_elem_of_singleton in Hin as [= -> ->].
      unfold check_host_url in Hurl.
      destruct (str_is_empty (bc_host_url b)); [done|]. simpl in Hurl.
      destruct (url_ok (bc_host_url b)); [|done]. split; [done|]. simpl in Hurl.
      destruct (is_plaintext (bc_host_url b)); [|done].
      intros [Hs|Hl]; [|simpl in Hl; lia]. rewrite (bool_decide_eq_true_2 _ Hs) in Hurl. done.
    - destruct (check_transports_all _ _ Hts _ Hin) as [j Hj]. simpl in Hj.
      destruct (url_ok url) eqn:Hok; [|done]. split; [done|]. simpl in Hj. intros [Hs|Hl].
      + rewrite (bool_decide_eq_true_2 _ Hs) in Hj. by destruct (is_plaintext url).
      + apply Nat.ltb_lt in Hl. rewrite Hl in Hdown.
        exact (check_no_downgrade_all _ _ Hdown _ Hin). }
  split; [by unfold effective_transports; destruct (bc_transports b)|].
  split.
  - intros url ca Hin. destruct (Hall _ _ Hin) as [Hok Hp].
    destruct (url_ok_resolves _ Hok) as (u & Hu & Hw). exists u. split; [done|].
    intros Hc. split; [by auto|]. intros d plain token. simpl. eapply connect_tls_only; eauto.
  - split; [done|]. split.
    + intros q Hq. apply (check_mirror_all _ _ Hm) in Hq. by apply elem_of_list_to_set in Hq.
    + simpl in Hv. unfold ensure_auth_configured in Hv.
      destruct (cf_jwt_secret c); [by left; eexists|]. right. by destruct (cf_allow_no_auth c).
Qed.

(** ** The single-instance lock *)

(** The process owns the lock of its inode. *)
Definition owns (ph : LockPhase) : bool :=
  match ph with LpOpened _ => false | _ => true end.

(** The process is past the drop: it only has its descriptor left to close. *)
Definition leaving (ph : LockPhase) : bool :=
  match ph with LpUnlinked _ => true | _ => false end.

Record lock_ok (s : PidFs) : Prop := {
  lo_owner : forall p ph, pf_procs s !! p = Some ph -> owns ph = true ->
    pf_holder s !! phase_inode ph = Some p;
  lo_holder : forall i p, pf_holder s !! i = Some p ->
    exists ph, pf_procs s !! p = Some ph /\ owns ph = true /\ phase_inode ph = i;
  lo_path : forall i, pf_path s = Some i -> (i < pf_next s)%N;
  lo_procs : forall p ph, pf_procs s !! p = Some ph -> (phase_inode ph < pf_next s)%N
}.

Lemma lock_ok_init : lock_ok pidfs_init.
Proof. split; by intros *; rewrite ?lookup_empty. Qed.

(** A process that opens, or moves on with the lock it has. *)
Lemma lock_ok_phase p ph s :
  lock_ok s -> (phase_inode ph < pf_next s)%N ->
  (owns ph = true -> pf_holder s !! phase_inode ph = Some p) ->
  (forall ph0, pf_procs s !! p = Some ph0 -> owns ph0 = true ->
     owns ph = true /\ phase_inode ph = phase_inode ph0) ->
  lock_ok (set_phase_of p ph s).
Proof.
  intros [Ho Hh Hp Hq] Hn Hown Hold. split; simpl; try done.
  - intros q ph'. rewrite lookup_insert. case_decide; [intros [= <-]; by subst|apply Ho].
  - intros i q Hi. destruct (Hh _ _ Hi) as (ph0 & H1 & H2 & H3). rewrite lookup_insert.
    case_decide as Heq; [|by exists ph0]. subst q. exists ph.
    destruct (Hold _ H1 H2) as [? ?]. split; [done|]. split; [done|congruence].
  - intros q ph'. rewrite lookup_insert. case_decide; [by intros [= <-]|apply Hq].
Qed.

(** A process that goes on with the lock it has. *)
Lemma lock_ok_advance p ph ph' s :
  lock_ok s -> pf_procs s !! p = Some ph -> owns ph = true -> owns ph' = true ->
  phase_inode ph' = phase_inode ph -> lock_ok (set_phase_of p ph' s).
Proof.
  intros Hs Hp Ho Ho' Hi. apply lock_ok_phase; [done|..]; rewrite ?Hi.
  - by apply (lo_procs s Hs p).
  - intros _. by apply (lo_owner s Hs).
  - intros ph0 H1 _. rewrite Hp in H1. by simplify_eq.
Qed.

Lemma lock_ok_create s : lock_ok s -> lock_ok (create_file s).
Proof.
  intros [Ho Hh Hp Hq]. split; simpl; try done.
  - intros i [= <-]. lia.
  - intros p ph H. specialize (Hq _ _ H). lia.
Qed.

Lemma lock_ok_write i text s : lock_ok s -> lock_ok (write_inode i text s).
Proof. intros [Ho Hh Hp Hq]. by split. Qed.

Lemma lock_ok_remove s : lock_ok s -> lock_ok (remove_path s).
Proof. intros [Ho Hh Hp Hq]. by split. Qed.

Lemma lock_ok_refuse p e s : lock_ok s -> lock_ok (lock_refuse p e s).
Proof. intros [Ho Hh Hp Hq]. by split. Qed.

Lemma lock_ok_close p ph s :
  lock_ok s -> pf_procs s !! p = Some ph -> lock_ok (close_fd p (phase_inode ph) s).
Proof.
  intros [Ho Hh Hp Hq] Hph. unfold close_fd. split; simpl; try done.
  - intros q ph'. rewrite lookup_delete. case_decide as Hpq; [done|]. intros Hq' Hown.
    specialize (Ho _ _ Hq' Hown). case_decide as Hd; [|done].
    rewrite lookup_delete. case_decide as Hi; [|done]. congruence.
  - intros i q Hi.
    assert (pf_holder s !! i = Some q /\ q <> p) as [Hi' Hne].
    { case_decide as Hd.
      - rewrite lookup_delete in Hi. case_decide as Hne; [done|]. split; [done|]. intros ->.
        destruct (Hh _ _ Hi) as (ph0 & H1 & H2 & H3). simplify_eq.
      - split; [done|]. intros ->. destruct (Hh _ _ Hi) as (ph0 & H1 & H2 & H3). simplify_eq. }
    destruct (Hh _ _ Hi') as (ph0 & H1 & H2 & H3). exists ph0. by rewrite lookup_delete_ne.
  - intros q ph'. rewrite lookup_delete. case_decide; [done|]. apply Hq.
Qed.

Lemma lock_ok_step a s s' : lock_ok s -> lock_step a s = Some s' -> lock_ok s'.
Proof.
  intros Hs. pose proof Hs as [Ho Hh Hp Hq]. destruct a as [p|p|p|p|p e|p|p|p| |z]; simpl.
  - destruct (pf_procs s !! p) eqn:Hpp; [done|]. intros [= <-]. unfold lock_open.
    destruct (pf_path s) as [i|] eqn:Hpath; (apply lock_ok_phase; simpl; [|..|congruence|congruence]).
    + done.
    + by apply Hp.
    + by apply lock_ok_create.
    + simpl. lia.
  - destruct (pf_procs s !! p) as [[i| | | |]|] eqn:Hpp; try done. intros [= <-]. unfold lock_try.
    destruct (pf_holder s !! i) eqn:Hi.
    + apply lock_ok_refuse. exact (lock_ok_close p (LpOpened i) s Hs Hpp).
    + specialize (Hq _ _ Hpp). simpl in Hq.
      split; simpl; try done.
      * intros q ph. rewrite !lookup_insert. case_decide as Hpq; [subst q|].
        -- intros [= <-] _. simpl. by rewrite decide_True.
        -- intros Hq' Hown. specialize (Ho _ _ Hq' Hown). case_decide; [congruence|done].
      * intros j q. rewrite lookup_insert. case_decide as Hj; [subst j; intros [= <-]|].
        -- exists (LpLocked i). by rewrite lookup_insert_eq.
        -- intros Hj'. destruct (Hh _ _ Hj') as (ph0 & H1 & H2 & H3).
           destruct (decide (p = q)) as [->|]; [rewrite Hpp in H1; by simplify_eq|].
           exists ph0. by rewrite lookup_insert_ne.
      * intros q ph. rewrite lookup_insert. case_decide; [intros [= <-]; done|].
        intros Hx. by apply (lo_procs s Hs q).
  - destruct (pf_procs s !! p) as [[|i| | |]|] eqn:Hpp; try done. intros [= <-].
    by eapply lock_ok_advance; [apply lock_ok_write|..].
  - destruct (pf_procs s !! p) as [[| |i| |]|] eqn:Hpp; try done. intros [= <-].
    by eapply lock_ok_advance; [apply lock_ok_write|..].
  - destruct (pf_procs s !! p) as [[|i|i| |]|] eqn:Hpp; try done; intros [= <-];
      apply lock_ok_refuse; apply (lock_ok_close p _ s Hs Hpp).
  - destruct (pf_procs s !! p) as [[| | |i|]|] eqn:Hpp; try done. intros [= <-].
    by eapply lock_ok_advance; [apply lock_ok_remove|..].
  - destruct (pf_procs s !! p) as [[| | | |i]|] eqn:Hpp; try done. intros [= <-].
    exact (lock_ok_close p _ s Hs Hpp).
  - destruct (pf_procs s !! p) as [ph|] eqn:Hpp; [|done]. intros [= <-].
    exact (lock_ok_close p ph s Hs Hpp).
  - intros [= <-]. by apply lock_ok_remove.
  - intros [= <-]. unfold write_path. destruct (pf_path s); [by apply lock_ok_write|].
    by apply lock_ok_write, lock_ok_create.
Qed.

(** The race the drop leaves open: the path is removed while another process has
    the file open and is not itself on its way out. A quiet removal avoids it. *)
Definition quiet (a : LockAct) (s : PidFs) : Prop :=
  match a with
  | LkUnlink p => map_Forall (fun q ph => q = p \/ leaving ph = true) (pf_procs s)
  | LkRemove => map_Forall (fun _ ph => leaving ph = true) (pf_procs s)
  | _ => True
  end.

Fixpoint quiet_run (acts : list LockAct) (s : PidFs) : Prop :=
  match acts with
  | [] => True
  | a :: acts' => quiet a s /\ match lock_step a s with
                                | Some s' => quiet_run acts' s'
                                | None => True
                                end
  end.

#[export] Instance quiet_dec a s : Decision (quiet a s).
Proof. destruct a; simpl; apply _. Defined.

#[export] Instance quiet_run_dec acts : forall s, Decision (quiet_run acts s).
Proof.
  induction acts as [|a acts IH]; intros s; simpl; [apply _|].
  destruct (lock_step a s) as [s'|]; [|apply _].
  pose proof (IH s'). apply _.
Defined.

(** Whoever has the file open and is not leaving has the file at the path open. *)
Definition on_path (s : PidFs) : Prop :=
  forall p ph, pf_procs s !! p = Some ph -> leaving ph = false -> pf_path s = Some (phase_inode ph).

Lemma on_path_phase p ph s :
  on_path s -> (leaving ph = false -> pf_path s = Some (phase_inode ph)) ->
  on_path (set_phase_of p ph s).
Proof.
  intros Hs Hph q ph'. simpl. rewrite lookup_insert. case_decide; [intros [= <-]; done|apply Hs].
Qed.

Lemma on_path_close p i s : on_path s -> on_path (close_fd p i s).
Proof. intros Hs q ph. simpl. rewrite lookup_delete. case_decide; [done|apply Hs]. Qed.

(** Creating the file at a free path, when nobody has it open. *)
Lemma on_path_free s s' :
  on_path s -> pf_path s = None -> pf_procs s' = pf_procs s -> on_path s'.
Proof. intros Hs Hn Hp q ph. rewrite Hp. intros H1 H2. specialize (Hs _ _ H1 H2). congruence. Qed.

Lemma on_path_step a s s' : on_path s -> quiet a s -> lock_step a s = Some s' -> on_path s'.
Proof.
  intros Hs Hq. destruct a as [p|p|p|p|p e|p|p|p| |z]; simpl in *.
  - destruct (pf_procs s !! p); [done|]. intros [= <-]. unfold lock_open.
    destruct (pf_path s) eqn:Hp; apply on_path_phase; try done. by apply (on_path_free s).
  - destruct (pf_procs s !! p) as [[i| | | |]|] eqn:Hpp; try done. intros [= <-]. unfold lock_try.
    destruct (pf_holder s !! i); [by apply on_path_close|].
    apply on_path_phase; [done|]. intros _. by apply (Hs _ _ Hpp).
  - destruct (pf_procs s !! p) as [[|i| | |]|] eqn:Hpp; try done. intros [= <-].
    apply on_path_phase; [done|]. intros _. by apply (Hs _ _ Hpp).
  - destruct (pf_procs s !! p) as [[| |i| |]|] eqn:Hpp; try done. intros [= <-].
    apply on_path_phase; [done|]. intros _. by apply (Hs _ _ Hpp).
  - destruct (pf_procs s !! p) as [[|i|i| |]|] eqn:Hpp; try done; intros [= <-];
      by apply on_path_close.
  - destruct (pf_procs s !! p) as [[| | |i|]|] eqn:Hpp; try done. intros [= <-].
    intros q ph. simpl. rewrite lookup_insert. case_decide; [by intros [= <-]|].
    intros H1 H2. destruct (Hq _ _ H1); congruence.
  - destruct (pf_procs s !! p) as [[| | | |i]|] eqn:Hpp; try done. intros [= <-].
    by apply on_path_close.
  - destruct (pf_procs s !! p) as [ph|] eqn:Hpp; [|done]. intros [= <-]. by apply on_path_close.
  - intros [= <-] q ph H1 H2. specialize (Hq _ _ H1). simpl in Hq. congruence.
  - intros [= <-]. unfold write_path. destruct (pf_path s) eqn:Hp; [by apply Hs|].
    by apply (on_path_free s).
Qed.

Lemma lock_run_ok acts s s' :
  lock_ok s -> on_path s -> quiet_run acts s -> lock_run acts s = Some s' ->
  lock_ok s' /\ on_path s'.
Proof.
  revert s. induction acts as [|a acts IH]; intros s Hl Ho Hq; simpl; [by intros [= <-]|].
  destruct Hq as [Hqa Hq]. destruct (lock_step a s) as [s1|] eqn:Hs; [|done]. simpl.
  apply IH; [by eapply lock_ok_step|by eapply on_path_step|done].
Qed.

(** C26 At most one kernel runs per pid file: in every interleaving of starts,
    failed starts, crashes, exits and commands that write the pid file, in which
    the file is removed only while no other process is between opening it and
    leaving, at most one process has the lock and is not on its way out; and the
    file at the path is the one it has locked. *)
Theorem single_instance acts s p q ph ph' :
  quiet_run acts pidfs_init -> lock_run acts pidfs_init = Some s ->
  pf_procs s !! p = Some ph -> owns ph = true -> leaving ph = false ->
  pf_procs s !! q = Some ph' -> owns ph' = true -> leaving ph' = false ->
  p = q /\ pf_path s = Some (phase_inode ph).
Proof.
  intros Hq Hr Hp Ho Hl Hp' Ho' Hl'.
  destruct (lock_run_ok acts pidfs_init s lock_ok_init) as [Hok Hon]; [by intros ? ?|done..|].
  pose proof (Hon _ _ Hp Hl) as H1. pose proof (Hon _ _ Hp' Hl') as H2.
  pose proof (lo_owner s Hok _ _ Hp Ho) as H3. pose proof (lo_owner s Hok _ _ Hp' Ho') as H4.
  split; [|done]. congruence.
Qed.

(** Without that condition it fails: a process that opened the file before the
    holder's drop removed it locks the removed file, and the next one a new file;
    both kernels run. *)
Lemma unlinked_lock_admits_two :
  exists s,
    lock_run (acquire 1 ++ [LkOpen 2] ++ drop_lock 1 ++ [LkTry 2; LkTruncate 2; LkStore 2]
              ++ acquire 3) pidfs_init = Some s
    /\ pf_procs s !! 2%N = Some (LpHeld 0) /\ pf_procs s !! 3%N = Some (LpHeld 1)
    /\ pf_refused s = [].
Proof. eexists. split; [vm_compute; reflexivity|]. done. Qed.

(** Who comes second while the holder runs is told the holder's pid. *)
Lemma second_instance_refused p q i s :
  lock_ok s -> (Z.of_N p <= i32_max)%Z -> pf_procs s !! p = Some (LpHeld i) ->
  pf_path s = Some i -> pf_data s !! i = Some (fmt_N p) -> pf_procs s !! q = None ->
  exists s', lock_run (take 2 (acquire q)) s = Some s'
    /\ pf_refused s' = pf_refused s ++ [(q, AlreadyRunning (Some (Z.of_N p)))]
    /\ pf_procs s' = pf_procs s /\ pf_holder s' = pf_holder s /\ pf_data s' = pf_data s.
Proof.
  intros Hs Hz Hp Hpath Hdata Hq. pose proof (lo_owner s Hs _ _ Hp eq_refl) as Hh. simpl in Hh.
  unfold acquire. simpl. rewrite Hq. unfold lock_open. rewrite Hpath. simpl.
  rewrite lookup_insert_eq. unfold lock_try. simpl. rewrite Hh. eexists. split; [done|]. simpl.
  rewrite Hdata. simpl. destruct (trim_fmt_N p) as [-> _]. rewrite parse_i32_fmt by done.
  split; [done|]. rewrite delete_insert_id by done. split; [done|]. split; [|done].
  rewrite decide_False; [done|]. rewrite Hh. intros [= ->]. congruence.
Qed.

Lemma single_instance_witness :
  exists s, lock_run (acquire 1 ++ drop_lock 1 ++ acquire 2 ++ [LkOpen 3; LkTry 3]) pidfs_init = Some s
    /\ pf_path s = Some 1%N /\ pf_refused s = [(3%N, AlreadyRunning (Some 2%Z))].
Proof.
  eexists. split; [vm_compute; reflexivity|]. split; [|vm_compute; reflexivity].
  eapply (single_instance (acquire 1 ++ drop_lock 1 ++ acquire 2 ++ [LkOpen 3; LkTry 3])
            _ 2 2 (LpHeld 1) (LpHeld 1)); try (vm_compute; reflexivity).
  apply (bool_decide_unpack _). vm_compute. exact I.
Defined.
