(* ===== verification/Daemon.v ===== *)
(** * The daemon commands (src/main.rs)

    [vyn start], [stop], [restart], [status] and [logs]: the effective
    configuration, the command line of the background child and its readiness
    handshake, and what is done with the pid file. The clock, the file as it is
    read, the answers to [kill] and the bytes of the readiness pipe are arguments;
    what a command does to the world is the list of its effects. Splitting the
    child's command line is the job of the clap crate ([Clap]). *)

From S2P Require Import Prelude Errors Validate Kernel Sandbox Supervisor Config Decimal Embed.

(** ** The effective configuration *)
Record StartOpts := mkStartOpts {
  so_foreground : bool;
  so_port : option Z;
  so_config : string;
  so_debug : bool;
  so_role : option string;
  so_bridge_url : option string;
  so_bridge_token : option string;
  so_bridge_secret : option string;
  so_bridge_mirror : list string
}.

(** Assigning [port], [log_level], [role] and [bridge] *)
Definition set_start (port : Z) (log_level : string) (role : Role) (bridge : option BridgeConfig)
    (c : Config) : Config :=
  mkConfig
    port log_level (cf_pid_file c) (cf_log_file c) (cf_data_dir c)
    (cf_socket_path c) (cf_jwt_secret c) (cf_allow_no_auth c) (cf_legacy_plugin_mac c)
    role bridge (cf_device_callers c) (cf_device_id c)
    (cf_plugins c) (cf_plugins_dir c) (cf_watchdog_interval_secs c) (cf_watchdog_timeout_secs c)
    (cf_log_buffer_lines c) (cf_max_connections c)
    (cf_api_rate_limit_rps c) (cf_api_rate_limit_burst c) (cf_ipc_rate_limit_rps c)
    (cf_action_caller_rate_limit_rps c) (cf_action_caller_max_concurrent c)
    (cf_session_idle_timeout_secs c) (cf_prune_interval_secs c) (cf_tls c)
    (cf_tls_cert_path c) (cf_tls_key_path c) (cf_jwt_audience c) (cf_bind c)
    (cf_ws_register_timeout_secs c) (cf_ws_device_recheck_secs c) (cf_tmp_dir c)
    (cf_action_timeout_ms c) (cf_restart_backoff_base_ms c)
    (cf_restart_backoff_max_ms c) (cf_default_grace_seconds c) (cf_event_max_retries c)
    (cf_event_retention_secs c) (cf_router_channel_capacity c)
    (cf_fragment_timeout_secs c) (cf_max_reassembly_streams c) (cf_max_conn_errors c)
    (cf_max_tracked_error_conns c) (cf_ws_handshake_timeout_secs c) (cf_max_ws_connections c)
    (cf_max_archive_bytes c) (cf_max_extracted_bytes c) (cf_max_archive_entries c)
    (cf_lazy_idle_stop_secs c) (cf_lazy_start_timeout_ms c) (cf_config_file c).

Definition has_bridge_flag (o : StartOpts) : bool :=
  bool_decide (is_Some (so_bridge_url o)) || bool_decide (is_Some (so_bridge_token o))
  || bool_decide (is_Some (so_bridge_secret o)) || negb (bool_decide (so_bridge_mirror o = [])).

Definition override_role (o : StartOpts) (r : Role) : Role :=
  let r := if bool_decide (so_role o = Some "client") then RoleClient
           else if bool_decide (so_role o = Some "host") then RoleHost else r in
  if has_bridge_flag o && bool_decide (so_role o = None) then RoleClient else r.

Definition override_bridge (o : StartOpts) (b : option BridgeConfig) : option BridgeConfig :=
  if negb (has_bridge_flag o) then b
  else
    let b := default bridge_default b in
    Some (mkBridgeConfig (default (bc_host_url b) (so_bridge_url o)) (bc_transports b)
            (match so_bridge_token o with Some t => Some t | None => bc_token b end)
            (match so_bridge_secret o with Some s => Some s | None => bc_secret b end)
            (match so_bridge_mirror o with [] => bc_mirror b | m => m end)
            (bc_ca_cert_path b) (bc_keepalive_secs b)).

Definition apply_role_overrides (o : StartOpts) (c : Config) : Config :=
  set_start (cf_port c) (cf_log_level c) (override_role o (cf_role c))
    (override_bridge o (cf_bridge c)) c.

(** The head of the [Start] arm. [load] is [load_config], [dflt] is
    [Config::default]. *)
Definition start_config (load : string -> Result Config string) (dflt : Config) (o : StartOpts)
    : Config :=
  let c := match load (so_config o) with Ok c => c | Err _ => dflt end in
  let c := set_start (default (cf_port c) (so_port o))
             (if so_debug o then "debug" else cf_log_level c) (cf_role c) (cf_bridge c) c in
  apply_role_overrides o c.

(** ** The pid file *)

(** What the file system and [kill(pid, 0)] answer at one moment *)
Inductive Probe := PrAlive | PrNoProcess | PrOther (e : string).

Record PidView := mkPidView {
  pv_content : Result string string;
  pv_probe : Z -> Probe
}.

Definition read_pid (content : Result string string) : Result Z string :=
  let? s := content in
  match parse_i32 (str_trim s) with
  | Some pid => Ok pid
  | None => Err "invalid pid"
  end.

Definition write_pid (pid : Z) : string := fmt_Z pid.

Inductive PidEffect :=
| EfSignal (pid : Z) (sig : Signal)
| EfRemove
| EfWrite (text : string).

Definition kernel_is_running (v : PidView) : bool * list PidEffect :=
  match read_pid (pv_content v) with
  | Err _ => (false, [])
  | Ok pid =>
      match pv_probe v pid with
      | PrAlive => (true, [])
      | PrNoProcess => (false, [EfRemove])
      | PrOther _ => (false, [])
      end
  end.

(** [wait_pid_gone] over the probes of its turns and the clock after each; [None]
    is a loop that goes on after them. Times are in milliseconds. *)
Fixpoint wait_pid_gone (start timeout : Z) (turns : list (Probe * Z)) : option bool :=
  match turns with
  | [] => None
  | (PrNoProcess, _) :: _ => Some true
  | (_, now) :: rest => if (timeout <=? now - start)%Z then Some false
                        else wait_pid_gone start timeout rest
  end.

Definition STOP_WAIT_MARGIN : Z := 2000.
Definition STOP_POLL_INTERVAL : Z := 500.

(** What one [stop_kernel] meets: the first probe, the read of the pid, the
    outcome of the signals, the clock at the deadline's computation, then the
    clock and the view of each turn, and the view after the loop. *)
Record StopEnv := mkStopEnv {
  sn_first : PidView;
  sn_read : Result string string;
  sn_term : option string;
  sn_now : Z;
  sn_polls : list (Z * PidView);
  sn_last : PidView;
  sn_kill : option string
}.

(** The polling loop; [None] when it goes on after the given turns. *)
Fixpoint stop_wait (deadline : Z) (polls : list (Z * PidView)) : option (list PidEffect) :=
  match polls with
  | [] => None
  | (now, v) :: rest =>
      if (now <? deadline)%Z then
        let '(running, effects) := kernel_is_running v in
        if running then (effects ++.) <$> stop_wait deadline rest else Some effects
      else Some []
  end.

Definition stop_kernel (grace_ms : Z) (e : StopEnv) : option (list PidEffect * Result unit string) :=
  let '(running, ef0) := kernel_is_running (sn_first e) in
  if negb running then Some (ef0, Ok tt)
  else
    match read_pid (sn_read e) with
    | Err err => Some (ef0, Err err)
    | Ok pid =>
        match sn_term e with
        | Some err => Some (ef0, Err err)
        | None =>
            let ef1 := ef0 ++ [EfSignal pid SIGTERM] in
            let deadline := (sn_now e + (grace_ms + STOP_WAIT_MARGIN))%Z in
            waited ← stop_wait deadline (sn_polls e);
            let '(alive, ef2) := kernel_is_running (sn_last e) in
            let ef3 := ef1 ++ waited ++ ef2 in
            Some (if alive then
                    match sn_kill e with
                    | Some err => (ef3, Err err)
                    | None => (ef3 ++ [EfSignal pid SIGKILL; EfRemove], Ok tt)
                    end
                  else (ef3 ++ [EfRemove], Ok tt))
        end
    end.

(** ** The background child *)
Definition daemon_args (c : Config) (config_path : string) (debug : bool) : list string :=
  ["start"; "--foreground"; "--config"; config_path; "--port"; fmt_Z (cf_port c)]
  ++ match cf_role c with
     | RoleClient =>
         ["--role"; "client"]
         ++ match cf_bridge c with
            | Some b =>
                (if str_is_empty (bc_host_url b) then [] else ["--bridge-url"; bc_host_url b])
                ++ match bc_token b with Some t => ["--bridge-token"; t] | None => [] end
                ++ match bc_secret b with Some s => ["--bridge-secret"; s] | None => [] end
                ++ concat (map (fun m => ["--bridge-mirror"; m]) (bc_mirror b))
            | None => []
            end
     | RoleHost => []
     end
  ++ (if debug then ["--debug"] else []).

(** [String::from_utf8_lossy]: every maximal piece of an ill-formed sequence
    becomes U+FFFD. [utf8_next] is the length of the first sequence and whether it
    is well formed. *)
Definition REPLACEMENT : bytes := [Byte.xef; Byte.xbf; Byte.xbd].

Definition utf8_next (l : bytes) : nat * bool :=
  match l with
  | [] => (0, true)
  | b :: l' =>
      let second lo hi := match l' with b2 :: _ => in_range lo hi b2 | [] => false end in
      let third := match l' with _ :: b3 :: _ => cont b3 | _ => false end in
      let fourth := match l' with _ :: _ :: b4 :: _ => cont b4 | _ => false end in
      let three lo hi := if second lo hi then if third then (3, true) else (2, false)
                         else (1, false) in
      let four lo hi := if second lo hi then
                          if third then if fourth then (4, true) else (3, false) else (2, false)
                        else (1, false) in
      if in_range 0 127 b then (1, true)
      else if in_range 194 223 b then if second 128%N 191%N then (2, true) else (1, false)
      else if in_range 224 224 b then three 160%N 191%N
      else if in_range 237 237 b then three 128%N 159%N
      else if in_range 225 239 b then three 128%N 191%N
      else if in_range 240 240 b then four 144%N 191%N
      else if in_range 241 243 b then four 128%N 191%N
      else if in_range 244 244 b then four 128%N 143%N
      else (1, false)
  end%nat.

Fixpoint lossy_go (fuel : nat) (l : bytes) : bytes :=
  match fuel, l with
  | S fuel', _ :: _ =>
      let '(n, ok) := utf8_next l in
      (if ok then take n l else REPLACEMENT) ++ lossy_go fuel' (drop n l)
  | _, _ => []
  end.

Definition from_utf8_lossy (l : bytes) : string := string_of_bytes (lossy_go (length l) l).

(** The reads of the readiness pipe: up to the first newline *)
Inductive ReadyRead :=
| RdBytes (b : bytes)
| RdEof
| RdWouldBlock
| RdError (e : string).

Fixpoint await_ready (reads : list ReadyRead) (line : string) : option (Result string string) :=
  match reads with
  | [] => None
  | RdEof :: _ => Some (Err "kernel child exited before signaling readiness")
  | RdWouldBlock :: _ => Some (Err "kernel child did not signal readiness within 10s")
  | RdError e :: _ => Some (Err ("readiness pipe error: " +:+ e))
  | RdBytes b :: rest =>
      let line := line +:+ from_utf8_lossy b in
      if str_contains (ascii_of_N 10) line then Some (Ok line) else await_ready rest line
  end.

(** The end of [daemonize_and_run]; [io] is the outcome of [write_pid] *)
Definition daemon_finish (pid : Z) (io : option string) (pid_line : Result string string)
    : list PidEffect * Result unit string :=
  match pid_line with
  | Ok line =>
      match parse_i32 (str_trim line) with
      | None => ([], Err ("corrupt readiness line from kernel child: " +:+ str_debug line))
      | Some child_pid =>
          if negb (child_pid =? pid)%Z
          then ([], Err ("readiness pid " +:+ fmt_Z child_pid +:+ " does not match child pid "
                         +:+ fmt_Z pid))
          else match io with
               | Some e => ([], Err e)
               | None => ([EfWrite (write_pid pid)], Ok tt)
               end
      end
  | Err e => ([EfSignal pid SIGKILL; EfRemove],
              Err ("kernel failed to start in background: " +:+ e))
  end.

Definition daemonize_and_run (pid : Z) (io : option string) (reads : list ReadyRead)
    : option (list PidEffect * Result unit string) :=
  daemon_finish pid io <$> await_ready reads EmptyString.

(** The line the child writes once it has the lock ([run_foreground]) *)
Definition ready_line (pid : N) : string := fmt_N pid +:+ nl.

(** ** The other commands *)

(** The rest of the [Start] arm *)
Inductive StartPlan :=
| RunForeground (c : Config)
| AlreadyUp (pid : Z)
| Daemonize (args : list string).

Definition start_arm (load : string -> Result Config string) (dflt : Config) (o : StartOpts)
    (v : PidView) (reread : Result string string) : list PidEffect * Result StartPlan string :=
  let c := start_config load dflt o in
  match validate_config c with
  | Err e => ([], Err e)
  | Ok _ =>
      if so_foreground o then ([], Ok (RunForeground c))
      else
        let '(running, ef) := kernel_is_running v in
        if running then (ef, let? pid := read_pid reread in Ok (AlreadyUp pid))
        else (ef, Ok (Daemonize (daemon_args c (so_config o) (so_debug o))))
  end.

(** The [Restart] arm up to [daemonize_and_run]: [None] while it waits *)
Definition restart_arm (c : Config) (config_path : string) (debug : bool)
    (read0 : Result string string) (e : StopEnv) (start : Z) (turns : list (Probe * Z))
    : option (list PidEffect * Result (list string) string) :=
  match ensure_auth_configured c with
  | Err err => Some ([], Err err)
  | Ok _ =>
      let old_pid := match read_pid read0 with Ok pid => Some pid | Err _ => None end in
      stopped ← stop_kernel (cf_default_grace_seconds c * 1000) e;
      match stopped with
      | (ef, Err err) => Some (ef, Err err)
      | (ef, Ok _) =>
          let go := Some (ef, Ok (daemon_args c config_path debug)) in
          match old_pid with
          | None => go
          | Some pid =>
              gone ← wait_pid_gone start 5000 turns;
              if (gone : bool) then go
              else Some (ef, Err ("restart aborted: kernel (PID " +:+ fmt_Z pid
                     +:+ ") still alive after stop — refusing to start a second instance"))
          end
      end
  end.

Definition status_line (v : PidView) (reread : Result string string)
    : list PidEffect * Result string string :=
  let '(running, ef) := kernel_is_running v in
  (ef, if running then let? pid := read_pid reread in
                       Ok ("vynkor is running (PID: " +:+ fmt_Z pid +:+ ")")
       else Ok "vynkor is not running").

(** The lines [show_logs] prints; [None] is a log file that does not exist *)
Definition show_logs (file : option (Result string string)) (lines : nat)
    : Result (list string) string :=
  match file with
  | None => Ok ["no log file found."]
  | Some content =>
      let? text := content in
      let all_lines := str_lines text in
      let start := if (lines <? length all_lines)%nat then (length all_lines - lines)%nat else 0%nat in
      Ok (drop start all_lines)
  end.
