(* ===== verification/DaemonProps.v ===== *)
(** * Theorems about the daemon commands

    The background child runs the configuration the operator asked for, the
    readiness handshake publishes exactly the child's pid, and a stop waits out
    the kernel's own grace period. *)

From S2P Require Import Prelude Errors Validate Kernel Sandbox Supervisor Config Decimal.
From S2P Require Import Websocket Bridge Embed EmbedProps Daemon.

(** ** The child's command line *)

(** The options of [vyn start] as clap reads them. *)
Inductive Flag :=
| FlForeground
| FlDebug
| FlPort (n : N)
| FlConfig (path : string)
| FlRole (role : string)
| FlUrl (url : string)
| FlToken (token : string)
| FlSecret (secret : string)
| FlMirror (id : string).

Definition flag_args (f : Flag) : list string :=
  match f with
  | FlForeground => ["--foreground"]
  | FlDebug => ["--debug"]
  | FlPort n => ["--port"; fmt_N n]
  | FlConfig path => ["--config"; path]
  | FlRole role => ["--role"; role]
  | FlUrl url => ["--bridge-url"; url]
  | FlToken token => ["--bridge-token"; token]
  | FlSecret secret => ["--bridge-secret"; secret]
  | FlMirror id => ["--bridge-mirror"; id]
  end.

(** The value of an option is a separate argument that is not itself an option. *)
Definition flag_ok (f : Flag) : Prop :=
  match f with
  | FlForeground | FlDebug => True
  | FlPort n => (n < 65536)%N
  | FlRole role => role = "client" \/ role = "host"
  | FlConfig v | FlUrl v | FlToken v | FlSecret v | FlMirror v => starts_with "-" v = false
  end.

(** The name of an option that may be given once. *)
Definition single (f : Flag) : option string :=
  match f with FlMirror _ => None | _ => head (flag_args f) end.

Definition no_options : StartOpts := mkStartOpts false None "config.yaml" false None None None None [].

Definition with_flag (o : StartOpts) (f : Flag) : StartOpts :=
  let '(mkStartOpts fg port path debug role url token secret mirror) := o in
  match f with
  | FlForeground => mkStartOpts true port path debug role url token secret mirror
  | FlDebug => mkStartOpts fg port path true role url token secret mirror
  | FlPort n => mkStartOpts fg (Some (Z.of_N n)) path debug role url token secret mirror
  | FlConfig v => mkStartOpts fg port v debug role url token secret mirror
  | FlRole v => mkStartOpts fg port path debug (Some v) url token secret mirror
  | FlUrl v => mkStartOpts fg port path debug role (Some v) token secret mirror
  | FlToken v => mkStartOpts fg port path debug role url (Some v) secret mirror
  | FlSecret v => mkStartOpts fg port path debug role url token (Some v) mirror
  | FlMirror v => mkStartOpts fg port path debug role url token secret (mirror ++ [v])
  end.

Definition flags_opts (fs : list Flag) : StartOpts := foldl with_flag no_options fs.

(** clap on the command line of [vyn]: [None] is a usage error. *)
Class Clap := { clap_start : list string -> option StartOpts }.

(** It reads a list of long options, each with its value in the next argument,
    in any order. *)
Class ClapLaws `{Clap} := {
  clap_long_options fs :
    Forall flag_ok fs -> NoDup (omap single fs) ->
    clap_start ("start" :: concat (map flag_args fs)) = Some (flags_opts fs)
}.

(** The options of the child, as [daemon_args] lists them. *)
Definition bridge_flags (b : BridgeConfig) : list Flag :=
  (if str_is_empty (bc_host_url b) then [] else [FlUrl (bc_host_url b)])
  ++ match bc_token b with Some t => [FlToken t] | None => [] end
  ++ match bc_secret b with Some s => [FlSecret s] | None => [] end
  ++ map FlMirror (bc_mirror b).

Definition daemon_flags (c : Config) (config_path : string) (debug : bool) : list Flag :=
  [FlForeground; FlConfig config_path; FlPort (Z.to_N (cf_port c))]
  ++ match cf_role c with
     | RoleClient => FlRole "client" :: match cf_bridge c with Some b => bridge_flags b | None => [] end
     | RoleHost => []
     end
  ++ (if debug then [FlDebug] else []).

Lemma daemon_args_flags c path debug :
  (0 <= cf_port c)%Z ->
  daemon_args c path debug = "start" :: concat (map flag_args (daemon_flags c path debug)).
Proof.
  intros Hp. unfold daemon_args, daemon_flags. rewrite fmt_Z_N by done.
  rewrite !map_app, !concat_app. simpl. do 6 f_equal. f_equal; [|by destruct debug].
  destruct (cf_role c); [done|]. simpl. do 2 f_equal. destruct (cf_bridge c) as [b|]; [|done].
  unfold bridge_flags. rewrite !map_app, !concat_app.
  f_equal; [by destruct (str_is_empty _)|]. f_equal; [by destruct (bc_token b)|].
  f_equal; [by destruct (bc_secret b)|]. by rewrite map_map.
Qed.

(** What the child reads back. *)
Lemma with_mirrors ms o :
  foldl with_flag o (map FlMirror ms)
  = mkStartOpts (so_foreground o) (so_port o) (so_config o) (so_debug o) (so_role o)
      (so_bridge_url o) (so_bridge_token o) (so_bridge_secret o) (so_bridge_mirror o ++ ms).
Proof.
  revert o. induction ms as [|m ms IH]; intros []; simpl; [by rewrite app_nil_r|].
  rewrite IH. simpl. by rewrite <- app_assoc.
Qed.

Definition child_opts (c : Config) (config_path : string) (debug : bool) : StartOpts :=
  let b := match cf_role c with RoleClient => cf_bridge c | RoleHost => None end in
  mkStartOpts true (Some (cf_port c)) config_path debug
    (match cf_role c with RoleClient => Some "client" | RoleHost => None end)
    (b ≫= fun b => if str_is_empty (bc_host_url b) then None else Some (bc_host_url b))
    (b ≫= bc_token) (b ≫= bc_secret) (default [] (bc_mirror <$> b)).

Lemma daemon_flags_opts c path debug :
  (0 <= cf_port c)%Z -> flags_opts (daemon_flags c path debug) = child_opts c path debug.
Proof.
  intros Hp. unfold flags_opts, daemon_flags, child_opts. rewrite !foldl_app. simpl.
  rewrite Z2N.id by done. destruct (cf_role c); simpl; [by destruct debug|].
  destruct (cf_bridge c) as [b|]; simpl; [|by destruct debug].
  unfold bridge_flags. rewrite !foldl_app.
  destruct (str_is_empty (bc_host_url b)), (bc_token b), (bc_secret b); simpl;
    rewrite with_mirrors; simpl; by destruct debug.
Qed.

Lemma singles_mirror ms : omap single (map FlMirror ms) = [].
Proof. by induction ms. Qed.

Lemma daemon_flags_single c path debug : NoDup (omap single (daemon_flags c path debug)).
Proof.
  apply (bool_decide_unpack _). unfold daemon_flags. rewrite !omap_app.
  destruct (cf_role c); [by destruct debug|].
  destruct (cf_bridge c) as [b|]; [|by destruct debug].
  unfold bridge_flags. simpl. rewrite !omap_app, singles_mirror.
  by destruct (str_is_empty (bc_host_url b)), (bc_token b), (bc_secret b), debug.
Qed.

(** The file as it is before the overrides. *)
Definition base_config (load : string -> Result Config string) (dflt : Config) (o : StartOpts)
    : Config :=
  match load (so_config o) with Ok c => c | Err _ => dflt end.

Lemma start_config_eq load dflt o :
  let f := base_config load dflt o in
  start_config load dflt o
  = set_start (default (cf_port f) (so_port o)) (if so_debug o then "debug" else cf_log_level f)
      (override_role o (cf_role f)) (override_bridge o (cf_bridge f)) f.
Proof. done. Qed.

(** The bridge block survives the trip through the flags. *)
Lemma override_bridge_child o b role path debug port :
  so_bridge_url o <> Some EmptyString ->
  let b' := override_bridge o b in
  override_bridge
    (mkStartOpts true port path debug role
       (b' ≫= fun b => if str_is_empty (bc_host_url b) then None else Some (bc_host_url b))
       (b' ≫= bc_token) (b' ≫= bc_secret) (default [] (bc_mirror <$> b'))) b = b'.
Proof.
  intros Hu. unfold override_bridge, has_bridge_flag.
  destruct o as [fg pt pa db ro [url|] [tok|] [sec|] mir]; destruct b as [[u ts t s m ca k]|];
    simpl in *; try (destruct url; [done|]); destruct mir as [|m0 mir]; simpl; try done;
    repeat first [done | progress simpl | match goal with
      | |- context [str_is_empty ?x] => destruct x; simpl
      | |- context [bool_decide (is_Some ?x)] => destruct x; simpl
      | |- context [bool_decide (?x = [])] => destruct x; simpl
      end].
  all: by repeat case_match.
Qed.

Lemma override_role_named o r :
  so_role o = Some "client" -> override_role o r = RoleClient.
Proof. intros Ho. unfold override_role. rewrite Ho. simpl. by rewrite andb_false_r. Qed.

(** The background child runs the configuration the operator asked for: unless
    [--role host] is given against a configuration file that says client (see
    [background_drops_host_role]), or an empty bridge url, the command line that
    [daemonize_and_run] builds makes the child compute the same configuration
    from the same file, in the foreground; for a host, up to a bridge block that
    a host does not use. *)
Theorem background_keeps_config `{ClapLaws} load dflt o :
  let c := start_config load dflt o in
  (0 <= cf_port c < 65536)%Z ->
  Forall flag_ok (daemon_flags c (so_config o) (so_debug o)) ->
  so_bridge_url o <> Some EmptyString ->
  (cf_role c = RoleHost -> cf_role (base_config load dflt o) = RoleHost) ->
  exists o', clap_start (daemon_args c (so_config o) (so_debug o)) = Some o'
    /\ so_foreground o' = true
    /\ let c' := start_config load dflt o' in
       cf_role c' = cf_role c /\ (cf_role c = RoleClient -> c' = c)
       /\ set_start (cf_port c) (cf_log_level c) (cf_role c) (cf_bridge c) c' = c.
Proof.
  intros c Hp Hok Hu Hr. set (f := base_config load dflt o) in *.
  exists (child_opts c (so_config o) (so_debug o)).
  rewrite daemon_args_flags, clap_long_options, daemon_flags_opts
    by (done || lia || apply daemon_flags_single).
  set (o' := child_opts c (so_config o) (so_debug o)).
  assert (c = set_start (cf_port c) (cf_log_level c) (cf_role c) (cf_bridge c) f) as Hc
    by apply start_config_eq.
  assert (cf_bridge c = override_bridge o (cf_bridge f)) as Hb by done.
  assert (override_role o' (cf_role f) = cf_role c) as Hrole.
  { destruct (cf_role c) eqn:Hrc.
    - rewrite Hr by done. unfold o', child_opts. by rewrite Hrc.
    - apply override_role_named. unfold o', child_opts. by rewrite Hrc. }
  assert (start_config load dflt o'
          = set_start (cf_port c) (cf_log_level c) (cf_role c) (override_bridge o' (cf_bridge f)) f)
    as Hc' by (rewrite <- Hrole; apply start_config_eq).
  split; [done|]. split; [done|]. rewrite Hc'. clearbody c. split; [done|]. split.
  - intros Hcl. etrans; [|symmetry; exact Hc]. f_equal. unfold o', child_opts. rewrite Hcl, Hb.
    by apply override_bridge_child.
  - by etrans; [|symmetry; exact Hc].
Qed.

(** ** The readiness handshake *)
Definition ascii_char (c : ascii) : bool := (ascii_n c <? 128)%N.

(** What is read of a text in pieces, each by one [read] *)
Definition pieces (ss : list string) : list ReadyRead := map (fun s => RdBytes (str_bytes s)) ss.
Definition joined (ss : list string) : string := foldr String.append EmptyString ss.

Lemma lossy_ascii_go s fuel :
  str_all ascii_char s = true -> (String.length s <= fuel)%nat ->
  lossy_go fuel (str_bytes s) = str_bytes s.
Proof.
  revert fuel. induction s as [|c s IH]; intros fuel Hs Hf; [by destruct fuel|].
  apply andb_prop in Hs as [Hc Hs]. destruct fuel as [|fuel]; simpl in Hf; [lia|].
  change (str_bytes (String c s)) with (byte_of_ascii c :: str_bytes s).
  assert (in_range 0 127 (byte_of_ascii c) = true) as Hr.
  { destruct c as [[] [] [] [] [] [] [] []]; done. }
  cbn [lossy_go utf8_next]. rewrite Hr. simpl. f_equal. apply IH; [done|lia].
Qed.

Lemma from_utf8_lossy_ascii s : str_all ascii_char s = true -> from_utf8_lossy (str_bytes s) = s.
Proof.
  intros Hs. unfold from_utf8_lossy. rewrite lossy_ascii_go; [apply string_of_str_bytes|done|].
  clear Hs. induction s as [|c s IH]; [done|]. exact (le_n_S _ _ IH).
Qed.

Lemma line_complete a b d :
  a +:+ b = d +:+ nl -> str_contains (ascii_of_N 10) a = true ->
  str_contains (ascii_of_N 10) d = false -> b = EmptyString.
Proof.
  revert d. induction a as [|x a IH]; intros d He Ha Hd; [done|].
  destruct d as [|y d]; simplify_eq/=.
  - by destruct a.
  - apply orb_false_iff in Hd as [Hy Hd]. rewrite Hy in Ha. by apply (IH d).
Qed.

Lemma str_all_app p a b : str_all p (a +:+ b) = str_all p a && str_all p b.
Proof.
  induction a as [|c a IH]; [done|].
  change (p c && str_all p (a +:+ b) = p c && str_all p a && str_all p b).
  rewrite IH. apply andb_assoc.
Qed.

Lemma str_app_empty a : a +:+ EmptyString = a.
Proof. induction a as [|x a IH]; [done|]. exact (f_equal (String x) IH). Qed.

Lemma await_line ss rest line d :
  str_all ascii_char (joined ss) = true -> line +:+ joined ss = d +:+ nl ->
  str_contains (ascii_of_N 10) d = false -> str_contains (ascii_of_N 10) line = false ->
  await_ready (pieces ss ++ rest) line = Some (Ok (d +:+ nl)).
Proof.
  intros Ha He Hd. revert line He. induction ss as [|s ss IH]; intros line He Hl.
  - simpl in He. rewrite str_app_empty in He. subst line. by rewrite str_contains_app, orb_true_r in Hl.
  - simpl in Ha, He. rewrite str_all_app in Ha. apply andb_prop in Ha as [Hs Ha].
    rewrite str_app_assoc in He. simpl. rewrite from_utf8_lossy_ascii by done.
    destruct (str_contains _ (line +:+ s)) eqn:Hc; [|by apply IH].
    by rewrite <- He, (line_complete _ _ _ He Hc Hd), str_app_empty.
Qed.

Lemma await_cut ss rest line :
  str_all ascii_char (joined ss) = true -> str_contains (ascii_of_N 10) (line +:+ joined ss) = false ->
  await_ready (pieces ss ++ rest) line = await_ready rest (line +:+ joined ss).
Proof.
  revert line. induction ss as [|s ss IH]; intros line Ha Hc; simpl in *;
    [by rewrite str_app_empty|].
  rewrite str_all_app in Ha. apply andb_prop in Ha as [Hs Ha]. rewrite str_app_assoc in *.
  rewrite from_utf8_lossy_ascii by done. rewrite IH by done.
  rewrite str_contains_app in Hc. apply orb_false_iff in Hc as [Hc _]. by rewrite Hc.
Qed.

Definition failed_read (r : ReadyRead) : bool := match r with RdBytes _ => false | _ => true end.

Lemma str_all_impl p q s :
  (forall c, p c = true -> q c = true) -> str_all p s = true -> str_all q s = true.
Proof.
  intros Hpq. induction s as [|c s IH]; [done|]. simpl. intros [Hc Hs]%andb_prop.
  by rewrite (Hpq _ Hc), IH.
Qed.

Lemma ready_line_ascii pid : str_all ascii_char (ready_line pid) = true.
Proof.
  unfold ready_line. rewrite str_all_app. apply andb_true_intro. split; [|done].
  eapply str_all_impl; [|apply fmt_N_digits]. intros c [H1 H2]%andb_prop.
  unfold ascii_char. apply N.ltb_lt. apply N.leb_le in H2. lia.
Qed.

Lemma digits_one_line s : str_all is_ascii_digit s = true -> str_contains (ascii_of_N 10) s = false.
Proof.
  induction s as [|c s IH]; [done|]. cbn [str_all str_contains]. intros [Hc Hs]%andb_prop.
  rewrite IH by done.
  rewrite orb_false_r. destruct (Ascii.eqb_spec c (ascii_of_N 10)) as [->|]; [done|done].
Qed.

Lemma str_contains_prefix c a b d :
  a +:+ b = d -> str_contains c d = false -> str_contains c a = false.
Proof. intros <-. rewrite str_contains_app. by intros [? _]%orb_false_iff. Qed.

(** The readiness handshake publishes the child's pid exactly when the child has
    signalled: however the child's line arrives in pieces, the parent writes the
    pid that [vyn status] and [vyn stop] read back and succeeds; when the pipe is
    closed, times out or fails before the line is complete, it writes nothing,
    kills the child, removes the pid file and reports the failure. *)
Theorem ready_handshake pid ss rest :
  (Z.of_N pid <= i32_max)%Z ->
  (joined ss = ready_line pid ->
    daemonize_and_run (Z.of_N pid) None (pieces ss ++ rest)
    = Some ([EfWrite (write_pid (Z.of_N pid))], Ok tt)
    /\ read_pid (Ok (write_pid (Z.of_N pid))) = Ok (Z.of_N pid))
  /\ (forall r more io, joined ss +:+ more = fmt_N pid -> failed_read r = true ->
       exists e, daemonize_and_run (Z.of_N pid) io (pieces ss ++ r :: rest)
         = Some ([EfSignal (Z.of_N pid) SIGKILL; EfRemove], Err e)).
Proof.
  intros Hp. assert (fmt_Z (Z.of_N pid) = fmt_N pid) as Hz by (by destruct pid).
  assert (str_contains (ascii_of_N 10) (fmt_N pid) = false) as Hd by apply digits_one_line, fmt_N_digits.
  split.
  - intros Hj. unfold daemonize_and_run.
    rewrite (await_line ss rest _ (fmt_N pid)); [|rewrite Hj; apply ready_line_ascii|exact Hj|done|done].
    simpl. destruct (trim_fmt_N pid) as [Ht1 Ht2]. rewrite Ht2, parse_i32_fmt by done.
    rewrite Z.eqb_refl. split; [done|]. unfold read_pid, write_pid. simpl.
    by rewrite Hz, Ht1, parse_i32_fmt.
  - intros r more io Hj Hr. unfold daemonize_and_run.
    pose proof (ready_line_ascii pid) as Ha. unfold ready_line in Ha.
    rewrite <- Hj, !str_all_app in Ha. apply andb_prop in Ha as [Ha _]. apply andb_prop in Ha as [Ha _].
    rewrite await_cut; [|done|exact (str_contains_prefix _ _ _ _ Hj Hd)].
    destruct r; simpl; (done || by eexists).
Qed.

(** ** Stopping *)
Definition running (v : PidView) : bool := fst (kernel_is_running v).

Lemma running_quiet v : running v = true -> snd (kernel_is_running v) = [].
Proof.
  unfold running, kernel_is_running. destruct (read_pid _) as [p|]; [|done]. by destruct (pv_probe v p).
Qed.

Lemma running_effects v sig p : ~ EfSignal p sig ∈ snd (kernel_is_running v).
Proof.
  unfold kernel_is_running. destruct (read_pid _) as [q|]; [|set_solver].
  destruct (pv_probe v q); set_solver.
Qed.

(** How the loop ends: at its deadline, or at a turn that finds no kernel. *)
Lemma stop_wait_ends deadline polls ef :
  stop_wait deadline polls = Some ef ->
  (ef = [] /\ exists now v, (now, v) ∈ polls /\ (deadline <= now)%Z)
  \/ exists now v, (now, v) ∈ polls /\ running v = false /\ ef = snd (kernel_is_running v).
Proof.
  revert ef. induction polls as [|[now v] rest IH]; intros ef; simpl; [done|].
  destruct (Z.ltb_spec now deadline) as [Hlt|Hge].
  - destruct (kernel_is_running v) as [[] ef1] eqn:Hv.
    + assert (ef1 = []) as ->.
      { pose proof (running_quiet v) as Hq. unfold running in Hq. rewrite Hv in Hq. by apply Hq. }
      destruct (stop_wait deadline rest) as [ef2|]; [|done]. intros [= <-].
      destruct (IH ef2 eq_refl) as [(-> & n & w & H2 & H3)|(n & w & H2 & H3 & ->)]; [left|right].
      * split; [done|]. exists n, w. set_solver.
      * exists n, w. split; [set_solver|done].
    + intros [= <-]. right. exists now, v. split; [set_solver|]. unfold running. by rewrite Hv.
  - intros [= <-]. left. split; [done|]. exists now, v. split; [set_solver|done].
Qed.

(** The loop of a kernel that does not go away ends at the first turn at or past
    the deadline. *)
Lemma stop_wait_deadline deadline before now v rest :
  Forall (fun p => (fst p < deadline)%Z /\ running (snd p) = true) before -> (deadline <= now)%Z ->
  stop_wait deadline (before ++ (now, v) :: rest) = Some [].
Proof.
  intros Hb Hn. induction Hb as [|[t w] before [Ht Hw] Hb IH]; simpl in *.
  - by rewrite (proj2 (Z.ltb_ge _ _)).
  - rewrite (proj2 (Z.ltb_lt _ _)) by done. pose proof (running_quiet _ Hw) as Hq. unfold running in Hw.
    destruct (kernel_is_running w) as [[] ef]; simpl in *; simplify_eq. by rewrite IH.
Qed.

(** [vyn stop] kills only a kernel that has had its time: SIGKILL goes to the
    process that was sent SIGTERM, and only once the configured grace and the
    margin of two seconds have passed since, if a kernel that was once seen gone
    stays gone; the pid file is removed last. *)
Theorem stop_waits_out_grace grace_ms e ef res pid :
  (forall now v, (now, v) ∈ sn_polls e -> running v = false -> running (sn_last e) = false) ->
  stop_kernel grace_ms e = Some (ef, res) -> EfSignal pid SIGKILL ∈ ef ->
  ef = [EfSignal pid SIGTERM; EfSignal pid SIGKILL; EfRemove] /\ res = Ok tt
  /\ read_pid (sn_read e) = Ok pid
  /\ exists now v, (now, v) ∈ sn_polls e /\ (sn_now e + grace_ms + 2000 <= now)%Z.
Proof.
  intros Hgone. unfold stop_kernel.
  pose proof (running_effects (sn_first e) SIGKILL pid) as He0.
  pose proof (running_quiet (sn_first e)) as Hq0. unfold running in Hq0.
  destruct (kernel_is_running (sn_first e)) as [[] ef0]; simpl in *; [|intros; simplify_eq; done].
  rewrite Hq0 by done. destruct (read_pid (sn_read e)) as [p|err]; [|by intros [= <- <-] ?%elem_of_nil].
  destruct (sn_term e); [by intros [= <- <-] ?%elem_of_nil|].
  destruct (stop_wait _ (sn_polls e)) as [waited|] eqn:Hw; [|done]. simpl.
  pose proof (running_effects (sn_last e) SIGKILL pid) as Hel.
  pose proof (running_quiet (sn_last e)) as Hql. unfold running in Hql, Hgone.
  apply stop_wait_ends in Hw as [(-> & Hd)|(n & v & Hin & Hv & ->)].
  - destruct (kernel_is_running (sn_last e)) as [[] efl]; simpl in *; [|intros [= <- <-]; set_solver].
    rewrite Hql by done. destruct (sn_kill e); intros [= <- <-] Hin; simpl in Hin.
    + set_solver.
    + assert (pid = p) as -> by set_solver. split; [done|]. split; [done|]. split; [done|].
      destruct Hd as (n & v & H1 & H2). exists n, v. unfold STOP_WAIT_MARGIN in H2. split; [done|lia].
  - pose proof (running_effects v SIGKILL pid) as Hev. specialize (Hgone _ _ Hin Hv).
    destruct (kernel_is_running (sn_last e)) as [[] efl]; [done|]. simpl in *. intros [= <- <-].
    set_solver.
Qed.

(** A kernel that does not go away is killed: at turns that reach the deadline the
    loop ends, whatever their distance. *)
Lemma stop_kills grace_ms e pid before now v rest :
  running (sn_first e) = true -> read_pid (sn_read e) = Ok pid -> sn_term e = None ->
  sn_kill e = None -> sn_polls e = before ++ (now, v) :: rest ->
  Forall (fun p => (fst p < sn_now e + (grace_ms + STOP_WAIT_MARGIN))%Z /\ running (snd p) = true)
    before ->
  (sn_now e + (grace_ms + STOP_WAIT_MARGIN) <= now)%Z -> running (sn_last e) = true ->
  stop_kernel grace_ms e = Some ([EfSignal pid SIGTERM; EfSignal pid SIGKILL; EfRemove], Ok tt).
Proof.
  intros H0 Hr Ht Hk Hp Hb Hn Hl. unfold stop_kernel.
  pose proof (running_quiet _ H0) as Hq0. pose proof (running_quiet _ Hl) as Hql.
  unfold running in H0, Hl. destruct (kernel_is_running (sn_first e)) as [[] ef0]; [|done].
  simpl in *. subst ef0. rewrite Hr, Ht, Hp, stop_wait_deadline by done. simpl.
  destruct (kernel_is_running (sn_last e)) as [[] efl]; [|done]. simpl in *. subst efl.
  by rewrite Hk.
Qed.

(** What one stop meets when the kernel stays up, polled on time from the SIGTERM
    on for [n] turns. *)
Definition stubborn (v : PidView) (n : nat) : StopEnv :=
  mkStopEnv v (pv_content v) None 0
    (map (fun k => (Z.of_nat k * STOP_POLL_INTERVAL, v)%Z) (seq 0 n)) v None.

Lemma stubborn_polls v n :
  sn_polls (stubborn v (S n))
  = sn_polls (stubborn v n) ++ [(Z.of_nat n * STOP_POLL_INTERVAL, v)%Z].
Proof. unfold stubborn. cbn [sn_polls]. by rewrite seq_S, map_app. Qed.

(** Such a kernel is killed two seconds after the grace. *)
Lemma stubborn_killed d v pid :
  (0 <= d)%Z -> running v = true -> read_pid (pv_content v) = Ok pid ->
  stop_kernel (d * 1000) (stubborn v (S (Z.to_nat (2 * (d + 2)))))
  = Some ([EfSignal pid SIGTERM; EfSignal pid SIGKILL; EfRemove], Ok tt).
Proof.
  intros Hd Hv Hp. eapply stop_kills; [done..|apply stubborn_polls| | |done];
    unfold STOP_WAIT_MARGIN, STOP_POLL_INTERVAL; cbn [stubborn sn_now sn_polls]; [|lia].
  apply Forall_fmap, Forall_forall. intros k Hk%elem_of_seq.
  unfold compose, STOP_POLL_INTERVAL. cbn [fst snd]. split; [lia|done].
Qed.

(** The wait counts the default grace only, while the kernel gives a plugin its own:
    a plugin whose [grace_seconds] is more than two seconds above the default is due
    its SIGKILL after the kernel itself has been killed, at [default + 2] seconds. *)
Lemma stop_cuts_shutdown d s id ent v pid :
  (0 <= d)%Z -> sv_entries s !! id = Some ent -> (d + 2 < pc_grace_seconds (se_config ent))%Z ->
  running v = true -> read_pid (pv_content v) = Ok pid ->
  (pc_grace_seconds (se_config ent), (signal_target ent, SIGKILL)) ∈ shutdown_signals d s
  /\ stop_kernel (d * 1000) (stubborn v (S (Z.to_nat (2 * (d + 2)))))
     = Some ([EfSignal pid SIGTERM; EfSignal pid SIGKILL; EfRemove], Ok tt)
  /\ (fst <$> last (sn_polls (stubborn v (S (Z.to_nat (2 * (d + 2))))))) = Some ((d + 2) * 1000)%Z.
Proof.
  intros Hd Hs Hg Hv Hp. split; [|split; [by apply stubborn_killed|]].
  - unfold shutdown_signals. apply elem_of_app. right. apply list_elem_of_fmap. exists ent.
    split; [|apply list_elem_of_fmap; exists (id, ent); split; [done|by apply elem_of_map_to_list]].
    by rewrite (proj2 (Z.ltb_lt _ _)) by lia.
  - rewrite stubborn_polls, last_snoc. cbn [fmap option_fmap option_map fst]. f_equal. unfold STOP_POLL_INTERVAL. lia.
Qed.

(** The pid is whatever the file says: a file that holds [-1] makes [vyn stop] send
    SIGTERM and SIGKILL to every process it may signal. *)
Lemma stop_trusts_pid_file d v :
  (0 <= d)%Z -> pv_content v = Ok "-1" -> pv_probe v (-1)%Z = PrAlive ->
  stop_kernel (d * 1000) (stubborn v (S (Z.to_nat (2 * (d + 2)))))
  = Some ([EfSignal (-1) SIGTERM; EfSignal (-1) SIGKILL; EfRemove], Ok tt).
Proof.
  intros Hd Hc Hp. assert (read_pid (pv_content v) = Ok (-1)%Z) as Hr by (by rewrite Hc).
  apply stubborn_killed; [done| |done]. unfold running, kernel_is_running. by rewrite Hr, Hp.
Qed.

(** ** Restarting *)
Lemma wait_gone_seen start timeout turns :
  wait_pid_gone start timeout turns = Some true -> PrNoProcess ∈ turns.*1.
Proof.
  induction turns as [|[[] now] turns IH]; simpl; [done|..]; try case_match; try done;
    intros; rewrite elem_of_cons; auto.
Qed.

(** A restart launches a second kernel only after it has seen the old process
    gone. *)
Lemma restart_waits c path debug read0 e start turns ef args pid :
  restart_arm c path debug read0 e start turns = Some (ef, Ok args) -> read_pid read0 = Ok pid ->
  PrNoProcess ∈ turns.*1 /\ args = daemon_args c path debug /\ ensure_auth_configured c = Ok tt.
Proof.
  unfold restart_arm. intros Hr Hp. rewrite Hp in Hr.
  destruct (ensure_auth_configured c) as [[]|]; [|done].
  destruct (stop_kernel _ e) as [[ef' [[]|]]|]; [|done..]. simpl in Hr.
  destruct (wait_pid_gone start 5000 turns) as [[]|] eqn:Hw; [|done..]. simpl in Hr. simplify_eq.
  split; [by apply wait_gone_seen in Hw|done].
Qed.

(** ** Concrete command lines *)

(** A parser of the long options *)
Definition demo_switch (a : string) : option Flag :=
  if a =s "--foreground" then Some FlForeground
  else if a =s "--debug" then Some FlDebug else None.

Definition demo_valued (a v : string) : option Flag :=
  if a =s "--port" then n ← parse_uint 65535 v; Some (FlPort (Z.to_N n))
  else if starts_with "-" v then None
  else if a =s "--config" then Some (FlConfig v)
  else if a =s "--role" then
    if (v =s "client") || (v =s "host") then Some (FlRole v) else None
  else if a =s "--bridge-url" then Some (FlUrl v)
  else if a =s "--bridge-token" then Some (FlToken v)
  else if a =s "--bridge-secret" then Some (FlSecret v)
  else if a =s "--bridge-mirror" then Some (FlMirror v)
  else None.

Fixpoint demo_go (o : StartOpts) (args : list string) : option StartOpts :=
  match args with
  | [] => Some o
  | a :: rest =>
      match demo_switch a with
      | Some f => demo_go (with_flag o f) rest
      | None => match rest with
                | v :: rest' => f ← demo_valued a v; demo_go (with_flag o f) rest'
                | [] => None
                end
      end
  end.

Definition demo_clap : Clap := {|
  clap_start args := match args with
                     | a :: rest => if a =s "start" then demo_go no_options rest else None
                     | [] => None
                     end
|}.

Lemma demo_go_flags fs o :
  Forall flag_ok fs -> demo_go o (concat (map flag_args fs)) = Some (foldl with_flag o fs).
Proof.
  intros Hok. revert o. induction Hok as [|f fs Hf Hok IH]; intros o; [done|].
  destruct f; cbn -[parse_uint fmt_N with_flag]; try apply IH; simpl in Hf.
  - rewrite parse_uint_fmt by lia. simpl. rewrite N2Z.id. apply IH.
  - rewrite Hf. apply IH.
  - destruct Hf as [->| ->]; apply IH.
  - rewrite Hf. apply IH.
  - rewrite Hf. apply IH.
  - rewrite Hf. apply IH.
  - rewrite Hf. apply IH.
Qed.

#[local] Instance demo_clap_laws : @ClapLaws demo_clap.
Proof. split. intros fs Hok _. apply (demo_go_flags fs no_options Hok). Qed.

Definition set_jwt (jwt_secret : option string) (c : Config) : Config :=
  mkConfig
    (cf_port c) (cf_log_level c) (cf_pid_file c) (cf_log_file c) (cf_data_dir c)
    (cf_socket_path c) jwt_secret (cf_allow_no_auth c) (cf_legacy_plugin_mac c)
    (cf_role c) (cf_bridge c) (cf_device_callers c) (cf_device_id c)
    (cf_plugins c) (cf_plugins_dir c) (cf_watchdog_interval_secs c) (cf_watchdog_timeout_secs c)
    (cf_log_buffer_lines c) (cf_max_connections c)
    (cf_api_rate_limit_rps c) (cf_api_rate_limit_burst c) (cf_ipc_rate_limit_rps c)
    (cf_action_caller_rate_limit_rps c) (cf_action_caller_max_concurrent c)
    (cf_session_idle_timeout_secs c) (cf_prune_interval_secs c) (cf_tls c)
    (cf_tls_cert_path c) (cf_tls_key_path c) (cf_jwt_audience c) (cf_bind c)
    (cf_ws_register_timeout_secs c) (cf_ws_device_recheck_secs c) (cf_tmp_dir c)
    (cf_action_timeout_ms c) (cf_restart_backoff_base_ms c)
    (cf_restart_backoff_max_ms c) (cf_default_grace_seconds c) (cf_event_max_retries c)
    (cf_event_retention_secs c) (cf_router_channel_capacity c)
    (cf_fragment_timeout_secs c) (cf_max_reassembly_streams c) (cf_max_conn_errors c)
    (cf_max_tracked_error_conns c) (cf_ws_handshake_timeout_secs c) (cf_max_ws_connections c)
    (cf_max_archive_bytes c) (cf_max_extracted_bytes c) (cf_max_archive_entries c)
    (cf_lazy_idle_stop_secs c) (cf_lazy_start_timeout_ms c) (cf_config_file c).

Definition demo_file : Config :=
  set_jwt (Some "0123456789abcdef0123456789abcdef")
    (set_plugins [mkPluginDef "camera" "/opt/camera/bin" "always" 3 [] [] false 0 None None false None
                    [] None [] []]
      (config_default (mkConfEnv (Some "/run/user/1000") "/run/user/1000/vyn.sock" "/tmp" None))).
Definition demo_load (path : string) : Result Config string := Ok demo_file.
Definition demo_opts : StartOpts :=
  mkStartOpts false (Some 9100%Z) "/etc/vyn/config.yaml" true None (Some "wss://host.local/ws")
    (Some "t0ken") None ["camera"].

Lemma validated_client_never_downgrades_witness :
  let c := start_config demo_load demo_file demo_opts in
  validate_config c = Ok tt /\ exists b, cf_bridge c = Some b /\ bc_mirror b <> [].
Proof.
  split; [vm_compute; reflexivity|]. eexists. split; [vm_compute; reflexivity|].
  eapply (validated_client_never_downgrades (start_config demo_load demo_file demo_opts));
    vm_compute; reflexivity.
Defined.

Lemma background_keeps_config_witness :
  exists o', clap_start (Clap := demo_clap)
      ["start"; "--foreground"; "--config"; "/etc/vyn/config.yaml"; "--port"; "9100"; "--role"; "client";
       "--bridge-url"; "wss://host.local/ws"; "--bridge-token"; "t0ken"; "--bridge-mirror"; "camera";
       "--debug"] = Some o'
    /\ start_config demo_load demo_file o' = start_config demo_load demo_file demo_opts.
Proof.
  destruct (background_keeps_config (H := demo_clap) demo_load demo_file demo_opts) as (o' & H1 & _ & _ & H2 & _).
  - vm_compute. split; [discriminate|reflexivity].
  - repeat constructor; vm_compute; reflexivity.
  - discriminate.
  - discriminate.
  - exists o'. split; [exact H1|]. apply H2. reflexivity.
Defined.

(** [--role host] is lost: the parent resolves it to [host], against a file that
    says [client], and passes nothing; the child runs as a client. *)
Lemma background_drops_host_role :
  let file := start_config demo_load demo_file demo_opts in
  let o := mkStartOpts false None "/etc/vyn/config.yaml" false (Some "host") None None None [] in
  let c := start_config (fun _ => Ok file) file o in
  validate_config c = Ok tt /\ cf_role c = RoleHost
  /\ exists o', clap_start (Clap := demo_clap) (daemon_args c (so_config o) (so_debug o)) = Some o'
       /\ cf_role (start_config (fun _ => Ok file) file o') = RoleClient
       /\ validate_config (start_config (fun _ => Ok file) file o') = Ok tt.
Proof.
  split; [vm_compute; reflexivity|]. split; [vm_compute; reflexivity|].
  eexists. split; [vm_compute; reflexivity|]. split; vm_compute; reflexivity.
Qed.

(** A restart stops the running kernel before the new configuration has passed the
    checks its child will apply. *)
Lemma restart_stops_first :
  let c := set_start 9000 "info" RoleClient None demo_file in
  let v := mkPidView (Ok "42") (fun _ => PrAlive) in
  let gone := mkPidView (Ok "42") (fun _ => PrNoProcess) in
  let e := mkStopEnv v (Ok "42") None 0 [(0%Z, gone)] gone None in
  (exists err, validate_config c = Err err)
  /\ restart_arm c "config.yaml" false (Ok "42") e 0 [(PrNoProcess, 0%Z)]
     = Some ([EfSignal 42 SIGTERM; EfRemove; EfRemove; EfRemove],
             Ok (daemon_args c "config.yaml" false)).
Proof. split; [by eexists|by vm_compute]. Qed.

Lemma ready_handshake_witness :
  daemonize_and_run 4711 None [RdBytes (str_bytes "47"); RdBytes (str_bytes ("11" +:+ nl)); RdEof]
    = Some ([EfWrite "4711"], Ok tt)
  /\ (exists e, daemonize_and_run 4711 None [RdBytes (str_bytes "47"); RdEof]
        = Some ([EfSignal 4711 SIGKILL; EfRemove], Err e)).
Proof.
  destruct (ready_handshake 4711 ["47"; "11" +:+ nl] [RdEof]) as [H1 _]; [vm_compute; discriminate|].
  destruct (ready_handshake 4711 ["47"] []) as [_ H2]; [vm_compute; discriminate|].
  split; [apply H1; reflexivity|]. apply (H2 RdEof "11" None); reflexivity.
Defined.

Lemma stop_waits_out_grace_witness :
  let v := mkPidView (Ok "42") (fun _ => PrAlive) in
  exists now w, (now, w) ∈ sn_polls (stubborn v 15) /\ (0 + 5000 + 2000 <= now)%Z.
Proof.
  intros v.
  destruct (stop_waits_out_grace 5000 (stubborn v 15)
              [EfSignal 42 SIGTERM; EfSignal 42 SIGKILL; EfRemove] (Ok tt) 42) as (_ & _ & _ & H).
  - intros now w Hin Hr. apply list_elem_of_fmap in Hin as (k & [= -> ->] & _). discriminate Hr.
  - vm_compute. reflexivity.
  - apply elem_of_cons. right. apply elem_of_cons. left. reflexivity.
  - exact H.
Defined.
