(* ===== verification/Cli.v ===== *)
(** * The command line: REST clients and offline tools (src/cli/plugin.rs,
    devices.rs, token.rs, tls.rs, complete.rs, src/bin/vyn-pair.rs)

    A command is a function of what it reads to the text it prints and its
    outcome, an [anyhow] error being the text shown for it. The HTTP client, the
    JSON codec and the [vynm] binary are interfaces or arguments; standard error
    is not modelled. *)

From S2P Require Import Prelude Errors Validate Registry Auth Kernel Sandbox Config.
From S2P Require Import Supervisor Loader Calendar Decimal.

Definition println (s : string) : string := s +:+ nl.

(** What a command printed and how it ended *)
Abbreviation Ran := (string * Result unit string)%type.

(** ** Tables *)

(** [{:<w$}]: padding counts characters *)
Definition pad_right (width : nat) (s : string) : string :=
  s +:+ String.string_of_list_ascii (replicate (width - length (char_heads s)) " "%char).

(** [widths[i].max(cell.len())]: the widths count bytes *)
Definition widen (widths : list nat) (cells : list string) : list nat :=
  zip_with (fun w c => Nat.max w (String.length c)) widths cells.

(** The [println!] of one row; [None] is the panic of a row of fewer than six
    cells. *)
Definition row_line (widths : list nat) (cells : list string) : option string :=
  match widths, cells with
  | [w0; w1; w2; w3; w4; _], c0 :: c1 :: c2 :: c3 :: c4 :: c5 :: _ =>
      Some (println (pad_right w0 c0 +:+ "  " +:+ pad_right w1 c1 +:+ "  " +:+ pad_right w2 c2
                     +:+ "  " +:+ pad_right w3 c3 +:+ "  " +:+ pad_right w4 c4 +:+ "  " +:+ c5))
  | _, _ => None
  end.

Definition concat_strings (l : list string) : string := foldr String.append EmptyString l.

(** [s.split(',')], trimmed, without the empty ones; the same in device.rs and
    token.rs *)
Definition parse_csv (s : string) : list string :=
  base.filter (fun p => str_is_empty p = false) (map str_trim (split "," s)).

(** ** The HTTP client of plugin.rs *)
Inductive HttpMethod := MGet | MPost.

Record HttpReq := mkHttpReq {
  rq_root : option bytes;
  rq_method : HttpMethod;
  rq_url : string;
  rq_bearer : option string;
  rq_json : option Json
}.

Inductive HttpAnswer :=
| NoAnswer
| Answered (status : Z) (text : Result string string).

(** The reqwest crate: a certificate it takes as a root, one request, how a status
    is printed; and what serde_json says of a document of another shape. *)
Class Reqwest := {
  rw_root_ok : bytes -> Result unit string;
  rw_send : HttpReq -> HttpAnswer;
  rw_status : Z -> string;
  rw_shape : string -> string
}.

Definition is_success (status : Z) : bool := (200 <=? status)%Z && (status <? 300)%Z.

Definition base_url (port : Z) (tls : bool) : string :=
  (if tls then "https" else "http") +:+ "://127.0.0.1:" +:+ fmt_Z port.

Section http_client.
Context `{Reqwest, Serde}.

(** The client is its pinned root, if any; [read] is [std::fs::read]. *)
Definition build_client (read : string -> option bytes) (tls : bool) (cert_path : option string)
    : Result (option bytes) string :=
  if negb tls then Ok None
  else
    match cert_path with
    | None => Err "tls enabled but no certificate path known for this config"
    | Some path =>
        match read path with
        | None => Err ("cannot read TLS certificate at " +:+ path
                       +:+ " — start the kernel once so it generates one")
        | Some pem => let? _ := rw_root_ok pem in Ok (Some pem)
        end
    end.

Definition not_running : string := "kernel not running — start it with `vyn start`".

Definition api_get (client : option bytes) (base path : string) (token : option string)
    : Result string string :=
  match rw_send (mkHttpReq client MGet (base +:+ path) token None) with
  | NoAnswer => Err not_running
  | Answered status text =>
      if negb (is_success status) then Err ("API error: HTTP " +:+ rw_status status) else text
  end.

Definition api_post (client : option bytes) (base path : string) (token : option string)
    : Result unit string :=
  match rw_send (mkHttpReq client MPost (base +:+ path) token None) with
  | NoAnswer => Err not_running
  | Answered status _ =>
      if negb (is_success status) then Err ("API error: HTTP " +:+ rw_status status) else Ok tt
  end.

Definition api_post_json (client : option bytes) (base path : string) (token : option string)
    (body : Json) : Result string string :=
  match rw_send (mkHttpReq client MPost (base +:+ path) token (Some body)) with
  | NoAnswer => Err not_running
  | Answered status text =>
      let? text := text in
      if negb (is_success status) then
        Err ("API error: HTTP " +:+ rw_status status
             +:+ match json_from_slice (str_bytes text) ≫= json_get_str "message" with
                 | Some m => ": " +:+ m
                 | None => EmptyString
                 end)
      else Ok text
  end.
End http_client.

(** ** [vyn plugin] *)
Inductive PluginCmd :=
| PcList (refresh installed : bool)
| PcSearch (query : string) (refresh : bool)
| PcStart (id : string)
| PcStop (id : string)
| PcRestart (id : string)
| PcLogs (id : string) (lines : N)
| PcInstall (target : string) (refresh : bool)
| PcRemove (target : string)
| PcDisable (id : string)
| PcEnable (id : string).

(** How a child process ended *)
Inductive ChildRun :=
| ChildExit (success : bool) (status : string)
| ChildNotFound
| ChildIo (e : string).

Definition exec_vynm (vynm : list string -> ChildRun) (args : list string) : Ran :=
  let cmd := "vynm " +:+ join " " args in
  (println ("note: 'vyn plugin …' moved to vynm — running: " +:+ cmd),
   match vynm args with
   | ChildExit true _ => Ok tt
   | ChildExit false status => Err ("vynm exited with " +:+ status)
   | ChildNotFound =>
       Err ("'marketplace' commands moved to vynm — install it first "
            +:+ "(cargo install vynkor-manager), or run manually: " +:+ cmd)
   | ChildIo e => Err e
   end).

Fixpoint json_strings (l : list Json) : option (list string) :=
  match l with
  | [] => Some []
  | JStr s :: l' => (s ::.) <$> json_strings l'
  | _ => None
  end.

Section plugin_cli.
Context `{Reqwest, Serde}.

Definition render_log_lines (body : string) : string :=
  match json_from_slice (str_bytes body) with
  | Some (JArr l) => match json_strings l with
                     | Some lines => concat_strings (map println lines)
                     | None => body
                     end
  | _ => body
  end.

(** A POST to the kernel and what is printed when it went through *)
Definition post_plugin (client : option bytes) (base : string) (token : option string)
    (id verb done : string) : Ran :=
  match api_post client base ("/plugins/" +:+ id +:+ "/" +:+ verb) token with
  | Err e => (EmptyString, Err e)
  | Ok _ => (println ("Plugin '" +:+ id +:+ "' " +:+ done +:+ "."), Ok tt)
  end.

Definition plugin_handle (read : string -> option bytes) (vynm : list string -> ChildRun)
    (cmd : PluginCmd) (port : Z) (token : option string) (tls : bool)
    (cert_path : option string) (config_path : string) : Ran :=
  let base := base_url port tls in
  match build_client read tls cert_path with
  | Err e => (EmptyString, Err e)
  | Ok client =>
      match cmd with
      | PcStart id => post_plugin client base token id "start" "started"
      | PcStop id => post_plugin client base token id "stop" "stopped"
      | PcRestart id => post_plugin client base token id "restart" "restarted"
      | PcLogs id lines =>
          match api_get client base ("/plugins/" +:+ id +:+ "/logs?lines=" +:+ fmt_N lines) token with
          | Err e => (EmptyString, Err e)
          | Ok body => (render_log_lines body, Ok tt)
          end
      | PcList _ _ => exec_vynm vynm ["list"; "--config"; config_path]
      | PcSearch query _ => exec_vynm vynm ["search"; query; "--config"; config_path]
      | PcInstall target _ => exec_vynm vynm ["install"; target; "--config"; config_path]
      | PcRemove target => exec_vynm vynm ["remove"; target; "--config"; config_path]
      | PcDisable id => exec_vynm vynm ["disable"; id; "--config"; config_path]
      | PcEnable id => exec_vynm vynm ["enable"; id; "--config"; config_path]
      end
  end.
End plugin_cli.

(** ** [vyn devices] *)
Record DeviceView := mkCliDeviceView {
  cv_device_id : string;
  cv_os : string;
  cv_arch : string;
  cv_capabilities : list string;
  cv_last_seen : Z;
  cv_state : string
}.

(** [as_u64] *)
Definition json_u64 (j : Json) : option Z :=
  match j with
  | JNum n => if (0 <=? n)%Z && (n <=? u64_max)%Z then Some n else None
  | _ => None
  end.

Definition json_str (j : Json) : option string := match j with JStr s => Some s | _ => None end.

(** The derived [Deserialize] of [DeviceView] *)
Definition device_view_of (j : Json) : option DeviceView :=
  id ← json_get_str "device_id" j;
  os ← json_get_str "os" j;
  arch ← json_get_str "arch" j;
  caps ← json_get "capabilities" j;
  caps ← match caps with JArr l => json_strings l | _ => None end;
  seen ← json_get "last_seen" j;
  seen ← json_u64 seen;
  state ← json_get_str "state" j;
  Some (mkCliDeviceView id os arch caps seen state).

Definition device_row (d : DeviceView) : list string :=
  [cv_device_id d; cv_os d; cv_arch d; cv_state d; devices_format_ts (Z.quot (cv_last_seen d) 1000);
   join ", " (cv_capabilities d)].

Definition DEVICES_HEADERS : list string :=
  ["DEVICE_ID"; "OS"; "ARCH"; "STATE"; "LAST_SEEN"; "CAPABILITIES"].

Definition print_table (devices : list DeviceView) : option string :=
  match devices with
  | [] => Some (println "No devices seen. Plugins that declare a device_id appear here.")
  | _ =>
      let rows := map device_row devices in
      let widths := foldl widen (map String.length DEVICES_HEADERS) rows in
      concat_strings <$> mapM (row_line widths) (DEVICES_HEADERS :: rows)
  end.

Definition devices_handle `{Reqwest, Serde} (read : string -> option bytes) (port : Z) (tls : bool)
    (cert_path token : option string) : option Ran :=
  let base := base_url port tls in
  let got :=
    let? client := build_client read tls cert_path in
    let? body := api_get client base "/devices" token in
    match json_from_slice (str_bytes body) with
    | Some (JArr l) => match mapM device_view_of l with
                       | Some devices => Ok devices
                       | None => Err (rw_shape body)
                       end
    | _ => Err (rw_shape body)
    end in
  match got with
  | Err e => Some (EmptyString, Err e)
  | Ok devices => (fun out => (out, Ok tt)) <$> print_table devices
  end.

(** ** [vyn token] *)
Inductive TokenCmd :=
| TkMint (device : string) (permissions ipc_targets : option string) (ttl_seconds : Z)
    (aud : option string)
| TkPluginSecret (plugin : string).

(** The claims options that [token mint] and [device connect] share *)
Definition permissions_of (permissions : option string) : list string :=
  match permissions with Some s => parse_csv s | None => default_device_permissions end.
Definition targets_of (ipc_targets : option string) : list string :=
  match ipc_targets with Some s => parse_csv s | None => [] end.
Definition audience_of (aud : option string) (c : Config) : string :=
  match aud with
  | Some a => a
  | None => match cf_jwt_audience c with Some a => a | None => "vynkor" end
  end.

(** [dflt] is [Config::default]; [now] and [nonce] are those of the token. *)
Definition token_handle `{Jwt, Crypto} (load : Result Config string) (dflt : Config)
    (config_path : string) (now : Z) (nonce : bytes) (cmd : TokenCmd) : Ran :=
  let c := match load with Ok c => c | Err _ => dflt end in
  match cf_jwt_secret c with
  | None => (EmptyString, Err ("no jwt_secret configured in '" +:+ config_path
                               +:+ "' — set jwt_secret to mint tokens"))
  | Some secret =>
      match cmd with
      | TkMint device permissions ipc_targets ttl_seconds aud =>
          match mint_device_token (str_bytes secret) device (permissions_of permissions)
                  (targets_of ipc_targets) ttl_seconds (audience_of aud c) now nonce with
          | Ok token => (println token, Ok tt)
          | Err e => (EmptyString, Err (display e))
          end
      | TkPluginSecret plugin => (println (plugin_mac_secret (str_bytes secret) plugin), Ok tt)
      end
  end.

(** ** [vyn tls status] *)

(** [read_to_string] of the certificate: [None] is a file that does not exist. *)
Definition status_report (e : ConfEnv) (c : Config) (read : string -> option (Result string string))
    (fingerprint : string -> Result string string) : string :=
  if negb (cf_tls c)
  then println ("tls: off — gateway serves plaintext ws://; see docs/TLS.md before "
                +:+ "exposing it beyond loopback")
  else
    let source := match cf_tls_cert_path c with
                  | Some _ => "configured"
                  | None => "auto-generated self-signed"
                  end in
    match effective_tls_cert_path e c with
    | None => println ("tls: on" +:+ nl +:+ "cert: unresolved — no private dir for the auto-generated pair")
    | Some path =>
        println ("tls: on" +:+ nl +:+ "cert: " +:+ path +:+ " (" +:+ source +:+ ")")
        +:+ match read path with
            | Some (Ok pem) =>
                match fingerprint pem with
                | Ok fp => println ("sha256: " +:+ fp)
                | Err e => println ("sha256: unreadable (" +:+ e +:+ ")")
                end
            | None => println "sha256: - (cert not generated yet — start the kernel once)"
            | Some (Err e) => println ("sha256: unreadable (" +:+ e +:+ ")")
            end
    end.

(** [complete_slugs]; it never fails *)
Definition complete_slugs (run : ChildRun) : Ran :=
  (match run with
   | ChildExit true _ => EmptyString
   | _ => println ("'__complete-slugs' moved to vynm — use 'vynm search <prefix>'; "
                   +:+ "native shell completion ships with vynm's polish package")
   end, Ok tt).

(** ** [vyn-pair] *)
Definition link_schemes : list string := ["vynkor://"; "ws://"; "wss://"; "http://"; "https://"].

Definition extract_link (input : string) : option string :=
  match List.find (fun tok => existsb (fun p => starts_with p tok) link_schemes)
          (split_whitespace input) with
  | Some tok => Some tok
  | None => let trimmed := str_trim input in
            if str_is_empty trimmed then None else Some trimmed
  end.

Definition QR_CAPS : list nat :=
  [17; 32; 53; 78; 106; 134; 154; 192; 230; 271; 321; 367; 425; 458; 520; 586; 644; 718; 792;
   858; 929; 1003; 1091; 1171; 1273; 1367; 1465; 1528; 1628; 1732; 1840; 1952; 2068; 2188;
   2303; 2431; 2563; 2699; 2809; 2953]%nat.

Definition qr_version (link : string) : nat :=
  match list_find (fun cap => String.length link <= cap)%nat QR_CAPS with
  | Some (i, _) => i + 1
  | None => 41
  end.

(** [main]: [qr] and [svg] are the outcomes of drawing the code and writing the
    file *)
Definition vyn_pair (link : option string) (stdin : Result string string) (svg_out : option string)
    (qr : string -> Result string string) (svg : string -> string -> Result unit string) : Ran :=
  let got := match link with
             | Some l => Ok l
             | None =>
                 let? input := stdin in
                 match extract_link input with
                 | Some l => Ok l
                 | None => Err ("no link found on stdin — pass it as an argument, or pipe "
                                +:+ "`vyn device connect` output")
                 end
             end in
  match got with
  | Err e => (EmptyString, Err e)
  | Ok l =>
      match qr l with
      | Err e => (EmptyString, Err e)
      | Ok image =>
          (println image +:+ println (nl +:+ l +:+ nl)
           +:+ println ("link " +:+ fmt_N (N.of_nat (String.length l)) +:+ " chars (QR v"
                        +:+ fmt_N (N.of_nat (qr_version l)) +:+ ")"),
           match svg_out with Some path => svg l path | None => Ok tt end)
      end
  end.
