(* ===== verification/CliDevice.v ===== *)
(** * [vyn device] (src/cli/device.rs, the links of src/auth/pairing.rs, the
    fingerprint of src/utils/tls.rs)

    Pairing by link or by ticket, and the lifecycle of the stored credentials. The
    commands work on the same devices.json as a running kernel: it is the
    [DiskFile] they take and give back. *)

From S2P Require Import Prelude Errors Wire Validate Registry Auth Kernel Sandbox Config.
From S2P Require Import Supervisor Loader Bridge Api Calendar Decimal Cli.

(** ** Links *)

(** The flate2 and base64 crates *)
Class Zlib := {
  zlib_best : bytes -> Result bytes string;
  b64_standard_decode : string -> Result bytes string
}.

Record TicketLinkPayload := mkTicketLink {
  tl_v : Z;
  tl_ws : string;
  tl_ticket : string;
  tl_cert_pem : option string
}.

(** The derived [Serialize] of the two payloads *)
Definition cert_field (cert_pem : option string) : list (string * Json) :=
  match cert_pem with Some pem => [("cert_pem", JStr pem)] | None => [] end.

Definition pair_payload_json (p : PairPayload) : Json :=
  JObj ([("v", JNum (pp_v p)); ("name", JStr (pp_name p)); ("host_url", JStr (pp_host_url p));
         ("device_id", JStr (pp_device_id p)); ("jwt_token", JStr (pp_jwt_token p));
         ("device_secret", JStr (pp_device_secret p))] ++ cert_field (pp_cert_pem p)).

Definition ticket_link_json (p : TicketLinkPayload) : Json :=
  JObj ([("v", JNum (tl_v p)); ("ws", JStr (tl_ws p)); ("ticket", JStr (tl_ticket p))]
        ++ cert_field (tl_cert_pem p)).

Definition encode_pair_link `{Crypto, Serde, Zlib} (payload : Json) : Result string VynkorError :=
  match zlib_best (str_bytes (json_to_string payload)) with
  | Err e => Err (EIo e)
  | Ok compressed => Ok ("vynkor://pair?z=1&d=" +:+ base64url compressed)
  end.

(** ** The certificate's fingerprint (src/utils/tls.rs) *)
Definition BEGIN : string := "-----BEGIN CERTIFICATE-----".
Definition END : string := "-----END CERTIFICATE-----".

Definition cert_sha256_fingerprint `{Crypto, Zlib} (pem : string) : Result string string :=
  match split_once_str BEGIN pem with
  | None => Err "no CERTIFICATE block in pem"
  | Some (_, rest) =>
      match split_once_str END rest with
      | None => Err "unterminated CERTIFICATE block in pem"
      | Some (body, _) =>
          match b64_standard_decode (concat_strings (split_whitespace body)) with
          | Err e => Err ("bad base64 in CERTIFICATE block: " +:+ e)
          | Ok der => Ok (join ":" (map (fun b => to_ascii_uppercase (hex_of_bytes [b])) (sha256 der)))
          end
      end
  end.

Definition fingerprint_of `{Crypto, Zlib} (cert_pem : option string) : option string :=
  cert_pem ≫= fun p => match cert_sha256_fingerprint p with Ok fp => Some fp | Err _ => None end.

(** ** Arguments *)

(** The string without its last character, when that is the given one-byte one *)
Fixpoint strip_last (c : ascii) (s : string) : option string :=
  match s with
  | EmptyString => None
  | String a EmptyString => if Ascii.eqb a c then Some EmptyString else None
  | String a s' => String a <$> strip_last c s'
  end.

Definition parse_duration_secs (s : string) : Result Z string :=
  let s := str_trim s in
  let '(num, mult) :=
    match strip_last "s" s, strip_last "m" s, strip_last "h" s with
    | Some num, _, _ => (num, 1)
    | None, Some num, _ => (num, 60)
    | None, None, Some num => (num, 3600)
    | None, None, None => (s, 1)
    end%Z in
  match parse_uint u64_max num with
  | None => Err ("bad duration '" +:+ s +:+ "' (try 300, 90s, 5m, 1h)")
  | Some n =>
      if (n * mult =? 0)%Z || (u64_max <? n * mult)%Z then Err ("duration '" +:+ s +:+ "' out of range")
      else Ok (n * mult)%Z
  end.

(** [format!("dev-{:06x}", n & 0xFF_FFFF)] *)
Definition hex06 (n : N) : string :=
  String.string_of_list_ascii
    (map (fun k => hex_digit (N.land (N.shiftr n (4 * k)) 15)) [5; 4; 3; 2; 1; 0])%N.

Definition cli_device_id (n : N) : string := "dev-" +:+ hex06 (N.land n 16777215).

Record ConnectOpts := mkConnectOpts {
  co_device : option string;
  co_name : option string;
  co_host : option string;
  co_permissions : option string;
  co_ipc_targets : option string;
  co_ttl_seconds : Z;
  co_aud : option string
}.

(** What one command meets: the loaded configuration, the clock, its random draws,
    the outcome of a write, the LAN probe and the files. *)
Record CliOs := mkCliOs {
  os_load : Result Config string;
  os_conf : ConfEnv;
  os_now : Z;
  os_id_draw : N;
  os_secret : bytes;
  os_seal_nonce : bytes;
  os_jti : bytes;
  os_io : option string;
  os_lan : option (string * bool);
  os_read_text : string -> option (Result string string);
  os_read : string -> option bytes
}.

Definition is_loopback_url (host : option string) : bool :=
  match host with
  | Some h => (h =s "localhost") || (h =s "127.0.0.1") || (h =s "[::1]") || (h =s "::1")
  | None => false
  end.

(** A failing step ends the command with its text. *)
Definition shown {A} (r : Result A VynkorError) : Result A string :=
  match r with Ok a => Ok a | Err e => Err (display e) end.

Section device_cli.
Context `{Wire, Crypto, Jwt, !RowCodec DeviceRecord, Urls, Serde, Reqwest, Zlib}.

Definition open_store (c : Config) (f : DiskFile) : Result DeviceStore string :=
  match cf_jwt_secret c with
  | None => Err ("no jwt_secret configured in config — set jwt_secret to manage device "
                 +:+ "credentials")
  | Some secret => Ok (mkDeviceStore f (derive_key secret))
  end.

(** ** [vyn device connect] *)
Definition served_cert (os : CliOs) (c : Config) : Result (option string) string :=
  if cf_tls c then
    match effective_tls_cert_path (os_conf os) c with
    | Some p => match os_read_text os p with
                | Some content => let? pem := content in Ok (Some pem)
                | None => Ok None
                end
    | None => Ok None
    end
  else Ok None.

(** What is printed around the link *)
Definition connect_output (link device_id : string) (fp : option string) (ttl_seconds : Z) : string :=
  println ("Pairing link (open on the phone, or render as a QR with `vyn-pair`):" +:+ nl)
  +:+ println (link +:+ nl)
  +:+ println ("paired device '" +:+ device_id +:+ "' — link "
               +:+ fmt_N (N.of_nat (String.length link)) +:+ " chars")
  +:+ match fp with Some fp => println ("cert sha256: " +:+ fp) | None => EmptyString end
  +:+ println "render a scannable QR code: vyn device connect ... | vyn-pair"
  +:+ println ("credential expires in " +:+ fmt_Z ttl_seconds +:+ "s; revoke anytime: vyn device revoke "
               +:+ device_id).

(** After the credential is stored: the token, the certificate and the link *)
Definition connect_link (os : CliOs) (c : Config) (secret : string) (opts : ConnectOpts)
    (device_id name host_url device_secret : string) : Result (PairPayload * string) string :=
  let? jwt_token := shown (mint_device_token (str_bytes secret) device_id
                             (permissions_of (co_permissions opts)) (targets_of (co_ipc_targets opts))
                             (co_ttl_seconds opts) (audience_of (co_aud opts) c) (os_now os)
                             (os_jti os)) in
  let? cert_pem := served_cert os c in
  let payload := mkPairPayload 2 name host_url device_id jwt_token device_secret cert_pem in
  let? link := shown (encode_pair_link (pair_payload_json payload)) in
  Ok (payload, link).

Definition connect_ids (os : CliOs) (opts : ConnectOpts) : string * string :=
  let device_id := match co_device opts with
                   | Some d => d
                   | None => cli_device_id (os_id_draw os)
                   end in
  (device_id, match co_name opts with Some n => n | None => device_id end).

(** The link and what is printed *)
Definition device_connect (os : CliOs) (config_path : string) (opts : ConnectOpts) (f : DiskFile)
    : DiskFile * Result (string * string) string :=
  match os_load os with
  | Err e => (f, Err e)
  | Ok c =>
      match cf_jwt_secret c with
      | None => (f, Err ("no jwt_secret configured in '" +:+ config_path
                         +:+ "' — set jwt_secret to pair devices"))
      | Some secret =>
          let '(device_id, name) := connect_ids os opts in
          match resolve_advertise_url (cf_port c) (cf_tls c) (co_host opts) (os_lan os) with
          | Err e => (f, Err (display e))
          | Ok host_url =>
              match ds_issue (os_now os) (os_secret os) (os_seal_nonce os) (os_io os) device_id name
                      (co_ttl_seconds opts) (mkDeviceStore f (derive_key secret)) with
              | (ds, Err e) => (ds_file ds, Err (display e))
              | (ds, Ok device_secret) =>
                  (ds_file ds,
                   let? made := connect_link os c secret opts device_id name host_url device_secret in
                   let '(payload, link) := made in
                   Ok (link, connect_output link device_id (fingerprint_of (pp_cert_pem payload))
                               (co_ttl_seconds opts)))
              end
          end
      end
  end.

(** ** [vyn device pair] *)
Definition local_admin_token (os : CliOs) (c : Config) (config_path : string) : Result string string :=
  match cf_jwt_secret c with
  | None => Err ("no jwt_secret in '" +:+ config_path
                 +:+ "' and no --token/VYN_JWT_TOKEN — pairing needs auth")
  | Some secret =>
      shown (mint_device_token (str_bytes secret) "vyn-cli" [perm_str_name PermissionKernelAdmin] [] 60
               (audience_of None c) (os_now os) (os_jti os))
  end.

(** The answer of the kernel: the derived [Deserialize] of [TicketView] *)
Record TicketReply := mkTicketReply {
  tr_v : Z;
  tr_ticket : string;
  tr_ws : string;
  tr_ttl_secs : Z;
  tr_expires_at : Z;
  tr_cert_pem : option string;
  tr_cert_sha256 : option string
}.

Definition json_opt_str (k : string) (j : Json) : option (option string) :=
  match json_get k j with
  | None | Some JNull => Some None
  | Some (JStr s) => Some (Some s)
  | _ => None
  end.

Definition ticket_reply_of (j : Json) : option TicketReply :=
  v ← json_get "v" j;
  v ← json_u64 v;
  if (u32_max <? v)%Z then None
  else
    ticket ← json_get_str "ticket" j;
    ws ← json_get_str "ws" j;
    ttl ← json_get "ttl_secs" j;
    ttl ← json_u64 ttl;
    expires ← json_get "expires_at" j;
    expires ← json_u64 expires;
    cert ← json_opt_str "cert_pem" j;
    fp ← json_opt_str "cert_sha256" j;
    Some (mkTicketReply v ticket ws ttl expires cert fp).

Definition opt_json (o : option string) : Json :=
  match o with Some s => JStr s | None => JNull end.

Definition pair_output (link : string) (view : TicketReply) : string :=
  println ("Pairing link (single use, open on the phone or render with `vyn-pair`):" +:+ nl)
  +:+ println (link +:+ nl)
  +:+ println ("ticket for " +:+ tr_ws view +:+ " expires in " +:+ fmt_Z (tr_ttl_secs view)
               +:+ "s (at " +:+ device_format_ts (tr_expires_at view) +:+ " UTC) — link "
               +:+ fmt_N (N.of_nat (String.length link)) +:+ " chars")
  +:+ match tr_cert_sha256 view with Some fp => println ("cert sha256: " +:+ fp) | None => EmptyString end
  +:+ println "render a scannable QR code: vyn device pair ... | vyn-pair"
  +:+ println "once scanned, the device shows up in: vyn device list".

Definition pair (os : CliOs) (config_path : string) (ttl_secs : Z) (name host token : option string)
    : Result (string * string) string :=
  let? c := os_load os in
  let? token := match token with Some t => Ok t | None => local_admin_token os c config_path end in
  let? client := build_client (os_read os) (cf_tls c) (effective_tls_cert_path (os_conf os) c) in
  let body := JObj [("ttl_secs", JNum ttl_secs); ("name", opt_json name); ("host", opt_json host)] in
  let? resp := api_post_json client (base_url (cf_port c) (cf_tls c)) "/devices/pair" (Some token) body in
  match json_from_slice (str_bytes resp) ≫= ticket_reply_of with
  | None => Err (rw_shape resp)
  | Some view =>
      let? link := shown (encode_pair_link (ticket_link_json
                     (mkTicketLink (tr_v view) (tr_ws view) (tr_ticket view) (tr_cert_pem view)))) in
      Ok (link, pair_output link view)
  end.

(** ** [vyn device list] *)
Definition LIST_HEADERS : list string :=
  ["DEVICE_ID"; "NAME"; "CREATED"; "EXPIRES"; "LAST_SEEN"; "STATE"].

Abbreviation Live := (gmap string (Z * bool)).

Definition status_label (s : DeviceStatus) : string :=
  match s with Active => "active" | DsRevoked => "REVOKED" | DsExpired => "expired" end.

Definition list_cells (live : option Live) (now : Z) (row : DeviceRecord) : list string :=
  [dr_device_id row; dr_name row; device_format_ts (dr_created_at row);
   device_format_ts (dr_expires_at row);
   match live ≫= (.!! dr_device_id row) with
   | Some (last_seen_ms, _) => device_format_ts (Z.quot last_seen_ms 1000)
   | None => "-"
   end;
   status_label (status row now)].

Definition unit_sep : string := String (ascii_of_N 31) EmptyString.

(** [table]: the cells of each row joined by a separator, a line each; [now] is the
    clock at each row *)
Definition list_table (cells : list (list string)) : string :=
  concat_strings (map (fun c => println (join unit_sep c)) cells).

(** The table as it is printed; [None] is a panic. *)
Definition list_render (cells : list (list string)) : option string :=
  let widths := foldl widen (map String.length LIST_HEADERS) cells in
  let lines := map (split (ascii_of_N 31)) (str_lines (list_table cells)) in
  concat_strings <$> mapM (row_line widths) (LIST_HEADERS :: lines).

Definition live_entry (d : Json) : option (string * (Z * bool)) :=
  id ← json_get_str "device_id" d;
  seen ← json_get "last_seen" d;
  state ← json_get_str "state" d;
  Some (id, (default 0%Z (json_u64 seen), state =s "online")).

(** [collect]: a later entry replaces an earlier one *)
Definition collect_live (l : list (string * (Z * bool))) : Live :=
  foldl (fun m kv => <[kv.1 := kv.2]> m) ∅ l.

Definition fetch_live_devices (os : CliOs) (c : Config) : option Live :=
  match build_client (os_read os) (cf_tls c) (effective_tls_cert_path (os_conf os) c) with
  | Err _ => None
  | Ok client =>
      match api_get client (base_url (cf_port c) (cf_tls c)) "/devices" None with
      | Err _ => None
      | Ok body =>
          match json_from_slice (str_bytes body) with
          | Some (JArr l) => Some (collect_live (omap live_entry l))
          | _ => None
          end
      end
  end.

(** [now] is the clock at each row *)
Definition device_list (os : CliOs) (now : nat -> Z) (offline : bool) (f : DiskFile) : option Ran :=
  let got :=
    let? c := os_load os in
    let? store := open_store c f in
    let? rows := shown (ds_read_all store) in
    Ok (c, rows) in
  match got with
  | Err e => Some (EmptyString, Err e)
  | Ok (_, []) =>
      Some (println "No paired devices. Pair one with `vyn device connect`.", Ok tt)
  | Ok (c, rows) =>
      let live := if offline then None else fetch_live_devices os c in
      (fun out => (out, Ok tt)) <$> list_render (imap (fun i row => list_cells live (now i) row) rows)
  end.

(** ** [vyn device revoke] and [remove] *)
Definition revoke (os : CliOs) (device_id : string) (undo : bool) (f : DiskFile) : DiskFile * Ran :=
  match (let? c := os_load os in open_store c f) with
  | Err e => (f, (EmptyString, Err e))
  | Ok store =>
      match set_revoked (os_io os) device_id (negb undo) store with
      | (ds, Err e) => (ds_file ds, (EmptyString, Err (display e)))
      | (ds, Ok found) =>
          (ds_file ds,
           if undo then
             (println (if (found : bool) then "device '" +:+ device_id +:+ "' un-revoked"
                       else "no such device '" +:+ device_id +:+ "'"), Ok tt)
           else if (found : bool) then
             (println ("device '" +:+ device_id +:+ "' revoked — future connections will be rejected"),
              Ok tt)
           else (EmptyString, Err ("no paired device '" +:+ device_id +:+ "' (see: vyn device list)")))
      end
  end.

Definition remove (os : CliOs) (device_id : string) (f : DiskFile) : DiskFile * Ran :=
  match (let? c := os_load os in open_store c f) with
  | Err e => (f, (EmptyString, Err e))
  | Ok store =>
      match ds_remove (os_io os) device_id store with
      | (ds, Err e) => (ds_file ds, (EmptyString, Err (display e)))
      | (ds, Ok found) =>
          (ds_file ds,
           (println (if (found : bool)
                     then "device '" +:+ device_id +:+ "' removed — it must pair again to connect"
                     else "no paired device '" +:+ device_id +:+ "'"), Ok tt))
      end
  end.

(** ** The dispatch *)
Inductive DeviceCmd :=
| DcConnect (opts : ConnectOpts)
| DcPair (ttl : Z) (name host token : option string)
| DcList (offline : bool)
| DcRevoke (device_id : string) (undo : bool)
| DcRemove (device_id : string).

Definition printed (r : Result (string * string) string) : Ran :=
  match r with Ok (_, out) => (out, Ok tt) | Err e => (EmptyString, Err e) end.

(** [env_token] is VYN_JWT_TOKEN. [None] is a panic. *)
Definition device_handle (os : CliOs) (now : nat -> Z) (env_token : option string)
    (config_path : string) (cmd : DeviceCmd) (f : DiskFile) : option (DiskFile * Ran) :=
  match cmd with
  | DcConnect opts => let '(f, r) := device_connect os config_path opts f in Some (f, printed r)
  | DcPair ttl name host token =>
      let token := match token with Some t => Some t | None => env_token end in
      Some (f, printed (pair os config_path ttl name host token))
  | DcList offline => (fun r => (f, r)) <$> device_list os now offline f
  | DcRevoke id undo => Some (revoke os id undo f)
  | DcRemove id => Some (remove os id f)
  end.
End device_cli.
