(* ===== verification/CliProps.v ===== *)
(** * Theorems about the texts of the command line

    What [vyn device list] prints and when it panics, that [vyn-pair] finds the
    link in the output of the pairing commands, the QR version it announces, and
    the durations of [--ttl]. *)

From S2P Require Import Prelude Errors Wire Validate Registry Auth Kernel Sandbox Config.
From S2P Require Import Calendar Decimal Daemon DaemonProps Cli CliDevice.

(** ** The table of [vyn device list] *)
Definition US : ascii := ascii_of_N 31.
Definition LF : ascii := ascii_of_N 10.

(** A cell that neither separator occurs in *)
Definition clean (s : string) : bool := negb (str_contains LF s) && negb (str_contains US s).

Lemma split_line c a rest :
  str_contains c a = false -> split c (a +:+ String c rest) = a :: split c rest.
Proof.
  induction a as [|x a IH].
  - intros _. change (split c (String c rest) = EmptyString :: split c rest). simpl.
    by rewrite Ascii.eqb_refl.
  - intros [Hx Ha]%orb_false_iff. change (split c (String x (a +:+ String c rest)) = String x a :: split c rest).
    simpl. rewrite Hx, IH by done. done.
Qed.

Lemma split_none c s : str_contains c s = false -> split c s = [s].
Proof.
  induction s as [|x s IH]; [done|]. intros [Hx Hs]%orb_false_iff. simpl. by rewrite Hx, IH.
Qed.

Lemma split_nonempty c s : split c s <> [].
Proof. destruct s as [|x s]; simpl; [done|]. destruct (Ascii.eqb x c); [done|]. by destruct (split c s). Qed.

Lemma split_cells c cells :
  cells <> [] -> Forall (fun s => str_contains c s = false) cells ->
  split c (join (String c EmptyString) cells) = cells.
Proof.
  intros Hne Hc. induction Hc as [|s cells Hs Hc IH]; [done|].
  destruct cells as [|t cells]; [by apply split_none|].
  change (split c (s +:+ String c (join (String c EmptyString) (t :: cells))) = s :: t :: cells).
  by rewrite split_line, IH.
Qed.

Lemma split_lines l :
  Forall (fun s => str_contains LF s = false) l ->
  split LF (concat_strings (map println l)) = l ++ [EmptyString].
Proof.
  induction 1 as [|s l Hs Hl IH]; [done|].
  assert (concat_strings (map println (s :: l)) = s +:+ String LF (concat_strings (map println l))) as ->
    by exact (eq_sym (str_app_assoc s nl (concat_strings (map println l)))).
  by rewrite split_line, IH.
Qed.

Lemma str_lines_print l :
  Forall (fun s => str_contains LF s = false) l ->
  str_lines (concat_strings (map println l)) = map strip_cr l.
Proof.
  intros Hl. unfold str_lines. fold LF. rewrite split_lines by done.
  by rewrite removelast_last, last_snoc.
Qed.

Lemma join_clean c cells :
  c <> US -> Forall (fun s => str_contains c s = false) cells ->
  str_contains c (join unit_sep cells) = false.
Proof.
  intros Hne Hc. induction Hc as [|s cells Hs Hc IH]; [done|].
  destruct cells as [|t cells]; [done|].
  change (str_contains c (s +:+ String US (join unit_sep (t :: cells))) = false).
  rewrite str_contains_app, Hs. change (Ascii.eqb US c || str_contains c (join unit_sep (t :: cells)) = false).
  rewrite IH, orb_false_r. by destruct (Ascii.eqb_spec US c).
Qed.

Lemma join_snoc sep l x : l <> [] -> join sep (l ++ [x]) = join sep l +:+ sep +:+ x.
Proof.
  induction l as [|y l IH]; [done|]. intros _. destruct l as [|z l]; [done|].
  change (y +:+ sep +:+ join sep ((z :: l) ++ [x]) = (y +:+ sep +:+ join sep (z :: l)) +:+ sep +:+ x).
  rewrite IH by done. by rewrite !str_app_assoc.
Qed.

Lemma strip_cr_word p s :
  str_all is_ascii_alphanumeric s = true -> s <> EmptyString -> strip_cr (p +:+ s) = p +:+ s.
Proof.
  intros Hs Hne. unfold strip_cr. rewrite str_bytes_app, last_app.
  destruct (last (str_bytes s)) as [b|] eqn:Hb.
  - assert ((Byte.to_N b =? 13)%N = false) as ->; [|done].
    apply last_Some_elem_of in Hb. clear Hne. induction s as [|c s IH]; [by apply elem_of_nil in Hb|].
    apply andb_prop in Hs as [Hc Hs]. apply elem_of_cons in Hb as [->|Hb]; [|by apply IH].
    by destruct c as [[] [] [] [] [] [] [] []].
  - apply last_None in Hb. by destruct s.
Qed.

(** Timestamps are clean. *)
Definition ts_char (c : ascii) : bool :=
  is_ascii_digit c || Ascii.eqb c "-" || Ascii.eqb c ":" || Ascii.eqb c " ".

Lemma str_all_free (p : ascii -> bool) c s :
  p c = false -> str_all p s = true -> str_contains c s = false.
Proof.
  intros Hc. induction s as [|x s IH]; [done|]. intros [Hx Hs]%andb_prop. simpl. rewrite IH by done.
  destruct (Ascii.eqb_spec x c) as [->|]; [congruence|done].
Qed.

Lemma fmt_Z_chars z : str_all ts_char (fmt_Z z) = true.
Proof.
  assert (forall n, str_all ts_char (fmt_N n) = true) as Hn.
  { intros n. eapply str_all_impl; [|apply fmt_N_digits]. intros c Hc. unfold ts_char. by rewrite Hc. }
  destruct z as [|p|p]; [done|apply (Hn (N.pos p))|].
  change (str_all ts_char ("-" +:+ fmt_N (N.pos p)) = true). rewrite str_all_app. by rewrite Hn.
Qed.

Lemma pad_left_chars width s : str_all ts_char s = true -> str_all ts_char (pad_left width s) = true.
Proof.
  intros Hs. unfold pad_left. rewrite str_all_app, Hs, andb_true_r.
  induction (width - String.length s)%nat as [|n IH]; [done|]. simpl. exact IH.
Qed.

Lemma format_ts_chars n : str_all ts_char (device_format_ts n) = true.
Proof.
  unfold device_format_ts. rewrite !str_all_app. unfold fmt_02, fmt_04.
  by rewrite !(pad_left_chars _ _ (fmt_Z_chars _)).
Qed.

Lemma ts_clean s : str_all ts_char s = true -> clean s = true.
Proof.
  intros Hs. unfold clean.
  by rewrite (str_all_free ts_char LF s eq_refl Hs), (str_all_free ts_char US s eq_refl Hs).
Qed.

Lemma list_cells_clean live now row :
  clean (dr_device_id row) = true -> clean (dr_name row) = true ->
  Forall (fun s => clean s = true) (list_cells live now row).
Proof.
  intros Hi Hn. unfold list_cells. repeat (apply Forall_cons; split); try done; try apply Forall_nil_2.
  - apply ts_clean, format_ts_chars.
  - apply ts_clean, format_ts_chars.
  - destruct (live ≫= _) as [[seen b]|]; [apply ts_clean, format_ts_chars|done].
  - by destruct (status row now).
Qed.

Lemma list_cells_line live now row :
  strip_cr (join unit_sep (list_cells live now row)) = join unit_sep (list_cells live now row).
Proof.
  unfold list_cells. set (a := [_; _; _; _; _; status_label _]).
  change a with (take 5 a ++ [status_label (status row now)]). rewrite join_snoc by done.
  rewrite str_app_assoc. by apply strip_cr_word; destruct (status row now).
Qed.

(** The lines of the table, split again, are the cells. *)
Lemma table_lines live now rows :
  Forall (fun r => clean (dr_device_id r) = true /\ clean (dr_name r) = true) rows ->
  map (split US) (str_lines (list_table (imap (fun i r => list_cells live (now i) r) rows)))
  = imap (fun i r => list_cells live (now i) r) rows.
Proof.
  intros Hrows. unfold list_table.
  assert (Forall (fun c => c <> [] /\ Forall (fun s => clean s = true) c
                    /\ strip_cr (join unit_sep c) = join unit_sep c)
            (imap (fun i r => list_cells live (now i) r) rows)) as Hc.
  { apply Forall_lookup. intros i c Hi. rewrite list_lookup_imap in Hi.
    destruct (rows !! i) as [r|] eqn:Hr; [|done]. simpl in Hi. simplify_eq.
    rewrite Forall_lookup in Hrows. destruct (Hrows _ _ Hr).
    split; [done|]. split; [by apply list_cells_clean|apply list_cells_line]. }
  induction Hc as [|c cells (Hne & Hcl & Hcr) Hc IH]; [done|].
  rewrite <- (map_map (join unit_sep) println), str_lines_print in *.
  2-3: clear - Hc Hcl; try (apply Forall_cons; split; [apply join_clean; [done|];
         eapply Forall_impl; [exact Hcl|]; intros s [Hs _]%andb_prop; by apply negb_true_iff|]);
       apply Forall_fmap; eapply Forall_impl; [exact Hc|]; intros d (_ & Hd & _);
       apply join_clean; [done|]; eapply Forall_impl; [exact Hd|];
       intros s [Hs _]%andb_prop; by apply negb_true_iff.
  cbn [map]. rewrite Hcr, IH. f_equal. apply split_cells; [done|].
  eapply Forall_impl; [exact Hcl|]. intros s [_ Hs]%andb_prop. by apply negb_true_iff.
Qed.

(** A row of six cells is printed. *)
Lemma row_line_Some widths cells :
  length widths = 6%nat -> length cells = 6%nat -> exists line, row_line widths cells = Some line.
Proof.
  intros Hw Hc. destruct widths as [|w0 [|w1 [|w2 [|w3 [|w4 [|w5 [|]]]]]]]; try done.
  destruct cells as [|c0 [|c1 [|c2 [|c3 [|c4 [|c5 [|]]]]]]]; try done. by eexists.
Qed.

Lemma widths_six cells widths :
  length widths = 6%nat -> Forall (fun c => length c = 6%nat) cells ->
  length (foldl widen widths cells) = 6%nat.
Proof.
  intros Hw Hc. revert widths Hw. induction Hc as [|c cells Hl Hc IH]; intros widths Hw; [done|].
  simpl. apply IH. unfold widen. rewrite length_zip_with. lia.
Qed.

Lemma mapM_lines widths cells :
  length widths = 6%nat -> Forall (fun c => length c = 6%nat) cells ->
  exists lines, mapM (row_line widths) cells = Some lines
    /\ Forall2 (fun c line => row_line widths c = Some line) cells lines.
Proof.
  intros Hw Hc. assert (exists lines, Forall2 (fun c line => row_line widths c = Some line) cells lines)
    as (lines & Hf).
  { induction Hc as [|c cells Hl Hc (lines & Hf)]; [by exists []|].
    destruct (row_line_Some widths c Hw Hl) as [line Hline]. exists (line :: lines). by constructor. }
  exists lines. split; [by apply mapM_Some|done].
Qed.

(** The columns of the table *)
Definition list_widths (cells : list (list string)) : list nat :=
  foldl widen (map String.length LIST_HEADERS) cells.

Lemma list_render_lines cells split_cells :
  map (split US) (str_lines (list_table cells)) = split_cells ->
  list_render cells = concat_strings <$> mapM (row_line (list_widths cells)) (LIST_HEADERS :: split_cells).
Proof. by intros <-. Qed.

(** [vyn device list] prints every stored credential: when no id or name holds a
    line feed or the unit separator (they are the separators of its own table),
    the output is the header and one line per row, in the order of the file, each
    the row's own six cells padded to common widths; it does not panic. *)
Theorem device_list_prints_rows live now rows :
  Forall (fun r => clean (dr_device_id r) = true /\ clean (dr_name r) = true) rows ->
  let cells := imap (fun i r => list_cells live (now i) r) rows in
  exists header lines,
    list_render cells = Some (header +:+ concat_strings lines)
    /\ row_line (list_widths cells) LIST_HEADERS = Some header
    /\ Forall2 (fun c line => row_line (list_widths cells) c = Some line) cells lines.
Proof.
  intros Hrows cells. rewrite (list_render_lines cells cells (table_lines live now rows Hrows)).
  assert (Forall (fun c => length c = 6%nat) cells) as Hlen.
  { apply Forall_lookup. intros i c Hi. subst cells. rewrite list_lookup_imap in Hi.
    destruct (rows !! i); [|done]. simpl in Hi. by simplify_eq. }
  assert (length (list_widths cells) = 6%nat) as Hw by (by apply widths_six).
  destruct (mapM_lines (list_widths cells) (LIST_HEADERS :: cells) Hw) as (out & Hm & Hf);
    [by constructor|].
  rewrite Hm. inversion Hf as [|? header ? lines Hh Hl]; subst.
  by exists header, lines.
Qed.

Lemma word_free c s :
  is_ascii_alphanumeric c = false -> str_all is_ascii_alphanumeric s = true -> str_contains c s = false.
Proof. apply str_all_free. Qed.

(** A name with a line feed ends its line early: the command panics. *)
Lemma list_panics_on_line_feed live now row more a b :
  clean (dr_device_id row) = true -> str_all is_ascii_alphanumeric a = true -> a <> EmptyString ->
  dr_name row = a +:+ String LF b -> list_render (list_cells live now row :: more) = None.
Proof.
  intros [Hi1 Hi2]%andb_prop Ha Hne Hn. apply negb_true_iff in Hi1, Hi2.
  unfold list_render, list_table, concat_strings. cbn [map foldr].
  set (rest := foldr _ _ _).
  assert (exists tail, println (join unit_sep (list_cells live now row)) +:+ rest
            = (dr_device_id row +:+ String US a) +:+ String LF tail) as [tail ->].
  { eexists. unfold list_cells, println. cbn [join]. rewrite Hn. unfold unit_sep.
    rewrite <- !str_app_assoc. do 2 f_equal. }
  unfold str_lines. fold LF.
  rewrite split_line by (rewrite str_contains_app, Hi1; exact (word_free LF a eq_refl Ha)).
  destruct (split LF tail) as [|p ps] eqn:Hp; [by apply split_nonempty in Hp|].
  assert (forall widths x y, mapM (row_line widths) (LIST_HEADERS :: map (split US) (x :: y)) = None
            \/ exists l, row_line widths (split US x) = Some l) as Hmap.
  { intros widths x y. destruct (mapM _ _) as [ls|] eqn:Hm; [right|by left].
    apply mapM_Some in Hm. inversion Hm as [|? ? ? ? _ Hm']. inversion Hm'. by eexists. }
  set (pieces := _ :: p :: ps).
  assert (exists y, match last pieces with
                    | Some EmptyString | None => map strip_cr (removelast pieces)
                    | Some r => map strip_cr (removelast pieces) ++ [r]
                    end = strip_cr (dr_device_id row +:+ String US a) :: y) as [y ->].
  { destruct (last pieces) as [[|? ?]|]; by eexists. }
  assert (strip_cr (dr_device_id row +:+ String US a) = dr_device_id row +:+ String US a) as ->.
  { change (String US a) with (unit_sep +:+ a). rewrite str_app_assoc. by apply strip_cr_word. }
  destruct (Hmap (list_widths (list_cells live now row :: more)) (dr_device_id row +:+ String US a) y)
    as [Hm|[l Hl]].
  - unfold list_widths in Hm. fold US. by rewrite Hm.
  - exfalso. revert Hl. rewrite split_line, split_none by (done || by apply (word_free US)).
    unfold row_line. by repeat case_match.
Qed.

(** A name with unit separators moves the columns: a name of five pieces shows its
    last one in the STATE column, whatever the state of the credential. *)
Lemma list_name_forges_state live now row n0 n1 n2 n3 n4 :
  Forall (fun s => clean s = true) [dr_device_id row; n0; n1; n2; n3; n4] ->
  dr_name row = join unit_sep [n0; n1; n2; n3; n4] ->
  exists tail, split US (join unit_sep (list_cells live now row)) = [dr_device_id row; n0; n1; n2; n3; n4] ++ tail
    /\ last tail = Some (status_label (status row now)).
Proof.
  intros Hc Hn.
  assert (Forall (fun s => str_contains US s = false)
            ([dr_device_id row; n0; n1; n2; n3; n4] ++ drop 2 (list_cells live now row))) as Hf.
  { apply Forall_app. split; [|unfold list_cells; cbn [drop]].
    - eapply Forall_impl; [exact Hc|]. intros s [_ Hs]%andb_prop. by apply negb_true_iff.
    - repeat (apply Forall_cons; split); try apply Forall_nil_2;
        try (apply (str_all_free ts_char); [done|apply format_ts_chars]).
      + destruct (live ≫= _) as [[seen b]|]; [|done].
        apply (str_all_free ts_char); [done|apply format_ts_chars].
      + by destruct (status row now). }
  exists (drop 2 (list_cells live now row)). split; [|done].
  assert (join unit_sep (list_cells live now row)
          = join unit_sep ([dr_device_id row; n0; n1; n2; n3; n4] ++ drop 2 (list_cells live now row))) as ->.
  { unfold list_cells. cbn [join drop app]. rewrite Hn. cbn [join]. by rewrite <- !str_app_assoc. }
  by apply split_cells.
Qed.

(** ** [vyn-pair] on the output of the pairing commands *)
Definition blank (b : Byte.byte) : Prop := b = Byte.x20 \/ b = Byte.x0a.

Definition flushed (cur : bytes) : list bytes := match cur with [] => [] | _ => [reverse cur] end.

Lemma ws_word fuel cur w b rest :
  Forall (fun b => graphic_byte b = true) w -> blank b -> (length w < fuel)%nat ->
  ws_tokens fuel cur (w ++ b :: rest)
  = flushed (reverse w ++ cur) ++ ws_tokens (fuel - length w - 1) [] rest.
Proof.
  intros Hw Hb. revert fuel cur. induction Hw as [|x w Hx Hw IH]; intros fuel cur Hf; simpl in Hf.
  - destruct fuel as [|fuel]; [lia|]. rewrite reverse_nil. cbn [app ws_tokens length].
    replace (S fuel - 0 - 1)%nat with fuel by lia. destruct Hb as [->| ->]; reflexivity.
  - destruct fuel as [|fuel]; [lia|]. cbn [app ws_tokens].
    rewrite strip_any_graphic by (apply ws_heads || done). rewrite IH by lia.
    rewrite reverse_cons, <- app_assoc. simpl. do 2 f_equal.
Qed.

(** Words, each followed by one blank; an empty word is a second blank in a row. *)
Definition worded (l : list (string * Byte.byte)) : bytes :=
  concat (map (fun wb => str_bytes wb.1 ++ [wb.2]) l).

Definition word_tokens (l : list (string * Byte.byte)) : list bytes :=
  concat (map (fun wb => flushed (reverse (str_bytes wb.1))) l).

Lemma ws_words fuel l rest :
  Forall (fun wb => str_all graphic wb.1 = true /\ blank wb.2) l -> (length (worded l) < fuel)%nat ->
  exists fuel', ws_tokens fuel [] (worded l ++ rest) = word_tokens l ++ ws_tokens fuel' [] rest.
Proof.
  intros Hl. revert fuel. induction Hl as [|[w b] l [Hw Hb] Hl IH]; intros fuel Hf; [by exists fuel|].
  unfold worded, word_tokens in *. cbn [map concat fst snd] in *. simpl in Hw, Hb.
  rewrite <- app_assoc. simpl. rewrite !length_app in Hf. simpl in Hf.
  rewrite <- app_assoc. simpl.
  rewrite ws_word; [|by apply str_bytes_graphic|done|lia].
  destruct (IH (fuel - length (str_bytes w) - 1)%nat) as [fuel' ->]; [lia|].
  exists fuel'. by rewrite app_nil_r, app_assoc.
Qed.

Definition is_link (tok : string) : bool := existsb (fun p => starts_with p tok) link_schemes.

Lemma word_tokens_snoc l w b :
  w <> EmptyString -> word_tokens (l ++ [(w, b)]) = word_tokens l ++ [str_bytes w].
Proof.
  intros Hw. unfold word_tokens. rewrite map_app, concat_app. f_equal. cbn [map concat fst].
  rewrite app_nil_r. unfold flushed. destruct (reverse (str_bytes w)) eqn:Hr.
  - apply (f_equal reverse) in Hr. rewrite reverse_involutive in Hr. by destruct w.
  - rewrite <- Hr. by rewrite reverse_involutive.
Qed.

Lemma find_no_link l k :
  forallb (fun wb => negb (is_link wb.1)) l = true ->
  List.find is_link ((string_of_bytes <$> word_tokens l) ++ k) = List.find is_link k.
Proof.
  unfold word_tokens. induction l as [|[w c] l IH]; [done|]. cbn [forallb map concat fst].
  intros [Hw Hn]%andb_prop. rewrite fmap_app, <- app_assoc. unfold flushed at 1.
  destruct (reverse (str_bytes w)) eqn:Hr; [by apply IH|]. rewrite <- Hr, reverse_involutive.
  cbn [fmap list_fmap app List.find]. rewrite string_of_str_bytes. apply negb_true_iff in Hw.
  by rewrite Hw, IH.
Qed.

(** The first link among the words of a text is found. *)
Lemma extract_link_words l link b rest :
  Forall (fun wb => str_all graphic wb.1 = true /\ blank wb.2) l ->
  forallb (fun wb => negb (is_link wb.1)) l = true ->
  str_all graphic link = true -> is_link link = true -> blank b ->
  extract_link (string_of_bytes (worded l ++ str_bytes link ++ b :: rest)) = Some link.
Proof.
  intros Hl Hn Hlink Hs Hb. unfold extract_link, split_whitespace.
  assert (forall x, str_bytes (string_of_bytes x) = x) as ->
    by (intros x; apply String.list_byte_of_string_of_list_byte).
  set (text := worded l ++ str_bytes link ++ b :: rest).
  assert (text = worded (l ++ [(link, b)]) ++ rest) as Ht.
  { unfold text, worded. rewrite map_app, concat_app. simpl.
    by rewrite app_nil_r, <- !app_assoc. }
  destruct (ws_words (S (length text)) (l ++ [(link, b)]) rest) as [fuel' Hw].
  { apply Forall_app. split; [done|]. by apply Forall_singleton. }
  { rewrite Ht, length_app. lia. }
  rewrite <- Ht in Hw. rewrite Hw. fold is_link.
  rewrite word_tokens_snoc by (by destruct link). rewrite <- app_assoc, fmap_app.
  change (fun tok => existsb (fun p => starts_with p tok) link_schemes) with is_link.
  rewrite find_no_link by done. cbn [fmap list_fmap app List.find].
  by rewrite string_of_str_bytes, Hs.
Qed.

(** The two headings *)
Definition spaced (ws : list string) (w : string) : list (string * Byte.byte) :=
  map (fun w => (w, Byte.x20)) ws ++ [(w, Byte.x0a); (EmptyString, Byte.x0a)].
Definition connect_words : list (string * Byte.byte) :=
  spaced ["Pairing"; "link"; "(open"; "on"; "the"; "phone,"; "or"; "render"; "as"; "a"; "QR"; "with"]
    "`vyn-pair`):".
Definition pair_words : list (string * Byte.byte) :=
  spaced ["Pairing"; "link"; "(single"; "use,"; "open"; "on"; "the"; "phone"; "or"; "render"; "with"]
    "`vyn-pair`):".

Lemma spaced_ok ws w :
  forallb (str_all graphic) (w :: ws) = true ->
  Forall (fun wb => str_all graphic wb.1 = true /\ blank wb.2) (spaced ws w).
Proof.
  intros [Hw Hws]%andb_prop. change (forallb (str_all graphic) ws = true) in Hws.
  apply Forall_app. split.
  - apply Forall_fmap, Forall_forall. intros v Hv. rewrite forallb_forall in Hws. simpl.
    split; [by apply Hws, list_elem_of_In|by left].
  - repeat (apply Forall_cons; split); [|by simpl; split; [|right]|by apply Forall_nil_2].
    simpl. split; [done|by right].
Qed.

(** A heading, the link on a line of its own, and anything after it *)
Lemma headed_link heading words link rest :
  str_bytes heading = worded words ->
  Forall (fun wb => str_all graphic wb.1 = true /\ blank wb.2) words ->
  forallb (fun wb => negb (is_link wb.1)) words = true ->
  str_all graphic link = true -> is_link link = true ->
  extract_link (heading +:+ println (link +:+ nl) +:+ rest) = Some link.
Proof.
  intros Hh Hok Hn Hg Hs. rewrite <- (string_of_str_bytes (heading +:+ _)).
  rewrite str_bytes_app, Hh. unfold println. rewrite !str_bytes_app, <- !app_assoc.
  change (str_bytes nl) with [Byte.x0a]. simpl. apply extract_link_words; try done. by right.
Qed.

Lemma pair_link_graphic `{Crypto, Serde, Zlib} payload link :
  (forall b, str_all graphic (base64url b) = true) -> encode_pair_link payload = Ok link ->
  str_all graphic link = true /\ is_link link = true.
Proof.
  intros Hb. unfold encode_pair_link. destruct (zlib_best _) as [z|]; [|done]. intros [= <-].
  rewrite str_all_app, Hb. done.
Qed.

(** Piping a pairing command into [vyn-pair] draws its link: from everything that
    [vyn device connect] or [vyn device pair] prints, whatever the device's id, its
    name, the address and the fingerprint are, exactly the link is extracted, given
    that base64url text is visible ASCII. *)
Theorem vyn_pair_reads_link `{Crypto, Serde, Zlib} payload link device_id fp ttl view :
  (forall b, str_all graphic (base64url b) = true) -> encode_pair_link payload = Ok link ->
  extract_link (connect_output link device_id fp ttl) = Some link
  /\ extract_link (pair_output link view) = Some link.
Proof.
  intros Hb He. destruct (pair_link_graphic payload link Hb He) as [Hg Hs].
  split; [apply (headed_link _ connect_words)|apply (headed_link _ pair_words)]; try done;
    by apply spaced_ok.
Qed.

(** ** The QR version *)
Lemma qr_version_least link :
  let n := String.length link in
  (qr_version link <= 40)%nat /\ (forall cap, QR_CAPS !! (qr_version link - 1)%nat = Some cap -> n <= cap)%nat
     /\ (forall i cap, i < qr_version link - 1 -> QR_CAPS !! i = Some cap -> cap < n)%nat
  \/ qr_version link = 41%nat /\ (2953 < n)%nat.
Proof.
  unfold qr_version. destruct (list_find _ QR_CAPS) as [[i cap]|] eqn:Hf; [left|right].
  - apply list_find_Some in Hf as (Hi & Hc & Hmin). apply lookup_lt_Some in Hi as Hlt.
    rewrite Nat.add_sub. split; [simpl in Hlt; lia|]. split.
    + intros cap' Hc'. rewrite Hi in Hc'. by simplify_eq.
    + intros j cap' Hj Hc'. specialize (Hmin j cap' Hc' Hj). lia.
  - split; [done|]. apply list_find_None in Hf.
    rewrite Forall_lookup in Hf. specialize (Hf 39%nat 2953%nat eq_refl). simpl in Hf. lia.
Qed.

(** ** Durations *)
Lemma strip_last_app c s : strip_last c (s +:+ String c EmptyString) = Some s.
Proof.
  induction s as [|a s IH]; simpl; [by rewrite Ascii.eqb_refl|].
  change (String a s +:+ String c EmptyString) with (String a (s +:+ String c EmptyString)).
  destruct (s +:+ String c EmptyString) eqn:Hs; [by destruct s|]. simpl. simpl in IH. by rewrite IH.
Qed.

Lemma strip_last_other c d s : c <> d -> strip_last c (s +:+ String d EmptyString) = None.
Proof.
  intros Hne. induction s as [|a s IH]; [simpl; by destruct (Ascii.eqb_spec d c)|].
  change (String a s +:+ String d EmptyString) with (String a (s +:+ String d EmptyString)).
  destruct (s +:+ String d EmptyString) eqn:Hs; [by destruct s|]. simpl. simpl in IH. by rewrite IH.
Qed.

Lemma strip_last_digits c s :
  is_ascii_digit c = false -> str_all is_ascii_digit s = true -> strip_last c s = None.
Proof.
  intros Hc. induction s as [|a s IH]; [done|]. intros [Ha Hs]%andb_prop.
  destruct s as [|b s]; simpl in *; [|by rewrite IH].
  destruct (Ascii.eqb_spec a c) as [->|]; [congruence|done].
Qed.

(** The units of [--ttl] *)
Definition duration_units : list (string * Z) := [(EmptyString, 1); ("s", 1); ("m", 60); ("h", 3600)]%Z.

Lemma duration_units_ok u mult :
  (u, mult) ∈ duration_units -> str_all graphic u = true /\ (1 <= mult)%Z.
Proof.
  assert (Forall (fun um => str_all graphic um.1 = true /\ (1 <= um.2)%Z) duration_units) as Hall
    by (repeat (apply Forall_cons; split); [simpl; split; [done|lia]..|by apply Forall_nil_2]).
  rewrite Forall_forall in Hall. apply (Hall (u, mult)).
Qed.

(** Durations are read exactly: a number with one of the units is that many
    seconds when the product is positive and fits in 64 bits, and an error
    otherwise; nothing wraps. *)
Theorem parse_duration_exact n u mult :
  (u, mult) ∈ duration_units ->
  (exists e, parse_duration_secs (fmt_N n +:+ u) = Err e)
    /\ ~ (0 < Z.of_N n * mult <= u64_max)%Z
  \/ parse_duration_secs (fmt_N n +:+ u) = Ok (Z.of_N n * mult)%Z /\ (0 < Z.of_N n * mult <= u64_max)%Z.
Proof.
  intros Hu. pose proof (fmt_N_digits n) as Hd. destruct (duration_units_ok _ _ Hu) as [Hg Hm].
  assert (str_trim (fmt_N n +:+ u) = fmt_N n +:+ u) as Ht.
  { apply str_trim_graphic. by rewrite str_all_app, (digits_graphic _ Hd). }
  assert (parse_duration_secs (fmt_N n +:+ u)
          = match parse_uint u64_max (fmt_N n) with
            | None => Err ("bad duration '" +:+ (fmt_N n +:+ u) +:+ "' (try 300, 90s, 5m, 1h)")
            | Some n' =>
                if (n' * mult =? 0)%Z || (u64_max <? n' * mult)%Z
                then Err ("duration '" +:+ (fmt_N n +:+ u) +:+ "' out of range")
                else Ok (n' * mult)%Z
            end) as ->.
  { unfold parse_duration_secs. rewrite Ht. cbv zeta. unfold duration_units in Hu.
    repeat (apply elem_of_cons in Hu as [[= -> ->]|Hu]); [| | | |by apply elem_of_nil in Hu].
    - by rewrite str_app_empty, !strip_last_digits.
    - by rewrite strip_last_app.
    - by rewrite strip_last_other, strip_last_app.
    - by rewrite (strip_last_other "s"), (strip_last_other "m"), strip_last_app. }
  rewrite parse_uint_eq. destruct (Z.leb_spec (Z.of_N n) u64_max) as [Hle|Hgt].
  - destruct (Z.eqb_spec (Z.of_N n * mult) 0) as [H0|H0]; [left; split; [by eexists|lia]|].
    destruct (Z.ltb_spec u64_max (Z.of_N n * mult)) as [Hx|Hx]; [left; split; [by eexists|lia]|].
    right. split; [done|lia].
  - left. split; [by eexists|nia].
Qed.

(** ** Concrete runs *)
Definition cli_rows : list DeviceRecord :=
  [mkDeviceRecord "dev-0a1b2c" "Kitchen tablet" 1700000000 1700086400 false [];
   mkDeviceRecord "dev-ffffff" "old phone" 1600000000 1600086400 true []].

Lemma device_list_prints_rows_witness :
  exists header lines,
    list_render (imap (fun _ r => list_cells None 1700000001 r) cli_rows)
      = Some (header +:+ concat_strings lines)
    /\ length lines = 2%nat.
Proof.
  destruct (device_list_prints_rows None (fun _ => 1700000001%Z) cli_rows) as (header & lines & H1 & _ & H2).
  - repeat constructor.
  - exists header, lines. split; [exact H1|]. apply Forall2_length in H2. by rewrite <- H2.
Defined.

#[local] Instance cli_crypto : Crypto := {|
  hkdf_sha256 _ ikm info := ikm ++ info;
  sha256 b := b;
  aes_encrypt _ _ _ m := Some m;
  aes_decrypt _ _ _ c := Some c;
  base64url b := hex_of_bytes b
|}.
#[local] Instance cli_serde : Serde := {|
  json_to_string _ := "{}";
  json_from_slice _ := None
|}.
#[local] Instance cli_zlib : Zlib := {|
  zlib_best b := Ok b;
  b64_standard_decode _ := Err "unused"
|}.

Lemma hex_graphic b : str_all graphic (hex_of_bytes b) = true.
Proof. induction b as [|x b IH]; [done|]. destruct x; exact IH. Qed.

Lemma vyn_pair_reads_link_witness :
  extract_link (connect_output "vynkor://pair?z=1&d=7b7d" "http://evil" (Some "AA:BB") 86400)
  = Some "vynkor://pair?z=1&d=7b7d".
Proof.
  apply (vyn_pair_reads_link (JObj []) "vynkor://pair?z=1&d=7b7d" "http://evil" (Some "AA:BB") 86400
           (mkTicketReply 2 "t" "ws://h/ws" 300 0 None None)); [apply hex_graphic|reflexivity].
Defined.

Lemma parse_duration_exact_witness : parse_duration_secs "5m" = Ok 300%Z.
Proof.
  destruct (parse_duration_exact 5 "m" 60) as [[_ H]|[H _]].
  - apply elem_of_cons. right. apply elem_of_cons. right. apply elem_of_cons. left. reflexivity.
  - exfalso. apply H. unfold u64_max. lia.
  - exact H.
Defined.
