(* ===== verification/CliDeviceProps.v ===== *)
(** * Theorems about [vyn device]

    A link that [vyn device connect] prints admits exactly its device to the kernel
    of the same configuration; the token that [vyn device pair] mints for itself
    passes the API's gates; and what the commands do not do: [vyn device list]
    never merges live state, a revocation can be lost to a kernel that is pairing,
    a failing or an unlucky [connect] takes a working credential away. *)

From S2P Require Import Prelude Errors Wire Validate Registry Auth AuthProps Kernel Sandbox Config.
From S2P Require Import Supervisor Loader Bridge Api ApiProps Boot Calendar Decimal DaemonProps.
From S2P Require Import Cli CliDevice.

Section connect.
Context `{Wire, CryptoLaws, JwtLaws, !RowCodec DeviceRecord, !RowCodecLaws DeviceRecord}.
Context `{Urls, Serde, Reqwest, Zlib}.

(** The store as the kernel of the configuration opens it *)
Definition store_of (secret : string) (f : DiskFile) : DeviceStore := mkDeviceStore f (derive_key secret).

(** The steps of a [connect] that went through *)
Lemma connect_Ok os path opts f f' link out :
  device_connect os path opts f = (f', Ok (link, out)) ->
  exists c secret ds device_secret p,
    os_load os = Ok c /\ cf_jwt_secret c = Some secret
    /\ ds_issue (os_now os) (os_secret os) (os_seal_nonce os) (os_io os) (connect_ids os opts).1
         (connect_ids os opts).2 (co_ttl_seconds opts) (store_of secret f) = (ds, Ok device_secret)
    /\ f' = ds_file ds
    /\ mint_device_token (str_bytes secret) (connect_ids os opts).1
         (permissions_of (co_permissions opts)) (targets_of (co_ipc_targets opts))
         (co_ttl_seconds opts) (audience_of (co_aud opts) c) (os_now os) (os_jti os)
       = Ok (pp_jwt_token p)
    /\ encode_pair_link (pair_payload_json p) = Ok link
    /\ pp_device_id p = (connect_ids os opts).1 /\ pp_device_secret p = device_secret.
Proof.
  unfold device_connect. destruct (os_load os) as [c|]; [|done].
  destruct (cf_jwt_secret c) as [secret|] eqn:Hs; [|done].
  destruct (connect_ids os opts) as [device_id name] eqn:Hids.
  destruct (resolve_advertise_url _ _ _ _) as [host|]; [|done].
  destruct (ds_issue _ _ _ _ _ _ _ _) as [ds [device_secret|]] eqn:Hi; [|done].
  unfold connect_link, shown. destruct (mint_device_token _ _ _ _ _ _ _ _) as [tok|] eqn:Hm; [|done].
  destruct (served_cert os c) as [cert|]; [|done]. simpl.
  destruct (encode_pair_link _) as [l|] eqn:He; [|done]. intros [= <- <- <-].
  by exists c, secret, ds, device_secret, (mkPairPayload 2 name host device_id tok device_secret cert).
Qed.

Lemma issue_key now secret nonce io id name ttl ds ds' r :
  ds_issue now secret nonce io id name ttl ds = (ds', r) -> ds_key ds' = ds_key ds.
Proof.
  unfold ds_issue. destruct (ds_read_all ds); [|by intros [= <- _]].
  destruct (seal _ _ _); [|by intros [= <- _]]. unfold ds_write_all, write_private_atomic.
  destruct io; by intros [= <- _].
Qed.

Lemma store_issue secret f ds now sec nonce io id name ttl r :
  ds_issue now sec nonce io id name ttl (store_of secret f) = (ds, r) -> store_of secret (ds_file ds) = ds.
Proof. intros Hi. apply issue_key in Hi as Hk. destruct ds as [g k]. simpl in *. by subst k. Qed.

Lemma default_audience aud c :
  aud = None \/ aud = cf_jwt_audience c -> audience_matches (cf_jwt_audience c) (audience_of aud c).
Proof. unfold audience_of, audience_matches. intros [->| ->]; by destruct (cf_jwt_audience c). Qed.

(** What one command draws and is given is within the bounds of the program. *)
Definition connect_sane (os : CliOs) (opts : ConnectOpts) : Prop :=
  length (os_seal_nonce os) = NONCE_LEN /\ os_jti os <> [] /\ (0 <= os_now os)%Z
  /\ (0 <= co_ttl_seconds opts)%Z /\ (os_now os + co_ttl_seconds opts <= u64_max)%Z.

(** A printed pairing link works: whoever holds it has a token that the kernel of
    the same configuration accepts until the credential's end, for that device and
    the permissions asked for, and the frame secret that the kernel's device gate
    answers for it until then and refuses after; no other device's credential has
    changed. *)
Theorem connect_admits os path opts f f' link out :
  connect_sane os opts -> device_connect os path opts f = (f', Ok (link, out)) ->
  exists c secret p,
    os_load os = Ok c /\ cf_jwt_secret c = Some secret
    /\ encode_pair_link (pair_payload_json p) = Ok link
    /\ pp_device_id p = (connect_ids os opts).1 /\ pp_device_secret p = hex_of_bytes (os_secret os)
    /\ (forall t, pp_jwt_token p <> EmptyString -> (t <= os_now os + co_ttl_seconds opts)%Z ->
          co_aud opts = None \/ co_aud opts = cf_jwt_audience c ->
          forall v, boot_auth c = Ok (Some v) ->
          exists claims, jwt_validate v t (pp_jwt_token p) = Ok claims
            /\ cl_sub claims = str_trim (pp_device_id p)
            /\ cl_permissions claims = permissions_of (co_permissions opts))
    /\ (forall t, active_secret t (pp_device_id p) (store_of secret f')
          = if (t <? os_now os + co_ttl_seconds opts)%Z then Ok (Some (pp_device_secret p))
            else Err (EAuth ("device '" +:+ pp_device_id p +:+ "' credential expired — re-pair")))
    /\ forall t other, other <> pp_device_id p ->
         active_secret t other (store_of secret f') = active_secret t other (store_of secret f).
Proof.
  intros (Hn & Hj & Hnow & Httl & Hmax) Hc.
  destruct (connect_Ok _ _ _ _ _ _ _ Hc)
    as (c & secret & ds & dsec & p & Hl & Hs & Hi & -> & Hm & He & Hid & Hsec).
  destruct (ds_issue_Ok _ _ _ _ _ _ _ _ _ _ Hn Hi) as (rows & enc & Hhex & _).
  exists c, secret, p. rewrite (store_issue _ _ _ _ _ _ _ _ _ _ _ Hi), Hid, Hsec.
  assert (0 < co_ttl_seconds opts)%Z as Hpos.
  { unfold mint_device_token in Hm. repeat case_match; try done.
    match goal with Hz : (_ =? 0)%Z = false |- _ => apply Z.eqb_neq in Hz end. lia. }
  split_and!; try done.
  - intros t Htok Ht Ha v Hv. unfold boot_auth in Hv. rewrite Hs in Hv.
    destruct (_ <? _)%nat; [done|]. injection Hv as <-.
    destruct (mint_validates _ _ _ _ _ _ _ _ _ _ t Hj Hnow Hpos Hmax Hm Htok (default_audience _ _ Ha) Ht)
      as (claims & Hv1 & Hv2 & Hv3 & _). by exists claims.
  - intros t. by eapply issue_gate.
  - intros t other Hne. by eapply issue_other.
Qed.

(** The credential is replaced whoever had the id, and the automatic id is one of
    2^24 that is not looked up first: a draw that meets the id of a paired device
    takes that device's access. *)
Lemma connect_takes_over os path opts f f' link out c secret id old t :
  connect_sane os opts -> os_load os = Ok c -> cf_jwt_secret c = Some secret ->
  co_device opts = None -> cli_device_id (os_id_draw os) = id ->
  active_secret t id (store_of secret f) = Ok (Some old) ->
  device_connect os path opts f = (f', Ok (link, out)) -> hex_of_bytes (os_secret os) <> old ->
  (t < os_now os + co_ttl_seconds opts)%Z ->
  exists new, active_secret t id (store_of secret f') = Ok (Some new) /\ new <> old.
Proof.
  intros (Hn & Hj & Hnow & Httl & Hmax) Hl Hs Hd Hr _ Hc Hne Ht.
  destruct (connect_Ok _ _ _ _ _ _ _ Hc)
    as (c' & secret' & ds & dsec & p & Hl' & Hs' & Hi & -> & _ & _ & _ & _).
  assert (secret' = secret) as -> by congruence.
  exists dsec. split.
  - rewrite (store_issue _ _ _ _ _ _ _ _ _ _ _ Hi). unfold connect_ids in Hi. rewrite Hd, Hr in Hi.
    simpl in Hi. rewrite (issue_gate _ _ _ _ _ _ _ _ _ _ t Hn Hnow Httl Hmax Hi).
    by apply Z.ltb_lt in Ht as ->.
  - destruct (ds_issue_Ok _ _ _ _ _ _ _ _ _ _ Hn Hi) as (rows & enc & -> & _). done.
Qed.

(** The credential is stored before the token is minted: when minting fails (a
    lifetime of zero, say), the command fails and the device named is left with the
    new row, already expired. *)
Lemma connect_failure_rotates os path opts f c secret host ds s :
  connect_sane os opts -> co_ttl_seconds opts = 0%Z -> os_load os = Ok c ->
  cf_jwt_secret c = Some secret ->
  resolve_advertise_url (cf_port c) (cf_tls c) (co_host opts) (os_lan os) = Ok host ->
  ds_issue (os_now os) (os_secret os) (os_seal_nonce os) (os_io os) (connect_ids os opts).1
    (connect_ids os opts).2 0 (store_of secret f) = (ds, Ok s) ->
  exists f' e, device_connect os path opts f = (f', Err e)
    /\ forall t, (os_now os <= t)%Z ->
       exists why, active_secret t (connect_ids os opts).1 (store_of secret f') = Err why.
Proof.
  intros (Hn & Hj & Hnow & Httl & Hmax) Hz Hl Hs Hh Hi. rewrite Hz in Hmax. unfold device_connect. rewrite Hl, Hs, Hh.
  destruct (connect_ids os opts) as [id name]. simpl in Hi. unfold store_of in Hi. rewrite Hz, Hi.
  unfold connect_link, mint_device_token. rewrite Hz. exists (ds_file ds).
  assert (forall t, (os_now os <= t)%Z ->
    exists why, active_secret t id (store_of secret (ds_file ds)) = Err why) as Hexp.
  { intros t Ht. rewrite (store_issue _ _ _ _ _ _ _ _ _ _ _ Hi).
    rewrite (issue_gate _ _ _ _ _ _ _ _ _ _ t Hn Hnow (Z.le_refl 0) Hmax Hi).
    destruct (Z.ltb_spec t (os_now os + 0)); [lia|by eexists]. }
  destruct (_ <? _)%nat; [|destruct (str_is_empty (str_trim id))]; simpl; by eexists.
Qed.

(** The token names the trimmed id, the row the id as given: with blanks around it
    the two differ, and the gate knows no device of the token's subject. *)
Lemma connect_padded_id os path opts f f' link out :
  connect_sane os opts -> device_connect os path opts f = (f', Ok (link, out)) ->
  str_trim (connect_ids os opts).1 <> (connect_ids os opts).1 ->
  exists c secret, os_load os = Ok c /\ cf_jwt_secret c = Some secret
    /\ forall t, active_secret t (str_trim (connect_ids os opts).1) (store_of secret f')
                 = active_secret t (str_trim (connect_ids os opts).1) (store_of secret f).
Proof.
  intros (Hn & _) Hc Hne.
  destruct (connect_Ok _ _ _ _ _ _ _ Hc)
    as (c & secret & ds & dsec & p & Hl & Hs & Hi & -> & _ & _ & _ & _).
  exists c, secret. split_and!; try done. intros t.
  rewrite (store_issue _ _ _ _ _ _ _ _ _ _ _ Hi). by eapply issue_other.
Qed.
End connect.

(** ** A revocation against a running kernel *)
Section revocation.
Context `{CryptoLaws, !RowCodec DeviceRecord, !RowCodecLaws DeviceRecord}.

(** What is left of an [issue] once it has read the rows: nothing locks the file
    between the two against another process. *)
Definition issue_write (now : Z) (secret nonce : bytes) (io : option string) (id name : string)
    (ttl : Z) (rows : list DeviceRecord) (ds : DeviceStore) : DeviceStore * Result string VynkorError :=
  match seal (ds_key ds) nonce (hex_of_bytes secret) with
  | Err e => (ds, Err e)
  | Ok enc =>
      let row := mkDeviceRecord id name now (u64_add now ttl) false enc in
      match ds_write_all io (upsert_row id row rows) ds with
      | (ds', Err e) => (ds', Err e)
      | (ds', Ok _) => (ds', Ok (hex_of_bytes secret))
      end
  end.

Lemma issue_reads_then_writes now secret nonce io id name ttl ds :
  ds_issue now secret nonce io id name ttl ds
  = match ds_read_all ds with
    | Err e => (ds, Err e)
    | Ok rows => issue_write now secret nonce io id name ttl rows ds
    end.
Proof. done. Qed.

Lemma issue_write_Ok now secret nonce io id name ttl rows ds ds' s key :
  length nonce = NONCE_LEN -> check_rows (ds_key ds) rows = Ok tt -> ds_key ds = key ->
  issue_write now secret nonce io id name ttl rows ds = (ds', Ok s) ->
  exists row, dr_device_id row = id /\ ds_key ds' = key /\ holds ds' (upsert_row id row rows).
Proof.
  intros Hn Hck <-. unfold issue_write. destruct (seal _ _ _) as [enc|] eqn:Hs; [|done].
  unfold ds_write_all, write_private_atomic. destruct io; [done|]. intros [= <- <-].
  eexists. split; [|split; [done|]]; [|apply holds_written, check_rows_spec, upsert_row_Forall].
  - done.
  - exists (hex_of_bytes secret). by apply unseal_seal with nonce.
  - by apply check_rows_spec.
Qed.

Context `{Wire, Jwt, Urls, Serde, Reqwest, Zlib}.

Lemma revoke_Ok os id f f1 out :
  revoke os id false f = (f1, (out, Ok tt)) ->
  exists c secret ds, os_load os = Ok c /\ cf_jwt_secret c = Some secret
    /\ set_revoked (os_io os) id true (store_of secret f) = (ds, Ok true) /\ f1 = ds_file ds.
Proof.
  unfold revoke, open_store. destruct (os_load os) as [c|]; [|done].
  destruct (cf_jwt_secret c) as [secret|] eqn:Hs; [|done].
  destruct (set_revoked _ _ _ _) as [ds [[]|]] eqn:Hr; [|done..]. intros [= <- _].
  by exists c, secret, ds.
Qed.

(** [vyn device revoke] holds against a kernel that is not writing, and can be
    undone by one that is: on success every later check of the device is refused;
    but when the kernel had read devices.json to pair another device just before,
    its write restores the credential, and the device is served as if it had never
    been revoked, though the command reported success. *)
Theorem revocation_lost os id f f1 out :
  revoke os id false f = (f1, (out, Ok tt)) ->
  exists c secret, os_load os = Ok c /\ cf_jwt_secret c = Some secret
    /\ (forall t, exists why, active_secret t id (store_of secret f1) = Err why)
    /\ forall rows now sec nonce io other name ttl ds s,
         ds_read_all (store_of secret f) = Ok rows -> length nonce = NONCE_LEN -> other <> id ->
         issue_write now sec nonce io other name ttl rows (store_of secret f1) = (ds, Ok s) ->
         forall t, active_secret t id ds = active_secret t id (store_of secret f).
Proof.
  intros (c & secret & ds1 & Hl & Hs & Hr & ->)%revoke_Ok. exists c, secret. split_and!; try done.
  - intros t. destruct (set_revoked_Ok _ _ _ _ _ Hr) as (rows & Hh & Hk & Hh' & Hex).
    assert (store_of secret (ds_file ds1) = ds1) as -> by (destruct ds1; simpl in *; by subst).
    rewrite (active_secret_holds _ _ _ _ Hh'), find_map_revoked, str_eqb_refl.
    destruct (List.find (fun r => dr_device_id r =s id) rows) as [row|] eqn:Hf; simpl.
    + destruct (unseal _ _); by eexists.
    + exfalso. apply existsb_exists in Hex as (r & Hin & Hr'). by eapply find_none in Hf; [rewrite Hr' in Hf|].
  - intros rows now sec nonce io other name ttl ds s Hrd Hn Hne Hw t.
    destruct (issue_write_Ok now sec nonce io other name ttl rows (store_of secret (ds_file ds1)) ds s
                (derive_key secret) Hn (holds_check _ _ Hrd) eq_refl Hw)
      as (row & Hrow & Hk & Hh).
    rewrite (active_secret_holds _ _ _ _ Hh), (active_secret_holds _ _ _ _ Hrd), upsert_row_find by done.
    rewrite Hk. by destruct (str_eqb_spec other id).
Qed.
End revocation.

(** ** The commands that talk to the kernel *)
Section kernel_api.
Context `{Wire, Serde, Manifests, JwtLaws, Crypto, !RowCodec DeviceRecord, !RowCodec TicketRecord}.
Context `{Urls, RateGovernor, Reqwest, Zlib}.

(** Whatever answers on the API port is a kernel started from the configuration. *)
Definition kernel_answers (c : Config) : Prop :=
  forall root token status text,
    rw_send (mkHttpReq root MGet (base_url (cf_port c) (cf_tls c) +:+ "/devices") token None)
      = Answered status text ->
    exists st quota os now allowed bs w bs' w' h,
      boot_auth c = Ok (as_validator st)
      /\ serve st quota os now allowed ((fun t => "Bearer " +:+ t) <$> token) GetDevices bs w
         = Some (bs', w', h)
      /\ status = ht_status h.

Lemma no_token_refused st v quota os now allowed bs w :
  as_validator st = Some v ->
  serve st quota os now allowed None GetDevices bs w = Some (bs, w, mkHttp 401 BodyNone).
Proof. intros Hv. unfold serve, gate. simpl. by rewrite Hv. Qed.

(** [vyn device list] never shows live state: it needs a [jwt_secret] to open the
    store, a kernel of the same configuration then demands a token on [/devices],
    and the command sends none. With or without [--offline] it prints the same. *)
Theorem device_list_never_live os now f c :
  os_load os = Ok c -> kernel_answers c -> device_list os now false f = device_list os now true f.
Proof.
  intros Hl Hk. unfold device_list. rewrite Hl. cbn. unfold open_store.
  destruct (cf_jwt_secret c) as [secret|] eqn:Hs; [|done]. cbn.
  destruct (shown _) as [[|row rows]|]; [done| |done].
  assert (fetch_live_devices os c = None) as ->; [|done].
  unfold fetch_live_devices. destruct (build_client _ _ _) as [client|]; [|done].
  unfold api_get. destruct (rw_send _) as [|status text] eqn:Hq; [done|].
  apply Hk in Hq as (st & quota & aos & nw & allowed & bs & w & bs' & w' & h & Hb & Hsv & ->).
  unfold boot_auth in Hb. rewrite Hs in Hb. destruct (_ <? _)%nat; [done|]. injection Hb as Hv.
  simpl in Hsv. rewrite (no_token_refused _ _ _ _ _ _ _ _ (eq_sym Hv)) in Hsv. by simplify_eq.
Qed.

(** The token that [vyn device pair] mints for itself opens the pairing endpoint:
    for its sixty seconds, on the kernel of the same configuration, the request
    passes authentication and the admin gate, and only the rate limit can refuse
    it. *)
Theorem local_admin_accepted os c path t v quota now secs ttl name host bs :
  os_jti os <> [] -> (0 <= os_now os)%Z -> (os_now os + 60 <= u64_max)%Z ->
  local_admin_token os c path = Ok t -> t <> EmptyString ->
  boot_auth c = Ok (Some v) -> (secs <= os_now os + 60)%Z ->
  snd (gate (Some v) quota now secs (Some ("Bearer " +:+ t)) (PostPair ttl name host) bs)
  = match quota with
    | Some q => if (rate_check q now (bs !! "vyn-cli")).2 then Ok tt else Err 429%Z
    | None => Ok tt
    end.
Proof.
  intros Hj Hnow Hmax Ht Hne Hb Hsecs. unfold local_admin_token in Ht.
  destruct (cf_jwt_secret c) as [secret|] eqn:Hs; [|done].
  unfold boot_auth in Hb. rewrite Hs in Hb. destruct (_ <? _)%nat; [done|]. injection Hb as <-.
  destruct (mint_device_token _ _ _ _ _ _ _ _) as [tok|] eqn:Hm; [|done]. injection Ht as ->.
  destruct (mint_validates _ _ _ _ 60 _ _ _ _ _ secs Hj Hnow ltac:(lia) Hmax Hm Hne
              (default_audience None c (or_introl eq_refl)) Hsecs) as (claims & Hv & Hsub & Hp & _).
  unfold gate. simpl is_public. cbn [is_admin]. unfold auth_middleware.
  assert (Some ("Bearer " +:+ t) ≫= strip_prefix "Bearer " = Some t) as -> by done.
  rewrite Hv. unfold rate_limit_middleware, require_kernel_admin. simpl.
  rewrite Hp, Hsub. change (str_trim "vyn-cli") with "vyn-cli".
  destruct quota as [q|]; simpl; [|by rewrite str_eqb_refl].
  destruct (rate_check q now (bs !! "vyn-cli")) as [b []]; simpl; [by rewrite str_eqb_refl|done].
Qed.
End kernel_api.

(** ** Concrete runs *)
#[local] Existing Instances PluginClaims_eq_dec api_wire api_urls api_manifests api_governor demo_ticket_codec.
#[local] Existing Instances demo_device_codec demo_device_laws demo_crypto demo_crypto_laws.

#[local] Instance run_serde : Serde := {| json_to_string _ := "{}"; json_from_slice _ := None |}.
#[local] Instance run_zlib : Zlib := {| zlib_best b := Ok b; b64_standard_decode _ := Err "unused" |}.
#[local] Instance run_reqwest : Reqwest := {|
  rw_root_ok _ := Ok tt;
  rw_send req := match rq_bearer req with None => Answered 401 (Ok "") | Some _ => NoAnswer end;
  rw_status _ := "401 Unauthorized";
  rw_shape _ := "unexpected"
|}.

(** A signer of any claims: the token is their encoding. *)
#[local] Instance run_claims_countable : Countable PluginClaims.
Proof.
  refine (inj_countable'
    (fun c => (cl_sub c, cl_permissions c, cl_ipc_targets c, cl_exp c, cl_iat c, cl_aud c, cl_jti c))
    (fun '(a, b, c, d, e, f, g) => mkClaims a b c d e f g) _). by intros [].
Defined.

#[local] Instance run_jwt : Jwt := {|
  jwt_encode _ c := Ok (String "b" (pos_bits (countable.encode c)));
  jwt_decode _ v now t :=
    match t with
    | String _ s => match countable.decode (bits_pos s) with
                    | Some c => if validation_accepts v now c then Ok c else Err "refused"
                    | None => Err "bad token"
                    end
    | EmptyString => Err "bad token"
    end
|}.

#[local] Instance run_jwt_laws : JwtLaws.
Proof.
  split; simpl.
  - intros secret v now c t [= <-] Hv. by rewrite bits_pos_bits, decode_encode, Hv.
  - intros secret v now t c. destruct t as [|a s]; [done|]. destruct (countable.decode _) as [d|]; [|done].
    destruct (validation_accepts v now d) eqn:Hv; [|done]. by intros [= <-].
Qed.

Definition run_os : CliOs :=
  mkCliOs (Ok demo_file) (mkConfEnv (Some "/run/user/1000") "/run/user/1000/vyn.sock" "/tmp" None) 100 0
    [Byte.xab] demo_nonce [Byte.x09] None None (fun _ => None) (fun _ => Some []).
Definition run_opts : ConnectOpts := mkConnectOpts (Some "tablet") None (Some "10.0.0.5") None None 50 None.
Definition run_file : DiskFile := (device_connect run_os "config.yaml" run_opts FMissing).1.
Definition run_secret : string := "0123456789abcdef0123456789abcdef".

Lemma connect_admits_witness :
  active_secret 149 "tablet" (store_of run_secret run_file) = Ok (Some "ab").
Proof.
  destruct (device_connect run_os "config.yaml" run_opts FMissing) as [f' [[link out]|e]] eqn:Hc;
    [|vm_compute in Hc; discriminate].
  destruct (connect_admits run_os "config.yaml" run_opts FMissing f' link out)
    as (c & secret & p & H1 & H2 & _ & H3 & H4 & _ & H5 & _).
  - split; [reflexivity|]. split; [discriminate|]. unfold u64_max. simpl. lia.
  - exact Hc.
  - assert (f' = run_file) as -> by (unfold run_file; rewrite Hc; reflexivity).
    injection H1 as <-. injection H2 as <-. specialize (H5 149%Z). rewrite H3, H4 in H5. exact H5.
Defined.

Lemma revocation_lost_witness :
  let f1 := (revoke run_os "tablet" false run_file).1 in
  (exists why, active_secret 120 "tablet" (store_of run_secret f1) = Err why)
  /\ exists rows ds s,
       ds_read_all (store_of run_secret run_file) = Ok rows
       /\ issue_write 110 [Byte.xcd] demo_nonce None "dev-2" "phone" 60 rows (store_of run_secret f1)
          = (ds, Ok s)
       /\ active_secret 120 "tablet" ds = Ok (Some "ab").
Proof.
  destruct (revoke run_os "tablet" false run_file) as [f1 [out r]] eqn:Hr.
  assert (r = Ok tt) as -> by (vm_compute in Hr; injection Hr as _ _ <-; reflexivity).
  destruct (revocation_lost run_os "tablet" run_file f1 out Hr) as (c & secret & H1 & H2 & H3 & H4).
  injection H1 as <-. injection H2 as <-. split; [exact (H3 120%Z)|].
  destruct (ds_read_all (store_of run_secret run_file)) as [rows|] eqn:Hrd; [|vm_compute in Hrd; discriminate].
  destruct (issue_write 110 [Byte.xcd] demo_nonce None "dev-2" "phone" 60 rows (store_of run_secret f1))
    as [ds [s|]] eqn:Hw; [|vm_compute in Hw; discriminate].
  exists rows, ds, s. split; [reflexivity|]. split; [exact Hw|].
  rewrite (H4 rows 110%Z [Byte.xcd] demo_nonce None "dev-2" "phone" 60%Z ds s Hrd eq_refl
             ltac:(discriminate) Hw 120%Z).
  vm_compute. reflexivity.
Defined.

Lemma device_list_never_live_witness :
  device_list run_os (fun _ => 120%Z) false run_file = device_list run_os (fun _ => 120%Z) true run_file.
Proof.
  apply (device_list_never_live run_os (fun _ => 120%Z) run_file demo_file); [reflexivity|].
  intros root token status text Hs. destruct token as [t|]; [discriminate Hs|]. injection Hs as <- _.
  set (v := with_audience (str_bytes run_secret) None).
  exists (mkAppState (Some v) 0 [] None), None, api_os, 0%Z, true, ∅, api_world, ∅, api_world,
    (mkHttp 401 BodyNone).
  split; [vm_compute; reflexivity|]. split; [|reflexivity]. reflexivity.
Defined.

Lemma local_admin_accepted_witness :
  exists t v, local_admin_token run_os demo_file "config.yaml" = Ok t
    /\ snd (gate (Some v) None 0 159 (Some ("Bearer " +:+ t)) (PostPair None None None) ∅) = Ok tt.
Proof.
  destruct (local_admin_token run_os demo_file "config.yaml") as [t|] eqn:Ht; [|vm_compute in Ht; discriminate].
  exists t, (with_audience (str_bytes run_secret) None). split; [reflexivity|].
  rewrite (local_admin_accepted run_os demo_file "config.yaml" t
             (with_audience (str_bytes run_secret) None) None 0 159 None None None ∅).
  - reflexivity.
  - discriminate.
  - simpl. lia.
  - unfold u64_max. simpl. lia.
  - exact Ht.
  - intros ->. vm_compute in Ht. discriminate.
  - vm_compute. reflexivity.
  - simpl. lia.
Defined.
