(* ===== verification/Lifecycle.v ===== *)
(** * Lifecycles: the kernel's tasks and their shutdown, the end of a connection,
    the limits of a child, the starter of lazy plugins
    (src/kernel/orchestrator/mod.rs and shutdown.rs, src/ipc/connection.rs,
    src/plugins/supervisor/spawn.rs, src/plugins/lazy.rs)

    Which tasks [run_with_options] leaves running, in what order and when
    [graceful_shutdown] stops them, and the hand-over between the reader and the
    writer of a connection when it closes. Durations are in milliseconds. *)

From S2P Require Import Prelude Errors Wire Validate Registry Auth Kernel Router Connection.
From S2P Require Import Config Sandbox Supervisor Bridge Websocket Api Boot.

(** ** The tasks of a kernel *)
Inductive Task :=
| TUdsAccept
| TBridge
| TRouter
| TDisconnect
| TWsDisconnect
| TRetry
| TMonitor
| TWatchdog
| TLazy
| TApi.

#[export] Instance Task_eq_dec : EqDecision Task.
Proof. solve_decision. Defined.

Definition has_bridge (c : Config) : bool :=
  match cf_role c, cf_bridge c with RoleClient, Some _ => true | _, _ => false end.

(** [background_handles], in the order of the pushes; [store] says whether the
    event store opened *)
Definition background_tasks (c : Config) (store : bool) : list Task :=
  (if has_bridge c then [TBridge] else [])
  ++ [TRouter; TDisconnect; TWsDisconnect]
  ++ (if store then [TRetry] else [])
  ++ [TMonitor; TWatchdog].

Record ShutdownHandles := mkHandles {
  sh_uds_accept : Task;
  sh_lazy : option Task;
  sh_api_task : Task;
  sh_background : list Task
}.

Definition handle_tasks (h : ShutdownHandles) : list Task :=
  sh_uds_accept h :: option_list (sh_lazy h) ++ [sh_api_task h] ++ sh_background h.

(** [run_with_options] up to "kernel ready": the tasks it has started and how it
    went. [uds] is the outcome of binding the socket, [lazy] says whether a lazy
    plugin is configured, [embedder] whether a status channel was given; the status
    it is sent, if any, is the third component. *)
Definition kernel_up (consistent : bytes -> bytes -> bool) (parse_ip : string -> option string)
    (e : ConfEnv) (c : Config) (os : TlsOs) (f : TlsFiles) (store : bool) (uds : Result unit string)
    (lazy embedder : bool)
    : list Task * Result (Boot * ShutdownHandles) string * option BridgeStatus :=
  match uds with
  | Err err => ([], Err err, None)
  | Ok _ =>
      match (boot consistent parse_ip e c os f).2 with
      | Err err => ([TUdsAccept], Err err, None)
      | Ok b =>
          let h := mkHandles TUdsAccept (if lazy then Some TLazy else None) TApi
                     (background_tasks c store) in
          (handle_tasks h, Ok (b, h),
           if embedder && negb (has_bridge c) then Some Disabled else None)
      end
  end.

(** ** [graceful_shutdown] *)
Inductive ShutdownEvent :=
| ShAbort (t : Task)
| ShNotice (plugin_id : string)
| ShSignal (target : Z) (sig : Signal)
| ShDrain
| ShApiDone
| ShApiAbandoned.

(** The notices, one blocking send after the other: [waits] is how long the send to
    a plugin takes, [None] when its queue stays full. The end is [None] when the
    loop hangs. *)
Fixpoint notices (waits : string -> option Z) (now : Z) (ids : list string)
    : list (Z * ShutdownEvent) * option Z :=
  match ids with
  | [] => ([], Some now)
  | id :: ids' =>
      match waits id with
      | None => ([], None)
      | Some d =>
          let '(evs, t) := notices waits (now + d) ids' in
          ((now + d, ShNotice id)%Z :: evs, t)
      end
  end.

(** When the supervisor's part is over: every deadline has passed *)
Definition last_deadline (default_grace_seconds : Z) (s : Sup) : Z :=
  foldr Z.max 0%Z (map fst (shutdown_signals default_grace_seconds s)).

Definition signal_events (now default_grace_seconds : Z) (s : Sup) : list (Z * ShutdownEvent) :=
  map (fun '(sec, (target, sig)) => (now + sec * 1000, ShSignal target sig)%Z)
    (shutdown_signals default_grace_seconds s).

Definition api_bound (default_grace_seconds : Z) : Z := ((default_grace_seconds + 5) * 1000)%Z.

(** [api_stop] is how long the API server takes to stop once told to drain, [None]
    for ever. The second component is when the shutdown is over. *)
Definition graceful_shutdown (waits : string -> option Z) (api_stop : option Z) (entries : list string)
    (s : Sup) (default_grace_seconds : Z) (h : ShutdownHandles)
    : list (Z * ShutdownEvent) * option Z :=
  let start := map (fun t => (0%Z, ShAbort t)) (sh_uds_accept h :: option_list (sh_lazy h)) in
  let '(told, t1) := notices waits 0 entries in
  match t1 with
  | None => (start ++ told, None)
  | Some t1 =>
      let t2 := (t1 + last_deadline default_grace_seconds s * 1000)%Z in
      let bound := api_bound default_grace_seconds in
      let '(t3, stopped) :=
        match api_stop with
        | Some d => if (d <? bound)%Z then (t2 + d, ShApiDone)%Z else (t2 + bound, ShApiAbandoned)%Z
        | None => (t2 + bound, ShApiAbandoned)%Z
        end in
      (start ++ told ++ signal_events t1 default_grace_seconds s
       ++ [(t2, ShDrain); (t3, stopped)] ++ map (fun t => (t3, ShAbort t)) (sh_background h),
       Some t3)
  end.

(** ** The end of a connection *)

(** Where the reader is after its loop *)
Inductive ReaderPhase := Reading | StopSent | WriterJoined | Signalled.

Record ConnEnd := mkConnEnd {
  en_phase : ReaderPhase;
  en_writer : bool;
  en_key : option bytes;
  en_chan : Chan;
  en_written : list Frame;
  en_disconnects : list N
}.

(** A step: an item offered by a holder of the sender, one item written by the
    writer's [select], the writer taking the stop (its queue is looked at first),
    the reader's three steps. [None]: the step is not enabled. *)
Inductive EndAct :=
| EaSend (o : Outbound)
| EaWrite
| EaTakeStop (late : list Outbound)
| EaStop
| EaJoin
| EaSignal.

Definition close_chan (c : Chan) : Chan := mkChan (ch_capacity c) [] true.

Definition end_step `{Wire} (raw : Frame -> WriteOutcome) (conn_id : N) (a : EndAct) (c : ConnEnd)
    : option ConnEnd :=
  let ch := en_chan c in
  match a with
  | EaSend o =>
      if ch_closed ch || (ch_capacity ch <=? length (ch_queue ch))%nat then None
      else Some (mkConnEnd (en_phase c) (en_writer c) (en_key c) (push_out o ch) (en_written c)
                   (en_disconnects c))
  | EaWrite =>
      if negb (en_writer c) then None
      else
        match ch_queue ch with
        | [] => None
        | item :: rest =>
            let s := write_one raw (en_key c) item in
            let written := en_written c ++ option_list (ws_sent s) in
            Some (if ws_go_on s
                  then mkConnEnd (en_phase c) true (ws_key s)
                         (mkChan (ch_capacity ch) rest (ch_closed ch)) written (en_disconnects c)
                  else mkConnEnd (en_phase c) false (ws_key s) (close_chan ch) written
                         (en_disconnects c))
        end
  | EaTakeStop late =>
      match en_writer c, ch_queue ch, en_phase c with
      | true, [], StopSent =>
          if (ch_capacity ch <? length late)%nat then None
          else
            let '(_, key, frames) := write_loop raw (en_key c) late in
            Some (mkConnEnd StopSent false key (close_chan ch) (en_written c ++ frames)
                    (en_disconnects c))
      | _, _, _ => None
      end
  | EaStop =>
      match en_phase c with
      | Reading => Some (mkConnEnd StopSent (en_writer c) (en_key c) ch (en_written c)
                           (en_disconnects c))
      | _ => None
      end
  | EaJoin =>
      match en_phase c, en_writer c with
      | StopSent, false => Some (mkConnEnd WriterJoined false (en_key c) ch (en_written c)
                                   (en_disconnects c))
      | _, _ => None
      end
  | EaSignal =>
      match en_phase c with
      | WriterJoined => Some (mkConnEnd Signalled (en_writer c) (en_key c) ch (en_written c)
                                (en_disconnects c ++ [conn_id]))
      | _ => None
      end
  end.

Fixpoint end_run `{Wire} (raw : Frame -> WriteOutcome) (conn_id : N) (acts : list EndAct) (c : ConnEnd)
    : option ConnEnd :=
  match acts with
  | [] => Some c
  | a :: acts' => c' ← end_step raw conn_id a c; end_run raw conn_id acts' c'
  end.

(** [with_limits]: a fresh connection *)
Definition conn_new : ConnEnd := mkConnEnd Reading true None (mkChan 64 [] false) [] [].

(** ** The limits of a child (spawn.rs) *)
Definition debug_flag (env : Env) (name : string) : bool := bool_decide (env name = Some "1").

Definition child_cgroup (env : Env) (fs : CgroupFs) (config : PluginConfig) : option string :=
  if debug_flag env "VYN_DEBUG_SKIP_CGROUP" then None
  else prepare_pids_cgroup fs (pc_plugin_id config) (default DEFAULT_MAX_PROCS (pc_max_procs config)).

(** The [pre_exec] hook of the child; [env] is the kernel's own environment *)
Definition child_pre_exec (env : Env) (sys : SysHost) (uid gid pid : N) (cgroup : option string)
    (config : PluginConfig) : Result bool string :=
  let max_procs := default DEFAULT_MAX_PROCS (pc_max_procs config) in
  let max_vmem_mb := default DEFAULT_MAX_VMEM_MB (pc_max_vmem_mb config) in
  if debug_flag env "VYN_DEBUG_SKIP_RLIMITS" then Ok false
  else if pc_sandbox config then sandbox_pre_exec sys uid gid pid max_procs max_vmem_mb cgroup
  else apply_resource_limits sys pid max_procs max_vmem_mb cgroup.

(** ** The starter of lazy plugins (lazy.rs) *)
Definition starter_start (configs : gmap string PluginConfig) (plugin_id : string)
    (forked : SpawnAnswer) (st : Started) (m : PluginManager)
    : PluginManager * Result unit VynkorError :=
  match configs !! plugin_id with
  | None => (m, Err (EPluginNotFound plugin_id))
  | Some config =>
      match mgr_start config forked st m with
      | (m, Ok _) | (m, Err (EPluginAlreadyRunning _)) => (m, Ok tt)
      | (m, Err e) => (m, Err e)
      end
  end.

Definition starter_stop `{Wire} (plugin_id : string) (in_grace : bool) (m : PluginManager)
    : PluginManager * Result unit VynkorError := mgr_stop plugin_id in_grace m.
