(* ===== verification/LifecycleProps.v ===== *)
(** * Theorems about lifecycles

    The order and the length of a shutdown, and what [vyn stop] does meanwhile; a
    connection that is reported gone is closed; what a child starts under; what a
    lazy start guarantees. *)

From S2P Require Import Prelude Errors Wire Validate Registry Auth Kernel Router RegistrationProps.
From S2P Require Import Connection Config Sandbox Supervisor SupervisorSafety Bridge Websocket Api Boot.
From S2P Require Import ApiProps BootProps Embed Daemon DaemonProps Lifecycle.

(** ** The shutdown *)
Definition aborts (evs : list (Z * ShutdownEvent)) : list Task :=
  omap (fun ev => match ev.2 with ShAbort t => Some t | _ => None end) evs.

Lemma aborts_app a b : aborts (a ++ b) = aborts a ++ aborts b.
Proof. apply omap_app. Qed.

Lemma aborts_map now ts : aborts (map (fun t => (now, ShAbort t)) ts) = ts.
Proof. induction ts as [|t ts IH]; [done|]. simpl. by rewrite IH. Qed.

Lemma notices_done waits now ids :
  (forall id, id ∈ ids -> exists d, waits id = Some d /\ (0 <= d)%Z) ->
  exists t1, (notices waits now ids).2 = Some t1 /\ (now <= t1)%Z
    /\ aborts (notices waits now ids).1 = []
    /\ (forall id, id ∈ ids -> exists t, (t, ShNotice id) ∈ (notices waits now ids).1)
    /\ forall t ev, (t, ev) ∈ (notices waits now ids).1 ->
         (now <= t <= t1)%Z /\ exists id, ev = ShNotice id.
Proof.
  revert now. induction ids as [|id ids IH]; intros now Hw; simpl.
  - exists now. split_and!; [done|lia|done|set_solver|set_solver].
  - destruct (Hw id) as (d & Hd & Hpos); [set_solver|]. rewrite Hd.
    destruct (IH (now + d)%Z) as (t1 & Ht & Hle & Ha & Hall & Hin); [set_solver|].
    destruct (notices waits (now + d) ids) as [evs t]. simpl in *. subst t.
    exists t1. split_and!; [done|lia|done| |].
    + intros i [->|Hi]%elem_of_cons; [exists (now + d)%Z; set_solver|].
      destruct (Hall _ Hi) as [t Ht]. exists t. set_solver.
    + intros t ev [[= -> ->]|Hev]%elem_of_cons; [split; [lia|by eexists]|].
      destruct (Hin _ _ Hev) as [Hb He]. split; [lia|done].
Qed.

Lemma foldr_max_ge l x : x ∈ l -> (x <= foldr Z.max 0 l)%Z.
Proof.
  induction l as [|y l IH]; [set_solver|]. intros [->|Hx]%elem_of_cons; simpl; [lia|].
  specialize (IH Hx). lia.
Qed.

Lemma foldr_max_pos l : (0 <= foldr Z.max 0 l)%Z.
Proof. induction l; simpl; lia. Qed.

Lemma signals_deadline d s sec target sig :
  (sec, (target, sig)) ∈ shutdown_signals d s -> (sec <= last_deadline d s)%Z.
Proof.
  intros Hin. apply foldr_max_ge, list_elem_of_fmap. by exists (sec, (target, sig)).
Qed.

Lemma signal_events_elem now d s sec target sig :
  (sec, (target, sig)) ∈ shutdown_signals d s ->
  (now + sec * 1000, ShSignal target sig)%Z ∈ signal_events now d s.
Proof. intros Hin. apply list_elem_of_fmap. by exists (sec, (target, sig)). Qed.

Lemma signal_events_inv now d s t ev :
  (forall sec p, (sec, p) ∈ shutdown_signals d s -> (0 <= sec)%Z) ->
  (t, ev) ∈ signal_events now d s ->
  (now <= t <= now + last_deadline d s * 1000)%Z /\ exists target sig, ev = ShSignal target sig.
Proof.
  intros Hpos Hin. apply list_elem_of_fmap in Hin as ([sec [target sig]] & [= -> ->] & Hin).
  pose proof (signals_deadline _ _ _ _ _ Hin). specialize (Hpos _ _ Hin).
  split; [nia|by eexists _, _].
Qed.

Lemma signal_events_aborts now d s : aborts (signal_events now d s) = [].
Proof.
  unfold signal_events. induction (shutdown_signals d s) as [|[sec [target sig]] l IH]; [done|]. exact IH.
Qed.

(** The grace one plugin gets *)
Definition grace_of (d : Z) (e : SupEntry) : Z :=
  if (0 <? pc_grace_seconds (se_config e))%Z then pc_grace_seconds (se_config e) else d.

Lemma shutdown_signals_for d s id e :
  sv_entries s !! id = Some e ->
  (0%Z, (signal_target e, SIGTERM)) ∈ shutdown_signals d s
  /\ (grace_of d e, (signal_target e, SIGKILL)) ∈ shutdown_signals d s.
Proof.
  intros He. unfold shutdown_signals.
  assert (e ∈ map snd (map_to_list (sv_entries s))) as Hin.
  { apply list_elem_of_fmap. exists (id, e). split; [done|]. by apply elem_of_map_to_list. }
  split; apply elem_of_app; [left|right]; apply list_elem_of_fmap; by exists e.
Qed.

Lemma shutdown_signals_pos d s sec p :
  (0 <= d)%Z -> (sec, p) ∈ shutdown_signals d s -> (0 <= sec)%Z.
Proof.
  intros Hd [Hin|Hin]%elem_of_app; apply list_elem_of_fmap in Hin as (e & [= -> ->] & _); [lia|].
  case_match eqn:Hg; [apply Z.ltb_lt in Hg; lia|done].
Qed.


(** The notices have no deadline: a plugin whose queue stays full keeps the kernel
    from signalling anybody, itself included. *)
Lemma full_queue_hangs_shutdown waits api_stop ids s d h id :
  id ∈ ids -> waits id = None ->
  (graceful_shutdown waits api_stop ids s d h).2 = None
  /\ forall t target sig, ~ (t, ShSignal target sig) ∈ (graceful_shutdown waits api_stop ids s d h).1.
Proof.
  intros Hin Hw. unfold graceful_shutdown.
  assert (forall now, (notices waits now ids).2 = None
    /\ forall t target sig, ~ (t, ShSignal target sig) ∈ (notices waits now ids).1) as Hn.
  { induction ids as [|i ids IH]; [set_solver|]. intros now. simpl.
    destruct (waits i) as [w|] eqn:Hi; [|split; [done|set_solver]].
    assert (id ∈ ids) as Hin' by (apply elem_of_cons in Hin as [->|]; [congruence|done]).
    destruct (IH Hin' (now + w)%Z) as [H1 H2].
    destruct (notices waits (now + w) ids) as [evs t]. simpl in *. split; [done|].
    intros t' target sig [Heq|He]%elem_of_cons; [done|by eapply H2]. }
  destruct (Hn 0%Z) as [H1 H2]. destruct (notices waits 0 ids) as [told t]. cbn [fst snd] in *. subst t.
  split; [done|]. cbn [fst]. intros t target sig [He|He]%elem_of_app; [|by eapply H2].
  apply list_elem_of_fmap in He as (task & Heq & _). done.
Qed.

(** [vyn stop] waits for the grace and two seconds, the kernel takes the grace of
    its plugins (all of it, even when they are gone at once) and then up to the
    grace again to drain the API: with one supervised plugin and a client that
    stays connected, the kernel is still running when the command kills it. *)
Lemma stop_overtakes_drain waits ids s d h id e v pid :
  (2 < d)%Z -> (forall id, id ∈ ids -> exists w, waits id = Some w /\ (0 <= w)%Z) ->
  sv_entries s !! id = Some e -> pc_grace_seconds (se_config e) = 0%Z ->
  running v = true -> read_pid (pv_content v) = Ok pid ->
  exists t3, (graceful_shutdown waits (Some (d * 1000)%Z) ids s d h).2 = Some t3
    /\ ((d + 2) * 1000 < t3)%Z
    /\ stop_kernel (d * 1000) (stubborn v (S (Z.to_nat (2 * (d + 2)))))
       = Some ([EfSignal pid SIGTERM; EfSignal pid SIGKILL; EfRemove], Ok tt).
Proof.
  intros Hd Hw He Hg Hv Hp. destruct (notices_done waits 0 ids Hw) as (t1 & Ht1 & Hle1 & _).
  unfold graceful_shutdown. destruct (notices waits 0 ids) as [told t]. simpl in *. subst t.
  destruct (shutdown_signals_for d s id e He) as [_ Hk]. apply signals_deadline in Hk.
  unfold grace_of in Hk. rewrite Hg in Hk. simpl in Hk.
  unfold api_bound. rewrite (proj2 (Z.ltb_lt (d * 1000) ((d + 5) * 1000))) by lia.
  eexists. split; [reflexivity|]. split; [nia|]. apply stubborn_killed; [lia|done..].
Qed.

(** A boot that fails after the socket is bound leaves its accept loop running. *)
Lemma failed_boot_keeps_accepting consistent parse_ip e c os f store lazy embedder err :
  (boot consistent parse_ip e c os f).2 = Err err ->
  kernel_up consistent parse_ip e c os f store (Ok tt) lazy embedder = ([TUdsAccept], Err err, None).
Proof. intros Hb. unfold kernel_up. by rewrite Hb. Qed.

(** ** The end of a connection *)
Section teardown.
Context `{Wire} `{Serde} (raw : Frame -> WriteOutcome) (conn_id : N).

Record end_ok (c : ConnEnd) : Prop := {
  eo_closed : ch_closed (en_chan c) = negb (en_writer c);
  eo_queue : en_writer c = false -> ch_queue (en_chan c) = [];
  eo_phase : en_phase c = WriterJoined \/ en_phase c = Signalled -> en_writer c = false;
  eo_signal : en_disconnects c = match en_phase c with Signalled => [conn_id] | _ => [] end
}.

Lemma end_ok_new : end_ok conn_new.
Proof. split; try done. by intros [?|?]. Qed.

Lemma end_ok_step a c c' : end_ok c -> end_step raw conn_id a c = Some c' -> end_ok c'.
Proof.
  intros [Hc Hq Hp Hs]. destruct a as [o| |late| | |]; simpl.
  - destruct (ch_closed (en_chan c)) eqn:Hcl; [done|]. destruct (_ <=? _)%nat; [done|]. intros [= <-].
    split; simpl; try done; [by rewrite Hcl|]. intros Hw. by rewrite Hw in Hc.
  - destruct (en_writer c) eqn:Hw; [|done]. simpl in *. destruct (ch_queue (en_chan c)) as [|item rest]; [done|].
    destruct (ws_go_on _); intros [= <-]; split; simpl; try done; try (intros Hph; by specialize (Hp Hph)).
  - destruct (en_writer c); [|done]. destruct (ch_queue (en_chan c)); [|done].
    destruct (en_phase c) eqn:Hph; try done. destruct (_ <? _)%nat; [done|].
    destruct (write_loop _ _ _) as [[? key] frames]. intros [= <-]. by split.
  - destruct (en_phase c) eqn:Hph; try done. intros [= <-]. split; simpl; try done. by intros [?|?].
  - destruct (en_phase c) eqn:Hph; try done. destruct (en_writer c) eqn:Hw; [done|]. intros [= <-]. by split.
  - destruct (en_phase c) eqn:Hph; try done. intros [= <-].
    split; simpl; try done; [intros _; apply Hp; by left|]. by rewrite Hs.
Qed.

Lemma end_ok_run acts c c' : end_ok c -> end_run raw conn_id acts c = Some c' -> end_ok c'.
Proof.
  revert c. induction acts as [|a acts IH]; intros c Hc; simpl; [by intros [= <-]|].
  destruct (end_step raw conn_id a c) as [c1|] eqn:Hs; [|done]. simpl. apply IH. by eapply end_ok_step.
Qed.

Lemma signalled_inert a c c' :
  end_ok c -> en_phase c = Signalled -> end_step raw conn_id a c = Some c' -> False.
Proof.
  intros [Hc Hq Hp Hs] Hph. assert (en_writer c = false) as Hw by (apply Hp; by right).
  rewrite Hw in Hc. destruct a; simpl; rewrite ?Hc, ?Hw, ?Hph; try done.
Qed.

Lemma join_signal c :
  en_phase c = StopSent -> en_writer c = false ->
  exists c', end_run raw conn_id [EaJoin; EaSignal] c = Some c' /\ en_phase c' = Signalled.
Proof. intros Hph Hw. simpl. rewrite Hph, Hw. simpl. by eexists. Qed.

Lemma stopped_finishes n : forall c,
  length (ch_queue (en_chan c)) = n -> en_phase c = StopSent -> en_writer c = true ->
  exists acts c', (length acts <= n + 3)%nat /\ end_run raw conn_id acts c = Some c' /\ en_phase c' = Signalled.
Proof.
  induction n as [|n IH]; intros c Hn Hph Hw.
  - assert (ch_queue (en_chan c) = []) as Hq by (by apply nil_length_inv).
    destruct (end_step raw conn_id (EaTakeStop []) c) as [c1|] eqn:H1.
    + pose proof H1 as H2. simpl in H2. rewrite Hw, Hq, Hph in H2. simpl in H2.
      destruct (join_signal c1) as (c2 & Hr & Hp); [by simplify_eq|by simplify_eq|].
      exists (EaTakeStop [] :: [EaJoin; EaSignal]), c2. split; [simpl; lia|]. split; [|done].
      cbn [end_run]. by rewrite H1.
    + simpl in H1. by rewrite Hw, Hq, Hph in H1.
  - destruct (ch_queue (en_chan c)) as [|item rest] eqn:Hq; [done|].
    destruct (end_step raw conn_id EaWrite c) as [c1|] eqn:H1; [|simpl in H1; by rewrite Hw, Hq in H1].
    pose proof H1 as H2. simpl in H2. rewrite Hw, Hq in H2. simpl in H2.
    destruct (ws_go_on (write_one raw (en_key c) item)).
    + destruct (IH c1) as (acts & c2 & Hl & Hr & Hp); [by simplify_eq/=; lia|by simplify_eq|by simplify_eq|].
      exists (EaWrite :: acts), c2. split; [simpl; lia|]. split; [|done]. cbn [end_run]. by rewrite H1.
    + destruct (join_signal c1) as (c2 & Hr & Hp); [by simplify_eq|by simplify_eq|].
      exists (EaWrite :: [EaJoin; EaSignal]), c2. split; [simpl; lia|]. split; [|done].
      cbn [end_run]. by rewrite H1.
Qed.

End teardown.

(** ** The limits of a child *)
Lemma run_ops_all sys ops : run_ops sys ops = Ok tt <-> forall op, op ∈ ops -> sys op = None.
Proof.
  induction ops as [|op ops IH]; simpl; [set_solver|].
  destruct (sys op) eqn:Hop; [split; [done|]; intros Hall; by rewrite Hall in Hop by set_solver|].
  rewrite IH. set_solver.
Qed.

(** The namespaces a sandboxed child is in *)
Lemma child_namespaces env sys uid gid pid cgroup config joined :
  env "VYN_DEBUG_SKIP_RLIMITS" <> Some "1" -> pc_sandbox config = true ->
  child_pre_exec env sys uid gid pid cgroup config = Ok joined ->
  sys (OpUnshare ["CLONE_NEWNET"]) = None
  /\ (uid <> 0%N -> forall op, op ∈ userns_ops uid gid -> sys op = None)
  /\ apply_resource_limits sys pid (default DEFAULT_MAX_PROCS (pc_max_procs config))
       (default DEFAULT_MAX_VMEM_MB (pc_max_vmem_mb config)) cgroup = Ok joined.
Proof.
  intros Henv Hbox. unfold child_pre_exec, debug_flag. rewrite bool_decide_eq_false_2, Hbox by done.
  unfold sandbox_pre_exec. cbn -[userns_ops run_ops apply_resource_limits]. intros Ha.
  destruct (run_ops sys (if (uid =? 0)%N then [] else userns_ops uid gid)) as [[]|] eqn:H1; [|discriminate].
  destruct (run_ops sys [OpUnshare ["CLONE_NEWNET"]]) as [[]|] eqn:H2; [|discriminate].
  rewrite run_ops_all in H1, H2. split_and!; [set_solver| |done].
  intros Huid. by rewrite (proj2 (N.eqb_neq uid 0) Huid) in H1.
Qed.

Lemma limits_applied sys pid mp mb cgroup joined :
  apply_resource_limits sys pid mp mb cgroup = Ok joined ->
  (mb <> 0%Z -> sys (OpSetRlimitAs (vmem_bytes mb)) = None)
  /\ (joined = true <-> exists path, cgroup = Some path /\ join_pids_cgroup sys pid path = true).
Proof.
  unfold apply_resource_limits. intros Ha. split.
  - intros Hmb. rewrite (proj2 (Z.eqb_neq mb 0) Hmb) in Ha. by destruct (sys _).
  - assert (joined = match cgroup with Some path => join_pids_cgroup sys pid path | None => false end)
      as -> by (destruct (mb =? 0)%Z; [|destruct (sys (OpSetRlimitAs _))]; congruence).
    destruct cgroup; naive_solver.
Qed.

(** A child that reaches its [exec] has its isolation: unless the kernel runs with
    its debugging switch, a sandboxed plugin is in a network namespace of its own
    (for a kernel that is not root inside a user namespace whose three files were
    written), its address space is bounded by the configured or the default limit
    unless that is zero, and it counts as a member of a process scope exactly when
    one was prepared and the write into it succeeded. *)
Theorem child_isolated env sys uid gid pid cgroup config joined :
  env "VYN_DEBUG_SKIP_RLIMITS" <> Some "1" ->
  child_pre_exec env sys uid gid pid cgroup config = Ok joined ->
  (pc_sandbox config = true ->
     sys (OpUnshare ["CLONE_NEWNET"]) = None
     /\ (uid <> 0%N -> forall op, op ∈ userns_ops uid gid -> sys op = None))
  /\ (let mb := default DEFAULT_MAX_VMEM_MB (pc_max_vmem_mb config) in
      mb <> 0%Z -> sys (OpSetRlimitAs (vmem_bytes mb)) = None)
  /\ (joined = true <-> exists path, cgroup = Some path /\ join_pids_cgroup sys pid path = true).
Proof.
  intros Henv Hc. destruct (pc_sandbox config) eqn:Hbox.
  - destruct (child_namespaces _ _ _ _ _ _ _ _ Henv Hbox Hc) as (Hnet & Hns & Hl).
    split; [done|by eapply limits_applied].
  - split; [done|]. unfold child_pre_exec, debug_flag in Hc.
    rewrite bool_decide_eq_false_2, Hbox in Hc by done. by eapply limits_applied.
Qed.

(** The switch that is meant to leave out resource limits leaves out the isolation
    of sandboxed plugins as well, whatever the system would have answered. *)
Lemma skip_rlimits_drops_isolation env sys uid gid pid cgroup config :
  env "VYN_DEBUG_SKIP_RLIMITS" = Some "1" ->
  child_pre_exec env sys uid gid pid cgroup config = Ok false.
Proof. intros He. unfold child_pre_exec, debug_flag. by rewrite bool_decide_eq_true_2. Qed.

(** ** The starter of lazy plugins *)

Lemma spawned_pids_fresh b st id : spawned_pids b st <> Err (EPluginAlreadyRunning id).
Proof. unfold spawned_pids. by repeat (case_match; try done). Qed.

(** A start that succeeds leaves the plugin supervised under its configured
    command, leaves the registry alone and touches no other plugin's process; one
    that was running keeps its process. *)
Lemma starter_start_supervised configs id forked st m m' :
  (forall c, configs !! id = Some c -> pc_plugin_id c = id) ->
  starter_start configs id forked st m = (m', Ok tt) ->
  is_supervised id m' = true /\ pm_world m' = pm_world m
  /\ forall other e, other <> id \/ is_supervised id m = true ->
       sv_entries (pm_supervisor m) !! other = Some e ->
       sv_entries (pm_supervisor m') !! other = Some e.
Proof.
  intros Hid. unfold starter_start. destruct (configs !! id) as [c|]; [|done].
  specialize (Hid c eq_refl). unfold mgr_start, spawn_plugin, spawn_begin, spawn_finish, is_supervised, is_running.
  rewrite Hid. destruct (sv_entries (pm_supervisor m) !! id) as [e0|] eqn:He0.
  { intros [= <-]. simpl. rewrite He0. split_and!; [by apply bool_decide_eq_true_2|done|done]. }
  destruct forked; [|done]. cbn -[spawned_pids].
  destruct (spawned_pids _ _) as [[pid shim]|err] eqn:Hsp;
    [|destruct err; try done; by apply spawned_pids_fresh in Hsp].
  intros [= <-]. simpl. rewrite Hid, lookup_insert_eq. split_and!; [by apply bool_decide_eq_true_2|done|].
  intros other e [Hne|Hr] He; [by rewrite lookup_insert_ne|]. discriminate.
Qed.

(** ** Witnesses *)
Definition end_plan : list EndAct :=
  [EaSend (OFrame (mkFrame FRAME_MAGIC 0 0 [] 0 [] None)); EaStop; EaWrite; EaTakeStop []; EaJoin; EaSignal].



(** A host on which everything succeeds *)
Definition jailed : PluginConfig :=
  mkPluginConfig "p" "/opt/p/bin" [] [] Never 3 true 0 None None FsFull [] [].

Lemma child_isolated_witness :
  child_pre_exec (fun _ => None) (fun _ => None) 1000 1000 9 (Some "/c") jailed = Ok true
  /\ exists path, Some "/c" = Some path /\ join_pids_cgroup (fun _ => None) 9 path = true.
Proof.
  assert (child_pre_exec (fun _ => None) (fun _ => None) 1000 1000 9 (Some "/c") jailed = Ok true)
    as He by reflexivity.
  split; [exact He|].
  destruct (child_isolated (fun _ => None) (fun _ => None) 1000 1000 9 (Some "/c") jailed true
    ltac:(done) He) as (_ & _ & Hj).
  by apply Hj.
Defined.
