(* ===== verification/Shim.v ===== *)
(** * The sandbox shim as a process (src/plugins/shim.rs, the dispatch in src/main.rs)

    The parts of [run] that [Sandbox] models one by one (the plugin's hook, the
    readiness wait, the reap loop) composed the way the function composes them:
    set-up, fork, the signals that were held back, readiness, the pid line, the
    loop. The handler of TERM, INT and HUP runs whenever one of them is delivered.
    Times are in milliseconds; the environment, the system calls and the arrival of
    signals are given by [ShimWorld]. *)

From S2P Require Import Prelude Sandbox Supervisor.

Inductive ShimSig := ShTerm | ShInt | ShHup.

(** What the shim does to the outside *)
Inductive ShimEff :=
| SePrint (line : string)
| SeForward (pid : Z) (sig : ShimSig)
| SeKill (pid : Z).

(** [CHILD_PID], [TERMINAL_FORWARDED], the signal it died of, its effects so far *)
Record ShimProc := mkShimProc {
  sx_child : Z;
  sx_forwarded : bool;
  sx_died : option ShimSig;
  sx_eff : list ShimEff
}.

Definition shim_init : ShimProc := mkShimProc 0 false None [].

Definition set_child (pid : Z) (s : ShimProc) : ShimProc :=
  mkShimProc pid (sx_forwarded s) (sx_died s) (sx_eff s).

Definition emit (e : ShimEff) (s : ShimProc) : ShimProc :=
  mkShimProc (sx_child s) (sx_forwarded s) (sx_died s) (sx_eff s ++ [e]).

(** The handler; without a child the default action is restored and the signal
    raised again, which ends the process. *)
Definition forward_signal (s : ShimProc) (sig : ShimSig) : ShimProc :=
  if (0 <? sx_child s)%Z
  then mkShimProc (sx_child s) true (sx_died s) (sx_eff s ++ [SeForward (sx_child s) sig])
  else mkShimProc (sx_child s) (sx_forwarded s)
         (match sx_died s with Some d => Some d | None => Some sig end) (sx_eff s).

(** The calls before the fork, with anyhow's context where the code gives one *)
Definition shim_setup (uid gid : N) : list (option string * SysOp) :=
  [(Some "socketpair", OpSocketpair);
   (None, OpSigaction "SIGTERM"); (None, OpSigaction "SIGINT"); (None, OpSigaction "SIGHUP");
   (None, OpBlockSignals);
   (Some "set_pdeathsig", OpSetPdeathsig);
   (Some "unshare(CLONE_NEWUSER|CLONE_NEWPID|CLONE_NEWNS)",
    OpUnshare ["CLONE_NEWUSER"; "CLONE_NEWPID"; "CLONE_NEWNS"]);
   (Some "write setgroups", OpWrite "/proc/self/setgroups" "deny");
   (Some "write uid_map", OpWrite "/proc/self/uid_map" ("0 " +:+ fmt_N uid +:+ " 1" +:+ nl));
   (Some "write gid_map", OpWrite "/proc/self/gid_map" ("0 " +:+ fmt_N gid +:+ " 1" +:+ nl));
   (Some "make / rprivate", OpMakePrivate)].

(** [{e:#}] of an error with a context *)
Definition in_context (ctx : option string) (e : string) : string :=
  match ctx with Some c => c +:+ ": " +:+ e | None => e end.

Fixpoint run_setup (sys : SysHost) (ops : list (option string * SysOp)) : Result unit string :=
  match ops with
  | [] => Ok tt
  | (ctx, op) :: ops' =>
      match sys op with Some e => Err (in_context ctx e) | None => run_setup sys ops' end
  end.

(** One turn of the reap loop: what [waitpid] answers, the signals delivered since
    the turn before, the clock *)
Record ShimTurn := mkTurn { tu_status : WaitStatus; tu_signals : list ShimSig; tu_now : Z }.

(** [sw_sys] answers the shim's calls, [sw_plugin_sys] those of the plugin's hook;
    [sw_early] arrive before the signals are blocked, [sw_held] while they are,
    [sw_waiting] during the readiness wait. *)
Record ShimWorld := mkShimWorld {
  sw_env : Env;
  sw_uid : N;
  sw_gid : N;
  sw_sys : SysHost;
  sw_plugin_sys : SysHost;
  sw_host : Host;
  sw_landlock : Landlock;
  sw_seccomp : Seccomp;
  sw_fork : Result N string;
  sw_exec : option string;
  sw_early : list ShimSig;
  sw_held : list ShimSig;
  sw_waiting : list ShimSig;
  sw_ready : ReadyPoll;
  sw_turns : list ShimTurn
}.

(** [Command::spawn]: the fork, the hook in the child, the [exec]; a failure of the
    child's part is reported to the parent. The rules in force are kept. *)
Definition shim_spawn (w : ShimWorld) (plugin_binary : string)
    : Result (N * option (list (string * Access))) string :=
  let? pid := sw_fork w in
  let? rules := shim_pre_exec (sw_plugin_sys w) (sw_host w) (sw_landlock w) (sw_seccomp w)
                  (from_env (sw_env w)) plugin_binary (sw_env w "VYN_SOCKET_PATH") in
  match sw_exec w with
  | Some e => Err e
  | None => Ok (pid, rules)
  end.

Inductive ShimEnd :=
| ShimDied (sig : ShimSig)
| ShimRunning
| ShimEnded (r : Result Z string).

Fixpoint shim_loop (grace_secs : Z) (st : ShimState) (s : ShimProc) (turns : list ShimTurn)
    : ShimProc * ShimEnd :=
  match turns with
  | [] => (s, ShimRunning)
  | t :: turns' =>
      let s := foldl forward_signal s (tu_signals t) in
      let '(res, st, killed) :=
        shim_poll grace_secs st (mkPoll (tu_status t) (sx_forwarded s) (tu_now t)) in
      let s := if killed then emit (SeKill (sx_child s)) s else s in
      match res with
      | Some r => (s, ShimEnded r)
      | None => shim_loop grace_secs st s turns'
      end
  end.

(** [run] *)
Definition shim_run (w : ShimWorld) (plugin_binary : string) : ShimProc * ShimEnd :=
  let s := foldl forward_signal shim_init (sw_early w) in
  match sx_died s with
  | Some sig => (s, ShimDied sig)
  | None =>
      match run_setup (sw_sys w) (shim_setup (sw_uid w) (sw_gid w)) with
      | Err e => (s, ShimEnded (Err e))
      | Ok _ =>
          match shim_spawn w plugin_binary with
          | Err e => (s, ShimEnded (Err (in_context (Some "spawn plugin") e)))
          | Ok (pid, _) =>
              let s := set_child (Z.of_N pid) s in
              match sw_sys w OpUnblockSignals with
              | Some e => (s, ShimEnded (Err e))
              | None =>
                  let s := foldl forward_signal s (sw_held w ++ sw_waiting w) in
                  match shim_await_ready (sw_ready w) with
                  | Err (killed, e) =>
                      (if killed then emit (SeKill (sx_child s)) s else s, ShimEnded (Err e))
                  | Ok _ =>
                      shim_loop (shim_grace_secs (sw_env w)) (mkShim None false)
                        (emit (SePrint (fmt_N pid)) s) (sw_turns w)
                  end
              end
          end
      end
  end.

(** [main] around it: the exit code, [None] while it runs or when a signal ended it *)
Definition shim_exit_code (e : ShimEnd) : option Z :=
  match e with
  | ShimEnded (Ok code) => Some code
  | ShimEnded (Err _) => Some 1%Z
  | _ => None
  end.

(** What the supervisor's first [next_line] yields once the shim has printed or
    closed its end *)
Definition shim_stdout (effs : list ShimEff) : list string :=
  omap (fun e => match e with SePrint l => Some l | _ => None end) effs.
