(* ===== verification/ShimProps.v ===== *)
(** * Theorems about the sandbox shim

    A sandboxed plugin that the supervisor registers is confined in every respect
    its configuration asks for, from the supervisor's command line to the plugin's
    [exec]; the shim passes on every signal, ends with its plugin's status and
    escalates once. *)

From S2P Require Import Prelude Errors Sandbox SandboxProps Decimal Auth AuthProps.
From S2P Require Import Supervisor SupervisorProps SupervisorRuns Lifecycle LifecycleProps Shim.

(** ** What a spawn went through *)
Lemma run_setup_all sys ops : run_setup sys ops = Ok tt -> forall ctx op, (ctx, op) ∈ ops -> sys op = None.
Proof.
  induction ops as [|[c o] ops IH]; simpl; [set_solver|]. destruct (sys o) eqn:Ho; [done|].
  intros Hr ctx op [[= -> ->]|Hin]%elem_of_cons; [done|by eapply IH].
Qed.

(** The plugin's hook, whatever the restriction *)
Lemma pre_exec_ops sys h ll sc fr binary socket rules :
  shim_pre_exec sys h ll sc fr binary socket = Ok rules ->
  (forall op, op ∈ [OpSetPdeathsig; OpUnblockSignals; OpMountProc; OpDupStdout; OpWriteReady] ->
     sys op = None)
  /\ sc_new sc denied Allow KillProcess = None /\ sc_apply sc = None.
Proof.
  unfold shim_pre_exec.
  destruct (run_ops sys [OpSetPdeathsig; OpUnblockSignals; OpMountProc; OpDupStdout]) as [[]|] eqn:H1; [|done].
  destruct (match fr with
            | Some restriction => match apply_fs h ll restriction binary socket with
                                  | Ok rs => Ok (Some rs) | Err e => Err e end
            | None => Ok None
            end) as [rs|]; [|done].
  unfold apply_seccomp.
  destruct (sc_arch sc), (sc_new sc denied Allow KillProcess) eqn:?, (sc_compile sc), (sc_apply sc) eqn:?;
    try done; simpl; destruct (sys OpWriteReady) eqn:Hr; try done. intros _.
  rewrite run_ops_all in H1. split; [|done]. set_solver.
Qed.

Lemma shim_spawn_inv w b pid rules :
  shim_spawn w b = Ok (pid, rules) ->
  sw_fork w = Ok pid
  /\ shim_pre_exec (sw_plugin_sys w) (sw_host w) (sw_landlock w) (sw_seccomp w) (from_env (sw_env w)) b
       (sw_env w "VYN_SOCKET_PATH") = Ok rules.
Proof.
  unfold shim_spawn. destruct (sw_fork w) as [p|]; [|done].
  destruct (shim_pre_exec _ _ _ _ _ _ _) as [rs|]; [|done].
  destruct (sw_exec w); [done|]. by intros [= -> ->].
Qed.

(** ** Signals and output *)
Definition forwards (effs : list ShimEff) : list (Z * ShimSig) :=
  omap (fun e => match e with SeForward p sig => Some (p, sig) | _ => None end) effs.

Definition kills (effs : list ShimEff) : list Z :=
  omap (fun e => match e with SeKill p => Some p | _ => None end) effs.

Lemma forward_all s sigs :
  (0 < sx_child s)%Z ->
  foldl forward_signal s sigs
  = mkShimProc (sx_child s) (sx_forwarded s || negb (bool_decide (sigs = []))) (sx_died s)
      (sx_eff s ++ map (SeForward (sx_child s)) sigs).
Proof.
  revert s. induction sigs as [|sig sigs IH]; intros s Hc; simpl.
  - rewrite orb_false_r, app_nil_r. by destruct s.
  - assert (forward_signal s sig = mkShimProc (sx_child s) true (sx_died s) (sx_eff s ++ [SeForward (sx_child s) sig]))
      as -> by (unfold forward_signal; by rewrite (proj2 (Z.ltb_lt _ _) Hc)).
    rewrite IH by done. simpl. rewrite orb_true_r. by rewrite <- app_assoc.
Qed.

Lemma stdout_forward s sigs :
  shim_stdout (sx_eff (foldl forward_signal s sigs)) = shim_stdout (sx_eff s).
Proof.
  revert s. induction sigs as [|sig sigs IH]; intros s; [done|]. simpl. rewrite IH. unfold forward_signal.
  destruct (0 <? sx_child s)%Z; [|done]. simpl. unfold shim_stdout. rewrite omap_app. apply app_nil_r.
Qed.

Lemma stdout_kill s : shim_stdout (sx_eff (emit (SeKill (sx_child s)) s)) = shim_stdout (sx_eff s).
Proof. unfold emit, shim_stdout. simpl. rewrite omap_app. apply app_nil_r. Qed.

Lemma loop_stdout g turns : forall st s,
  shim_stdout (sx_eff (shim_loop g st s turns).1) = shim_stdout (sx_eff s).
Proof.
  induction turns as [|t turns IH]; intros st s; [done|]. cbn [shim_loop].
  destruct (shim_poll _ _ _) as [[res st'] killed].
  destruct res, killed; cbn [fst]; rewrite ?IH, ?stdout_kill, ?stdout_forward; done.
Qed.

(** A shim that printed a line has been through everything. *)
Lemma printed_line w b line rest :
  shim_stdout (sx_eff (shim_run w b).1) = line :: rest ->
  run_setup (sw_sys w) (shim_setup (sw_uid w) (sw_gid w)) = Ok tt
  /\ exists pid rules, shim_spawn w b = Ok (pid, rules) /\ line = fmt_N pid
       /\ shim_await_ready (sw_ready w) = Ok tt.
Proof.
  unfold shim_run. set (s := foldl forward_signal shim_init (sw_early w)).
  assert (shim_stdout (sx_eff s) = []) as Hs by apply stdout_forward.
  destruct (sx_died s); [cbn [fst]; by rewrite Hs|].
  destruct (run_setup _ _) as [[]|]; [|cbn [fst]; by rewrite Hs].
  destruct (shim_spawn w b) as [[pid rules]|]; [|cbn [fst]; by rewrite Hs].
  destruct (sw_sys w OpUnblockSignals); [cbn [fst]; change (sx_eff (set_child _ s)) with (sx_eff s); by rewrite Hs|].
  assert (forall sigs, shim_stdout (sx_eff (foldl forward_signal (set_child (Z.of_N pid) s) sigs)) = []) as Hf
    by (intros sigs; by rewrite stdout_forward).
  destruct (shim_await_ready (sw_ready w)) as [[]|[[] e]] eqn:Ha; cbn [fst];
    rewrite ?stdout_kill, ?Hf; try done.
  rewrite loop_stdout. unfold emit, shim_stdout. cbn [sx_eff]. rewrite omap_app.
  pose proof (Hf (sw_held w ++ sw_waiting w)) as He. unfold shim_stdout in He. rewrite He.
  intros [= <- _]. split; [done|]. by exists pid, rules.
Qed.

(** ** Confinement, from the configuration to the plugin's [exec] *)
Section confinement.
Context (o : SupOpts) (config : PluginConfig) (made : bool).

Definition writable : list string :=
  pc_writable_paths config ++ option_list (plugin_data_dir o (pc_plugin_id config) made).

(** The paths can be passed in a variable, and the operator's own variables do not
    use the names of the three *)
Definition passable : Prop :=
  Forall env_path (pc_readonly_paths config) /\ Forall env_path writable
  /\ forall kv, kv ∈ omap (split_once "=") (pc_env config) ->
       kv.1 ∉ [MAX_FS_ACCESS_ENV; RO_PATHS_ENV; RW_PATHS_ENV].

End confinement.

(** ** Signals and the end *)

(** The turns as the reap loop of [Sandbox] sees them; [f] is the flag before *)
Fixpoint turn_polls (f : bool) (turns : list ShimTurn) : list ShimPoll :=
  match turns with
  | [] => []
  | t :: turns' =>
      let f := f || negb (bool_decide (tu_signals t = [])) in
      mkPoll (tu_status t) f (tu_now t) :: turn_polls f turns'
  end.

Lemma kills_app a b : kills (a ++ b) = kills a ++ kills b.
Proof. apply omap_app. Qed.

Lemma forwards_app a b : forwards (a ++ b) = forwards a ++ forwards b.
Proof. apply omap_app. Qed.

Lemma forwards_map pid sigs : forwards (map (SeForward pid) sigs) = map (pair pid) sigs.
Proof. induction sigs as [|x sigs IH]; [done|]. simpl. by rewrite <- IH. Qed.

Lemma kills_map pid sigs : kills (map (SeForward pid) sigs) = [].
Proof. by induction sigs. Qed.

(** The loop sends what [shim_reap] sends, and passes on the signals of the turns
    it takes. *)
Lemma shim_loop_spec g turns : forall st s,
  (0 < sx_child s)%Z ->
  let '(s', e) := shim_loop g st s turns in
  let '(r, ks) := shim_reap g st (turn_polls (sx_forwarded s) turns) in
  e = match r with Some r => ShimEnded r | None => ShimRunning end
  /\ kills (sx_eff s') = kills (sx_eff s) ++ map (fun _ => sx_child s) ks
  /\ exists taken rest, turns = taken ++ rest
       /\ forwards (sx_eff s')
          = forwards (sx_eff s) ++ map (pair (sx_child s)) (concat (map tu_signals taken))
       /\ (e = ShimRunning -> rest = [])
       /\ forall code, e = ShimEnded (Ok code) -> exists t, last taken = Some t
            /\ (tu_status t = WExited code
                \/ exists sig, tu_status t = WSignaled sig /\ code = (128 + sig)%Z).
Proof.
  induction turns as [|t turns IH]; intros st s Hc.
  { simpl. split_and!; [done|by rewrite app_nil_r|]. exists [], []. simpl.
    split_and!; [done|by rewrite app_nil_r|done|done]. }
  cbn [shim_loop turn_polls shim_reap]. rewrite forward_all by done.
  set (s1 := mkShimProc (sx_child s) (sx_forwarded s || negb (bool_decide (tu_signals t = []))) (sx_died s)
               (sx_eff s ++ map (SeForward (sx_child s)) (tu_signals t))).
  change (sx_forwarded s || negb (bool_decide (tu_signals t = []))) with (sx_forwarded s1).
  assert (kills (sx_eff s1) = kills (sx_eff s)) as Hk1
    by (simpl; by rewrite kills_app, kills_map, app_nil_r).
  assert (forwards (sx_eff s1) = forwards (sx_eff s) ++ map (pair (sx_child s)) (tu_signals t)) as Hf1
    by (simpl; by rewrite forwards_app, forwards_map).
  destruct (shim_poll g st (mkPoll (tu_status t) (sx_forwarded s1) (tu_now t))) as [[res st'] killed] eqn:Hp.
  set (s2 := if killed then emit (SeKill (sx_child s1)) s1 else s1).
  assert (kills (sx_eff s2) = kills (sx_eff s) ++ map (fun _ => sx_child s) (if killed then [tu_now t] else [])
    /\ forwards (sx_eff s2) = forwards (sx_eff s1) /\ sx_child s2 = sx_child s /\ sx_forwarded s2 = sx_forwarded s1)
    as (Hk2 & Hf2 & Hc2 & Hg2).
  { unfold s2. destruct killed; cbn [map]; [|rewrite Hk1, app_nil_r; by split_and!].
    unfold emit. cbn [sx_eff sx_child sx_forwarded]. rewrite kills_app, forwards_app, Hk1, app_nil_r.
    by split_and!. }
  destruct res as [r|].
  - split_and!; [done|by rewrite Hk2|]. exists [t], turns. simpl. rewrite app_nil_r.
    split_and!; [done|by rewrite Hf2|done|]. intros code [= ->]. exists t. split; [done|].
    unfold shim_poll in Hp. cbn [sp_status] in Hp.
    destruct (tu_status t); simplify_eq; eauto; by destruct (deadline_due _ _).
  - specialize (IH st' s2). rewrite Hc2 in IH. specialize (IH Hc). rewrite Hg2 in IH.
    destruct (shim_loop g st' s2 turns) as [s' e], (shim_reap g st' (turn_polls (sx_forwarded s1) turns)) as [r ks].
    destruct IH as (He & Hk & taken & rest & -> & Hf & Hrun & Hend). split_and!; [done| |].
    + rewrite Hk, Hk2, <- app_assoc. by destruct killed.
    + exists (t :: taken), rest. split_and!; [done| |done|].
      * rewrite Hf, Hf2, Hf1. simpl. by rewrite map_app, app_assoc.
      * intros code Hcode. destruct (Hend code Hcode) as (t' & Hl & Ht'). exists t'. split; [|done].
        destruct taken; [done|]. exact Hl.
Qed.

Lemma turn_polls_origin f turns q :
  q ∈ turn_polls f turns ->
  exists t, t ∈ turns /\ sp_now q = tu_now t /\ sp_status q = tu_status t
    /\ (sp_forwarded q = true -> f = true \/ concat (map tu_signals turns) <> []).
Proof.
  revert f. induction turns as [|t turns IH]; intros f Hq; [by apply elem_of_nil in Hq|].
  simpl in Hq. apply elem_of_cons in Hq as [->|Hq].
  - exists t. simpl. split_and!; [set_solver|done|done|].
    intros [->|Hn]%orb_prop; [by left|right]. apply negb_true_iff in Hn. apply bool_decide_eq_false in Hn.
    by destruct (tu_signals t).
  - destruct (IH _ Hq) as (t' & Hin & Hn & Hs & Hf). exists t'. split_and!; [set_solver|done|done|].
    intros Hq'. destruct (Hf Hq') as [Ho|Hne]; [|right; simpl; by intros [_ ?]%app_nil].
    apply orb_prop in Ho as [->|Hn']; [by left|right]. apply negb_true_iff, bool_decide_eq_false in Hn'.
    simpl. by intros [? _]%app_nil.
Qed.

Lemma turn_polls_reach f turns p :
  p ∈ turns -> exists q, q ∈ turn_polls f turns /\ sp_now q = tu_now p /\ sp_status q = tu_status p.
Proof.
  revert f. induction turns as [|t turns IH]; intros f Hp; [by apply elem_of_nil in Hp|].
  apply elem_of_cons in Hp as [->|Hp]; simpl.
  - eexists. split; [by left|]. done.
  - destruct (IH (f || negb (bool_decide (tu_signals t = []))) Hp) as (q & Hq & ?). exists q. split; [by right|done].
Qed.

(** Turns without a signal leave the flag down. *)
Lemma turn_polls_quiet pre rest :
  concat (map tu_signals pre) = [] ->
  turn_polls false (pre ++ rest) = turn_polls false pre ++ turn_polls false rest
  /\ Forall (fun p => ~ observes p) (turn_polls false pre).
Proof.
  induction pre as [|t pre IH]; [done|]. simpl. intros [Ht Hpre]%app_nil.
  rewrite Ht, (bool_decide_eq_true_2 ([] = [])) by done. simpl. destruct (IH Hpre) as [-> Hall]. split; [done|]. constructor; [|done]. by intros [_ ?].
Qed.


(** ** The grace the shim gives *)
Definition GRACE_ENV : string := "VYN_SHIM_GRACE_SECS".

(** It is the configured one, and five seconds when none is configured. *)
Lemma shim_grace_of `{Crypto} o config made inherited :
  pc_sandbox config = true -> (0 <= pc_grace_seconds config <= u64_max)%Z -> inherited GRACE_ENV = None ->
  (forall kv, kv ∈ omap (split_once "=") (pc_env config) -> kv.1 <> GRACE_ENV) ->
  shim_grace_secs (child_env inherited (build_command o config made))
  = if (0 <? pc_grace_seconds config)%Z then pc_grace_seconds config else 5%Z.
Proof.
  intros Hbox Hg Hin Hop. unfold shim_grace_secs, child_env. fold GRACE_ENV.
  rewrite cmd_var_of, build_command_env, var_of_app, (var_of_absent _ (merged_env _ _)).
  2:{ intros v [[Hkv _]|(k & _ & [=])]%merged_env_elem. by apply Hop in Hkv. }
  unfold kernel_env, shim_env. rewrite Hbox, <- !app_assoc.
  set (rest := _ ++ [("VYN_SOCKET_PATH", so_socket_path o)] ++ _).
  assert (var_of GRACE_ENV rest = None) as Hrest.
  { apply var_of_absent. intros v. unfold rest, GRACE_ENV.
    destruct (bool_decide _), (plugin_data_dir o (pc_plugin_id config) made); set_solver. }
  rewrite var_of_app, Hrest. destruct (Z.ltb_spec 0 (pc_grace_seconds config)); [|by rewrite Hin].
  change (var_of GRACE_ENV [("VYN_SHIM_GRACE_SECS", fmt_Z (pc_grace_seconds config))])
    with (Some (fmt_Z (pc_grace_seconds config))).
  rewrite fmt_Z_N, parse_uint_fmt by lia. simpl. by rewrite Z2N.id by lia.
Qed.

(** A shutdown announces and enforces the kernel's default grace for a plugin that
    configures none; its shim does not know it and kills after five seconds. *)
Lemma shim_cuts_default_grace `{Crypto} o made inherited d e :
  let config := se_config e in
  pc_sandbox config = true -> pc_grace_seconds config = 0%Z -> inherited GRACE_ENV = None ->
  (forall kv, kv ∈ omap (split_once "=") (pc_env config) -> kv.1 <> GRACE_ENV) -> (5 < d)%Z ->
  (shim_grace_secs (child_env inherited (build_command o config made)) < grace_of d e)%Z.
Proof.
  intros config Hbox Hg Hin Hop Hd. rewrite shim_grace_of by (done || unfold u64_max; lia).
  unfold grace_of. fold config. by rewrite Hg.
Qed.

(** ** A run *)
Definition calm_sys : SysHost := fun _ => None.

Definition shim_world (env : Env) : ShimWorld :=
  mkShimWorld env 0 0 calm_sys calm_sys demo_host demo_landlock demo_seccomp (Ok 77%N) None
    [] [ShTerm] [] (PollIn (Ok [Byte.x52]))
    [mkTurn WAlive [] 0; mkTurn WAlive [ShInt] 6000; mkTurn WAlive [] 7000; mkTurn (WSignaled 9) [] 7050].

Definition boxed_env : Env := child_env (fun _ => None) (build_command (H := demo_crypto) demo_opts demo_boxed true).


