(* ===== verification/Server.v ===== *)
(** * The API server (src/api/server.rs)

    How [create_router_full] assembles the router out of routes, layers and
    sub-routers, the [ApiServer] the boot code builds, and its [run]. The router
    itself is axum's: the interface [Axum] states what its documentation says of
    [route], [layer], [route_layer] and [merge], and the theorems are proved
    against it. *)

From S2P Require Import Prelude Errors Wire Validate Registry Auth Kernel Router.
From S2P Require Import Config Sandbox Supervisor Bridge Websocket Api Boot.

(** ** axum *)
Inductive Method := GET | POST.
#[export] Instance method_eq_dec : EqDecision Method.
Proof. solve_decision. Defined.

Inductive Layer :=
| AuthMiddleware
| RateLimitMiddleware (quota : Z * Z)
| RequireKernelAdmin
| TimeoutLayer (secs : Z).

Inductive Endpoint :=
| EpHealth | EpConsume | EpMetrics | EpPlugins | EpPlugin | EpLogs | EpDevices
| EpStart | EpStop | EpRestart | EpPair | EpWs.
#[export] Instance endpoint_eq_dec : EqDecision Endpoint.
Proof. solve_decision. Defined.

Abbreviation RouteKey := (string * Method)%type.

(** What a request to a route runs: the layers, outermost first, and the handler.
    A path is the pattern it was declared with; matching a request to a pattern is
    axum's. Two routes with the same path and method panic, so the laws speak of
    routers without an overlap. *)
Class Axum := {
  router : Type;
  router_new : router;
  route : RouteKey -> Endpoint -> router -> router;
  layer : Layer -> router -> router;
  route_layer : Layer -> router -> router;
  merge : router -> router -> router;
  stack : router -> RouteKey -> option (list Layer * Endpoint);
  stack_new k : stack router_new k = None;
  stack_route k h r k' :
    stack r k = None -> stack (route k h r) k' = if decide (k' = k) then Some ([], h) else stack r k';
  stack_layer l r k : stack (layer l r) k = (fun lh => (l :: lh.1, lh.2)) <$> stack r k;
  stack_route_layer l r k : stack (route_layer l r) k = (fun lh => (l :: lh.1, lh.2)) <$> stack r k;
  stack_merge r1 r2 k :
    (forall k', stack r1 k' = None \/ stack r2 k' = None) ->
    stack (merge r1 r2) k = match stack r1 k with Some x => Some x | None => stack r2 k end
}.

(** ** [create_router_full] *)

(** The channels are their addresses; of the device store, the key it is opened
    with; the plugin manager is part of the requests' shared state [ApiWorld]. *)
Record RouterConfig := mkRouterConfig {
  ac_jwt_validator : option JwtValidator;
  ac_device_store : option string;
  ac_pairing : option Pairing;
  ac_ws_router_tx : option N;
  ac_ws_disconnect_tx : option N;
  ac_started_at : Z;
  ac_rate_limit_rps : option Z;
  ac_rate_limit_burst : option Z;
  ac_plugin_defs : list PluginDef;
  ac_ws_handshake_timeout_secs : Z;
  ac_max_ws_connections : Z;
  ac_ws_register_timeout_secs : Z;
  ac_ws_device_recheck_secs : Z
}.

Record BuiltRouter `{Axum} := mkBuilt {
  br_app : router;
  br_rate_limiter : option (Z * Z);
  br_state : AppState;
  br_gateway : option GwCfg
}.

Section assembly.
Context `{Axum}.

(** A chain of [.route(path, method(handler))] *)
Definition routes (l : list (RouteKey * Endpoint)) : router :=
  foldl (fun r kh => route kh.1 kh.2 r) router_new l.

Definition public : router :=
  routes [(("/health", GET), EpHealth); (("/devices/consume", POST), EpConsume)].

Definition admin : router :=
  layer RequireKernelAdmin
    (routes [(("/plugins/{id}/start", POST), EpStart);
             (("/plugins/{id}/stop", POST), EpStop);
             (("/plugins/{id}/restart", POST), EpRestart);
             (("/devices/pair", POST), EpPair)]).

Definition protected (limiter : option (Z * Z)) : router :=
  let protected :=
    merge (routes [(("/metrics", GET), EpMetrics);
                   (("/plugins", GET), EpPlugins);
                   (("/plugins/{id}", GET), EpPlugin);
                   (("/plugins/{id}/logs", GET), EpLogs);
                   (("/devices", GET), EpDevices)]) admin in
  let protected := match limiter with
                   | Some quota => layer (RateLimitMiddleware quota) protected
                   | None => protected
                   end in
  route_layer AuthMiddleware protected.

Definition ws_sub (handshake_timeout_secs : Z) : router :=
  layer (TimeoutLayer handshake_timeout_secs) (routes [(("/ws", GET), EpWs)]).

Definition create_router_full (config : RouterConfig) : BuiltRouter :=
  let state := mkAppState (ac_jwt_validator config) (ac_started_at config)
                 (ac_plugin_defs config) (ac_pairing config) in
  let rate_limiter :=
    match ac_jwt_validator config with
    | Some _ => Some (build_rate_limiter (default 100%Z (ac_rate_limit_rps config))
                        (default 20%Z (ac_rate_limit_burst config)))
    | None => None
    end in
  let app := merge (merge router_new public) (protected rate_limiter) in
  match ac_ws_router_tx config, ac_ws_disconnect_tx config with
  | Some _, Some _ =>
      mkBuilt _ (merge app (ws_sub (ac_ws_handshake_timeout_secs config))) rate_limiter state
        (Some (mkGwCfg (ac_jwt_validator config)
                 (bool_decide (is_Some (ac_device_store config)))
                 (Z.to_N (ac_max_ws_connections config)) (ac_ws_register_timeout_secs config)
                 (ac_ws_device_recheck_secs config)))
  | _, _ => mkBuilt _ app rate_limiter state None
  end.

(** [create_router]: no WebSocket, no device store, no pairing *)
Definition create_router (jwt_validator : option JwtValidator) (started_at : Z) : router :=
  br_app (create_router_full
    (mkRouterConfig jwt_validator None None None None started_at None None [] 5 1024 10 10)).
End assembly.

(** ** [ApiServer] *)
Record ApiServer := mkApiServer {
  sv_port : Z;
  sv_bind_ip : BindIp;
  sv_tls_cert_path : option string;
  sv_tls_key_path : option string;
  sv_config : RouterConfig
}.

(** [ApiServer::new]: everything the server hands to the router it keeps as the
    router wants it; pairing is off and the re-check period ten seconds. *)
Definition api_server_new (port : Z) (bind_ip : BindIp) (jwt_validator : option JwtValidator)
    (device_store : option string) (ws_router_tx ws_disconnect_tx : option N) (started_at : Z)
    (rate_limit_rps rate_limit_burst : option Z) (tls_cert_path tls_key_path : option string)
    (plugin_defs : list PluginDef) (ws_handshake_timeout_secs max_ws_connections
     ws_register_timeout_secs : Z) : ApiServer :=
  mkApiServer port bind_ip tls_cert_path tls_key_path
    (mkRouterConfig jwt_validator device_store None ws_router_tx ws_disconnect_tx started_at
       rate_limit_rps rate_limit_burst plugin_defs ws_handshake_timeout_secs max_ws_connections
       ws_register_timeout_secs 10).

Definition with_pairing (pairing : option Pairing) (s : ApiServer) : ApiServer :=
  let c := sv_config s in
  mkApiServer (sv_port s) (sv_bind_ip s) (sv_tls_cert_path s) (sv_tls_key_path s)
    (mkRouterConfig (ac_jwt_validator c) (ac_device_store c) pairing (ac_ws_router_tx c)
       (ac_ws_disconnect_tx c) (ac_started_at c) (ac_rate_limit_rps c) (ac_rate_limit_burst c)
       (ac_plugin_defs c) (ac_ws_handshake_timeout_secs c) (ac_max_ws_connections c)
       (ac_ws_register_timeout_secs c) (ac_ws_device_recheck_secs c)).

Definition with_device_recheck_secs (secs : Z) (s : ApiServer) : ApiServer :=
  let c := sv_config s in
  mkApiServer (sv_port s) (sv_bind_ip s) (sv_tls_cert_path s) (sv_tls_key_path s)
    (mkRouterConfig (ac_jwt_validator c) (ac_device_store c) (ac_pairing c) (ac_ws_router_tx c)
       (ac_ws_disconnect_tx c) (ac_started_at c) (ac_rate_limit_rps c) (ac_rate_limit_burst c)
       (ac_plugin_defs c) (ac_ws_handshake_timeout_secs c) (ac_max_ws_connections c)
       (ac_ws_register_timeout_secs c) secs).

(** What [run] serves: the address, the pair of a TLS listener, the quota of the
    limiter the prune task evicts, the router. *)
Record Serving `{Axum} := mkServing {
  sg_addr : BindIp * Z;
  sg_tls : option (string * string);
  sg_prune : option (Z * Z);
  sg_built : BuiltRouter
}.

(** [load_pem] is [RustlsConfig::from_pem_file], [bind] what the listener's bind
    answers. *)
Definition api_run `{Axum} (load_pem : string -> string -> Result unit string)
    (bind : BindIp * Z -> Result unit string) (s : ApiServer) : Result Serving string :=
  let built := create_router_full (sv_config s) in
  let addr := (sv_bind_ip s, sv_port s) in
  match sv_tls_cert_path s, sv_tls_key_path s with
  | Some cert, Some key =>
      match load_pem cert key with
      | Err e => Err e
      | Ok _ =>
          match bind addr with
          | Err e => Err e
          | Ok _ => Ok (mkServing _ addr (Some (cert, key)) (br_rate_limiter built) built)
          end
      end
  | _, _ =>
      match bind addr with
      | Err e => Err e
      | Ok _ => Ok (mkServing _ addr None (br_rate_limiter built) built)
      end
  end.

(** The server [run_with_options] builds; [router_tx] and [disconnect_tx] are the
    channels of the router and of the second disconnect loop. *)
Definition boot_api (b : Boot) (c : Config) (router_tx disconnect_tx : N) (kernel_start : Z)
    : ApiServer :=
  with_device_recheck_secs (cf_ws_device_recheck_secs c)
    (with_pairing ((fun p => mkPairing p (cf_port c) (cf_tls c)) <$> bt_pairing b)
       (api_server_new (cf_port c) (bt_bind b) (bt_validator b) (bt_device_store b)
          (Some router_tx) (Some disconnect_tx) kernel_start (cf_api_rate_limit_rps c)
          (cf_api_rate_limit_burst c) (fst <$> bt_tls b) (snd <$> bt_tls b) (cf_plugins c)
          (cf_ws_handshake_timeout_secs c) (cf_max_ws_connections c)
          (cf_ws_register_timeout_secs c))).

(** ** A request *)

(** The pattern and handler of a request *)
Definition route_key (r : Route) : RouteKey :=
  match r with
  | GetHealth => ("/health", GET)
  | PostConsume _ => ("/devices/consume", POST)
  | GetMetrics => ("/metrics", GET)
  | GetPlugins => ("/plugins", GET)
  | GetPlugin _ => ("/plugins/{id}", GET)
  | GetLogs _ _ => ("/plugins/{id}/logs", GET)
  | GetDevices => ("/devices", GET)
  | PostStart _ => ("/plugins/{id}/start", POST)
  | PostStop _ => ("/plugins/{id}/stop", POST)
  | PostRestart _ => ("/plugins/{id}/restart", POST)
  | PostPair _ _ _ => ("/devices/pair", POST)
  end.

Definition route_endpoint (r : Route) : Endpoint :=
  match r with
  | GetHealth => EpHealth
  | PostConsume _ => EpConsume
  | GetMetrics => EpMetrics
  | GetPlugins => EpPlugins
  | GetPlugin _ => EpPlugin
  | GetLogs _ _ => EpLogs
  | GetDevices => EpDevices
  | PostStart _ => EpStart
  | PostStop _ => EpStop
  | PostRestart _ => EpRestart
  | PostPair _ _ _ => EpPair
  end.

(** The layers from the outside in; [ext] are the request's extensions. *)
Fixpoint run_layers `{Wire, Jwt, RateGovernor} (validator : option JwtValidator) (now now_secs : Z)
    (authorization : option string) (ls : list Layer) (ext : option Verified)
    (bs : gmap string rate_bucket) : gmap string rate_bucket * Result (option Verified) Z :=
  match ls with
  | [] => (bs, Ok ext)
  | AuthMiddleware :: ls =>
      match auth_middleware validator now_secs authorization with
      | Err code => (bs, Err code)
      | Ok ext => run_layers validator now now_secs authorization ls ext bs
      end
  | RateLimitMiddleware q :: ls =>
      match rate_limit_middleware (Some q) now ext bs with
      | (bs, Err code) => (bs, Err code)
      | (bs, Ok _) => run_layers validator now now_secs authorization ls ext bs
      end
  | RequireKernelAdmin :: ls =>
      match require_kernel_admin ext with
      | Err code => (bs, Err code)
      | Ok _ => run_layers validator now now_secs authorization ls ext bs
      end
  | TimeoutLayer _ :: ls => run_layers validator now now_secs authorization ls ext bs
  end.
