(* ===== verification/ServerProps.v ===== *)
(** * Theorems about the API server

    The router [create_router_full] assembles runs the layers of the model's [gate]
    around each handler, whatever implements axum's promises; and a booted kernel
    exposes no handler outside of them. *)

From S2P Require Import Prelude Errors Wire Validate Registry Auth Kernel Router.
From S2P Require Import Config Sandbox Supervisor Bridge Websocket Api ApiProps Boot BootProps Server.

(** ** Routers as tables *)
Abbreviation Table := (list (RouteKey * (list Layer * Endpoint))).

Fixpoint assoc (k : RouteKey) (t : Table) : option (list Layer * Endpoint) :=
  match t with
  | [] => None
  | (k', x) :: t => if decide (k = k') then Some x else assoc k t
  end.

Lemma assoc_app k t1 t2 :
  assoc k (t1 ++ t2) = match assoc k t1 with Some x => Some x | None => assoc k t2 end.
Proof. induction t1 as [|[k' x] t1 IH]; simpl; [done|]. by case_decide. Qed.

Lemma assoc_None k t : k ∉ t.*1 -> assoc k t = None.
Proof.
  induction t as [|[k' x] t IH]; simpl; [done|]. rewrite not_elem_of_cons. intros [? ?].
  rewrite decide_False by done. auto.
Qed.

Lemma assoc_elem k t x : assoc k t = Some x -> (k, x) ∈ t.
Proof.
  induction t as [|[k' y] t IH]; simpl; [done|]. case_decide as E; [|intros ?%IH; by right].
  intros [= ->]. subst. by left.
Qed.

Definition wrap (l : Layer) (t : Table) : Table := (fun kx => (kx.1, (l :: kx.2.1, kx.2.2))) <$> t.

Lemma assoc_wrap l k t : assoc k (wrap l t) = (fun lh => (l :: lh.1, lh.2)) <$> assoc k t.
Proof. induction t as [|[k' x] t IH]; simpl; [done|]. by case_decide. Qed.

Section tables.
Context `{Axum}.

Definition has_table (r : router) (t : Table) : Prop := forall k, stack r k = assoc k t.

Lemma table_new : has_table router_new [].
Proof. intros k. apply stack_new. Qed.

Lemma table_route r t k h :
  has_table r t -> k ∉ t.*1 -> has_table (route k h r) ((k, ([], h)) :: t).
Proof. intros Hr Hk k'. rewrite stack_route; [by rewrite Hr|]. rewrite Hr. by apply assoc_None. Qed.

Lemma table_layer l r t : has_table r t -> has_table (layer l r) (wrap l t).
Proof. intros Hr k. by rewrite stack_layer, Hr, assoc_wrap. Qed.

Lemma table_route_layer l r t : has_table r t -> has_table (route_layer l r) (wrap l t).
Proof. intros Hr k. by rewrite stack_route_layer, Hr, assoc_wrap. Qed.

Lemma table_merge r1 r2 t1 t2 :
  has_table r1 t1 -> has_table r2 t2 -> (forall k, k ∈ t1.*1 -> k ∉ t2.*1) ->
  has_table (merge r1 r2) (t1 ++ t2).
Proof.
  intros H1 H2 Hd k. rewrite stack_merge; [by rewrite H1, H2, assoc_app|].
  intros k'. rewrite H1, H2. destruct (decide (k' ∈ t1.*1)) as [Hin|]; [right|left].
  - by apply assoc_None, Hd.
  - by apply assoc_None.
Qed.

Lemma table_routes l :
  NoDup l.*1 -> has_table (routes l) (reverse ((fun kh => (kh.1, ([], kh.2))) <$> l)).
Proof.
  induction l as [|[k h] l IH] using rev_ind; intros Hl; [apply table_new|].
  unfold routes. rewrite foldl_app, fmap_app, reverse_app. simpl.
  rewrite fmap_app in Hl. apply NoDup_app in Hl as (Hl & Hd & _).
  apply table_route; [by apply IH|]. rewrite <- fmap_reverse, <- list_fmap_compose. intros Hin.
  apply (Hd k); [|by left]. rewrite fmap_reverse, elem_of_reverse in Hin. exact Hin.
Qed.
End tables.

(** ** The assembled router *)
Definition limited (limiter : option (Z * Z)) (ls : list Layer) : list Layer :=
  match limiter with Some q => RateLimitMiddleware q :: ls | None => ls end.

Definition app_table (limiter : option (Z * Z)) (ws : option Z) : Table :=
  ([(("/devices/consume", POST), ([], EpConsume)); (("/health", GET), ([], EpHealth))]
   ++ [(("/devices", GET), (AuthMiddleware :: limited limiter [], EpDevices));
       (("/plugins/{id}/logs", GET), (AuthMiddleware :: limited limiter [], EpLogs));
       (("/plugins/{id}", GET), (AuthMiddleware :: limited limiter [], EpPlugin));
       (("/plugins", GET), (AuthMiddleware :: limited limiter [], EpPlugins));
       (("/metrics", GET), (AuthMiddleware :: limited limiter [], EpMetrics));
       (("/devices/pair", POST), (AuthMiddleware :: limited limiter [RequireKernelAdmin], EpPair));
       (("/plugins/{id}/restart", POST),
         (AuthMiddleware :: limited limiter [RequireKernelAdmin], EpRestart));
       (("/plugins/{id}/stop", POST),
         (AuthMiddleware :: limited limiter [RequireKernelAdmin], EpStop));
       (("/plugins/{id}/start", POST),
         (AuthMiddleware :: limited limiter [RequireKernelAdmin], EpStart))])
  ++ match ws with Some secs => [(("/ws", GET), ([TimeoutLayer secs], EpWs))] | None => [] end.

(** Distinct literal keys *)
Ltac distinct := apply (bool_decide_eq_true_1 _); vm_compute; reflexivity.

Lemma disjoint_keys (t1 t2 : Table) :
  forallb (fun k => negb (bool_decide (k ∈ t2.*1))) t1.*1 = true -> forall k, k ∈ t1.*1 -> k ∉ t2.*1.
Proof.
  rewrite forallb_forall. intros Hf k Hk Hin. apply list_elem_of_In, Hf in Hk.
  by rewrite bool_decide_eq_true_2 in Hk.
Qed.

Section assembled.
Context `{Axum}.

Lemma table_protected limiter :
  has_table (protected limiter) (drop 2 (app_table limiter None)).
Proof.
  unfold protected. cbv zeta.
  eassert (has_table (merge (routes [(("/metrics", GET), EpMetrics); (("/plugins", GET), EpPlugins);
    (("/plugins/{id}", GET), EpPlugin); (("/plugins/{id}/logs", GET), EpLogs);
    (("/devices", GET), EpDevices)]) admin) _) as Hm.
  { apply table_merge; [apply table_routes; distinct|apply table_layer, table_routes; distinct|].
    apply disjoint_keys. vm_compute. reflexivity. }
  destruct limiter as [q|].
  - exact (table_route_layer AuthMiddleware _ _ (table_layer (RateLimitMiddleware q) _ _ Hm)).
  - exact (table_route_layer AuthMiddleware _ _ Hm).
Qed.

Lemma table_ws secs : has_table (ws_sub secs) [(("/ws", GET), ([TimeoutLayer secs], EpWs))].
Proof.
  eassert (has_table (routes [(("/ws", GET), EpWs)]) _) as Hr by (apply table_routes; distinct).
  exact (table_layer (TimeoutLayer secs) _ _ Hr).
Qed.

Lemma table_app config :
  let built := create_router_full config in
  has_table (br_app built)
    (app_table (br_rate_limiter built)
       (match ac_ws_router_tx config, ac_ws_disconnect_tx config with
        | Some _, Some _ => Some (ac_ws_handshake_timeout_secs config)
        | _, _ => None
        end)).
Proof.
  cbv zeta. unfold create_router_full. set (q := match ac_jwt_validator config with Some _ => _ | None => _ end).
  assert (has_table (merge (merge router_new public) (protected q)) (app_table q None)) as Ha.
  { apply (table_merge _ _ (take 2 (app_table q None)));
      [apply (table_merge _ _ []); [apply table_new|apply table_routes; distinct|by intros k ?%elem_of_nil]
      |apply table_protected|]. apply disjoint_keys. by destruct q; vm_compute. }
  destruct (ac_ws_router_tx config); [|exact Ha]. destruct (ac_ws_disconnect_tx config); [|exact Ha].
  cbn [br_app br_rate_limiter].
  apply (table_merge _ _ (app_table q None)); [done|apply table_ws|].
  apply disjoint_keys. by destruct q; vm_compute.
Qed.

Lemma table_guarded q ws k ls h :
  (k, (ls, h)) ∈ app_table q ws ->
  h ∈ [EpHealth; EpConsume; EpWs] \/ exists ls', ls = AuthMiddleware :: ls'.
Proof.
  set (guarded := fun kx : RouteKey * (list Layer * Endpoint) =>
    bool_decide (kx.2.2 ∈ [EpHealth; EpConsume; EpWs])
    || match kx.2.1 with AuthMiddleware :: _ => true | _ => false end).
  assert (forallb guarded (app_table q ws) = true) as Hf by (by destruct ws).
  rewrite forallb_forall in Hf. intros Hin%list_elem_of_In%Hf. unfold guarded in Hin. simpl in Hin.
  apply orb_true_iff in Hin as [?%bool_decide_eq_true|Hl]; [by left|right].
  destruct ls as [|[] ls]; try done. by exists ls.
Qed.

(** ** The layers are the gate *)
Context `{Wire, Jwt, RateGovernor}.

Definition decided {A B E} (p : A * Result B E) : A * Result unit E :=
  (p.1, match p.2 with Ok _ => Ok tt | Err e => Err e end).

(** C9 Whatever implements axum: for every request, the router that
    [create_router_full] assembles reaches the handler of its route, and the layers
    it meets on the way decide as the [gate] of the model does (public routes none;
    the others authentication, then the rate limit where one is configured, then,
    for lifecycle and pairing, the admin check), leaving the same buckets. *)
Theorem assembled_router_is_gate config r :
  let built := create_router_full config in
  exists ls, stack (br_app built) (route_key r) = Some (ls, route_endpoint r)
    /\ forall now secs authorization bs,
         decided (run_layers (ac_jwt_validator config) now secs authorization ls None bs)
         = gate (ac_jwt_validator config) (br_rate_limiter built) now secs authorization r bs.
Proof.
  cbv zeta. pose proof (table_app config (route_key r)) as Ht. cbv zeta in Ht.
  set (q := br_rate_limiter _) in *. clearbody q.
  exists (if is_public r then []
          else AuthMiddleware :: limited q (if is_admin r then [RequireKernelAdmin] else [])).
  split; [rewrite Ht; by destruct r|].
  intros now secs a bs. unfold gate.
  destruct r; simpl; try reflexivity;
    (destruct (auth_middleware _ _ _) as [ext|]; [|done]; destruct q as [q|]; simpl;
     [destruct (match ext with Some _ => _ | None => _ end) as [bs' [[]|]]; [|done]|]; simpl;
     try done; destruct (require_kernel_admin ext) as [[]|]; done).
Qed.
End assembled.

(** ** The booted kernel *)
Section booted.
Context `{Axum, Wire, Jwt, RateGovernor}.

Lemma auth_middleware_Err v secs a code : auth_middleware v secs a = Err code -> code = 401%Z.
Proof. unfold auth_middleware. repeat case_match; by intros [=]. Qed.

(** C10 A kernel that boots exposes no handler outside of the layers: its API serves
    TLS exactly when the configuration says so, with the pair resolved at boot, at
    the address decided there; the gateway and the limiter are the ones the boot
    decided; and every handler the router reaches is one of the two public ones,
    the WebSocket upgrade (which checks the token itself), or sits behind
    authentication: with a secret configured, a request to it that bears no valid
    token is answered 401 and leaves the buckets as they were. *)
Theorem booted_api_guarded consistent parse_ip e c os f f' b tx dtx start load_pem bind sg :
  boot consistent parse_ip e c os f = (f', Ok b) ->
  api_run load_pem bind (boot_api b c tx dtx start) = Ok sg ->
  sg_tls sg = bt_tls b /\ (is_Some (sg_tls sg) <-> cf_tls c = true) /\ sg_addr sg = (bt_bind b, cf_port c)
  /\ br_gateway (sg_built sg) = Some (boot_gw_cfg b c)
  /\ br_rate_limiter (sg_built sg) = boot_quota b c /\ sg_prune sg = boot_quota b c
  /\ forall k ls h, stack (br_app (sg_built sg)) k = Some (ls, h) ->
       h ∈ [EpHealth; EpConsume; EpWs]
       \/ forall v now secs authorization bs, bt_validator b = Some v ->
            (forall claims, ~ bears v secs authorization claims) ->
            run_layers (bt_validator b) now secs authorization ls None bs = (bs, Err 401%Z).
Proof.
  intros Hb Hr. apply boot_tls_iff in Hb. unfold api_run in Hr. set (s := boot_api b c tx dtx start) in *.
  assert (sg_tls sg = bt_tls b /\ sg_addr sg = (bt_bind b, cf_port c)
    /\ sg_built sg = create_router_full (sv_config s) /\ sg_prune sg = br_rate_limiter (sg_built sg))
    as (-> & -> & -> & ->).
  { simpl in Hr. destruct (bt_tls b) as [[cert key]|]; simpl in Hr;
      repeat (case_match; simplify_eq/=); done. }
  split_and!; [done..|].
  intros k ls h Hk. rewrite (table_app (sv_config s) k) in Hk. cbv zeta in Hk.
  set (q := br_rate_limiter _) in Hk. clearbody q. apply assoc_elem in Hk.
  apply table_guarded in Hk as [Hh|[ls' ->]]; [by left|right].
  intros v now secs a bs -> Hno. cbn [run_layers]. destruct (auth_middleware (Some v) secs a) as [ext|code] eqn:Ha.
  - apply auth_middleware_Ok in Ha as (claims & Hc & _). by destruct (Hno claims).
  - by apply auth_middleware_Err in Ha as ->.
Qed.
End booted.

(** ** A router of tables, and concrete requests *)
#[local] Instance table_axum : Axum := {|
  router := Table;
  router_new := [];
  route k h t := (k, ([], h)) :: t;
  layer := wrap;
  route_layer := wrap;
  merge := app;
  stack t k := assoc k t;
  stack_new _ := eq_refl;
  stack_route _ _ _ _ _ := eq_refl;
  stack_layer l t k := assoc_wrap l k t;
  stack_route_layer l t k := assoc_wrap l k t;
  stack_merge t1 t2 k _ := assoc_app k t1 t2
|}.
#[local] Existing Instances api_wire api_jwt api_governor.

Definition server_config : RouterConfig :=
  mkRouterConfig (as_validator api_state) None None None None 0 (Some 5%Z) None [] 5 1024 10 10.

(** An administrator stops a plugin; somebody without a token is turned away. *)
Lemma assembled_router_is_gate_witness :
  exists ls, stack (br_app (create_router_full server_config)) (route_key (PostStop "p"))
    = Some (ls, EpStop) /\ length ls = 3%nat
  /\ decided (run_layers (as_validator api_state) 0 50 (Some "Bearer t") ls None ∅)
     = ({["ops" := tt]}, Ok tt)
  /\ decided (run_layers (as_validator api_state) 0 50 None ls None ∅) = (∅, Err 401%Z).
Proof.
  destruct (assembled_router_is_gate server_config (PostStop "p")) as (ls & Hs & Hg).
  exists ls. split; [exact Hs|]. split; [vm_compute in Hs; by injection Hs as <-|].
  split; [exact (Hg 0%Z 50%Z (Some "Bearer t") ∅)|exact (Hg 0%Z 50%Z None ∅)].
Defined.

Definition served : Serving :=
  mkServing _ (Unspecified4, cf_port boot_config) (bt_tls booted) (boot_quota booted boot_config)
    (create_router_full (sv_config (boot_api booted boot_config 1 2 0))).

Lemma booted_api_guarded_witness :
  exists ls, stack (br_app (sg_built served)) ("/metrics", GET) = Some (ls, EpMetrics)
  /\ run_layers (bt_validator booted) 0 50 None ls None (∅ : gmap string unit) = (∅, Err 401%Z).
Proof.
  destruct (booted_api_guarded same_bytes (fun _ => None) boot_env boot_config boot_tls_os boot_files
    _ booted 1 2 0 (fun _ _ => Ok tt) (fun _ => Ok tt) served boot_result_eq ltac:(reflexivity))
    as (_ & _ & _ & _ & _ & _ & Hg).
  eexists. split; [reflexivity|].
  destruct (Hg ("/metrics", GET) _ EpMetrics ltac:(reflexivity)) as [Hp|Hn].
  - exfalso. set_solver.
  - eapply Hn; [reflexivity|]. intros claims (token & Ht & _). discriminate.
Defined.
