(* ===== verification/Usage.v ===== *)
(** * What a plugin process uses, and the small services around it

    The readings of [/proc] that feed the plugin metrics (src/plugins/metrics.rs),
    the life of a plugin's cgroup scope around a spawn (src/plugins/runner.rs,
    src/plugins/supervisor/spawn.rs), the reloadable log filter
    (src/utils/logging.rs) and the consume quota and certificate of the pairing
    service (src/auth/pairing.rs). *)

From S2P Require Import Prelude Errors Wire Validate Registry Auth Kernel Sandbox Config.
From S2P Require Import Decimal Daemon DaemonProps Cli CliDevice CliProps Boot Api.

(** ** src/plugins/metrics.rs: [proc_resource_usage] *)

(** The readings before they are converted: clock ticks of user and system time,
    ticks per second, kilobytes of resident memory. *)
Record Reading (f64 : Type) := mkReading { rd_ticks : Z; rd_clk_tck : Z; rd_rss_kb : f64 }.
Arguments mkReading {_} _ _ _.
Arguments rd_ticks {_} _.
Arguments rd_clk_tck {_} _.
Arguments rd_rss_kb {_} _.

Definition cpu_ticks (stat : string) : option Z :=
  let fields := split_whitespace stat in
  utime ← (f ← fields !! 13; parse_uint u64_max f);
  stime ← (f ← fields !! 14; parse_uint u64_max f);
  Some (u64_add utime stime).

(** [stat] and [status] are the two files, [parse_f64] is [str::parse::<f64>],
    [clk_tck] what [sysconf] answers. *)
Definition proc_resource_usage {f64} (parse_f64 : string -> option f64)
    (stat status : option string) (clk_tck : option Z) : option (Reading f64) :=
  stat ← stat;
  ticks ← cpu_ticks stat;
  status ← status;
  line ← List.find (starts_with "VmRSS:") (str_lines status);
  kb ← (f ← split_whitespace line !! 1; parse_f64 f);
  Some (mkReading ticks (default 100%Z clk_tck) kb).

(** ** The cgroup scope of a plugin *)

(** The directory with the tasks in it *)
Inductive Scope := NoScope | Tasks (n : nat).

(** [remove_dir]: only an empty scope goes *)
Definition cleanup_pids_cgroup (s : Scope) : Scope :=
  match s with Tasks 0 => NoScope | _ => s end.

(** The tail of the watcher: up to [tries] attempts, 50 ms apart; attempt [k] finds
    [left k] tasks in the scope. Returns the scope and the number of sleeps. *)
Fixpoint release_scope (tries k : nat) (left : nat -> nat) : Scope * nat :=
  match tries with
  | O => (Tasks (left k), O)
  | S tries =>
      match cleanup_pids_cgroup (Tasks (left k)) with
      | NoScope => (NoScope, O)
      | Tasks _ => let '(s, sleeps) := release_scope tries (S k) left in (s, S sleeps)
      end
  end.

(** How the start of a process ends, with the scope it was given: [cmd.spawn()]
    fails, the shim says nothing in time, the shim dies, or the process runs. *)
Inductive SpawnEnd := SpawnFailed | ShimSilent | ShimDead | SpawnRuns.
#[export] Instance spawn_end_eq_dec : EqDecision SpawnEnd.
Proof. solve_decision. Defined.

Definition scope_after_spawn (e : SpawnEnd) (s : Scope) : Scope :=
  match e with
  | SpawnFailed | ShimDead => cleanup_pids_cgroup s
  | ShimSilent | SpawnRuns => s
  end.

(** ** src/utils/logging.rs *)

(** [LOG_FILTER_HANDLE] holds the handle of the first call: its filter, and whether
    its layer became part of the global subscriber. *)
Record LogState := mkLog { lg_handle : option (string * bool); lg_subscriber : bool }.

Definition log_new (subscriber : bool) : LogState := mkLog None subscriber.

(** [rust_log] is the filter [RUST_LOG] names. *)
Definition try_init (rust_log : option string) (level : string) (s : LogState) : LogState * bool :=
  let filter := default (sanitize_log_level level) rust_log in
  let installed := negb (lg_subscriber s) in
  (mkLog (match lg_handle s with Some h => Some h | None => Some (filter, installed) end) true,
   installed).

Definition set_log_level (level : string) (s : LogState) : LogState * bool :=
  match lg_handle s with
  | Some (_, true) => (mkLog (Some (sanitize_log_level level, true)) (lg_subscriber s), true)
  | Some (f, false) => (s, false)
  | None => (s, false)
  end.

(** ** src/auth/pairing.rs *)
Definition CONSUME_PER_SEC : Z := 2.
Definition CONSUME_BURST : Z := 10.

Definition direct_limiter (per_sec burst : Z) : Z * Z := (Z.max per_sec 1, Z.max burst 1).

(** The service's limiter: one bucket for everybody. *)
Record ConsumeLimiter `{RateGovernor} := mkConsume {
  cl_quota : Z * Z;
  cl_bucket : option rate_bucket
}.

Definition pairing_limiter `{RateGovernor} : ConsumeLimiter :=
  mkConsume _ (direct_limiter CONSUME_PER_SEC CONSUME_BURST) None.

Definition with_consume_quota `{RateGovernor} (per_sec burst : Z) (_ : ConsumeLimiter)
    : ConsumeLimiter :=
  mkConsume _ (direct_limiter per_sec burst) None.

Definition allow_consume `{RateGovernor} (now : Z) (l : ConsumeLimiter) : ConsumeLimiter * bool :=
  let '(b, ok) := rate_check (cl_quota l) now (cl_bucket l) in
  (mkConsume _ (cl_quota l) (Some b), ok).

(** [read] is the file at the path: [None] when there is none. *)
Definition cert_pem (tls : bool) (cert_path : option string)
    (read : string -> option (Result string string)) : Result (option string) VynkorError :=
  if negb tls then Ok None
  else match cert_path with
       | None => Ok None
       | Some p =>
           match read p with
           | None => Ok None
           | Some (Ok pem) => Ok (Some pem)
           | Some (Err e) => Err (EIo e)
           end
       end.

(** ** The fields of [/proc/<pid>/stat] *)

(** A line of words, each followed by a blank, the last by a line feed *)
Definition stat_line (words : list string) : string :=
  string_of_bytes (worded (map (fun w => (w, Byte.x20)) (removelast words)
                           ++ match last words with Some w => [(w, Byte.x0a)] | None => [] end)).

Definition is_word (w : string) : Prop := str_all graphic w = true /\ w <> EmptyString.

Lemma word_tokens_words l :
  Forall (fun wb => wb.1 <> EmptyString) l -> string_of_bytes <$> word_tokens l = l.*1.
Proof.
  induction l as [|[w b] l IH] using rev_ind; [done|]. rewrite Forall_app, Forall_singleton. intros [Hl Hw].
  rewrite word_tokens_snoc, !fmap_app, IH by done. simpl. by rewrite string_of_str_bytes.
Qed.

Lemma stat_words words : Forall is_word words -> split_whitespace (stat_line words) = words.
Proof.
  intros Hw. unfold stat_line, split_whitespace. set (l := map _ (removelast words) ++ _).
  assert (l.*1 = words) as Hl.
  { unfold l. rewrite fmap_app. destruct words as [|w words _] using rev_ind; [done|].
    rewrite removelast_last, last_snoc, <- list_fmap_compose. simpl. f_equal. apply list_fmap_id. }
  assert (Forall (fun wb => is_word wb.1 /\ blank wb.2) l) as Hf.
  { rewrite <- Hl in Hw. apply Forall_and. split; [exact (proj1 (Forall_map fst is_word l) Hw)|].
    unfold l. apply Forall_app. split.
    - apply Forall_fmap, Forall_forall. intros w _. by left.
    - destruct (last words); [|constructor]. apply Forall_singleton. by right. }
  assert (forall x, str_bytes (string_of_bytes x) = x) as ->
    by (intros x; apply String.list_byte_of_string_of_list_byte).
  destruct (ws_words (S (length (worded l))) l []) as [fuel Ht]; [|lia|].
  { eapply Forall_impl; [exact Hf|]. by intros wb [[? _] ?]. }
  rewrite app_nil_r in Ht. rewrite Ht. rewrite fmap_app.
  assert (string_of_bytes <$> ws_tokens fuel [] [] = []) as -> by (by destruct fuel).
  rewrite app_nil_r, word_tokens_words; [done|]. eapply Forall_impl; [exact Hf|]. by intros wb [[_ ?] _].
Qed.

(** The kernel's line: the pid, the name in parentheses, then the fields from the
    third on ([utime] and [stime] are the fourteenth and fifteenth). *)
Definition proc_stat (pid : N) (name : list string) (fields : list string) : string :=
  stat_line (fmt_N pid :: name ++ fields).

(** [proc_resource_usage] reads the fourteenth and fifteenth words: the user and
    system time of a process whose name is one word; with a name of two words they
    are the faults of its children and its user time. *)
Lemma cpu_ticks_words words :
  Forall is_word words ->
  cpu_ticks (stat_line words) =
    (utime ← (f ← words !! 13%nat; parse_uint u64_max f);
     stime ← (f ← words !! 14%nat; parse_uint u64_max f);
     Some (u64_add utime stime)).
Proof. intros Hw. unfold cpu_ticks. by rewrite stat_words. Qed.

Lemma fmt_N_word n : is_word (fmt_N n).
Proof.
  split; [|apply fmt_N_nonempty]. eapply str_all_impl; [|apply fmt_N_digits]. intros c Hc.
  unfold is_ascii_digit in Hc. unfold graphic. apply andb_prop in Hc as [H1 H2].
  apply N.leb_le in H1, H2. apply andb_true_intro. split; apply N.leb_le; lia.
Qed.

(** The times of the process itself are read when its name is one word; with a name
    of two words the major faults of its children and its user time are taken for
    them. *)
Theorem cpu_time_read pid name fields cmajflt utime stime :
  Forall is_word (name ++ fields) ->
  fields !! 10%nat = Some (fmt_N cmajflt) -> fields !! 11%nat = Some (fmt_N utime) ->
  fields !! 12%nat = Some (fmt_N stime) ->
  (Z.of_N cmajflt <= u64_max)%Z -> (Z.of_N utime <= u64_max)%Z -> (Z.of_N stime <= u64_max)%Z ->
  (length name = 1%nat ->
     cpu_ticks (proc_stat pid name fields) = Some (u64_add (Z.of_N utime) (Z.of_N stime)))
  /\ (length name = 2%nat ->
     cpu_ticks (proc_stat pid name fields) = Some (u64_add (Z.of_N cmajflt) (Z.of_N utime))).
Proof.
  intros Hw Hc Hu Hs Bc Bu Bs. unfold proc_stat.
  rewrite cpu_ticks_words by (constructor; [apply fmt_N_word|done]). split; intros Hn.
  - destruct name as [|a [|]]; try done. simpl. rewrite Hu, Hs. simpl. by rewrite !parse_uint_fmt.
  - destruct name as [|a [|b [|]]]; try done. simpl. rewrite Hc, Hu. simpl. by rewrite !parse_uint_fmt.
Qed.

(** ** Scopes *)

Lemma release_scope_spec tries k left :
  let '(s, sleeps) := release_scope tries k left in
  (sleeps <= tries)%nat
  /\ (s = NoScope <-> exists i, (i < tries)%nat /\ left (k + i)%nat = 0%nat)
  /\ (s = NoScope -> left (k + sleeps)%nat = 0%nat)
  /\ (s <> NoScope -> sleeps = tries).
Proof.
  revert k. induction tries as [|tries IH]; intros k; simpl.
  - split_and!; [lia| |done|done]. split; [done|intros (i & ? & _); lia].
  - destruct (left k) as [|n] eqn:Hk; simpl.
    + split_and!; [lia| |by rewrite Nat.add_0_r|done]. split; [|done]. intros _.
      exists 0%nat. rewrite Nat.add_0_r. split; [lia|done].
    + specialize (IH (S k)). destruct (release_scope tries (S k) left) as [s m].
      destruct IH as (H1 & H2 & H3 & H4). split_and!.
      * lia.
      * rewrite H2. split.
        -- intros (i & Hi & Hl). exists (S i). split; [lia|]. by replace (k + S i)%nat with (S k + i)%nat by lia.
        -- intros ([|i] & Hi & Hl); [rewrite Nat.add_0_r in Hl; congruence|].
           exists i. split; [lia|]. by replace (S k + i)%nat with (k + S i)%nat by lia.
      * intros Hs. replace (k + S m)%nat with (S k + m)%nat by lia. auto.
      * intros Hs. by rewrite H4.
Qed.

(** A plugin's scope does not outlive its process by more than the attempts: the
    watcher makes at most ten, 50 ms apart, so that the exit is reported in any
    case; the scope is gone when they end exactly if one of them found it without
    tasks; and a start that fails removes it, except when the shim said nothing in
    time. *)
Theorem scope_released left :
  let '(s, sleeps) := release_scope 10 0 left in
  (sleeps <= 10)%nat
  /\ (s = NoScope <-> exists i, (i < 10)%nat /\ left i = 0%nat)
  /\ (s = NoScope -> left sleeps = 0%nat)
  /\ forall e, e <> SpawnRuns ->
       scope_after_spawn e (Tasks 0) = if decide (e = ShimSilent) then Tasks 0 else NoScope.
Proof.
  pose proof (release_scope_spec 10 0 left) as H. destruct (release_scope 10 0 left) as [s k].
  destruct H as (H1 & H2 & H3 & _). split_and!; [done|done|done|by intros []].
Qed.

(** ** The log filter *)

(** [set_log_level] takes effect exactly when the first [try_init] installed its
    subscriber: whatever calls follow, the handle stays the one of the first. *)
Inductive LogOp := LInit (rust_log : option string) (level : string) | LSet (level : string).

Definition log_op (s : LogState) (op : LogOp) : LogState :=
  match op with LInit r l => (try_init r l s).1 | LSet l => (set_log_level l s).1 end.

Lemma log_filter_reloads r level present ops level' :
  let s := foldl log_op (try_init r level (log_new present)).1 ops in
  (set_log_level level' s).2 = negb present
  /\ (present = false ->
      exists f, lg_handle (set_log_level level' s).1 = Some (f, true) /\ f = sanitize_log_level level').
Proof.
  cbv zeta. set (s0 := (try_init r level (log_new present)).1).
  assert (exists f, lg_handle s0 = Some (f, negb present)) as H0 by (by eexists).
  clearbody s0. revert s0 H0. induction ops as [|op ops IH]; intros s [f Hf].
  - unfold set_log_level. simpl. rewrite Hf. destruct present; simpl; [done|]. split; [done|]. eauto.
  - simpl. apply IH. destruct op; simpl; [rewrite Hf; eauto|].
    unfold set_log_level. rewrite Hf. destruct present; simpl; [rewrite Hf|]; eauto.
Qed.
